(** * DiscreteEventSimulation: the emergency-department simulation and its optimiser

    A shallow embedding of
      - src/discrete_event_simulation/hospital_process.py   (HospitalProcess)
      - src/discrete_event_simulation/simpy_simulation.py   (SimpySimulation)
      - src/discrete_event_simulation/linear_optimisation_problem.py
    together with the part of the SimPy kernel these classes drive: the event
    queue ordered by (time, priority, event id), [Resource] with its users and
    its put queue, [Timeout], [Process], and the [any_of] / [all_of]
    conditions; and with what pulp does to the names, the expressions and
    the constraints the optimiser hands it.  pulp's solver is a parameter:
    the status it returns and the values it leaves in the variables.

    Conventions.
      - Virtual time is a Python float in the source; here it is an integer
        number of ticks ([Z]) with exact arithmetic, so what is proved of
        sums and differences of times is proved without rounding.
      - The two pseudo-random generators ([random] and [numpy.random]) are an
        oracle [rng]: the n-th draw of each is a function of n (and of the
        bounds, for [uniform]).
      - Every generator of the source is cut at its [yield]s: one definition
        per segment, named after the generator.  The event a segment waits
        for is a constructor of [event]; dispatching that event runs the
        callbacks SimPy has registered on it, that is, the next segment.
      - A Python exception is [Raise].  An exception that escapes a
        generator ends the run with that exception at once; SimPy lets it
        surface when the failed Process event is dispatched, later at the
        same virtual time.
      - The print calls are left out: they write no state. *)

From Stdlib Require Import ZArith QArith Lia Sorted Ascii.
From stdpp Require Import gmap strings list fin_maps pretty.

Open Scope Z_scope.

(** ** Python values and exceptions *)

Inductive exn : Type :=
  | KeyError (key : string)
  | ValueError (msg : string)
  | TypeError (msg : string)
  | IndexError (msg : string)
  | PulpError (msg : string)
  | RuntimeError (msg : string).

Inductive result (A : Type) : Type :=
  | Ok (a : A)
  | Raise (e : exn).
Arguments Ok {A} a.
Arguments Raise {A} e.

#[global] Instance result_ret : MRet result := @Ok.
#[global] Instance result_bind : MBind result :=
  fun A B f m => match m with Ok a => f a | Raise e => Raise e end.

(** A Python float as the simulation uses it: a finite number of ticks, or
    [float('inf')]. *)
Inductive pyfloat : Type :=
  | PyNum (x : Z)
  | PyInf.

Definition is_inf (v : pyfloat) : bool :=
  match v with PyInf => true | PyNum _ => false end.

Definition time := Z.

(** ** The random sources *)

Record rng : Type := {
  lognormvariate : nat -> Z;      (* random.lognormvariate(log 12.73, log 6.16), n-th call *)
  uniform : nat -> Z -> Z -> Z    (* np.random.uniform(low, high), n-th call *)
}.

(** ** SimPy: the event queue

    Environment keeps a heap of (time, priority, eid, event); [step] pops the
    least entry, sets the clock to its time and runs the callbacks of its
    event.  Initialize events and the [until] event are URGENT, all others
    NORMAL; eid counts the calls of [schedule]. *)

Inductive priority : Type := URGENT | NORMAL.

Definition prio_num (p : priority) : Z :=
  match p with URGENT => 0 | NORMAL => 1 end.

(** The events of a run.  [r] is a request, [h] a HospitalProcess, [p] a
    patient; the comment gives the callbacks SimPy runs when the event is
    dispatched. *)
Inductive event : Type :=
  | StopEvent                          (* run(until): StopSimulation.callback *)
  | InitArrivals                       (* Initialize of patient_arrivals *)
  | ArrivalTimeout                     (* env.timeout(arrival_time): resumes patient_arrivals *)
  | InitPatient (p : nat)              (* Initialize of patient_process *)
  | InitStage (h : nat)                (* Initialize of HospitalProcess.run *)
  | InitMonitor (r : nat)              (* Initialize of request_resource_and_monitor_time *)
  | RequestEv (r : nat)                (* resource.request(): _trigger_get, any_of._check *)
  | RaceTimeout (r : nat)              (* env.timeout(10000): any_of._check *)
  | AnyOf (r : nat)                    (* request | timeout: _build_value, resumes the monitor *)
  | MonitorDone (r : nat)              (* the monitor's Process event: all_of._check *)
  | AllOf (h : nat)                    (* env.all_of(...): resumes run *)
  | ServiceTimeout (h : nat)           (* env.timeout(service_time): resumes run *)
  | ReleaseEv (res : string) (r : nat) (* resource.release(request): _trigger_put *)
  | StageDone (h : nat)                (* run's Process event: resumes patient_process *)
  | PatientDone (p : nat).             (* patient_process' Process event: no callback *)

#[global] Instance event_eq_dec : EqDecision event.
Proof. solve_decision. Defined.

Record qitem : Type := QItem {
  q_time : time;
  q_prio : priority;
  q_eid : nat;
  q_event : event
}.

(** heapq order on (time, priority, eid). *)
Definition qle (a b : qitem) : bool :=
  if q_time a <? q_time b then true
  else if q_time b <? q_time a then false
  else if prio_num (q_prio a) <? prio_num (q_prio b) then true
  else if prio_num (q_prio b) <? prio_num (q_prio a) then false
  else (q_eid a <=? q_eid b)%nat.

(** heappop: the least item and the others. *)
Fixpoint pop_min (q : list qitem) : option (qitem * list qitem) :=
  match q with
  | [] => None
  | x :: q' =>
      match pop_min q' with
      | None => Some (x, [])
      | Some (m, rest) => if qle x m then Some (x, q') else Some (m, x :: rest)
      end
  end.

Record Environment : Type := Env {
  now : time;
  queue : list qitem;
  eid : nat
}.

(** Environment.schedule *)
Definition env_schedule (ev : event) (prio : priority) (delay : Z)
    (e : Environment) : Environment :=
  Env (now e) (QItem (now e + delay) prio (eid e) ev :: queue e) (S (eid e)).

(** ** SimPy: Resource *)

(** simpy.Resource, the resource pool of the run.  [users] and [put_queue]
    hold requests; Resource.count, the number of held units, is the length
    of [users].  The get queue is not kept: a Release is served by [_do_get]
    as soon as it is made, so that queue is empty whenever it is looked at. *)
Record Resource : Type := MkResource {
  capacity : Z;
  users : list nat;
  put_queue : list nat
}.

(** list.remove(x), the ValueError swallowed *)
Fixpoint list_remove (x : nat) (l : list nat) : list nat :=
  match l with
  | [] => []
  | y :: l' => if decide (x = y) then l' else y :: list_remove x l'
  end.

(** ** The objects of a run *)

(** One entry of process_list: [name, [resources], [min, max]]. *)
Record process : Type := MkProcess {
  p_name : string;
  p_resources : list string;
  p_time_range : Z * Z
}.

(** One resource request of a stage, with the monitor process that races it
    against the timeout: the Request event ([granted], [req_processed]), the
    monitor's local [start_time], the Timeout ([timeout_processed]) and the
    [any_of] condition ([cond_triggered]).  [enqueue_time] and [outcome] are
    bookkeeping: when the request was made, and when the monitor resumed and
    what it then stored in resource_wait_times. *)
Record Race : Type := MkRace {
  res_name : string;
  owner : nat;
  enqueue_time : time;
  granted : option time;
  req_processed : bool;
  start_time : option time;
  timeout_processed : bool;
  cond_triggered : bool;
  outcome : option (time * pyfloat)
}.

(** A HospitalProcess object and the state of its run() generator. *)
Record HospitalProcess : Type := MkHospitalProcess {
  task_name : string;
  resource_names : list string;
  time_min : Z;
  time_max : Z;
  resource_wait_times : gmap string pyfloat;
  service_time : option Z;
  request_store : list nat;
  all_of_count : nat;
  hp_patient : nat
}.

(** A row of patient_log_data, under the columns of data_collation. *)
Record log_row : Type := MkRow {
  row_patient_id : string;
  row_arrival_time : Z;
  row_total_time : Z
}.

(** The attributes of a SimpySimulation that __init__ sets. *)
Record SimpySimulation : Type := MkSim {
  resource_dict : gmap string Z;
  warmup_period : Z;
  process_list : list process;
  log_process_list : list string;
  patient_log_data : list log_row;
  resource_busy_time : gmap string Z;
  simulation_time : Z
}.

Inductive status : Type := Running | Finished.

(** The whole state of a run: the simulation object, its environment, the
    shared resource dictionary, and the live generators. *)
Record world : Type := World {
  sim : SimpySimulation;
  env : Environment;
  resources : gmap string Resource;
  patients : list (string * list process);  (* patient_process: id, stages still to run *)
  stages : list HospitalProcess;
  races : list Race;
  patient_id : nat;                         (* local of patient_arrivals *)
  random_calls : nat;
  np_calls : nat;
  run_status : status;
  trace : list qitem                        (* dispatched events, latest first *)
}.

Definition set_env (f : Environment -> Environment) (w : world) : world :=
  World (sim w) (f (env w)) (resources w) (patients w) (stages w) (races w)
        (patient_id w) (random_calls w) (np_calls w) (run_status w) (trace w).
Definition set_resources (f : gmap string Resource -> gmap string Resource) (w : world) : world :=
  World (sim w) (env w) (f (resources w)) (patients w) (stages w) (races w)
        (patient_id w) (random_calls w) (np_calls w) (run_status w) (trace w).
Definition set_patients (f : list (string * list process) -> list (string * list process))
    (w : world) : world :=
  World (sim w) (env w) (resources w) (f (patients w)) (stages w) (races w)
        (patient_id w) (random_calls w) (np_calls w) (run_status w) (trace w).
Definition set_stages (f : list HospitalProcess -> list HospitalProcess) (w : world) : world :=
  World (sim w) (env w) (resources w) (patients w) (f (stages w)) (races w)
        (patient_id w) (random_calls w) (np_calls w) (run_status w) (trace w).
Definition set_races (f : list Race -> list Race) (w : world) : world :=
  World (sim w) (env w) (resources w) (patients w) (stages w) (f (races w))
        (patient_id w) (random_calls w) (np_calls w) (run_status w) (trace w).
Definition set_patient_id (n : nat) (w : world) : world :=
  World (sim w) (env w) (resources w) (patients w) (stages w) (races w)
        n (random_calls w) (np_calls w) (run_status w) (trace w).
Definition set_random_calls (n : nat) (w : world) : world :=
  World (sim w) (env w) (resources w) (patients w) (stages w) (races w)
        (patient_id w) n (np_calls w) (run_status w) (trace w).
Definition set_np_calls (n : nat) (w : world) : world :=
  World (sim w) (env w) (resources w) (patients w) (stages w) (races w)
        (patient_id w) (random_calls w) n (run_status w) (trace w).
Definition set_status (st : status) (w : world) : world :=
  World (sim w) (env w) (resources w) (patients w) (stages w) (races w)
        (patient_id w) (random_calls w) (np_calls w) st (trace w).
Definition set_trace (f : list qitem -> list qitem) (w : world) : world :=
  World (sim w) (env w) (resources w) (patients w) (stages w) (races w)
        (patient_id w) (random_calls w) (np_calls w) (run_status w) (f (trace w)).

Definition schedule (ev : event) (prio : priority) (delay : Z) (w : world) : world :=
  set_env (env_schedule ev prio delay) w.

(** simpy.Timeout(env, delay) *)
Definition env_timeout (ev : event) (delay : Z) (w : world) : result world :=
  if delay <? 0 then Raise (ValueError "Negative delay")
  else Ok (schedule ev NORMAL delay w).

Definition set_race (r : nat) (f : Race -> Race) (w : world) : world :=
  set_races (fun rs => match rs !! r with
                       | Some x => <[r := f x]> rs
                       | None => rs
                       end) w.

Definition set_stage (h : nat) (f : HospitalProcess -> HospitalProcess) (w : world) : world :=
  set_stages (fun hs => match hs !! h with
                        | Some x => <[h := f x]> hs
                        | None => hs
                        end) w.

Definition new_race (res : string) (h : nat) (t : time) : Race :=
  MkRace res h t None false None false false None.

(** Event.succeed() on the request: it is triggered, at time [t]. *)
Definition race_succeed (t : time) (x : Race) : Race :=
  MkRace (res_name x) (owner x) (enqueue_time x) (Some t) (req_processed x)
         (start_time x) (timeout_processed x) (cond_triggered x) (outcome x).
Definition race_req_processed (x : Race) : Race :=
  MkRace (res_name x) (owner x) (enqueue_time x) (granted x) true
         (start_time x) (timeout_processed x) (cond_triggered x) (outcome x).
Definition race_start (t : time) (x : Race) : Race :=
  MkRace (res_name x) (owner x) (enqueue_time x) (granted x) (req_processed x)
         (Some t) (timeout_processed x) (cond_triggered x) (outcome x).
Definition race_timeout_processed (x : Race) : Race :=
  MkRace (res_name x) (owner x) (enqueue_time x) (granted x) (req_processed x)
         (start_time x) true (cond_triggered x) (outcome x).
Definition race_cond_triggered (x : Race) : Race :=
  MkRace (res_name x) (owner x) (enqueue_time x) (granted x) (req_processed x)
         (start_time x) (timeout_processed x) true (outcome x).
Definition race_outcome (t : time) (v : pyfloat) (x : Race) : Race :=
  MkRace (res_name x) (owner x) (enqueue_time x) (granted x) (req_processed x)
         (start_time x) (timeout_processed x) (cond_triggered x) (Some (t, v)).

Definition hp_clear_waits (x : HospitalProcess) : HospitalProcess :=
  MkHospitalProcess (task_name x) (resource_names x) (time_min x) (time_max x)
    ∅ (service_time x) (request_store x) (all_of_count x) (hp_patient x).
Definition hp_set_wait (res : string) (v : pyfloat) (x : HospitalProcess) : HospitalProcess :=
  MkHospitalProcess (task_name x) (resource_names x) (time_min x) (time_max x)
    (<[res := v]> (resource_wait_times x)) (service_time x) (request_store x)
    (all_of_count x) (hp_patient x).
Definition hp_set_service_time (t : Z) (x : HospitalProcess) : HospitalProcess :=
  MkHospitalProcess (task_name x) (resource_names x) (time_min x) (time_max x)
    (resource_wait_times x) (Some t) (request_store x) (all_of_count x) (hp_patient x).
Definition hp_set_request_store (l : list nat) (x : HospitalProcess) : HospitalProcess :=
  MkHospitalProcess (task_name x) (resource_names x) (time_min x) (time_max x)
    (resource_wait_times x) (service_time x) l (all_of_count x) (hp_patient x).
Definition hp_count (x : HospitalProcess) : HospitalProcess :=
  MkHospitalProcess (task_name x) (resource_names x) (time_min x) (time_max x)
    (resource_wait_times x) (service_time x) (request_store x) (S (all_of_count x))
    (hp_patient x).

(** BaseResource._trigger_put with Resource._do_put.  _do_put returns None,
    so the loop over the put queue stops after its first request: the head is
    granted when a slot is free, and nothing else is looked at. *)
Definition _trigger_put (res : string) (w : world) : world :=
  match resources w !! res with
  | None => w
  | Some p =>
      match put_queue p with
      | [] => w
      | r :: rest =>
          if Z.of_nat (length (users p)) <? capacity p then
            schedule (RequestEv r) NORMAL 0
              (set_race r (race_succeed (now (env w)))
                 (set_resources
                    <[res := MkResource (capacity p) (users p ++ [r]) rest]> w))
          else w
      end
  end.

(** shared_resources[res].request(), issued by HospitalProcess [h]: the new
    request joins the put queue, then _trigger_put runs. *)
Definition request (res : string) (h : nat) (w : world) : result (nat * world) :=
  match resources w !! res with
  | None => Raise (KeyError res)
  | Some p =>
      let r := length (races w) in
      let w1 := set_races (fun rs => rs ++ [new_race res h (now (env w))]) w in
      let w2 := set_resources
                  <[res := MkResource (capacity p) (users p) (put_queue p ++ [r])]> w1 in
      Ok (r, _trigger_put res w2)
  end.

(** shared_resources[res].release(request): Resource._do_get removes the
    request from the users when it is there, and the Release succeeds. *)
Definition release (res : string) (r : nat) (w : world) : result world :=
  match resources w !! res with
  | None => Raise (KeyError res)
  | Some p =>
      Ok (schedule (ReleaseEv res r) NORMAL 0
            (set_resources
               <[res := MkResource (capacity p) (list_remove r (users p)) (put_queue p)]> w))
  end.

(** Condition._check of [request_process | env.timeout(10000)]: the first
    check triggers the condition. *)
Definition any_of_check (r : nat) (w : world) : world :=
  match races w !! r with
  | None => w
  | Some x =>
      if cond_triggered x then w
      else schedule (AnyOf r) NORMAL 0 (set_race r race_cond_triggered w)
  end.

(** *** HospitalProcess.request_resource_and_monitor_time *)

(** Up to the yield: start_time, the timeout, the condition. *)
Definition request_resource_and_monitor_time_start (r : nat) (w : world) : result world :=
  match races w !! r with
  | None => Raise (RuntimeError "no such request")
  | Some x =>
      let w1 := set_race r (race_start (now (env w))) w in
      w2 ← env_timeout (RaceTimeout r) 10000 w1;
      Ok (if req_processed x then any_of_check r w2 else w2)
  end.

(** After the yield: [request_process in result] holds when the request event
    has been processed by the time the condition is. *)
Definition request_resource_and_monitor_time_resume (r : nat) (w : world) : result world :=
  match races w !! r with
  | None => Raise (RuntimeError "no such request")
  | Some x =>
      match start_time x with
      | None => Raise (RuntimeError "monitor not started")
      | Some st =>
          let v := if req_processed x then PyNum (now (env w) - st) else PyInf in
          Ok (schedule (MonitorDone r) NORMAL 0
                (set_race r (race_outcome (now (env w)) v)
                   (set_stage (owner x) (hp_set_wait (res_name x) v) w)))
      end
  end.

(** The Request event is dispatched. *)
Definition on_request (r : nat) (w : world) : result world :=
  match races w !! r with
  | None => Raise (RuntimeError "no such request")
  | Some x =>
      let w1 := set_race r race_req_processed w in
      Ok (match start_time x with
          | Some _ => any_of_check r w1
          | None => w1
          end)
  end.

(** The monitor's timeout is dispatched. *)
Definition on_race_timeout (r : nat) (w : world) : result world :=
  Ok (any_of_check r (set_race r race_timeout_processed w)).

(** The monitor's Process event is dispatched: all_of._check. *)
Definition on_monitor_done (r : nat) (w : world) : result world :=
  match races w !! r with
  | None => Raise (RuntimeError "no such request")
  | Some x =>
      match stages w !! owner x with
      | None => Raise (RuntimeError "no such stage")
      | Some hp =>
          let w1 := set_stage (owner x) hp_count w in
          Ok (if decide (S (all_of_count hp) = length (request_store hp))
              then schedule (AllOf (owner x)) NORMAL 0 w1
              else w1)
      end
  end.

(** *** HospitalProcess.run *)

(** request_store = [self.shared_resources[res].request() for res in ...] *)
Fixpoint make_requests (names : list string) (h : nat) (w : world)
    : result (list nat * world) :=
  match names with
  | [] => Ok ([], w)
  | res :: names' =>
      '(r, w1) ← request res h w;
      '(rs, w2) ← make_requests names' h w1;
      Ok (r :: rs, w2)
  end.

(** parallel_requests = [self.env.process(...) for res, req in zip(...)] *)
Definition spawn_monitors (store : list nat) (w : world) : world :=
  foldl (fun w r => schedule (InitMonitor r) URGENT 0 w) w store.

(** Up to [yield self.env.all_of(parallel_requests)]; an all_of over no event
    succeeds at once. *)
Definition run_start (h : nat) (w : world) : result world :=
  match stages w !! h with
  | None => Raise (RuntimeError "no such stage")
  | Some hp =>
      let w0 := set_stage h hp_clear_waits w in
      '(store, w1) ← make_requests (resource_names hp) h w0;
      let w2 := set_stage h (hp_set_request_store store) w1 in
      let w3 := spawn_monitors store w2 in
      Ok (match store with
          | [] => schedule (AllOf h) NORMAL 0 w3
          | _ => w3
          end)
  end.

(** From the join to [yield self.env.timeout(self.service_time)].  The
    draw is assigned to self.service_time before the timeout is made; when
    the draw is negative the timeout raises ValueError, and by the
    convention on exceptions the run ends there, without the states in which
    the source still holds the negative service_time. *)
Definition run_service (g : rng) (h : nat) (w : world) : result world :=
  match stages w !! h with
  | None => Raise (RuntimeError "no such stage")
  | Some hp =>
      let t := uniform g (np_calls w) (time_min hp) (time_max hp) in
      let w1 := set_np_calls (S (np_calls w)) w in
      let w2 := set_stage h (hp_set_service_time t) w1 in
      env_timeout (ServiceTimeout h) t w2
  end.

(** for res, request in zip(...): self.shared_resources[res].release(request) *)
Fixpoint release_all (l : list (string * nat)) (w : world) : result world :=
  match l with
  | [] => Ok w
  | (res, r) :: l' => w1 ← release res r w; release_all l' w1
  end.

(** After the service timeout: the releases, and the generator ends. *)
Definition run_release (h : nat) (w : world) : result world :=
  match stages w !! h with
  | None => Raise (RuntimeError "no such stage")
  | Some hp =>
      w1 ← release_all (zip (resource_names hp) (request_store hp)) w;
      Ok (schedule (StageDone h) NORMAL 0 w1)
  end.

(** *** SimpySimulation.patient_process *)

(** One turn of [for process in self.process_list]: the next HospitalProcess
    is built and its run() started, or the generator ends. *)
Definition patient_process (p : nat) (w : world) : result world :=
  match patients w !! p with
  | None => Raise (RuntimeError "no such patient")
  | Some (pid, []) => Ok (schedule (PatientDone p) NORMAL 0 w)
  | Some (pid, pr :: rest) =>
      let h := length (stages w) in
      let hp := MkHospitalProcess
                  ("Patient " +:+ pid +:+ " - " +:+ p_name pr)
                  (p_resources pr) (fst (p_time_range pr)) (snd (p_time_range pr))
                  ∅ None [] 0 p in
      Ok (schedule (InitStage h) URGENT 0
            (set_stages (fun hs => hs ++ [hp])
               (set_patients <[p := (pid, rest)]> w)))
  end.

(** *** SimpySimulation.patient_arrivals *)

(** arrival_time = random.lognormvariate(...); yield env.timeout(arrival_time) *)
Definition patient_arrivals_wait (g : rng) (w : world) : result world :=
  let arrival_time := lognormvariate g (random_calls w) in
  env_timeout ArrivalTimeout arrival_time (set_random_calls (S (random_calls w)) w).

(** patient_id = 0, then the loop *)
Definition patient_arrivals_start (g : rng) (w : world) : result world :=
  patient_arrivals_wait g (set_patient_id 0 w).

(** env.process(self.patient_process(...)); patient_id += 1; and the loop again *)
Definition patient_arrivals_resume (g : rng) (w : world) : result world :=
  let p := length (patients w) in
  let pid := "Patient " +:+ pretty (patient_id w) in
  let w1 := set_patients (fun ps => ps ++ [(pid, process_list (sim w))]) w in
  let w2 := schedule (InitPatient p) URGENT 0 w1 in
  patient_arrivals_wait g (set_patient_id (S (patient_id w)) w2).

(** ** Environment.step and Environment.run *)

Definition dispatch (g : rng) (ev : event) (w : world) : result world :=
  match ev with
  | StopEvent => Ok (set_status Finished w)
  | InitArrivals => patient_arrivals_start g w
  | ArrivalTimeout => patient_arrivals_resume g w
  | InitPatient p => patient_process p w
  | InitStage h => run_start h w
  | InitMonitor r => request_resource_and_monitor_time_start r w
  | RequestEv r => on_request r w
  | RaceTimeout r => on_race_timeout r w
  | AnyOf r => request_resource_and_monitor_time_resume r w
  | MonitorDone r => on_monitor_done r w
  | AllOf h => run_service g h w
  | ServiceTimeout h => run_release h w
  | ReleaseEv res r => Ok (_trigger_put res w)
  | StageDone h =>
      match stages w !! h with
      | None => Raise (RuntimeError "no such stage")
      | Some hp => patient_process (hp_patient hp) w
      end
  | PatientDone p => Ok w
  end.

(** Environment.step: pop the next event, advance the clock, run its callbacks. *)
Definition step (g : rng) (w : world) : result world :=
  match pop_min (queue (env w)) with
  | None => Raise (RuntimeError "EmptySchedule")
  | Some (it, rest) =>
      dispatch g (q_event it)
        (set_trace (cons it) (set_env (fun e => Env (q_time it) rest (eid e)) w))
  end.

(** The loop of Environment.run, for at most [fuel] events. *)
Fixpoint run (g : rng) (fuel : nat) (w : world) : result world :=
  match fuel with
  | O => Ok w
  | S n =>
      match run_status w with
      | Finished => Ok w
      | Running => w1 ← step g w; run g n w1
      end
  end.

(** ** SimpySimulation *)

Definition SimpySimulation_init (resource_dict : gmap string Z)
    (process_list : list process) (log_process_list : list string)
    (warmup_period until : Z) : result SimpySimulation :=
  Ok (MkSim resource_dict warmup_period process_list log_process_list
            [] ((fun _ => 0) <$> resource_dict) until).

Definition default_warmup_period : Z := 160 * 24 * 60.
Definition default_until : Z := 360 * 24 * 60.

(** {res: simpy.Resource(env, capacity=resource_dict[res]) for res in resource_dict};
    Resource.__init__ raises ValueError unless capacity > 0. *)
Definition setup_resource_environment (rd : gmap string Z)
    : result (gmap string Resource) :=
  if decide (map_Forall (fun _ c => 0 < c) rd)
  then Ok ((fun c => MkResource c [] []) <$> rd)
  else Raise (ValueError "capacity must be > 0").

(** SimpySimulation.begin up to the loop of env.run: the environment, the
    resources, the arrivals process, and the [until] event. *)
Definition begin_setup (self : SimpySimulation) : result world :=
  res ← setup_resource_environment (resource_dict self);
  let w0 := World self (Env 0 [] 0) res [] [] [] 0 0 0 Running [] in
  let w1 := schedule InitArrivals URGENT 0 w0 in
  if simulation_time self <=? 0
  then Raise (ValueError "until must be > the current simulation time")
  else Ok (schedule StopEvent URGENT (simulation_time self) w1).

Definition begin (g : rng) (fuel : nat) (self : SimpySimulation) : result world :=
  w ← begin_setup self; run g fuel w.

(** data_collation: the rows under the three column names. *)
Definition data_collation (self : SimpySimulation) : list string * list log_row :=
  (["patient_id"; "arrival_time"; "Total Time in ED"], patient_log_data self).

(** ** LinearOptimisationProblem *)

Module LinearOptimisationProblem.

(** pulp.LpElement.illegal_chars, the characters of "-+[] ->/" *)
Definition illegal_char (a : Ascii.ascii) : bool :=
  match a with
  | "-" | "+" | "[" | "]" | " " | ">" | "/" => true
  | _ => false
  end%char.

(** str(name).translate(trans): every illegal character becomes "_" *)
Fixpoint translate (name : string) : string :=
  match name with
  | EmptyString => EmptyString
  | String a name' => String (if illegal_char a then "_"%char else a) (translate name')
  end.

(** LpElement.setName: an empty name is stored as None. *)
Definition set_name (name : string) : option string :=
  match name with
  | EmptyString => None
  | _ => Some (translate name)
  end.

(** pulp.LpVariable(key, lowBound, upBound, cat='Integer'); the name pulp
    keeps is the key with its illegal characters replaced. *)
Record LpVariable : Type := MkLpVariable {
  lp_name : option string;
  lowBound : Z;
  upBound : Z
}.

(** The object; [objective] and [constraints] are what the pulp.LpProblem
    holds: the objective with its constant and its terms, and the
    constraints sum(terms) <= bound under their names, in the order they
    were added.  [optimal_resources] is unset until solve() has run.  The
    dictionaries whose order enumerate() follows are association lists. *)
Record t : Type := Mk {
  resource_dict : list (string * Z);
  resource_keys : list string;
  intercept : Q;
  coefficients : gmap string Q;
  cost_dict : gmap string Z;
  max_cost : Z;
  resource_variables : list (string * LpVariable);
  objective : option (Q * list (Q * string));
  constraints : list (string * (list (Z * string) * Z));
  optimal_resources : option (list (string * Z))
}.

(** What pulp's solver leaves behind: the status code that problem.solve()
    returns, and the varValue of each variable (absent: None). *)
Record solver_result : Type := MkSolved {
  lp_status : Z;
  var_values : gmap string Q
}.

Definition LpStatusOptimal : Z := 1.

(** {key: LpVariable(key, lower_bounds[i], upper_bounds[i]) for i, key in enumerate(keys)} *)
Fixpoint make_variables (keys : list string) (i : nat) (lower upper : list Z)
    : result (list (string * LpVariable)) :=
  match keys with
  | [] => Ok []
  | key :: keys' =>
      match lower !! i, upper !! i with
      | Some lb, Some ub =>
          vs ← make_variables keys' (S i) lower upper;
          Ok ((key, MkLpVariable (set_name key) lb ub) :: vs)
      | _, _ => Raise (IndexError "list index out of range")
      end
  end.

Definition init (resource_dict : list (string * Z)) (intercept : Q)
    (coefficients : gmap string Q) (lower_bounds upper_bounds : list Z)
    (cost_dict : gmap string Z) (max_cost : Z) : result t :=
  let keys := fst <$> resource_dict in
  vs ← make_variables keys 0 lower_bounds upper_bounds;
  Ok (Mk resource_dict keys intercept coefficients cost_dict max_cost vs None [] None).

Definition default_max_cost : Z := 11000.

(** sum(d[key] * variable[key] for key in keys): the terms of the sum, in
    the order of the keys.  number * variable is an expression with that
    one term, and with no term when the number is 0
    (LpAffineExpression.__mul__). *)
Fixpoint linear_terms {A : Type} (is_zero : A -> bool) (d : gmap string A)
    (keys : list string) : result (list (A * string)) :=
  match keys with
  | [] => Ok []
  | key :: keys' =>
      match d !! key with
      | None => Raise (KeyError key)
      | Some c =>
          ts ← linear_terms is_zero d keys';
          Ok (if is_zero c then ts else (c, key) :: ts)
      end
  end.

Definition budget_name : string := "Budget_Constraint".

(** self.problem += (sum(...) <= self.max_cost, "Budget_Constraint").  Over
    no key the sum is the int 0 and the comparison a bool: LpProblem.__iadd__
    returns at once for True and raises TypeError for False.  Otherwise the
    comparison is an LpConstraint, and addConstraint raises PulpError when
    the problem has a constraint of that name already. *)
Definition add_budget (keys : list string) (budget : list (Z * string)) (max_cost : Z)
    (constraints : list (string * (list (Z * string) * Z)))
    : result (list (string * (list (Z * string) * Z))) :=
  match keys with
  | [] =>
      if 0 <=? max_cost then Ok constraints
      else Raise (TypeError "A False object cannot be passed as a constraint")
  | _ =>
      if decide (budget_name ∈ (fst <$> constraints))
      then Raise (PulpError ("overlapping constraint names: " +:+ budget_name))
      else Ok (constraints ++ [(budget_name, (budget, max_cost))])
  end.

(** The objective is set first (a second call overwrites it), then the
    budget constraint is added. *)
Definition initialise_problem (self : t) : result t :=
  obj ← linear_terms (fun c => Qeq_bool c 0) (coefficients self) (resource_keys self);
  budget ← linear_terms (fun c => c =? 0) (cost_dict self) (resource_keys self);
  cs ← add_budget (resource_keys self) budget (max_cost self) (constraints self);
  Ok (Mk (resource_dict self) (resource_keys self) (intercept self)
         (coefficients self) (cost_dict self) (max_cost self)
         (resource_variables self) (Some (intercept self, obj)) cs
         (optimal_resources self)).

(** int(x) on a float: truncation towards zero *)
Definition py_int (q : Q) : Z := Z.quot (Qnum q) (Zpos (Qden q)).

(** {key: int(pulp.value(self.resource_variables[key])) for key in keys};
    int(None) is a TypeError. *)
Fixpoint read_values (keys : list string) (vals : gmap string Q)
    : result (list (string * Z)) :=
  match keys with
  | [] => Ok []
  | key :: keys' =>
      match vals !! key with
      | None =>
          Raise (TypeError
                   "int() argument must be a string, a bytes-like object or a real number, not 'NoneType'")
      | Some q => rest ← read_values keys' vals; Ok ((key, py_int q) :: rest)
      end
  end.

(** solve(): the value of self.problem.solve(), the status, is dropped. *)
Definition solve (self : t) (out : solver_result) : result t :=
  alloc ← read_values (resource_keys self) (var_values out);
  Ok (Mk (resource_dict self) (resource_keys self) (intercept self)
         (coefficients self) (cost_dict self) (max_cost self)
         (resource_variables self) (objective self) (constraints self)
         (Some alloc)).

(** The constraints of the problem, on an integer allocation. *)
Fixpoint value_of (alloc : list (string * Z)) (key : string) : option Z :=
  match alloc with
  | [] => None
  | (k, v) :: alloc' => if decide (k = key) then Some v else value_of alloc' key
  end.

Definition within_bounds (self : t) (alloc : list (string * Z)) : Prop :=
  Forall (fun kv : string * LpVariable =>
            exists v, value_of alloc (fst kv) = Some v /\
                      lowBound (snd kv) <= v <= upBound (snd kv))
         (resource_variables self).

Definition total_cost (cost : gmap string Z) (alloc : list (string * Z)) : Z :=
  foldr (fun kv acc => default 0 (cost !! fst kv) * snd kv + acc) 0 alloc.

Definition within_budget (self : t) (alloc : list (string * Z)) : Prop :=
  total_cost (cost_dict self) alloc <= max_cost self.


End LinearOptimisationProblem.

(** The cost of the solver's point: the sum of cost * value over the keys. *)
Definition solver_cost (cost : gmap string Z) (vals : gmap string Q)
    (keys : list string) : Q :=
  foldr (fun key acc =>
           (inject_Z (default 0%Z (cost !! key)) * default 0 (vals !! key) + acc)%Q)
        0%Q keys.

(** ** The states of a run, and what holds in all of them *)

(** [w] is a state of [self.begin()]: the state after some number of events. *)
Definition reachable (g : rng) (self : SimpySimulation) (w : world) : Prop :=
  exists fuel, begin g fuel self = Ok w.

(** An event of kind [ev] is in the queue [Q] (or among the events [X] taken
    from it and being dispatched), due at [t]. *)
Definition pending (X Q : list qitem) (t : time) (ev : event) : Prop :=
  exists it, (it ∈ Q \/ it ∈ X) /\ q_time it = t /\ q_event it = ev.

(** When the condition of a race is triggered: by the timeout, 10000 after
    the request, or by the dispatch of the granted request. *)
Definition any_of_bounds (x : Race) (c : time) : Prop :=
  (c = enqueue_time x + 10000 /\ forall g, granted x = Some g -> c <= g)
  \/ (granted x = Some c /\ c <= enqueue_time x + 10000 /\ req_processed x = true).

Record race_ok (F : list nat) (X Q : list qitem) (n : time) (r : nat) (x : Race)
    : Prop := {
  rk_enq : enqueue_time x <= n;
  rk_granted : forall g, granted x = Some g -> enqueue_time x <= g <= n;
  rk_processed : req_processed x = true -> is_Some (granted x);
  rk_request_pending :
    forall g, granted x = Some g -> req_processed x = false ->
              pending X Q g (RequestEv r);
  rk_not_started :
    start_time x = None ->
    timeout_processed x = false /\ cond_triggered x = false /\
    ((r ∈ F /\ enqueue_time x = n) \/ pending X Q (enqueue_time x) (InitMonitor r));
  rk_start : forall st, start_time x = Some st -> st = enqueue_time x;
  rk_timeout_pending :
    is_Some (start_time x) -> timeout_processed x = false ->
    pending X Q (enqueue_time x + 10000) (RaceTimeout r);
  rk_untriggered :
    cond_triggered x = false ->
    timeout_processed x = false /\ (is_Some (start_time x) -> req_processed x = false);
  rk_any_of_pending :
    cond_triggered x = true -> outcome x = None -> exists c, pending X Q c (AnyOf r);
  rk_outcome :
    forall rr v, outcome x = Some (rr, v) ->
      rr <= n /\
      ((v = PyInf /\ rr = enqueue_time x + 10000 /\
        forall g, granted x = Some g -> rr <= g)
       \/ (v = PyNum (rr - enqueue_time x) /\ granted x = Some rr /\
           rr <= enqueue_time x + 10000))
}.

Definition item_ok (n : time) (R : list Race) (it : qitem) : Prop :=
  n <= q_time it /\
  match q_event it with
  | InitMonitor r => exists x, R !! r = Some x /\ q_time it = enqueue_time x
  | RequestEv r => exists x, R !! r = Some x /\ granted x = Some (q_time it)
  | RaceTimeout r => exists x, R !! r = Some x /\ q_time it = enqueue_time x + 10000
  | AnyOf r => exists x, R !! r = Some x /\ q_time it <= n /\ any_of_bounds x (q_time it)
  | _ => True
  end.

Record pools_ok (R : list Race) (P : gmap string Resource) : Prop := {
  pk_capacity : forall res p, P !! res = Some p ->
                  Z.of_nat (length (users p)) <= capacity p;
  pk_sorted : forall res p, P !! res = Some p -> StronglySorted lt (put_queue p);
  pk_queued : forall res p r, P !! res = Some p -> r ∈ put_queue p ->
                exists x, R !! r = Some x /\ res_name x = res /\ granted x = None;
  pk_waiting : forall r x, R !! r = Some x -> granted x = None ->
                 exists p, P !! res_name x = Some p /\ r ∈ put_queue p
}.

(** Requests are numbered in the order they are made, and a pool grants them
    in that order. *)
Definition enqueue_mono (R : list Race) : Prop :=
  forall a b xa xb, (a < b)%nat -> R !! a = Some xa -> R !! b = Some xb ->
    enqueue_time xa <= enqueue_time xb.

Definition fifo (R : list Race) : Prop :=
  forall a b xa xb gb, (a < b)%nat -> R !! a = Some xa -> R !! b = Some xb ->
    res_name xa = res_name xb -> granted xb = Some gb ->
    exists ga, granted xa = Some ga /\ ga <= gb.

(** The invariant of the run.  [F] are the requests of the run() segment in
    progress whose monitor is not spawned yet, [X] the event being
    dispatched. *)
Record Inv (F : list nat) (X : list qitem) (n : time) (Q : list qitem)
    (R : list Race) (P : gmap string Resource) : Prop := {
  inv_items : forall it, it ∈ Q \/ it ∈ X -> item_ok n R it;
  inv_races : forall r x, R !! r = Some x -> race_ok F X Q n r x;
  inv_pools : pools_ok R P;
  inv_mono : enqueue_mono R;
  inv_fifo : fifo R;
  inv_fresh : forall r, r ∈ F -> exists x, R !! r = Some x /\ enqueue_time x = n
}.

Definition Inv_w (F : list nat) (X : list qitem) (w : world) : Prop :=
  Inv F X (now (env w)) (queue (env w)) (races w) (resources w).

(** The request an event of a race belongs to. *)
Definition race_event (ev : event) : option nat :=
  match ev with
  | InitMonitor r | RequestEv r | RaceTimeout r | AnyOf r => Some r
  | _ => None
  end.

(** Two records of the same request: its resource, when it was made, and
    whether it is granted. *)
Definition same_core (x y : Race) : Prop :=
  res_name y = res_name x /\ enqueue_time y = enqueue_time x /\ granted y = granted x.

(** heapq's order, as a proposition. *)
Definition key_le (a b : qitem) : Prop :=
  q_time a < q_time b \/
  (q_time a = q_time b /\
   (prio_num (q_prio a) < prio_num (q_prio b) \/
    (prio_num (q_prio a) = prio_num (q_prio b) /\ (q_eid a <= q_eid b)%nat))).

(** The run has not passed its horizon: the [until] event is the one
    StopEvent, it is urgent and was scheduled second; every other event is
    due before it or was scheduled after it; outcomes are recorded before
    it. *)
Record horizon_ok (w : world) : Prop := {
  hz_eid : (2 <= eid (env w))%nat;
  hz_stop : forall it, it ∈ queue (env w) -> q_event it = StopEvent ->
              q_time it = simulation_time (sim w) /\ q_prio it = URGENT /\
              q_eid it = 1%nat;
  hz_others : forall it, it ∈ queue (env w) -> q_event it <> StopEvent ->
                q_time it < simulation_time (sim w) \/ (2 <= q_eid it)%nat;
  hz_running : run_status w = Running ->
                 now (env w) < simulation_time (sim w) /\
                 exists it, it ∈ queue (env w) /\ q_event it = StopEvent;
  hz_finished : run_status w = Finished -> now (env w) = simulation_time (sim w);
  hz_outcome : forall r x t v, races w !! r = Some x -> outcome x = Some (t, v) ->
                 t < simulation_time (sim w)
}.

(** [w'] comes from [w] by the callbacks of one event: the clock, the status
    and the simulation object stay, the queue gains events of a later eid
    (none of them a StopEvent), and an outcome is recorded at the current
    time. *)
Definition grows (w w' : world) : Prop :=
  sim w' = sim w /\ run_status w' = run_status w /\ now (env w') = now (env w) /\
  (eid (env w) <= eid (env w'))%nat /\
  (forall it, it ∈ queue (env w) -> it ∈ queue (env w')) /\
  (forall it, it ∈ queue (env w') ->
     it ∈ queue (env w) \/ ((eid (env w) <= q_eid it)%nat /\ q_event it <> StopEvent)) /\
  (forall r x' t v, races w' !! r = Some x' -> outcome x' = Some (t, v) ->
     t = now (env w) \/ exists x, races w !! r = Some x /\ outcome x = Some (t, v)).

(** Resource.count *)
Definition held_count (p : Resource) : Z := Z.of_nat (length (users p)).

(** The race of [x] was lost to the timeout: the monitor stored float('inf'). *)
Definition timed_out (x : Race) : Prop := exists t, outcome x = Some (t, PyInf).

(** The event [ev] has been dispatched in [w]. *)
Definition dispatched (w : world) (ev : event) : Prop :=
  exists it, it ∈ trace w /\ q_event it = ev.

(** The configurations the specification wants rejected at construction. *)
Definition references_absent_resource (rd : gmap string Z) (pl : list process) : Prop :=
  exists pr res, pr ∈ pl /\ res ∈ p_resources pr /\ rd !! res = None.
Definition has_nonpositive_capacity (rd : gmap string Z) : Prop :=
  exists res c, rd !! res = Some c /\ c <= 0.
Definition has_inverted_range (pl : list process) : Prop :=
  exists pr, pr ∈ pl /\ snd (p_time_range pr) < fst (p_time_range pr).
Definition invalid_configuration (rd : gmap string Z) (pl : list process) : Prop :=
  references_absent_resource rd pl \/ has_nonpositive_capacity rd \/ has_inverted_range pl.

(** ** Two small runs *)

(** Two patients arrive, at 5 and at 10; the third would come after the end. *)
Definition two_arrivals (n : nat) : Z :=
  match n with 0%nat => 5 | 1%nat => 5 | _ => 1000000 end.

(** One resource of capacity 1 and one stage that needs it. *)
Definition one_stage (lo hi : Z) : SimpySimulation :=
  MkSim {[ "R" := 1 ]} default_warmup_period [MkProcess "S" ["R"] (lo, hi)] []
        [] {[ "R" := 0 ]} 100000.

(** Run A: every service lasts 20000. *)
Definition rng_a : rng := {| lognormvariate := two_arrivals; uniform := fun _ lo _ => lo |}.
Definition sim_a : SimpySimulation := one_stage 20000 20000.

(** Run B: the first service lasts 40000, the others 20000. *)
Definition rng_b : rng :=
  {| lognormvariate := two_arrivals;
     uniform := fun n _ _ => match n with 0%nat => 40000 | _ => 20000 end |}.
Definition sim_b : SimpySimulation := one_stage 20000 50000.

(** Run Q: both patients arrive at 5, every service lasts 5. *)
Definition rng_q : rng :=
  {| lognormvariate := fun n => match n with 0%nat => 5 | 1%nat => 0 | _ => 1000000 end;
     uniform := fun _ lo _ => lo |}.
Definition sim_q : SimpySimulation := one_stage 5 5.

(** Run W: run A's arrivals, every service lasts 20, and no warm-up. *)
Definition sim_w : SimpySimulation :=
  MkSim {[ "R" := 1 ]} 0 [MkProcess "S" ["R"] (20, 20)] [] [] {[ "R" := 0 ]} 100000.

(** Run C: capacity 1, every service lasts 50; three patients at 5, 10, 15. *)
Definition three_arrivals (n : nat) : Z :=
  match n with 0%nat | 1%nat | 2%nat => 5 | _ => 1000000 end.
Definition rng_c : rng := {| lognormvariate := three_arrivals; uniform := fun _ lo _ => lo |}.
Definition sim_c : SimpySimulation := one_stage 50 50.

(** The state [begin] returns, for stating facts about a concrete run. *)
Definition world_after (g : rng) (fuel : nat) (self : SimpySimulation) : world :=
  match begin g fuel self with
  | Ok w => w
  | Raise _ => World self (Env 0 [] 0) ∅ [] [] [] 0 0 0 Finished []
  end.

Definition is_Ok {A : Type} (r : result A) : bool :=
  match r with Ok _ => true | Raise _ => false end.

(** ** Well-formed states, and what one event changes *)

(** [w'] differs from [w] in the queue, the requests and the pools only. *)
Definition same_objects (w w' : world) : Prop :=
  sim w' = sim w /\ patients w' = patients w /\ stages w' = stages w /\
  patient_id w' = patient_id w /\ random_calls w' = random_calls w /\
  np_calls w' = np_calls w /\ run_status w' = run_status w /\ trace w' = trace w.

(** The stage a patient enters next. *)
Definition next_stage (pid : string) (pr : process) (p : nat) : HospitalProcess :=
  MkHospitalProcess ("Patient " +:+ pid +:+ " - " +:+ p_name pr)
    (p_resources pr) (fst (p_time_range pr)) (snd (p_time_range pr)) ∅ None [] 0 p.

(** What one event does to stage [h], [hp] before and [hp'] after. *)
Definition stage_change (g : rng) (ev : event) (w : world) (h : nat)
    (hp hp' : HospitalProcess) : Prop :=
  hp' = hp
  \/ (ev = InitStage h /\
      exists store w1,
        make_requests (resource_names hp) h (set_stage h hp_clear_waits w)
          = Ok (store, w1) /\
        hp' = hp_set_request_store store (hp_clear_waits hp))
  \/ (exists r x st, ev = AnyOf r /\ races w !! r = Some x /\ h = owner x /\
        start_time x = Some st /\
        hp' = hp_set_wait (res_name x)
                (if req_processed x then PyNum (now (env w) - st) else PyInf) hp)
  \/ (exists r x, ev = MonitorDone r /\ races w !! r = Some x /\ h = owner x /\
        hp' = hp_count hp)
  \/ (ev = AllOf h /\
      hp' = hp_set_service_time (uniform g (np_calls w) (time_min hp) (time_max hp)) hp).

(** The event [ev] refers to objects that exist in [w]; a condition event
    belongs to a monitor that has started.  The Initialize event of
    patient_arrivals is dispatched first, and never scheduled again. *)
Definition ev_ok (w : world) (ev : event) : Prop :=
  match ev with
  | StopEvent | ArrivalTimeout | ReleaseEv _ _ => True
  | InitArrivals => False
  | InitPatient p | PatientDone p => (p < length (patients w))%nat
  | InitStage h | AllOf h | ServiceTimeout h | StageDone h => (h < length (stages w))%nat
  | InitMonitor r | RequestEv r | MonitorDone r => (r < length (races w))%nat
  | RaceTimeout r | AnyOf r => exists x, races w !! r = Some x /\ is_Some (start_time x)
  end.

(** The HospitalProcess [hp] was built by patient [p] for the process [pr]. *)
Definition stage_of (p : nat) (pr : process) (hp : HospitalProcess) : Prop :=
  task_name hp = "Patient " +:+ ("Patient " +:+ pretty p) +:+ " - " +:+ p_name pr /\
  resource_names hp = p_resources pr /\
  time_min hp = fst (p_time_range pr) /\ time_max hp = snd (p_time_range pr) /\
  hp_patient hp = p.

(** What __init__ set is the same in [hp] and [hp']. *)
Definition same_static (hp hp' : HospitalProcess) : Prop :=
  task_name hp' = task_name hp /\ resource_names hp' = resource_names hp /\
  time_min hp' = time_min hp /\ time_max hp' = time_max hp /\
  hp_patient hp' = hp_patient hp.

(** The requests of stage [h] were made by it, one per resource name and in
    their order (none before run() has started), and its waits are recorded
    under its resource names. *)
Definition stage_ok (w : world) (h : nat) (hp : HospitalProcess) : Prop :=
  (forall i r, request_store hp !! i = Some r ->
     exists x, races w !! r = Some x /\ owner x = h /\
               resource_names hp !! i = Some (res_name x)) /\
  (request_store hp = [] \/ length (request_store hp) = length (resource_names hp)) /\
  (forall res v, resource_wait_times hp !! res = Some v -> res ∈ resource_names hp).

(** The stages of patient [p], in the order they were built. *)
Definition stages_of_patient (p : nat) (w : world) : list HospitalProcess :=
  filter (fun hp => hp_patient hp = p) (stages w).

Record wf (self : SimpySimulation) (w : world) : Prop := {
  wf_sim : sim w = self;
  wf_caps : forall res, capacity <$> (resources w !! res) = resource_dict self !! res;
  wf_pool : forall res p, resources w !! res = Some p ->
              NoDup (users p ++ put_queue p) /\
              forall r, r ∈ users p ++ put_queue p ->
                exists x, races w !! r = Some x /\ res_name x = res;
  wf_events : forall it, it ∈ queue (env w) -> ev_ok w (q_event it);
  wf_race : forall r x, races w !! r = Some x ->
              exists hp, stages w !! owner x = Some hp /\ res_name x ∈ resource_names hp;
  wf_stage : forall h hp, stages w !! h = Some hp ->
               (hp_patient hp < length (patients w))%nat /\ stage_ok w h hp;
  wf_patients : forall p pid l, patients w !! p = Some (pid, l) ->
                  pid = "Patient " +:+ pretty p /\
                  exists prs, process_list self = prs ++ l /\
                    Forall2 (stage_of p) prs (stages_of_patient p w);
  wf_patient_id : patient_id w = length (patients w)
}.

(** [w'] has the objects of [w]; a request is on the same resource for the
    same stage, and the monitors started in [w] are started in [w']. *)
Definition extends (w w' : world) : Prop :=
  (length (patients w) <= length (patients w'))%nat /\
  (length (stages w) <= length (stages w'))%nat /\
  (length (races w) <= length (races w'))%nat /\
  forall r x, races w !! r = Some x ->
    exists x', races w' !! r = Some x' /\ owner x' = owner x /\
      res_name x' = res_name x /\ (is_Some (start_time x) -> is_Some (start_time x')).

(** The exceptions of a run: the ValueError of a negative delay, when a draw
    is negative, and the KeyError of a resource that a process names and the
    resource dictionary lacks. *)
Definition negative_draw (g : rng) (self : SimpySimulation) : Prop :=
  (exists n, lognormvariate g n < 0) \/
  (exists n pr, pr ∈ process_list self /\
     uniform g n (fst (p_time_range pr)) (snd (p_time_range pr)) < 0).

Definition absent_resource (self : SimpySimulation) (res : string) : Prop :=
  exists pr, pr ∈ process_list self /\ res ∈ p_resources pr /\
    resource_dict self !! res = None.

Definition run_error (g : rng) (self : SimpySimulation) (e : exn) : Prop :=
  (exists msg, e = ValueError msg /\ negative_draw g self) \/
  (exists res, e = KeyError res /\ absent_resource self res).

(** The events that the callbacks of [ev] can schedule. *)
Definition schedules (ev ev' : event) : Prop :=
  match ev, ev' with
  | InitArrivals, ArrivalTimeout => True
  | ArrivalTimeout, (ArrivalTimeout | InitPatient _) => True
  | (InitPatient _ | StageDone _), (InitStage _ | PatientDone _) => True
  | InitStage _, (RequestEv _ | InitMonitor _ | AllOf _) => True
  | InitMonitor _, (RaceTimeout _ | AnyOf _) => True
  | (RequestEv _ | RaceTimeout _), AnyOf _ => True
  | AnyOf _, MonitorDone _ => True
  | MonitorDone _, AllOf _ => True
  | AllOf _, ServiceTimeout _ => True
  | ServiceTimeout _, (ReleaseEv _ _ | StageDone _) => True
  | ReleaseEv _ _, RequestEv _ => True
  | _, _ => False
  end.

(** The queue of [w'] is the queue of [w] with new events of kind [K] put in
    front. *)
Definition appends (K : event -> Prop) (w w' : world) : Prop :=
  exists news, queue (env w') = news ++ queue (env w) /\
    Forall (fun it => K (q_event it)) news.

(** The time of the n-th arrival: the sum of the first [n] draws of
    random.lognormvariate. *)
Fixpoint sum_draws (g : rng) (n : nat) : Z :=
  match n with
  | O => 0
  | S k => sum_draws g k + lognormvariate g k
  end.

(** The arrivals of a run: one arrival is pending, due at the sum of the
    draws made so far, and patient [p] starts at the sum of the first
    [p + 1] draws. *)
Definition arrivals_ok (g : rng) (w : world) : Prop :=
  random_calls w = S (length (patients w)) /\
  (length (filter (fun it => q_event it = ArrivalTimeout) (queue (env w))) <= 1)%nat /\
  (forall it, it ∈ queue (env w) -> q_event it = ArrivalTimeout ->
     q_time it = sum_draws g (random_calls w)) /\
  (forall it p, it ∈ queue (env w) \/ it ∈ trace w -> q_event it = InitPatient p ->
     q_time it = sum_draws g (S p)).

(** How often the event [ev] occurs in a list of queue entries. *)
Definition cnt (ev : event) (l : list qitem) : nat :=
  length (filter (fun it => q_event it = ev) l).

(** The events on which the join of a stage depends; the others are
    [plain]. *)
Definition plain (ev : event) : Prop :=
  match ev with
  | InitStage _ | AnyOf _ | MonitorDone _ | AllOf _ => False
  | _ => True
  end.

(** In the step from [w] to [w'] no request is made, and no condition or
    outcome of a request changes. *)
Definition races_kept (w w' : world) : Prop :=
  length (races w') = length (races w) /\
  forall r x, races w !! r = Some x ->
    exists x', races w' !! r = Some x' /\ owner x' = owner x /\
      cond_triggered x' = cond_triggered x /\ outcome x' = outcome x.

(** What one event does to the requests: those there keep their owner, the
    condition of a request is triggered by the events of its race only, its
    outcome is set by its AnyOf event only, and requests are made by the
    start of a stage only. *)
Definition races_step (ev : event) (w w' : world) : Prop :=
  (length (races w) <= length (races w'))%nat /\
  (forall r x, races w !! r = Some x ->
     exists x', races w' !! r = Some x' /\ owner x' = owner x /\
       (cond_triggered x' = cond_triggered x \/
        (cond_triggered x' = true /\
         (ev = InitMonitor r \/ ev = RequestEv r \/ ev = RaceTimeout r))) /\
       (if decide (ev = AnyOf r) then is_Some (outcome x') else outcome x' = outcome x)) /\
  (forall r x', races w' !! r = Some x' -> (length (races w) <= r)%nat ->
     exists h, ev = InitStage h /\ owner x' = h /\ cond_triggered x' = false /\
               outcome x' = None).

(** When the callbacks of [ev], from [w] to [w'], may schedule [ev'], an
    event of the join. *)
Definition news_ok (ev : event) (w w' : world) (ev' : event) : Prop :=
  match ev' with
  | InitStage h' => h' = length (stages w) /\ (h' < length (stages w'))%nat
  | AnyOf r' =>
      (ev = InitMonitor r' \/ ev = RequestEv r' \/ ev = RaceTimeout r') /\
      (exists x, races w !! r' = Some x /\ cond_triggered x = false) /\
      (exists x', races w' !! r' = Some x' /\ cond_triggered x' = true)
  | MonitorDone r' => ev = AnyOf r'
  | AllOf h' =>
      (ev = InitStage h' /\ exists hp, stages w !! h' = Some hp /\ resource_names hp = [])
      \/ (exists r x hp, ev = MonitorDone r /\ races w !! r = Some x /\ owner x = h' /\
            stages w !! h' = Some hp /\
            S (all_of_count hp) = length (request_store hp))
  | _ => False
  end.

(** The events one event schedules: plain ones, and after them at most one
    event of the join. *)
Definition join_news (ev : event) (w w' : world) : Prop :=
  exists rn irr, queue (env w') = rn ++ irr ++ queue (env w) /\
    Forall (fun it => plain (q_event it)) irr /\
    (rn = [] \/ exists it, rn = [it] /\ news_ok ev w w' (q_event it)).

(** By how much the callbacks of [e] raise the counter of the join of
    stage [h]: all_of._check counts the monitor that has ended. *)
Definition counts (e : event) (w : world) (h : nat) : nat :=
  match e with
  | MonitorDone r =>
      match races w !! r with
      | Some x => if decide (owner x = h) then 1%nat else 0%nat
      | None => 0%nat
      end
  | _ => 0%nat
  end.

(** What the callbacks of [e] do to the requests, the counter and the waits
    of stage [h]: [hp] before, [hp'] after. *)
Definition stage_step (e : event) (w : world) (h : nat) (hp hp' : HospitalProcess) : Prop :=
  resource_names hp' = resource_names hp /\
  request_store hp' =
    (if decide (e = InitStage h)
     then seq (length (races w)) (length (resource_names hp))
     else request_store hp) /\
  all_of_count hp' = (all_of_count hp + counts e w h)%nat /\
  (e <> InitStage h ->
     forall res, is_Some (resource_wait_times hp !! res) ->
                 is_Some (resource_wait_times hp' !! res)) /\
  (forall r x, e = AnyOf r -> races w !! r = Some x -> owner x = h ->
     is_Some (resource_wait_times hp' !! res_name x)).

(** How often the event [ev] has been scheduled in [w]: it waits in the
    queue, or it has been dispatched. *)
Definition cnt_all (ev : event) (w : world) : nat :=
  (cnt ev (queue (env w)) + cnt ev (trace w))%nat.

(** One step of the run, from [w] to [w'], dispatches [e]: what it does to
    the events of the joins, the requests and the stages. *)
Record join_step (e : event) (w w' : world) : Prop := {
  js_popped : (0 < cnt e (queue (env w)))%nat;
  js_events : forall ev, ~ plain ev ->
    exists k, cnt_all ev w' = (cnt_all ev w + k)%nat /\
              (k = 0%nat \/ (k = 1%nat /\ news_ok e w w' ev));
  js_trace : forall ev,
    cnt ev (trace w') = (cnt ev (trace w) + (if decide (e = ev) then 1 else 0))%nat;
  js_races : races_step e w w';
  js_requests : forall h hp, e = InitStage h -> stages w !! h = Some hp ->
    length (races w') = (length (races w) + length (resource_names hp))%nat;
  js_stage : forall h hp, stages w !! h = Some hp ->
    exists hp', stages w' !! h = Some hp' /\ stage_step e w h hp hp';
  js_new : forall h hp', stages w' !! h = Some hp' -> (length (stages w) <= h)%nat ->
    request_store hp' = [] /\ all_of_count hp' = 0%nat /\ plain e
}.

(** What holds of the joins in every state of a run.  A stage is started at
    most once, and before its start it has no request; a request is in the
    store of its owner; the AnyOf event of a request is scheduled at most
    once, when its condition is triggered, and its monitor ends once, after
    it; the counter of a join is the number of its monitors that have ended;
    and the join is triggered only when all of them have. *)
Record join_inv (w : world) : Prop := {
  ji_init : forall h,
    (cnt_all (InitStage h) w <= 1)%nat /\
    ((length (stages w) <= h)%nat -> cnt_all (InitStage h) w = 0%nat);
  ji_fresh : forall h hp, stages w !! h = Some hp ->
    cnt (InitStage h) (trace w) = 0%nat ->
    request_store hp = [] /\ all_of_count hp = 0%nat /\
    forall r x, races w !! r = Some x -> owner x <> h;
  ji_started : forall h hp, stages w !! h = Some hp ->
    (0 < cnt (InitStage h) (trace w))%nat ->
    length (request_store hp) = length (resource_names hp);
  ji_owner : forall r x, races w !! r = Some x ->
    exists hp, stages w !! owner x = Some hp /\ r ∈ request_store hp;
  ji_nodup : forall h hp, stages w !! h = Some hp -> NoDup (request_store hp);
  ji_anyof : forall r,
    (cnt_all (AnyOf r) w <=
     match races w !! r with
     | Some x => if cond_triggered x then 1 else 0
     | None => 0
     end)%nat;
  ji_done : forall r, (cnt_all (MonitorDone r) w <= cnt (AnyOf r) (trace w))%nat;
  ji_outcome : forall r, (0 < cnt (AnyOf r) (trace w))%nat ->
    exists x, races w !! r = Some x /\ is_Some (outcome x);
  ji_wait : forall h hp i r, stages w !! h = Some hp ->
    request_store hp !! i = Some r -> (0 < cnt (AnyOf r) (trace w))%nat ->
    exists res, resource_names hp !! i = Some res /\
                is_Some (resource_wait_times hp !! res);
  ji_count : forall h hp, stages w !! h = Some hp ->
    all_of_count hp =
    length (filter (fun r => (0 < cnt (MonitorDone r) (trace w))%nat) (request_store hp));
  ji_all : forall h, (0 < cnt_all (AllOf h) w)%nat ->
    exists hp, stages w !! h = Some hp /\ (0 < cnt (InitStage h) (trace w))%nat /\
      forall r, r ∈ request_store hp -> (0 < cnt (MonitorDone r) (trace w))%nat
}.

(** The waits of a stage tell the outcomes of its requests: where the
    resource names of the stage are distinct, the entry under the i-th name
    is the wait the monitor of the i-th request has stored. *)
Definition waits_ok (w : world) : Prop :=
  forall h hp i r res x t v,
    stages w !! h = Some hp -> NoDup (resource_names hp) ->
    request_store hp !! i = Some r -> resource_names hp !! i = Some res ->
    races w !! r = Some x -> outcome x = Some (t, v) ->
    resource_wait_times hp !! res = Some v.

(** A process list whose only process names a resource that does not exist. *)
Definition sim_x : SimpySimulation :=
  MkSim {[ "R" := 1 ]} default_warmup_period [MkProcess "S" ["X"] (5, 5)] []
        [] {[ "R" := 0 ]} 100000.

(** The configuration of main.py. *)
Definition main_process_list : list process :=
  [MkProcess "Stretcher Allocation" ["Stretcher"] (10, 15);
   MkProcess "Patient Doc Check" ["Doctor"; "Para Staff"] (10, 30);
   MkProcess "Payment Check" ["Bill Counter"] (5, 20);
   MkProcess "Lab Investigation" ["Lab Eqpt"] (15, 120);
   MkProcess "Ultrasonic Investigation" ["UltraSound"] (10, 20);
   MkProcess "Re-Examination Doc Check" ["ED Doc"; "Para Staff"] (10, 45);
   MkProcess "Surgery Ward Allocation" ["Surgery Staff"] (15, 25);
   MkProcess "Surgeon Check" ["Surgeon"] (10, 20);
   MkProcess "Specialist Ward Allocation" ["Specialist Staff"] (5, 15);
   MkProcess "Specialist Check" ["Specialist"] (5, 20);
   MkProcess "Operating Theatre Allocation" ["Orthodoctor"] (20, 45)].

Definition main_resources : list (string * Z) :=
  [("Stretcher", 2); ("ED Doc", 1); ("Para Staff", 2); ("Bill Counter", 3);
   ("Lab Eqpt", 2); ("UltraSound", 2); ("Surgeon", 1); ("Surgery Staff", 1);
   ("Specialist", 1); ("Specialist Staff", 2); ("Orthodoctor", 1); ("Doctor", 1)].

Definition main_log_process_list : list string :=
  ["Ultrasonic Investigation"; "Lab Investigation"; "Surgery Ward Allocation";
   "Specialist Ward Allocation"].

(** sim = SimpySimulation(resource_dict, process_list, log_process_list) *)
Definition main_sim : SimpySimulation :=
  MkSim (list_to_map main_resources) default_warmup_period main_process_list
        main_log_process_list [] ((fun _ => 0) <$> list_to_map main_resources)
        default_until.

(** The optimiser on two resources. *)
Definition lp_resources : list (string * Z) := [("Stretcher", 2); ("Doctor", 1)].
Definition lp_coefficients : gmap string Q :=
  {[ "Stretcher" := (3 # 2)%Q; "Doctor" := inject_Z (-4) ]}.
Definition lp_costs : gmap string Z := {[ "Stretcher" := 500; "Doctor" := 1000 ]}.

(** Two of the resources of main.py, one with a name that pulp rewrites and
    one with the coefficient 0. *)
Definition lp_staff : list (string * Z) := [("Stretcher", 2); ("Para Staff", 2)].
Definition lp_staff_coefficients : gmap string Q :=
  {[ "Stretcher" := 0%Q; "Para Staff" := inject_Z (-4) ]}.
Definition lp_staff_costs : gmap string Z := {[ "Stretcher" := 500; "Para Staff" := 400 ]}.

(** * Proofs *)

Lemma dispatched_events w ev : ev ∈ q_event <$> trace w -> dispatched w ev.
Proof.
  intros Hin. apply list_elem_of_fmap in Hin as (it & -> & Hin). by exists it.
Qed.

Ltac in_list := apply elem_of_cons; first [left; reflexivity | right; in_list].

(** The model on the queuing scenario: two patients ask for a resource of
    capacity 1 at the same instant and are served 5 each; the first waits 0
    and leaves after 5, the second is granted the resource then, has waited
    5, and leaves after 10. *)
Example queuing_scenario :
  let w := world_after rng_q 28 sim_q in
  run_status w = Finished /\
  (fun x => (enqueue_time x, granted x, outcome x)) <$> races w
    = [(5, Some 5, Some (5, PyNum 0)); (5, Some 10, Some (10, PyNum 5))] /\
  (fun h => resource_wait_times h !! "R") <$> stages w
    = [Some (PyNum 0); Some (PyNum 5)] /\
  dispatched w (PatientDone 0) /\ dispatched w (PatientDone 1).
Proof.
  split; [vm_compute; reflexivity|]. split; [vm_compute; reflexivity|].
  split; [vm_compute; reflexivity|].
  split; apply dispatched_events; vm_compute; in_list.
Qed.

(** ** The result monad *)

Lemma bind_Ok {A B : Type} (m : result A) (f : A -> result B) (b : B) :
  m ≫= f = Ok b -> exists a, m = Ok a /\ f a = Ok b.
Proof. destruct m as [a|e]; simpl; [eauto | discriminate]. Qed.

Ltac inv_bind H :=
  let a := fresh "a" in
  let Ha := fresh "Ha" in
  apply bind_Ok in H; destruct H as (a & Ha & H).

(** ** The simulation object is not written to during a run *)

Lemma env_timeout_sim ev d w w' : env_timeout ev d w = Ok w' -> sim w' = sim w.
Proof. unfold env_timeout. case_match; [discriminate|]. by intros [= <-]. Qed.

Lemma trigger_put_sim res w : sim (_trigger_put res w) = sim w.
Proof. unfold _trigger_put. repeat case_match; done. Qed.

Lemma request_sim res h w r w' : request res h w = Ok (r, w') -> sim w' = sim w.
Proof.
  unfold request. case_match; [|discriminate]. intros [= <- <-].
  by rewrite trigger_put_sim.
Qed.

Lemma make_requests_sim names h w store w' :
  make_requests names h w = Ok (store, w') -> sim w' = sim w.
Proof.
  revert w store w'. induction names as [|res names IH]; simpl; intros w store w' H.
  - by injection H as <- <-.
  - inv_bind H. destruct a as [r w1]. inv_bind H. destruct a as [rs w2].
    injection H as <- <-. apply request_sim in Ha. apply IH in Ha0. congruence.
Qed.

Lemma spawn_monitors_sim store w : sim (spawn_monitors store w) = sim w.
Proof.
  unfold spawn_monitors. revert w. induction store as [|r store IH]; simpl; intros w; [done|].
  by rewrite IH.
Qed.

Lemma release_sim res r w w' : release res r w = Ok w' -> sim w' = sim w.
Proof. unfold release. case_match; [|discriminate]. by intros [= <-]. Qed.

Lemma release_all_sim l w w' : release_all l w = Ok w' -> sim w' = sim w.
Proof.
  revert w w'. induction l as [|[res r] l IH]; simpl; intros w w' H.
  - by injection H as <-.
  - inv_bind H. apply release_sim in Ha. apply IH in H. congruence.
Qed.

Lemma any_of_check_sim r w : sim (any_of_check r w) = sim w.
Proof. unfold any_of_check. repeat case_match; done. Qed.

Lemma patient_process_sim p w w' : patient_process p w = Ok w' -> sim w' = sim w.
Proof. unfold patient_process. repeat case_match; try discriminate; by intros [= <-]. Qed.

Lemma dispatch_sim g ev w w' : dispatch g ev w = Ok w' -> sim w' = sim w.
Proof.
  destruct ev; simpl; intros H.
  - by injection H as <-.
  - unfold patient_arrivals_start, patient_arrivals_wait in H. by apply env_timeout_sim in H.
  - unfold patient_arrivals_resume, patient_arrivals_wait in H. by apply env_timeout_sim in H.
  - by apply patient_process_sim in H.
  - unfold run_start in H. case_match; [|discriminate].
    inv_bind H. destruct a as [store w1]. apply make_requests_sim in Ha.
    injection H as <-. case_match; simpl; rewrite ?spawn_monitors_sim; done.
  - unfold request_resource_and_monitor_time_start in H. case_match; [|discriminate].
    inv_bind H. apply env_timeout_sim in Ha. injection H as <-.
    case_match; rewrite ?any_of_check_sim; done.
  - unfold on_request in H. case_match; [|discriminate]. injection H as <-.
    case_match; rewrite ?any_of_check_sim; done.
  - unfold on_race_timeout in H. injection H as <-. by rewrite any_of_check_sim.
  - unfold request_resource_and_monitor_time_resume in H.
    repeat case_match; try discriminate; by injection H as <-.
  - unfold on_monitor_done in H.
    repeat case_match; try discriminate; by injection H as <-.
  - unfold run_service in H. case_match; [|discriminate]. by apply env_timeout_sim in H.
  - unfold run_release in H. case_match; [|discriminate]. inv_bind H.
    apply release_all_sim in Ha. by injection H as <-.
  - injection H as <-. apply trigger_put_sim.
  - case_match; [|discriminate]. by apply patient_process_sim in H.
  - by injection H as <-.
Qed.

Lemma step_sim g w w' : step g w = Ok w' -> sim w' = sim w.
Proof.
  unfold step. case_match; [|discriminate]. destruct p as [it rest].
  intros Hd. by apply dispatch_sim in Hd.
Qed.

Lemma run_sim g fuel w w' : run g fuel w = Ok w' -> sim w' = sim w.
Proof.
  revert w w'. induction fuel as [|n IH]; simpl; intros w w' H.
  - by injection H as <-.
  - destruct (run_status w).
    + inv_bind H. apply step_sim in Ha. apply IH in H. congruence.
    + by injection H as <-.
Qed.

Lemma begin_setup_sim self w : begin_setup self = Ok w -> sim w = self.
Proof.
  unfold begin_setup. intros H. inv_bind H. case_match; [discriminate|].
  by injection H as <-.
Qed.

Lemma begin_sim g fuel self w : begin g fuel self = Ok w -> sim w = self.
Proof.
  unfold begin. intros H. inv_bind H. apply begin_setup_sim in Ha.
  apply run_sim in H. congruence.
Qed.

(** ** The event queue *)

Lemma qle_time a b : qle a b = true -> q_time a <= q_time b.
Proof.
  unfold qle. repeat case_match; try discriminate; intros _;
    repeat match goal with
           | H : (_ <? _) = true |- _ => apply Z.ltb_lt in H
           | H : (_ <? _) = false |- _ => apply Z.ltb_ge in H
           end; lia.
Qed.

Lemma qle_false_time a b : qle a b = false -> q_time b <= q_time a.
Proof.
  unfold qle. repeat case_match; try discriminate; intros _;
    repeat match goal with
           | H : (_ <? _) = true |- _ => apply Z.ltb_lt in H
           | H : (_ <? _) = false |- _ => apply Z.ltb_ge in H
           end; lia.
Qed.

Lemma pop_min_None q : pop_min q = None -> q = [].
Proof. destruct q as [|x q]; simpl; [done|]. repeat case_match; discriminate. Qed.

Lemma pop_min_perm q m rest : pop_min q = Some (m, rest) -> q ≡ₚ m :: rest.
Proof.
  revert m rest. induction q as [|x q IH]; simpl; intros m rest H; [discriminate|].
  destruct (pop_min q) as [[m' rest']|] eqn:E.
  - specialize (IH _ _ eq_refl). destruct (qle x m'); injection H as <- <-.
    + done.
    + rewrite IH. apply Permutation_swap.
  - apply pop_min_None in E. subst q. by injection H as <- <-.
Qed.

Lemma pop_min_least q m rest :
  pop_min q = Some (m, rest) -> forall it, it ∈ rest -> q_time m <= q_time it.
Proof.
  revert m rest. induction q as [|x q IH]; simpl; intros m rest H it Hit; [discriminate|].
  destruct (pop_min q) as [[m' rest']|] eqn:E.
  - specialize (IH _ _ eq_refl). pose proof (pop_min_perm _ _ _ E) as Hp.
    destruct (qle x m') eqn:Hle; injection H as <- <-.
    + apply qle_time in Hle. rewrite Hp in Hit.
      apply elem_of_cons in Hit as [->|Hit]; [done|]. specialize (IH _ Hit). lia.
    + apply qle_false_time in Hle.
      apply elem_of_cons in Hit as [->|Hit]; [done|]. by apply IH.
  - injection H as <- <-. by apply elem_of_nil in Hit.
Qed.

Lemma pop_min_elem q m rest it :
  pop_min q = Some (m, rest) -> it ∈ q <-> it = m \/ it ∈ rest.
Proof. intros H. rewrite (pop_min_perm _ _ _ H). apply elem_of_cons. Qed.

(** ** Preservation of the invariant: the general steps *)

Lemma pending_mono X Q X' Q' t ev :
  pending X Q t ev ->
  (forall it, it ∈ Q \/ it ∈ X -> q_event it = ev -> it ∈ Q' \/ it ∈ X') ->
  pending X' Q' t ev.
Proof. intros (it & Hin & Ht & Hev) H. exists it. eauto. Qed.

Lemma pending_cons X Q t ev it : pending X Q t ev -> pending X (it :: Q) t ev.
Proof.
  intros H. eapply pending_mono; [done|]. intros it' [?|?] _; [left|right]; [|done].
  by apply elem_of_cons; right.
Qed.

Lemma pending_here X Q t ev prio e : pending X (QItem t prio e ev :: Q) t ev.
Proof. eexists. split; [left; apply elem_of_cons; left; reflexivity|done]. Qed.

Lemma race_ok_weaken F X Q X' Q' n r x :
  race_ok F X Q n r x ->
  (forall t ev, race_event ev = Some r -> pending X Q t ev -> pending X' Q' t ev) ->
  race_ok F X' Q' n r x.
Proof.
  intros [He Hg Hpr Hrp Hns Hst Htp Hun Hap Hout] Hp. constructor; try done.
  - intros g Hg' Hf. apply Hp; [done|]. eauto.
  - intros Hs. destruct (Hns Hs) as (? & ? & [?|?]); eauto 10.
  - intros Hs Hf. apply Hp; [done|]. eauto.
  - intros Hc Ho. destruct (Hap Hc Ho) as [c ?]. exists c. by apply Hp.
Qed.

Lemma race_ok_cons F X Q n r x it :
  race_ok F X Q n r x -> race_ok F X (it :: Q) n r x.
Proof. intros H. eapply race_ok_weaken; [done|]. intros. by apply pending_cons. Qed.

Lemma item_ok_plain n R prio e ev d :
  race_event ev = None -> 0 <= d -> item_ok n R (QItem (n + d) prio e ev).
Proof. intros Hev Hd. split; simpl; [lia|]. by destruct ev. Qed.

Lemma inv_schedule_plain F X n Q R P ev prio e d :
  Inv F X n Q R P -> race_event ev = None -> 0 <= d ->
  Inv F X n (QItem (n + d) prio e ev :: Q) R P.
Proof.
  intros [Hit Hra Hpo Hmo Hfi Hfr] Hev Hd. constructor; try done.
  - intros it [Hin|Hin]; [|by eauto].
    apply elem_of_cons in Hin as [->|Hin]; [by apply item_ok_plain|by eauto].
  - intros r x Hr. apply race_ok_cons. eauto.
Qed.

Lemma inv_drop F it n Q R P :
  Inv F [it] n Q R P -> race_event (q_event it) = None -> Inv F [] n Q R P.
Proof.
  intros [Hit Hra Hpo Hmo Hfi Hfr] Hev. constructor; try done.
  - intros it' [Hin|Hin]; [by eauto|by apply elem_of_nil in Hin].
  - intros r x Hr. eapply race_ok_weaken; [by eauto|].
    intros t ev Hr' Hp. eapply pending_mono; [done|].
    intros it' [?|Hin] Hev'; [by left|]. apply list_elem_of_singleton in Hin. subst it'.
    congruence.
Qed.

Lemma inv_pop n Q R P it rest :
  Inv [] [] n Q R P -> pop_min Q = Some (it, rest) ->
  Inv [] [it] (q_time it) rest R P /\ n <= q_time it.
Proof.
  intros [Hit Hra Hpo Hmo Hfi Hfr] Hpop.
  assert (Hn : n <= q_time it).
  { apply (Hit it). left. apply (pop_min_elem _ _ _ _ Hpop). by left. }
  split; [|done]. constructor; try done.
  - intros it' Hin.
    assert (Hq : it' ∈ Q).
    { apply (pop_min_elem _ _ _ _ Hpop). destruct Hin as [?|Hin]; [by right|].
      apply list_elem_of_singleton in Hin. by left. }
    assert (Hle : q_time it <= q_time it').
    { destruct Hin as [?|Hin]; [by eapply pop_min_least|].
      apply list_elem_of_singleton in Hin. by subst. }
    destruct (Hit it' (or_introl Hq)) as [? Hk]. split; [done|].
    destruct (q_event it'); try done.
    destruct Hk as (x & ? & ? & ?). exists x. repeat split; try done. lia.
  - intros r x Hr.
    destruct (Hra r x Hr) as [He Hg Hpr Hrp Hns Hst Htp Hun Hap Hout].
    constructor; try done.
    + lia.
    + intros g Hg'. specialize (Hg g Hg'). lia.
    + intros g Hg' Hf. eapply pending_mono; [by eauto|].
      intros it' [Hin|Hin] _; [|by apply elem_of_nil in Hin].
      apply (pop_min_elem _ _ _ _ Hpop) in Hin as [->|?]; [right|left]; [|done].
      by apply list_elem_of_singleton.
    + intros Hs. destruct (Hns Hs) as (? & ? & [[Hin _]|Hp]);
        [by apply elem_of_nil in Hin|].
      do 2 (split; [done|]). right. eapply pending_mono; [done|].
      intros it' [Hin|Hin] _; [|by apply elem_of_nil in Hin].
      apply (pop_min_elem _ _ _ _ Hpop) in Hin as [->|?]; [right|left]; [|done].
      by apply list_elem_of_singleton.
    + intros Hs Hf. eapply pending_mono; [by eauto|].
      intros it' [Hin|Hin] _; [|by apply elem_of_nil in Hin].
      apply (pop_min_elem _ _ _ _ Hpop) in Hin as [->|?]; [right|left]; [|done].
      by apply list_elem_of_singleton.
    + intros Hc Ho. destruct (Hap Hc Ho) as [c Hp]. exists c.
      eapply pending_mono; [done|].
      intros it' [Hin|Hin] _; [|by apply elem_of_nil in Hin].
      apply (pop_min_elem _ _ _ _ Hpop) in Hin as [->|?]; [right|left]; [|done].
      by apply list_elem_of_singleton.
    + intros rr v Ho. destruct (Hout rr v Ho). split; [lia|done].
  - intros r Hin. by apply elem_of_nil in Hin.
Qed.

(** ** Preservation of the invariant: requests *)

Lemma insert_lookup_back (R : list Race) r y r0 z :
  <[r:=y]> R !! r0 = Some z ->
  (r0 = r /\ z = y /\ is_Some (R !! r)) \/ (r0 <> r /\ R !! r0 = Some z).
Proof.
  intros H. destruct (decide (r0 = r)) as [->|Hne].
  - left. assert (r < length R)%nat as Hlt.
    { apply lookup_lt_Some in H. by rewrite length_insert in H. }
    rewrite list_lookup_insert_eq in H by done. injection H as <-.
    split; [done|]. split; [done|]. by apply lookup_lt_is_Some.
  - right. by rewrite list_lookup_insert_ne in H.
Qed.

Lemma insert_lookup_core (R : list Race) r x y r0 z0 :
  R !! r = Some x -> same_core x y -> R !! r0 = Some z0 ->
  exists z, <[r:=y]> R !! r0 = Some z /\ same_core z0 z /\
            (r0 = r -> z = y /\ z0 = x) /\ (r0 <> r -> z = z0).
Proof.
  intros Hr Hc H0. destruct (decide (r0 = r)) as [->|Hne].
  - exists y. rewrite list_lookup_insert_eq by (by eapply lookup_lt_Some).
    assert (z0 = x) as -> by congruence. done.
  - exists z0. rewrite list_lookup_insert_ne by done. done.
Qed.

Lemma insert_lookup_core_back (R : list Race) r x y r0 z :
  R !! r = Some x -> same_core x y -> <[r:=y]> R !! r0 = Some z ->
  exists z0, R !! r0 = Some z0 /\ same_core z0 z.
Proof.
  intros Hr Hc H. apply insert_lookup_back in H as [(-> & -> & _)|[_ H]]; [by eauto|].
  exists z. done.
Qed.

Lemma pools_ok_core R P r x y :
  pools_ok R P -> R !! r = Some x -> same_core x y -> pools_ok (<[r:=y]> R) P.
Proof.
  intros [Hc Hs Hq Hw] Hr Hcore. constructor; try done.
  - intros res p r0 Hp Hin. destruct (Hq res p r0 Hp Hin) as (z0 & Hz0 & ? & ?).
    destruct (insert_lookup_core R r x y r0 z0 Hr Hcore Hz0) as (z & ? & (? & ? & ?) & _).
    exists z. repeat split; congruence.
  - intros r0 z Hz Hg.
    destruct (insert_lookup_core_back R r x y r0 z Hr Hcore Hz) as (z0 & Hz0 & (Hn & ? & ?)).
    rewrite Hn. apply (Hw r0 z0 Hz0). congruence.
Qed.

Lemma enqueue_mono_core R r x y :
  enqueue_mono R -> R !! r = Some x -> same_core x y -> enqueue_mono (<[r:=y]> R).
Proof.
  intros Hm Hr Hcore a b za zb Hlt Ha Hb.
  destruct (insert_lookup_core_back R r x y a za Hr Hcore Ha) as (za0 & Ha0 & (_ & Hea & _)).
  destruct (insert_lookup_core_back R r x y b zb Hr Hcore Hb) as (zb0 & Hb0 & (_ & Heb & _)).
  rewrite Hea, Heb. by eapply Hm.
Qed.

Lemma fifo_core R r x y :
  fifo R -> R !! r = Some x -> same_core x y -> fifo (<[r:=y]> R).
Proof.
  intros Hf Hr Hcore a b za zb gb Hlt Ha Hb Hres Hg.
  destruct (insert_lookup_core_back R r x y a za Hr Hcore Ha) as (za0 & Ha0 & (Hna & _ & Hga)).
  destruct (insert_lookup_core_back R r x y b zb Hr Hcore Hb) as (zb0 & Hb0 & (Hnb & _ & Hgb)).
  rewrite Hga. eapply (Hf a b za0 zb0); try done; congruence.
Qed.

Lemma any_of_bounds_core x y c :
  same_core x y -> (req_processed x = true -> req_processed y = true) ->
  any_of_bounds x c -> any_of_bounds y c.
Proof.
  intros (_ & He & Hg) Hp [[? ?]|(? & ? & ?)]; [left|right]; rewrite He, Hg; eauto.
Qed.

Lemma item_ok_core n R r x y it :
  R !! r = Some x -> same_core x y ->
  (req_processed x = true -> req_processed y = true) ->
  item_ok n R it -> item_ok n (<[r:=y]> R) it.
Proof.
  intros Hr Hcore Hp [Hn Hk]. split; [done|].
  destruct (q_event it); try done; destruct Hk as (z0 & Hz0 & Hk);
    destruct (insert_lookup_core R r x y _ z0 Hr Hcore Hz0)
      as (z & Hz & (Hna & Hea & Hga) & Heq & Hne);
    exists z; (split; [done|]).
  - congruence.
  - congruence.
  - congruence.
  - destruct Hk as [? Hb]. split; [done|].
    destruct (decide (r0 = r)) as [->|Hd].
    + destruct (Heq eq_refl) as [-> ->]. by apply (any_of_bounds_core x y).
    + by rewrite (Hne Hd).
Qed.

(** The flags of race [r] change; what it is, when it was made and whether
    it is granted do not. *)
Lemma inv_update F X X' Q Q' n R P r x y :
  Inv F X n Q R P ->
  R !! r = Some x ->
  same_core x y ->
  (req_processed x = true -> req_processed y = true) ->
  race_ok F X' Q' n r y ->
  (forall it, it ∈ Q' \/ it ∈ X' -> (it ∈ Q \/ it ∈ X) \/ item_ok n (<[r:=y]> R) it) ->
  (forall t ev, race_event ev <> Some r -> pending X Q t ev -> pending X' Q' t ev) ->
  Inv F X' n Q' (<[r:=y]> R) P.
Proof.
  intros [Hit Hra Hpo Hmo Hfi Hfr] Hr Hcore Hp Hy Hitems Hpend. constructor.
  - intros it Hin. destruct (Hitems it Hin) as [Hold|?]; [|done].
    eapply item_ok_core; eauto.
  - intros r0 z Hz. apply insert_lookup_back in Hz as [(-> & -> & _)|[Hne Hz]]; [done|].
    eapply race_ok_weaken; [by eauto|]. intros t ev Hev. apply Hpend. congruence.
  - by eapply pools_ok_core.
  - by eapply enqueue_mono_core.
  - by eapply fifo_core.
  - intros r0 Hin. destruct (Hfr r0 Hin) as (z0 & Hz0 & ?).
    destruct (insert_lookup_core R r x y r0 z0 Hr Hcore Hz0) as (z & ? & (_ & ? & _) & _).
    exists z. split; [done|congruence].
Qed.

Lemma race_ok_fresh F F' X Q n r x :
  race_ok F X Q n r x -> (forall r0, r0 ∈ F -> r0 ∈ F') -> race_ok F' X Q n r x.
Proof.
  intros [He Hg Hpr Hrp Hns Hst Htp Hun Hap Hout] HF. constructor; try done.
  intros Hs. destruct (Hns Hs) as (? & ? & [[? ?]|?]); eauto 10.
Qed.

(** Resource._do_put grants the head of the put queue. *)
Lemma inv_grant F X n Q R P res p r rest e :
  Inv F X n Q R P ->
  P !! res = Some p -> put_queue p = r :: rest ->
  Z.of_nat (length (users p)) < capacity p ->
  exists x, R !! r = Some x /\
    Inv F X n (QItem (n + 0) NORMAL e (RequestEv r) :: Q)
        (<[r := race_succeed n x]> R)
        (<[res := MkResource (capacity p) (users p ++ [r]) rest]> P).
Proof.
  intros [Hit Hra [Hpc Hps Hpq Hpw] Hmo Hfi Hfr] Hp Hq Hcap.
  destruct (Hpq res p r Hp) as (x & Hr & Hres & Hgr).
  { rewrite Hq. apply elem_of_cons. by left. }
  exists x. split; [done|].
  assert (Hlt : (r < length R)%nat) by (by eapply lookup_lt_Some).
  assert (Hsorted : StronglySorted lt (r :: rest)) by (rewrite <- Hq; eauto).
  apply StronglySorted_inv in Hsorted as [Hsrest Hall].
  rewrite Forall_forall in Hall.
  assert (Hrest : forall r0, r0 ∈ rest -> (r < r0)%nat).
  { intros r0 Hin. by apply Hall. }
  replace (n + 0) with n by lia.
  pose proof (Hra r x Hr) as [He Hg Hpr Hrp Hns Hst Htp Hun Hap Hout].
  constructor.
  - intros it [Hin|Hin].
    + apply elem_of_cons in Hin as [->|Hin].
      * split; simpl; [lia|]. exists (race_succeed n x).
        by rewrite list_lookup_insert_eq.
      * destruct (Hit it (or_introl Hin)) as [Hn Hk]. split; [done|].
        destruct (q_event it) as [| | | | |r0|r0|r0|r0| | | | | |]; try done;
          destruct Hk as (z0 & Hz0 & Hk);
          (destruct (decide (r0 = r)) as [->|Hne];
           [assert (z0 = x) as -> by congruence;
            exists (race_succeed n x); rewrite list_lookup_insert_eq by done
           |exists z0; rewrite list_lookup_insert_ne by done]);
          try done.
        -- congruence.
        -- split; [done|]. destruct Hk as [Hc Hb]. split; [done|].
           destruct Hb as [[? ?]|(? & _)]; [|congruence].
           left. split; [done|]. simpl. intros g [= <-]. done.
    + destruct (Hit it (or_intror Hin)) as [Hn Hk]. split; [done|].
      destruct (q_event it) as [| | | | |r0|r0|r0|r0| | | | | |]; try done;
        destruct Hk as (z0 & Hz0 & Hk);
        (destruct (decide (r0 = r)) as [->|Hne];
         [assert (z0 = x) as -> by congruence;
          exists (race_succeed n x); rewrite list_lookup_insert_eq by done
         |exists z0; rewrite list_lookup_insert_ne by done]);
        try done.
      * congruence.
      * split; [done|]. destruct Hk as [Hc Hb]. split; [done|].
        destruct Hb as [[? ?]|(? & _)]; [|congruence].
        left. split; [done|]. simpl. intros g [= <-]. done.
  - intros r0 z Hz. apply insert_lookup_back in Hz as [(-> & -> & _)|[Hne Hz]].
    + constructor; simpl; try done.
      * intros g [= <-]. lia.
      * intros g [= <-] _. apply pending_here.
      * intros Hs. destruct (Hns Hs) as (? & ? & [?|?]); eauto using pending_cons.
      * intros Hs Hf. apply pending_cons. eauto.
      * intros Hc Ho. destruct (Hap Hc Ho) as [c ?]. exists c. by apply pending_cons.
      * intros rr v Ho. destruct (Hout rr v Ho) as [? [(? & ? & ?)|(? & ? & ?)]];
          [|congruence].
        split; [done|]. left. repeat split; try done. intros g [= <-]. done.
    + apply race_ok_cons. eauto.
  - constructor.
    + intros res0 p0 Hp0. destruct (decide (res0 = res)) as [->|Hne].
      * rewrite lookup_insert_eq in Hp0. injection Hp0 as <-. simpl.
        rewrite length_app. simpl. lia.
      * rewrite lookup_insert_ne in Hp0 by done. eauto.
    + intros res0 p0 Hp0. destruct (decide (res0 = res)) as [->|Hne].
      * rewrite lookup_insert_eq in Hp0. by injection Hp0 as <-.
      * rewrite lookup_insert_ne in Hp0 by done. eauto.
    + intros res0 p0 r0 Hp0 Hin. destruct (decide (res0 = res)) as [->|Hne].
      * rewrite lookup_insert_eq in Hp0. injection Hp0 as <-. simpl in Hin.
        destruct (Hpq res p r0 Hp) as (z0 & ? & ? & ?).
        { rewrite Hq. apply elem_of_cons. by right. }
        exists z0. rewrite list_lookup_insert_ne; [done|].
        specialize (Hrest r0 Hin). lia.
      * rewrite lookup_insert_ne in Hp0 by done.
        destruct (Hpq res0 p0 r0 Hp0 Hin) as (z0 & ? & ? & ?).
        exists z0. rewrite list_lookup_insert_ne; [done|]. congruence.
    + intros r0 z Hz Hgz. apply insert_lookup_back in Hz as [(-> & -> & _)|[Hne Hz]];
        [done|].
      destruct (Hpw r0 z Hz Hgz) as (p0 & Hp0 & Hin).
      destruct (decide (res_name z = res)) as [Hres0|Hres0].
      * rewrite Hres0 in *. rewrite lookup_insert_eq. eexists. split; [done|]. simpl.
        assert (p0 = p) as -> by congruence. rewrite Hq in Hin.
        apply elem_of_cons in Hin as [?|?]; [congruence|done].
      * rewrite lookup_insert_ne by done. eauto.
  - intros a b za zb Hab Ha Hb.
    assert (exists za0, R !! a = Some za0 /\ enqueue_time za0 = enqueue_time za) as (za0 & ? & <-).
    { apply insert_lookup_back in Ha as [(-> & -> & _)|[_ Ha]]; eauto. }
    assert (exists zb0, R !! b = Some zb0 /\ enqueue_time zb0 = enqueue_time zb) as (zb0 & ? & <-).
    { apply insert_lookup_back in Hb as [(-> & -> & _)|[_ Hb]]; eauto. }
    by eapply Hmo.
  - intros a b za zb gb Hab Ha Hb Hsame Hgb.
    apply insert_lookup_back in Hb as [(-> & -> & _)|[Hnb Hb]].
    + simpl in Hgb. injection Hgb as <-.
      rewrite list_lookup_insert_ne in Ha by lia. simpl in Hsame.
      destruct (granted za) as [ga|] eqn:Hga.
      * exists ga. split; [done|]. destruct (Hra a za Ha) as [_ Hg' _ _ _ _ _ _ _ _].
        specialize (Hg' ga Hga). lia.
      * destruct (Hpw a za Ha Hga) as (p0 & Hp0 & Hin).
        rewrite Hsame, Hres in Hp0. assert (p0 = p) as -> by congruence.
        rewrite Hq in Hin. apply elem_of_cons in Hin as [?|Hin]; [lia|].
        specialize (Hrest a Hin). lia.
    + apply insert_lookup_back in Ha as [(-> & -> & _)|[Hna Ha]].
      * simpl in Hsame. destruct (Hfi r b x zb gb Hab Hr Hb Hsame Hgb) as (ga & ? & _).
        congruence.
      * eauto.
  - intros r0 Hin. destruct (Hfr r0 Hin) as (z0 & Hz0 & ?).
    destruct (decide (r0 = r)) as [->|Hne].
    + exists (race_succeed n x). rewrite list_lookup_insert_eq by done.
      split; [done|]. simpl. congruence.
    + exists z0. by rewrite list_lookup_insert_ne.
Qed.

Lemma StronglySorted_snoc (l : list nat) (m : nat) :
  StronglySorted lt l -> (forall a, a ∈ l -> (a < m)%nat) -> StronglySorted lt (l ++ [m]).
Proof.
  induction 1 as [|a l Hs IH Ha]; intros Hm; simpl.
  - repeat constructor.
  - constructor.
    + apply IH. intros b Hb. apply Hm. apply elem_of_cons. by right.
    + apply Forall_app. split; [done|]. constructor; [|done].
      apply Hm. apply elem_of_cons. by left.
Qed.

(** A new request joins the put queue of its resource. *)
Lemma inv_request F X n Q R P res h p :
  Inv F X n Q R P -> P !! res = Some p ->
  Inv (length R :: F) X n Q (R ++ [new_race res h n])
      (<[res := MkResource (capacity p) (users p) (put_queue p ++ [length R])]> P).
Proof.
  intros [Hit Hra [Hpc Hps Hpq Hpw] Hmo Hfi Hfr] Hp.
  assert (Hold : forall r0 z, R !! r0 = Some z -> (R ++ [new_race res h n]) !! r0 = Some z).
  { intros r0 z Hz. by apply lookup_app_l_Some. }
  assert (Hback : forall r0 z, (R ++ [new_race res h n]) !! r0 = Some z ->
            R !! r0 = Some z \/ (r0 = length R /\ z = new_race res h n)).
  { intros r0 z Hz. apply lookup_app_Some in Hz as [?|[Hge Hz]]; [by left|right].
    apply list_lookup_singleton_Some in Hz as [? <-]. split; [lia|done]. }
  constructor.
  - intros it Hin. destruct (Hit it Hin) as [Hn Hk]. split; [done|].
    destruct (q_event it); try done; destruct Hk as (z0 & Hz0 & Hk); exists z0; eauto.
  - intros r0 z Hz. apply Hback in Hz as [Hz|[-> ->]].
    + eapply race_ok_fresh; [by eauto|]. intros r1 ?. apply elem_of_cons. by right.
    + constructor; simpl; try done; try lia.
      intros _. do 2 (split; [done|]). left. split; [|done]. apply elem_of_cons. by left.
  - constructor.
    + intros res0 p0 Hp0. destruct (decide (res0 = res)) as [->|Hne].
      * rewrite lookup_insert_eq in Hp0. injection Hp0 as <-. simpl. eauto.
      * rewrite lookup_insert_ne in Hp0 by done. eauto.
    + intros res0 p0 Hp0. destruct (decide (res0 = res)) as [->|Hne].
      * rewrite lookup_insert_eq in Hp0. injection Hp0 as <-. simpl.
        apply StronglySorted_snoc; [by eauto|].
        intros a Ha. destruct (Hpq res p a Hp Ha) as (z & Hz & _).
        by eapply lookup_lt_Some.
      * rewrite lookup_insert_ne in Hp0 by done. eauto.
    + intros res0 p0 r0 Hp0 Hin. destruct (decide (res0 = res)) as [->|Hne].
      * rewrite lookup_insert_eq in Hp0. injection Hp0 as <-. simpl in Hin.
        apply elem_of_app in Hin as [Hin|Hin].
        -- destruct (Hpq res p r0 Hp Hin) as (z & ? & ? & ?). exists z. eauto.
        -- apply list_elem_of_singleton in Hin as ->. exists (new_race res h n).
           split; [|done]. rewrite lookup_app_r by done.
           by rewrite Nat.sub_diag.
      * rewrite lookup_insert_ne in Hp0 by done.
        destruct (Hpq res0 p0 r0 Hp0 Hin) as (z & ? & ? & ?). exists z. eauto.
    + intros r0 z Hz Hgz. apply Hback in Hz as [Hz|[-> ->]].
      * destruct (Hpw r0 z Hz Hgz) as (p0 & Hp0 & Hin).
        destruct (decide (res_name z = res)) as [Hres0|Hres0].
        -- rewrite Hres0 in *. rewrite lookup_insert_eq. eexists. split; [done|]. simpl.
           assert (p0 = p) as -> by congruence. apply elem_of_app. by left.
        -- rewrite lookup_insert_ne by done. eauto.
      * simpl. rewrite lookup_insert_eq. eexists. split; [done|]. simpl.
        apply elem_of_app. right. by apply list_elem_of_singleton.
  - intros a b za zb Hab Ha Hb.
    apply Hback in Hb as [Hb|[-> ->]].
    + apply Hback in Ha as [Ha|[-> ->]]; [by eapply Hmo|].
      apply lookup_lt_Some in Hb. lia.
    + apply Hback in Ha as [Ha|[? ->]]; [|lia].
      simpl. by destruct (Hra a za Ha).
  - intros a b za zb gb Hab Ha Hb Hsame Hgb.
    apply Hback in Hb as [Hb|[-> ->]]; [|done].
    apply Hback in Ha as [Ha|[-> ->]]; [by eapply Hfi|].
    apply lookup_lt_Some in Hb. lia.
  - intros r0 Hin. apply elem_of_cons in Hin as [->|Hin].
    + exists (new_race res h n). split; [|done]. rewrite lookup_app_r by done.
      by rewrite Nat.sub_diag.
    + destruct (Hfr r0 Hin) as (z & ? & ?). exists z. eauto.
Qed.

(** The users of a resource shrink (or stay): Resource._do_get. *)
Lemma inv_users F X n Q R P res p us :
  Inv F X n Q R P -> P !! res = Some p -> (length us <= length (users p))%nat ->
  Inv F X n Q R (<[res := MkResource (capacity p) us (put_queue p)]> P).
Proof.
  intros [Hit Hra [Hpc Hps Hpq Hpw] Hmo Hfi Hfr] Hp Hlen. constructor; try done.
  constructor.
  - intros res0 p0 Hp0. destruct (decide (res0 = res)) as [->|Hne].
    + rewrite lookup_insert_eq in Hp0. injection Hp0 as <-. simpl.
      specialize (Hpc res p Hp). lia.
    + rewrite lookup_insert_ne in Hp0 by done. eauto.
  - intros res0 p0 Hp0. destruct (decide (res0 = res)) as [->|Hne].
    + rewrite lookup_insert_eq in Hp0. injection Hp0 as <-. simpl. eauto.
    + rewrite lookup_insert_ne in Hp0 by done. eauto.
  - intros res0 p0 r0 Hp0 Hin. destruct (decide (res0 = res)) as [->|Hne].
    + rewrite lookup_insert_eq in Hp0. injection Hp0 as <-. simpl in Hin. eauto.
    + rewrite lookup_insert_ne in Hp0 by done. eauto.
  - intros r0 z Hz Hgz. destruct (Hpw r0 z Hz Hgz) as (p0 & Hp0 & Hin).
    destruct (decide (res_name z = res)) as [Hres0|Hres0].
    + rewrite Hres0 in *. rewrite lookup_insert_eq. eexists. split; [done|]. simpl.
      by assert (p0 = p) as -> by congruence.
    + rewrite lookup_insert_ne by done. eauto.
Qed.

Lemma list_remove_length x l : (length (list_remove x l) <= length l)%nat.
Proof. induction l as [|y l IH]; simpl; [done|]. case_decide; simpl; lia. Qed.

(** ** Preservation of the invariant: the operations on the world *)

Lemma Inv_w_frame F X w w' :
  env w' = env w -> races w' = races w -> resources w' = resources w ->
  Inv_w F X w -> Inv_w F X w'.
Proof. unfold Inv_w. by intros -> -> ->. Qed.

Lemma inv_w_schedule_plain F X w ev prio d :
  Inv_w F X w -> race_event ev = None -> 0 <= d -> Inv_w F X (schedule ev prio d w).
Proof. intros H Hev Hd. unfold Inv_w. simpl. by apply inv_schedule_plain. Qed.

Lemma inv_w_env_timeout F X w w' ev d :
  env_timeout ev d w = Ok w' -> race_event ev = None -> Inv_w F X w -> Inv_w F X w'.
Proof.
  unfold env_timeout. destruct (d <? 0) eqn:Hd; [discriminate|]. intros [= <-] Hev H.
  apply Z.ltb_ge in Hd. by apply inv_w_schedule_plain.
Qed.

Lemma inv_w_trigger_put F X res w : Inv_w F X w -> Inv_w F X (_trigger_put res w).
Proof.
  intros H. unfold _trigger_put.
  destruct (resources w !! res) as [p|] eqn:Hp; [|done].
  destruct (put_queue p) as [|r rest] eqn:Hq; [done|].
  destruct (Z.of_nat (length (users p)) <? capacity p) eqn:Hcap; [|done].
  apply Z.ltb_lt in Hcap.
  destruct (inv_grant _ _ _ _ _ _ res p r rest (eid (env w)) H Hp Hq Hcap) as (x & Hr & HI).
  unfold Inv_w. simpl. by rewrite Hr.
Qed.

Lemma inv_w_request F X res h w r w' :
  request res h w = Ok (r, w') -> Inv_w F X w -> Inv_w (r :: F) X w'.
Proof.
  unfold request. destruct (resources w !! res) as [p|] eqn:Hp; [|discriminate].
  intros [= <- <-] H. apply inv_w_trigger_put. unfold Inv_w. simpl.
  by apply inv_request.
Qed.

Lemma inv_w_make_requests names h : forall F X w store w',
  make_requests names h w = Ok (store, w') -> Inv_w F X w ->
  Inv_w (reverse store ++ F) X w'.
Proof.
  induction names as [|res names IH]; simpl; intros F X w store w' H HI.
  - by injection H as <- <-.
  - inv_bind H. destruct a as [r w1]. inv_bind H. destruct a as [rs w2].
    injection H as <- <-. rewrite reverse_cons, <- app_assoc. simpl.
    eapply IH; [done|]. by eapply inv_w_request.
Qed.

Lemma inv_spawn_one F X n Q R P r e :
  Inv F X n Q R P -> r ∈ F ->
  Inv F X n (QItem (n + 0) URGENT e (InitMonitor r) :: Q) R P.
Proof.
  intros [Hit Hra Hpo Hmo Hfi Hfr] Hin. constructor; try done.
  - intros it [Hi|Hi]; [|by eauto].
    apply elem_of_cons in Hi as [->|Hi]; [|by eauto].
    split; simpl; [lia|]. destruct (Hfr r Hin) as (x & ? & ?). exists x. split; [done|lia].
  - intros r0 x Hr. apply race_ok_cons. eauto.
Qed.

Lemma inv_w_spawn_monitors store : forall F X w,
  Inv_w F X w -> (forall r, r ∈ store -> r ∈ F) ->
  Inv_w F X (spawn_monitors store w) /\
  now (env (spawn_monitors store w)) = now (env w) /\
  (forall t ev, pending X (queue (env w)) t ev ->
                pending X (queue (env (spawn_monitors store w))) t ev) /\
  (forall r, r ∈ store ->
     pending X (queue (env (spawn_monitors store w))) (now (env w)) (InitMonitor r)).
Proof.
  unfold spawn_monitors.
  induction store as [|r store IH]; simpl; intros F X w HI Hsub.
  - split; [done|]. split; [done|]. split; [done|]. intros r Hr. by apply elem_of_nil in Hr.
  - set (w1 := schedule (InitMonitor r) URGENT 0 w).
    assert (Inv_w F X w1) as HI1.
    { unfold Inv_w. simpl. apply inv_spawn_one; [done|]. apply Hsub, elem_of_cons. by left. }
    destruct (IH F X w1 HI1) as (HI2 & Hn & Hp & Hs).
    { intros r0 ?. apply Hsub, elem_of_cons. by right. }
    split; [done|]. split; [done|]. split.
    + intros t ev Hpe. apply Hp. by apply pending_cons.
    + intros r0 Hr0. apply elem_of_cons in Hr0 as [->|Hr0]; [|by apply Hs].
      apply Hp. simpl. replace (now (env w)) with (now (env w) + 0) at 2 by lia.
      apply pending_here.
Qed.

Lemma inv_fresh_done F X n Q R P :
  Inv F X n Q R P -> (forall r, r ∈ F -> pending X Q n (InitMonitor r)) ->
  Inv [] X n Q R P.
Proof.
  intros [Hit Hra Hpo Hmo Hfi Hfr] Hp. constructor; try done.
  - intros r x Hr. destruct (Hra r x Hr) as [He Hg Hpr Hrp Hns Hst Htp Hun Hap Hout].
    constructor; try done.
    intros Hs. destruct (Hns Hs) as (? & ? & [[Hin Hen]|?]); [|by eauto].
    do 2 (split; [done|]). right. rewrite Hen. by apply Hp.
  - intros r Hin. by apply elem_of_nil in Hin.
Qed.

Lemma inv_w_release F X res r w w' :
  release res r w = Ok w' -> Inv_w F X w -> Inv_w F X w'.
Proof.
  unfold release. destruct (resources w !! res) as [p|] eqn:Hp; [|discriminate].
  intros [= <-] H. apply inv_w_schedule_plain; [|done|done].
  unfold Inv_w. simpl. apply inv_users; [done|done|apply list_remove_length].
Qed.

Lemma inv_w_release_all F X l : forall w w',
  release_all l w = Ok w' -> Inv_w F X w -> Inv_w F X w'.
Proof.
  induction l as [|[res r] l IH]; simpl; intros w w' H HI.
  - by injection H as <-.
  - inv_bind H. eapply IH; [done|]. by eapply inv_w_release.
Qed.

Lemma inv_w_patient_process F X p w w' :
  patient_process p w = Ok w' -> Inv_w F X w -> Inv_w F X w'.
Proof.
  unfold patient_process. intros H HI.
  destruct (patients w !! p) as [[pid [|pr rest]]|]; [| |discriminate]; injection H as <-.
  - by apply inv_w_schedule_plain.
  - by apply inv_w_schedule_plain.
Qed.

Lemma inv_w_run_start h w w' :
  run_start h w = Ok w' -> Inv_w [] [] w -> Inv_w [] [] w'.
Proof.
  unfold run_start. destruct (stages w !! h) as [hp|]; [|discriminate].
  intros H HI. inv_bind H. destruct a as [store w1].
  apply (inv_w_make_requests _ _ [] []) in Ha; [|eapply Inv_w_frame; [..|exact HI]; done].
  rewrite app_nil_r in Ha.
  set (w2 := set_stage h (hp_set_request_store store) w1) in *.
  assert (Inv_w (reverse store) [] w2) as HI2 by (eapply Inv_w_frame; [..|exact Ha]; done).
  destruct (inv_w_spawn_monitors store (reverse store) [] w2 HI2) as (HI3 & Hn & _ & Hs).
  { intros r. by rewrite elem_of_reverse. }
  assert (Inv_w [] [] (spawn_monitors store w2)) as HI4.
  { apply (inv_fresh_done (reverse store)); [done|]. intros r Hr. rewrite Hn. apply Hs.
    by rewrite elem_of_reverse in Hr. }
  injection H as <-. destruct store; [|done]. by apply inv_w_schedule_plain.
Qed.

(** ** Preservation of the invariant: the race of a request against its timeout *)

Lemma pending_drop it Q Q' t ev :
  pending [it] Q t ev -> q_event it <> ev -> (forall i, i ∈ Q -> i ∈ Q') ->
  pending [] Q' t ev.
Proof.
  intros (i & Hin & Ht & Hev) Hne Hsub. exists i. split; [|done].
  destruct Hin as [?|Hin]; [left; eauto|].
  apply list_elem_of_singleton in Hin. subst i. done.
Qed.

Lemma pending_in_queue it Q t ev n R :
  pending [it] Q t ev -> q_event it <> ev ->
  (forall i, i ∈ Q \/ i ∈ [it] -> item_ok n R i) ->
  exists i, i ∈ Q /\ q_time i = t /\ q_event i = ev /\ item_ok n R i.
Proof.
  intros (i & Hin & Ht & Hev) Hne Hok. exists i.
  destruct Hin as [?|Hin]; [by eauto 10|].
  apply list_elem_of_singleton in Hin. subst i. done.
Qed.

Lemma any_of_check_eq r w x :
  races w !! r = Some x ->
  any_of_check r w =
    if cond_triggered x then w
    else schedule (AnyOf r) NORMAL 0 (set_race r race_cond_triggered w).
Proof. intros Hr. unfold any_of_check. by rewrite Hr. Qed.

Lemma set_race_races r f w x :
  races w !! r = Some x -> races (set_race r f w) = <[r := f x]> (races w).
Proof. intros Hr. simpl. by rewrite Hr. Qed.

Lemma set_race_lookup r f w x :
  races w !! r = Some x -> races (set_race r f w) !! r = Some (f x).
Proof.
  intros Hr. rewrite (set_race_races r f w x Hr).
  apply list_lookup_insert_eq. by eapply lookup_lt_Some.
Qed.

Lemma inv_w_on_race_timeout it r w w' :
  Inv_w [] [it] w -> q_event it = RaceTimeout r -> q_time it = now (env w) ->
  on_race_timeout r w = Ok w' -> Inv_w [] [] w'.
Proof.
  intros HI Hev Ht H. unfold on_race_timeout in H. injection H as <-.
  pose proof HI as [Hit Hra Hpo Hmo Hfi Hfr].
  destruct (Hit it) as [_ Hk]; [right; by apply list_elem_of_singleton|].
  rewrite Hev in Hk. destruct Hk as (x & Hr & Hx). rewrite Ht in Hx.
  pose proof (Hra r x Hr) as [He Hg Hpr Hrp Hns Hst Htp Hun Hap Hout].
  assert (Hstarted : is_Some (start_time x)).
  { destruct (start_time x) eqn:Hs; [by eauto|]. exfalso.
    destruct (Hns eq_refl) as (_ & _ & [[Hin _]|Hp]); [by apply elem_of_nil in Hin|].
    edestruct (pending_in_queue it) as (i & _ & Hti & _ & [Hle _]);
      [exact Hp|rewrite Hev; discriminate|exact Hit|].
    lia. }
  rewrite (any_of_check_eq r _ (race_timeout_processed x))
    by (by apply set_race_lookup).
  simpl. destruct (cond_triggered x) eqn:Hc.
  - unfold Inv_w. simpl. rewrite Hr.
    eapply (inv_update [] [it] [] _ _ _ _ _ r x); try done.
    + constructor; simpl; try done; try congruence.
      * intros g Hg' Hf. eapply pending_drop; [by eauto|rewrite Hev; discriminate|done].
      * intros Hs. rewrite Hs in Hstarted. by destruct Hstarted.
      * intros _ Ho. destruct (Hap eq_refl Ho) as [c Hp]. exists c.
        eapply pending_drop; [done|rewrite Hev; discriminate|done].
    + intros i [?|Hin]; [by left; left|by apply elem_of_nil in Hin].
    + intros t ev Hne Hp. eapply pending_drop; [done| |done].
      rewrite Hev. intros <-. done.
  - unfold Inv_w. simpl. rewrite Hr. simpl.
    rewrite list_lookup_insert_eq by (by eapply lookup_lt_Some).
    rewrite list_insert_insert_eq.
    destruct (Hun eq_refl) as [Htf Hrf]. specialize (Hrf Hstarted).
    eapply (inv_update [] [it] [] _ _ _ _ _ r x); try done.
    + constructor; simpl; try done; try congruence.
      * intros g Hg' Hf. apply pending_cons.
        eapply pending_drop; [by eauto|rewrite Hev; discriminate|done].
      * intros Hs. rewrite Hs in Hstarted. by destruct Hstarted.
      * intros _ _. eexists. apply pending_here.
    + intros i [Hin|Hin]; [|by apply elem_of_nil in Hin].
      apply elem_of_cons in Hin as [->|Hin]; [right|by left; left].
      split; simpl; [lia|]. eexists.
      rewrite list_lookup_insert_eq by (by eapply lookup_lt_Some).
      split; [done|]. split; [lia|]. left. simpl. split; [lia|].
      intros g Hg'.
      edestruct (pending_in_queue it) as (i & _ & Hti & _ & [Hle _]);
        [exact (Hrp g Hg' Hrf)|rewrite Hev; discriminate|exact Hit|].
      lia.
    + intros t ev Hne Hp. apply pending_cons. eapply pending_drop; [done| |done].
      rewrite Hev. intros <-. done.
Qed.

Lemma inv_w_on_request it r w w' :
  Inv_w [] [it] w -> q_event it = RequestEv r -> q_time it = now (env w) ->
  on_request r w = Ok w' -> Inv_w [] [] w'.
Proof.
  intros HI Hev Ht H. unfold on_request in H.
  pose proof HI as [Hit Hra Hpo Hmo Hfi Hfr].
  destruct (Hit it) as [_ Hk]; [right; by apply list_elem_of_singleton|].
  rewrite Hev in Hk. destruct Hk as (x & Hr & Hx). rewrite Ht in Hx.
  rewrite Hr in H. injection H as <-.
  pose proof (Hra r x Hr) as [He Hg Hpr Hrp Hns Hst Htp Hun Hap Hout].
  assert (Hdrop : forall t ev, race_event ev <> Some r ->
            pending [it] (queue (env w)) t ev -> pending [] (queue (env w)) t ev).
  { intros t ev Hne Hp. eapply pending_drop; [done| |done]. rewrite Hev. by intros <-. }
  destruct (start_time x) as [st|] eqn:Hs.
  - rewrite (any_of_check_eq r _ (race_req_processed x)) by (by apply set_race_lookup).
    simpl. destruct (cond_triggered x) eqn:Hc.
    + unfold Inv_w. simpl. rewrite Hr.
      eapply (inv_update [] [it] [] _ _ _ _ _ r x); try done.
      * constructor; simpl; try done; try congruence.
        -- intros st0 Hs0. apply Hst. congruence.
        -- intros _ Hf. eapply pending_drop;
             [apply Htp; [by eauto|done]|rewrite Hev; discriminate|done].
        -- intros _ Ho. destruct (Hap eq_refl Ho) as [c Hp]. exists c.
           eapply pending_drop; [done|rewrite Hev; discriminate|done].
      * intros i [?|Hin]; [by left; left|by apply elem_of_nil in Hin].
    + unfold Inv_w. simpl. rewrite Hr. simpl.
      rewrite list_lookup_insert_eq by (by eapply lookup_lt_Some).
      rewrite list_insert_insert_eq.
      destruct (Hun eq_refl) as [Htf _].
      eapply (inv_update [] [it] [] _ _ _ _ _ r x); try done.
      * constructor; simpl; try done; try congruence.
        -- intros st0 Hs0. apply Hst. congruence.
        -- intros _ Hf. apply pending_cons. eapply pending_drop;
             [apply Htp; [by eauto|done]|rewrite Hev; discriminate|done].
        -- intros _ _. eexists. apply pending_here.
      * intros i [Hin|Hin]; [|by apply elem_of_nil in Hin].
        apply elem_of_cons in Hin as [->|Hin]; [right|by left; left].
        split; simpl; [lia|]. eexists.
        rewrite list_lookup_insert_eq by (by eapply lookup_lt_Some).
        split; [done|]. split; [lia|]. right. simpl.
        split; [by rewrite Hx; f_equal; lia|]. split; [|done].
        edestruct (pending_in_queue it) as (i & _ & Hti & _ & [Hle _]);
          [apply Htp; [by eauto|done]|rewrite Hev; discriminate|exact Hit|].
        lia.
      * intros t ev Hne Hp. apply pending_cons. by apply Hdrop.
  - unfold Inv_w. simpl. rewrite Hr.
    eapply (inv_update [] [it] [] _ _ _ _ _ r x); try done.
    + constructor; simpl; try done; try congruence.
      * intros _. destruct (Hns eq_refl) as (? & ? & [[Hin _]|Hp]);
          [by apply elem_of_nil in Hin|].
        do 2 (split; [done|]). right.
        eapply pending_drop; [done|rewrite Hev; discriminate|done].
      * intros [? Hs']. congruence.
      * intros Hc. destruct (Hun Hc) as [? _]. split; [done|]. intros [? ?]; congruence.
      * intros Hc Ho. destruct (Hap Hc Ho) as [c Hp]. exists c.
        eapply pending_drop; [done|rewrite Hev; discriminate|done].
    + intros i [?|Hin]; [by left; left|by apply elem_of_nil in Hin].
Qed.

Lemma inv_w_monitor_start it r w w' :
  Inv_w [] [it] w -> q_event it = InitMonitor r -> q_time it = now (env w) ->
  request_resource_and_monitor_time_start r w = Ok w' -> Inv_w [] [] w'.
Proof.
  intros HI Hev Ht H. unfold request_resource_and_monitor_time_start in H.
  pose proof HI as [Hit Hra Hpo Hmo Hfi Hfr].
  destruct (Hit it) as [_ Hk]; [right; by apply list_elem_of_singleton|].
  rewrite Hev in Hk. destruct Hk as (x & Hr & Hx). rewrite Ht in Hx.
  rewrite Hr in H. unfold env_timeout in H. simpl in H. injection H as <-.
  pose proof (Hra r x Hr) as [He Hg Hpr Hrp Hns Hst Htp Hun Hap Hout].
  assert (Hlt : (r < length (races w))%nat) by (by eapply lookup_lt_Some).
  assert (Hdrop : forall t ev, race_event ev <> Some r ->
            pending [it] (queue (env w)) t ev -> pending [] (queue (env w)) t ev).
  { intros t ev Hne Hp. eapply pending_drop; [done| |done]. rewrite Hev. by intros <-. }
  assert (Htimeout_item : forall y,
            enqueue_time y = enqueue_time x ->
            item_ok (now (env w)) (<[r:=y]> (races w))
              (QItem (now (env w) + 10000) NORMAL (eid (env w)) (RaceTimeout r))).
  { intros y Hy. split; simpl; [lia|]. exists y.
    rewrite list_lookup_insert_eq by done. split; [done|lia]. }
  destruct (req_processed x) eqn:Hrq.
  - rewrite (any_of_check_eq r _ (race_start (now (env w)) x))
      by (simpl; rewrite Hr; by apply list_lookup_insert_eq).
    simpl. destruct (cond_triggered x) eqn:Hc.
    + unfold Inv_w. simpl. rewrite Hr.
      eapply (inv_update [] [it] [] _ _ _ _ _ r x); try done.
      * constructor; simpl; try done; try congruence.
        -- intros _. by apply Hpr.
        -- intros _ _. rewrite <- Hx. apply pending_here.
        -- intros _ Ho. destruct (Hap eq_refl Ho) as [c Hp]. exists c. apply pending_cons.
           eapply pending_drop; [done|rewrite Hev; discriminate|done].
      * intros i [Hin|Hin]; [|by apply elem_of_nil in Hin].
        apply elem_of_cons in Hin as [->|Hin]; [right|by left; left].
        by apply Htimeout_item.
      * intros t ev Hne Hp. apply pending_cons. by apply Hdrop.
    + unfold Inv_w. simpl. rewrite Hr. simpl.
      rewrite list_lookup_insert_eq by done.
      rewrite list_insert_insert_eq.
      eapply (inv_update [] [it] [] _ _ _ _ _ r x); try done.
      * constructor; simpl; try done; try congruence.
        -- intros _. by apply Hpr.
        -- intros _ _. apply pending_cons. rewrite <- Hx. apply pending_here.
        -- intros _ _. eexists. apply pending_here.
      * intros i [Hin|Hin]; [|by apply elem_of_nil in Hin].
        apply elem_of_cons in Hin as [->|Hin].
        { right. split; simpl; [lia|]. eexists.
          rewrite list_lookup_insert_eq by done.
          split; [done|]. split; [lia|]. right. simpl.
          destruct (Hpr eq_refl) as [g Hg']. specialize (Hg g Hg').
          split; [rewrite Hg'; f_equal; lia|]. split; [lia|done]. }
        apply elem_of_cons in Hin as [->|Hin]; [right|by left; left].
        by apply Htimeout_item.
      * intros t ev Hne Hp. do 2 apply pending_cons. by apply Hdrop.
  - unfold Inv_w. simpl. rewrite Hr.
    eapply (inv_update [] [it] [] _ _ _ _ _ r x); try done.
    + constructor; simpl; try done; try congruence.
      * intros g Hg' _. apply pending_cons.
        eapply pending_drop; [by eauto|rewrite Hev; discriminate|done].
      * intros _ _. rewrite <- Hx. apply pending_here.
      * intros Hc. destruct (Hun Hc) as [? _]. done.
      * intros Hc Ho. destruct (Hap Hc Ho) as [c Hp]. exists c. apply pending_cons.
        eapply pending_drop; [done|rewrite Hev; discriminate|done].
    + intros i [Hin|Hin]; [|by apply elem_of_nil in Hin].
      apply elem_of_cons in Hin as [->|Hin]; [right|by left; left].
      by apply Htimeout_item.
    + intros t ev Hne Hp. apply pending_cons. by apply Hdrop.
Qed.

Lemma inv_w_monitor_resume it r w w' :
  Inv_w [] [it] w -> q_event it = AnyOf r -> q_time it = now (env w) ->
  request_resource_and_monitor_time_resume r w = Ok w' -> Inv_w [] [] w'.
Proof.
  intros HI Hev Ht H. unfold request_resource_and_monitor_time_resume in H.
  pose proof HI as [Hit Hra Hpo Hmo Hfi Hfr].
  destruct (Hit it) as [_ Hk]; [right; by apply list_elem_of_singleton|].
  rewrite Hev in Hk. destruct Hk as (x & Hr & _ & Hb). rewrite Ht in Hb.
  rewrite Hr in H.
  pose proof (Hra r x Hr) as [He Hg Hpr Hrp Hns Hst Htp Hun Hap Hout].
  destruct (start_time x) as [st|] eqn:Hs; [|discriminate]. injection H as <-.
  specialize (Hst st eq_refl). subst st.
  apply inv_w_schedule_plain; [|done|done]. unfold Inv_w. simpl. rewrite Hr.
  eapply (inv_update [] [it] [] _ _ _ _ _ r x); try done.
  - constructor; simpl; try done; try congruence.
    + intros g Hg' Hf. eapply pending_drop; [by eauto|rewrite Hev; discriminate|done].
    + intros Hs' Hf. eapply pending_drop; [by eauto|rewrite Hev; discriminate|done].
    + intros Hc. destruct (Hun Hc) as [? Hq]. split; [done|]. intros _. apply Hq. by eauto.
    + intros rr v [= <- <-]. split; [lia|]. destruct (req_processed x) eqn:Hrq.
      * right. split; [done|]. destruct Hb as [[Hc Hle]|(Hgr & Hle & _)]; [|done].
        destruct (Hpr eq_refl) as [g Hg']. specialize (Hg g Hg'). specialize (Hle g Hg').
        split; [rewrite Hg'; f_equal; lia|lia].
      * left. split; [done|]. destruct Hb as [[Hc Hle]|(Hgr & Hle & Hrq')]; [done|].
        congruence.
  - intros i [?|Hin]; [by left; left|by apply elem_of_nil in Hin].
  - intros t ev Hne Hp. eapply pending_drop; [done| |done]. rewrite Hev. by intros <-.
Qed.

(** ** Every event keeps the invariant *)

Lemma inv_w_dispatch g it w w' :
  Inv_w [] [it] w -> q_time it = now (env w) ->
  dispatch g (q_event it) w = Ok w' -> Inv_w [] [] w'.
Proof.
  intros HI Ht H.
  destruct (q_event it) eqn:Hev; simpl in H;
    try (apply inv_drop in HI; [|by rewrite Hev]).
  - injection H as <-. done.
  - unfold patient_arrivals_start, patient_arrivals_wait in H.
    eapply inv_w_env_timeout; [done|done|]. done.
  - unfold patient_arrivals_resume, patient_arrivals_wait in H.
    eapply inv_w_env_timeout; [done|done|].
    unfold Inv_w. simpl. by apply inv_schedule_plain.
  - by eapply inv_w_patient_process.
  - by eapply inv_w_run_start.
  - by eapply inv_w_monitor_start.
  - by eapply inv_w_on_request.
  - by eapply inv_w_on_race_timeout.
  - by eapply inv_w_monitor_resume.
  - unfold on_monitor_done in H.
    destruct (races w !! r) as [x|]; [|discriminate].
    destruct (stages w !! owner x) as [hp|]; [|discriminate]. injection H as <-.
    case_decide.
    + apply inv_w_schedule_plain; [|done|done]. eapply Inv_w_frame; [..|exact HI]; done.
    + eapply Inv_w_frame; [..|exact HI]; done.
  - unfold run_service in H. destruct (stages w !! h) as [hp|]; [|discriminate].
    eapply inv_w_env_timeout; [done|done|]. eapply Inv_w_frame; [..|exact HI]; done.
  - unfold run_release in H. destruct (stages w !! h) as [hp|]; [|discriminate].
    inv_bind H. injection H as <-. apply inv_w_schedule_plain; [|done|done].
    by eapply inv_w_release_all.
  - injection H as <-. by apply inv_w_trigger_put.
  - destruct (stages w !! h) as [hp|]; [|discriminate]. by eapply inv_w_patient_process.
  - by injection H as <-.
Qed.

Lemma inv_w_step g w w' : Inv_w [] [] w -> step g w = Ok w' -> Inv_w [] [] w'.
Proof.
  intros HI H. unfold step in H.
  destruct (pop_min (queue (env w))) as [[it rest]|] eqn:Hpop; [|discriminate].
  destruct (inv_pop _ _ _ _ it rest HI Hpop) as [HI1 _].
  refine (inv_w_dispatch g it _ w' _ _ H); [exact HI1|done].
Qed.

Lemma inv_w_run g fuel : forall w w', Inv_w [] [] w -> run g fuel w = Ok w' -> Inv_w [] [] w'.
Proof.
  induction fuel as [|n IH]; simpl; intros w w' HI H.
  - by injection H as <-.
  - destruct (run_status w).
    + inv_bind H. eapply IH; [|done]. by eapply inv_w_step.
    + by injection H as <-.
Qed.

Lemma inv_w_begin_setup self w : begin_setup self = Ok w -> Inv_w [] [] w.
Proof.
  unfold begin_setup, setup_resource_environment. intros H.
  case_decide as Hcap; simpl in H; [|discriminate].
  destruct (simulation_time self <=? 0) eqn:Hu; [discriminate|]. injection H as <-.
  apply Z.leb_gt in Hu.
  apply inv_w_schedule_plain; [|done|lia]. apply inv_w_schedule_plain; [|done|done].
  unfold Inv_w. simpl. constructor.
  - intros it [Hin|Hin]; by apply elem_of_nil in Hin.
  - intros r x Hr. done.
  - constructor.
    + intros res p Hp. apply lookup_fmap_Some in Hp as (c & <- & Hc). simpl.
      specialize (Hcap res c Hc). simpl in Hcap. lia.
    + intros res p Hp. apply lookup_fmap_Some in Hp as (c & <- & Hc). simpl. constructor.
    + intros res p r Hp Hin. apply lookup_fmap_Some in Hp as (c & <- & Hc).
      by apply elem_of_nil in Hin.
    + intros r x Hr. done.
  - intros a b xa xb _ Ha. done.
  - intros a b xa xb gb _ Ha. done.
  - intros r Hin. by apply elem_of_nil in Hin.
Qed.

Lemma reachable_inv g self w : reachable g self w -> Inv_w [] [] w.
Proof.
  intros [fuel H]. unfold begin in H. inv_bind H.
  eapply inv_w_run; [|done]. by eapply inv_w_begin_setup.
Qed.

(** ** The horizon of the run *)

Lemma qle_spec a b : qle a b = true <-> key_le a b.
Proof.
  unfold qle, key_le.
  destruct (Z.ltb_spec (q_time a) (q_time b)); [split; [by left|done]|].
  destruct (Z.ltb_spec (q_time b) (q_time a)); [split; [done|lia]|].
  destruct (Z.ltb_spec (prio_num (q_prio a)) (prio_num (q_prio b)));
    [split; [right; lia|done]|].
  destruct (Z.ltb_spec (prio_num (q_prio b)) (prio_num (q_prio a)));
    [split; [done|lia]|].
  rewrite Nat.leb_le. split; [right; lia|lia].
Qed.

Lemma pop_min_qle q m rest :
  pop_min q = Some (m, rest) -> forall it, it ∈ rest -> key_le m it.
Proof.
  revert m rest. induction q as [|x q IH]; simpl; intros m rest H it Hit; [discriminate|].
  destruct (pop_min q) as [[m' rest']|] eqn:E.
  - specialize (IH _ _ eq_refl). pose proof (pop_min_perm _ _ _ E) as Hp.
    destruct (qle x m') eqn:Hle; injection H as <- <-.
    + apply qle_spec in Hle. rewrite Hp in Hit.
      apply elem_of_cons in Hit as [->|Hit]; [done|]. specialize (IH _ Hit).
      unfold key_le in *. lia.
    + assert (Hn : ~ key_le x m') by (rewrite <- qle_spec; congruence).
      apply elem_of_cons in Hit as [->|Hit]; [|by apply IH].
      unfold key_le in *. lia.
  - injection H as <- <-. by apply elem_of_nil in Hit.
Qed.

Lemma grows_refl w : grows w w.
Proof. repeat split; eauto. Qed.

Lemma grows_trans w1 w2 w3 : grows w1 w2 -> grows w2 w3 -> grows w1 w3.
Proof.
  intros (Hs & Hr & Hn & He & Hq & Hq' & Ho) (Hs' & Hr' & Hn' & He' & Hq2 & Hq2' & Ho').
  repeat split; try congruence; try lia; eauto.
  - intros it Hin. destruct (Hq2' it Hin) as [Hin'|[? ?]]; [|right; split; [lia|done]].
    destruct (Hq' it Hin') as [?|[? ?]]; eauto.
  - intros r x' t v Hr3 Ho3. destruct (Ho' r x' t v Hr3 Ho3) as [->|(x2 & Hr2 & Ho2)];
      [left; congruence|]. eauto.
Qed.

Lemma grows_frame w w' :
  sim w' = sim w -> run_status w' = run_status w -> env w' = env w ->
  races w' = races w -> grows w w'.
Proof. intros Hs Hr He Hra. unfold grows. rewrite Hs, Hr, He, Hra. apply grows_refl. Qed.

Lemma grows_schedule ev prio d w : ev <> StopEvent -> grows w (schedule ev prio d w).
Proof.
  intros Hev. repeat split; simpl; eauto.
  - intros it Hin. apply elem_of_cons. by right.
  - intros it Hin. apply elem_of_cons in Hin as [->|?]; [right|by left]. simpl. done.
Qed.

Lemma grows_env_timeout ev d w w' :
  ev <> StopEvent -> env_timeout ev d w = Ok w' -> grows w w'.
Proof.
  unfold env_timeout. intros Hev H. destruct (d <? 0); [discriminate|].
  injection H as <-. by apply grows_schedule.
Qed.

Lemma grows_set_race r f w :
  (forall x, outcome (f x) = outcome x \/ exists v, outcome (f x) = Some (now (env w), v)) ->
  grows w (set_race r f w).
Proof.
  intros Hf. repeat split; simpl; eauto.
  intros r0 x' t v Hr0 Ho. destruct (races w !! r) as [x|] eqn:Hr; [|by eauto].
  apply insert_lookup_back in Hr0 as [(-> & -> & _)|[_ Hr0]]; [|by eauto].
  destruct (Hf x) as [He|[v' He]]; rewrite He in Ho; [by eauto|].
  injection Ho as <- <-. by left.
Qed.

Lemma grows_new_race res h w :
  grows w (set_races (fun rs => rs ++ [new_race res h (now (env w))]) w).
Proof.
  repeat split; simpl; eauto.
  intros r x' t v Hr Ho. apply lookup_app_Some in Hr as [?|[_ Hr]]; [by eauto|].
  apply list_lookup_singleton_Some in Hr as [_ <-]. done.
Qed.

Ltac grows_tac :=
  repeat match goal with
    | |- grows ?w ?w => apply grows_refl
    | |- grows ?w (schedule _ _ _ ?W) =>
        apply (grows_trans w W); [|apply grows_schedule; discriminate]
    | |- grows ?w (set_race ?r ?f ?W) =>
        apply (grows_trans w W);
        [|apply grows_set_race; intros ?; simpl; first [by left|right; eexists; reflexivity]]
    | |- grows ?w (set_stage _ _ ?W) => apply (grows_trans w W); [|by apply grows_frame]
    | |- grows ?w (set_stages _ ?W) => apply (grows_trans w W); [|by apply grows_frame]
    | |- grows ?w (set_patients _ ?W) => apply (grows_trans w W); [|by apply grows_frame]
    | |- grows ?w (set_resources _ ?W) => apply (grows_trans w W); [|by apply grows_frame]
    | |- grows ?w (set_np_calls _ ?W) => apply (grows_trans w W); [|by apply grows_frame]
    | |- grows ?w (set_random_calls _ ?W) => apply (grows_trans w W); [|by apply grows_frame]
    | |- grows ?w (set_patient_id _ ?W) => apply (grows_trans w W); [|by apply grows_frame]
    end.

Lemma grows_trigger_put res w : grows w (_trigger_put res w).
Proof. unfold _trigger_put. repeat case_match; grows_tac. Qed.

Lemma grows_request res h w r w' : request res h w = Ok (r, w') -> grows w w'.
Proof.
  unfold request. destruct (resources w !! res); [|discriminate]. intros [= <- <-].
  eapply grows_trans; [|apply grows_trigger_put]. grows_tac. apply grows_new_race.
Qed.

Lemma grows_make_requests names h : forall w store w',
  make_requests names h w = Ok (store, w') -> grows w w'.
Proof.
  induction names as [|res names IH]; simpl; intros w store w' H.
  - injection H as <- <-. apply grows_refl.
  - inv_bind H. destruct a as [r w1]. inv_bind H. destruct a as [rs w2].
    injection H as <- <-. eapply grows_trans; [by eapply grows_request|by eapply IH].
Qed.

Lemma grows_spawn_monitors store : forall w, grows w (spawn_monitors store w).
Proof.
  unfold spawn_monitors. induction store as [|r store IH]; simpl; intros w.
  - apply grows_refl.
  - eapply grows_trans; [|apply IH]. grows_tac.
Qed.

Lemma grows_release res r w w' : release res r w = Ok w' -> grows w w'.
Proof.
  unfold release. destruct (resources w !! res); [|discriminate]. intros [= <-]. grows_tac.
Qed.

Lemma grows_release_all l : forall w w', release_all l w = Ok w' -> grows w w'.
Proof.
  induction l as [|[res r] l IH]; simpl; intros w w' H.
  - injection H as <-. apply grows_refl.
  - inv_bind H. eapply grows_trans; [by eapply grows_release|by eapply IH].
Qed.

Lemma grows_any_of_check r w : grows w (any_of_check r w).
Proof. unfold any_of_check. repeat case_match; grows_tac. Qed.

Lemma grows_patient_process p w w' : patient_process p w = Ok w' -> grows w w'.
Proof.
  unfold patient_process. intros H.
  repeat case_match; try discriminate; injection H as <-; grows_tac.
Qed.

Lemma grows_dispatch g ev w w' :
  ev <> StopEvent -> dispatch g ev w = Ok w' -> grows w w'.
Proof.
  intros Hev H. destruct ev; simpl in H; try done.
  - unfold patient_arrivals_start, patient_arrivals_wait in H.
    eapply grows_trans; [|eapply grows_env_timeout; [|exact H]; discriminate]. grows_tac.
  - unfold patient_arrivals_resume, patient_arrivals_wait in H.
    eapply grows_trans; [|eapply grows_env_timeout; [|exact H]; discriminate]. grows_tac.
  - by eapply grows_patient_process.
  - unfold run_start in H. destruct (stages w !! h); [|discriminate].
    inv_bind H. destruct a as [store w1]. injection H as <-.
    apply grows_make_requests in Ha.
    apply (grows_trans w (set_stage h hp_clear_waits w)); [grows_tac|].
    apply (grows_trans _ w1); [exact Ha|].
    apply (grows_trans _ (spawn_monitors store (set_stage h (hp_set_request_store store) w1))).
    + eapply grows_trans; [|apply grows_spawn_monitors]. grows_tac.
    + destruct store; grows_tac.
  - unfold request_resource_and_monitor_time_start in H.
    destruct (races w !! r); [|discriminate]. inv_bind H. injection H as <-.
    apply grows_env_timeout in Ha; [|done].
    apply (grows_trans w (set_race r (race_start (now (env w))) w)); [grows_tac|].
    apply (grows_trans _ a); [exact Ha|].
    case_match; [apply grows_any_of_check|apply grows_refl].
  - unfold on_request in H. destruct (races w !! r); [|discriminate]. injection H as <-.
    case_match; [eapply grows_trans; [|apply grows_any_of_check]|]; grows_tac.
  - unfold on_race_timeout in H. injection H as <-.
    eapply grows_trans; [|apply grows_any_of_check]. grows_tac.
  - unfold request_resource_and_monitor_time_resume in H.
    destruct (races w !! r); [|discriminate].
    destruct (start_time _); [|discriminate]. injection H as <-. grows_tac.
  - unfold on_monitor_done in H. destruct (races w !! r); [|discriminate].
    destruct (stages w !! _); [|discriminate]. injection H as <-.
    case_decide; grows_tac.
  - unfold run_service in H. destruct (stages w !! h); [|discriminate].
    eapply grows_trans; [|eapply grows_env_timeout; [|exact H]; discriminate]. grows_tac.
  - unfold run_release in H. destruct (stages w !! h); [|discriminate].
    inv_bind H. injection H as <-. apply grows_release_all in Ha.
    eapply grows_trans; [exact Ha|]. grows_tac.
  - injection H as <-. apply grows_trigger_put.
  - destruct (stages w !! h); [|discriminate]. by eapply grows_patient_process.
  - injection H as <-. apply grows_refl.
Qed.

Lemma horizon_grows w w' :
  horizon_ok w -> run_status w = Running -> grows w w' -> horizon_ok w'.
Proof.
  intros [He Hs Ho Hr Hf Hout] Hrun (Hsim & Hst & Hn & Heid & Hq & Hq' & Hout').
  destruct (Hr Hrun) as [Hnow (stop & Hstop & Hev)].
  constructor; rewrite ?Hsim, ?Hst, ?Hn.
  - lia.
  - intros it Hin Hit. destruct (Hq' it Hin) as [?|[_ ?]]; [by eauto|done].
  - intros it Hin Hit. destruct (Hq' it Hin) as [?|[? _]]; [by eauto|right; lia].
  - intros _. split; [done|]. exists stop. eauto.
  - congruence.
  - intros r x t v Hx Hox. destruct (Hout' r x t v Hx Hox) as [->|(x0 & ? & ?)];
      [done|by eauto].
Qed.

Lemma horizon_step g w w' :
  horizon_ok w -> run_status w = Running -> step g w = Ok w' -> horizon_ok w'.
Proof.
  intros Hh Hrun H. unfold step in H.
  destruct (pop_min (queue (env w))) as [[it rest]|] eqn:Hpop; [|discriminate].
  pose proof Hh as [He Hs Ho Hr Hf Hout].
  destruct (Hr Hrun) as [Hnow (stop & Hstop & Hev)].
  assert (Hit : it ∈ queue (env w)) by (apply (pop_min_elem _ _ _ _ Hpop); by left).
  assert (Hrest : forall i, i ∈ rest -> i ∈ queue (env w)).
  { intros i ?. apply (pop_min_elem _ _ _ _ Hpop). by right. }
  set (w1 := set_trace (cons it) (set_env (fun e => Env (q_time it) rest (eid e)) w)) in *.
  destruct (decide (q_event it = StopEvent)) as [Hstopped|Hother].
  - rewrite Hstopped in H. simpl in H. injection H as <-.
    constructor; simpl; try done; eauto.
    intros _. by apply Hs.
  - assert (Hin : stop ∈ rest).
    { apply (pop_min_elem _ _ _ _ Hpop) in Hstop as [->|?]; [done|done]. }
    assert (Hlt : q_time it < simulation_time (sim w)).
    { pose proof (pop_min_qle _ _ _ Hpop stop Hin) as Hle.
      destruct (Hs stop Hstop Hev) as (Ht & Hp & Hid).
      destruct (Ho it Hit Hother) as [?|?]; [done|].
      unfold key_le in Hle. rewrite Ht, Hp, Hid in Hle. simpl in Hle.
      destruct (q_prio it); simpl in Hle; lia. }
    assert (Hh1 : horizon_ok w1).
    { constructor; simpl; try done; eauto. congruence. }
    pose proof (grows_dispatch g _ w1 w' Hother H) as Hg.
    by eapply horizon_grows.
Qed.

Lemma horizon_run g fuel : forall w w',
  horizon_ok w -> run g fuel w = Ok w' -> horizon_ok w'.
Proof.
  induction fuel as [|n IH]; simpl; intros w w' Hh H.
  - by injection H as <-.
  - destruct (run_status w) eqn:Hrun.
    + inv_bind H. eapply IH; [|done]. by eapply horizon_step.
    + by injection H as <-.
Qed.

Lemma horizon_begin_setup self w : begin_setup self = Ok w -> horizon_ok w.
Proof.
  unfold begin_setup, setup_resource_environment. intros H.
  case_decide as Hcap; simpl in H; [|discriminate].
  destruct (simulation_time self <=? 0) eqn:Hu; [discriminate|]. injection H as <-.
  apply Z.leb_gt in Hu. constructor; simpl; try done.
  - intros it Hin Hev. apply elem_of_cons in Hin as [->|Hin]; [done|].
    apply list_elem_of_singleton in Hin as ->. done.
  - intros it Hin Hev. apply elem_of_cons in Hin as [->|Hin]; [done|].
    apply list_elem_of_singleton in Hin as ->. simpl. left. lia.
  - intros _. split; [lia|]. eexists. split; [apply elem_of_cons; by left|done].
Qed.

Lemma reachable_horizon g self w : reachable g self w -> horizon_ok w.
Proof.
  intros [fuel H]. unfold begin in H. inv_bind H.
  eapply horizon_run; [|done]. by eapply horizon_begin_setup.
Qed.

(** * The claims *)

Lemma reachable_world_after g fuel self :
  is_Ok (begin g fuel self) = true ->
  reachable g self (world_after g fuel self).
Proof.
  intros H. exists fuel. unfold world_after. by destruct (begin g fuel self).
Qed.

(** C3: in every state of a run, every resource pool holds between 0 and
    [capacity] requests: 0 <= heldCount <= capacity. *)
Theorem C3_held_count_within_capacity g self w res p :
  reachable g self w -> resources w !! res = Some p ->
  0 <= held_count p <= capacity p.
Proof.
  intros Hw Hp. apply reachable_inv in Hw. destruct Hw as [_ _ [Hc _ _ _] _ _ _].
  specialize (Hc res p Hp). unfold held_count. lia.
Qed.

Lemma C3_witness :
  reachable rng_a sim_a (world_after rng_a 14 sim_a) /\
  resources (world_after rng_a 14 sim_a) !! "R" = Some (MkResource 1 [0%nat] [1%nat]) /\
  0 <= held_count (MkResource 1 [0%nat] [1%nat]) <= capacity (MkResource 1 [0%nat] [1%nat]).
Proof.
  assert (Hw : reachable rng_a sim_a (world_after rng_a 14 sim_a)).
  { apply reachable_world_after. vm_compute. reflexivity. }
  assert (Hp : resources (world_after rng_a 14 sim_a) !! "R"
               = Some (MkResource 1 [0%nat] [1%nat])).
  { vm_compute. reflexivity. }
  split; [exact Hw|]. split; [exact Hp|].
  exact (C3_held_count_within_capacity rng_a sim_a _ "R" _ Hw Hp).
Defined.

(** ** C2: the stage releases every request *)

Lemma release_queue res r w w' :
  release res r w = Ok w' ->
  now (env w') = now (env w) /\ stages w' = stages w /\
  queue (env w') = QItem (now (env w) + 0) NORMAL (eid (env w)) (ReleaseEv res r)
                     :: queue (env w).
Proof.
  unfold release. destruct (resources w !! res); [|discriminate]. by intros [= <-].
Qed.

Lemma release_all_queue l : forall w w',
  release_all l w = Ok w' ->
  now (env w') = now (env w) /\
  (forall it, it ∈ queue (env w) -> it ∈ queue (env w')) /\
  forall res r, (res, r) ∈ l ->
    exists it, it ∈ queue (env w') /\ q_event it = ReleaseEv res r /\
               q_time it = now (env w).
Proof.
  induction l as [|[res0 r0] l IH]; simpl; intros w w' H.
  - injection H as <-. split; [done|]. split; [done|].
    intros res r Hin. by apply elem_of_nil in Hin.
  - inv_bind H. destruct (release_queue _ _ _ _ Ha) as (Hn & _ & Hq).
    destruct (IH _ _ H) as (Hn' & Hsub & Hall).
    split; [congruence|]. split.
    + intros it Hin. apply Hsub. rewrite Hq. apply elem_of_cons. by right.
    + intros res r Hin. apply elem_of_cons in Hin as [[= -> ->]|Hin].
      * eexists. split; [apply Hsub; rewrite Hq; apply elem_of_cons; by left|].
        simpl. split; [done|lia].
      * destruct (Hall res r Hin) as (it & ? & ? & ?). exists it.
        split; [done|]. split; [done|]. congruence.
Qed.

(** C2, as the code has it: after the service delay the stage calls release
    for every resource it requested, with the request it made, whatever the
    outcome of that request's race: a Release event is scheduled for each
    pair of zip(resource_names, request_store). *)
Theorem C2_run_releases_every_request h w w' hp res r :
  stages w !! h = Some hp -> run_release h w = Ok w' ->
  (res, r) ∈ zip (resource_names hp) (request_store hp) ->
  exists it, it ∈ queue (env w') /\ q_event it = ReleaseEv res r /\
             q_time it = now (env w).
Proof.
  intros Hh H Hin. unfold run_release in H. rewrite Hh in H. inv_bind H.
  injection H as <-. destruct (release_all_queue _ _ _ Ha) as (_ & _ & Hall).
  destruct (Hall res r Hin) as (it & ? & ? & ?). exists it.
  split; [|done]. simpl. apply elem_of_cons. by right.
Qed.

Lemma C2_witness :
  let w := world_after rng_b 19 sim_b in
  let hp := MkHospitalProcess "Patient Patient 1 - S" ["R"] 20000 50000
              {[ "R" := PyInf ]} (Some 20000) [1%nat] 1 1 in
  let w' := match run_release 1 w with Ok w' => w' | Raise _ => w end in
  stages w !! 1%nat = Some hp /\ run_release 1 w = Ok w' /\
  ("R", 1%nat) ∈ zip (resource_names hp) (request_store hp) /\
  exists it, it ∈ queue (env w') /\ q_event it = ReleaseEv "R" 1 /\
             q_time it = now (env w).
Proof.
  intros w hp w'.
  assert (Hh : stages w !! 1%nat = Some hp) by (vm_compute; reflexivity).
  assert (Hr : run_release 1 w = Ok w') by (vm_compute; reflexivity).
  assert (Hin : ("R", 1%nat) ∈ zip (resource_names hp) (request_store hp)).
  { simpl. apply elem_of_cons. by left. }
  split; [exact Hh|]. split; [exact Hr|]. split; [exact Hin|].
  exact (C2_run_releases_every_request 1 w w' hp "R" 1 Hh Hr Hin).
Defined.

(** C2 fails as stated.  Run B: the request of patient 1 times out at 10010
    and is never granted while its stage runs, yet at 30010, after the
    service, the stage releases it. *)
Lemma C2_counterexample :
  let w := world_after rng_b 20 sim_b in
  reachable rng_b sim_b w /\
  exists x, races w !! 1%nat = Some x /\ owner x = 1%nat /\
            timed_out x /\ granted x = None /\
            dispatched w (ReleaseEv "R" 1).
Proof.
  split; [apply reachable_world_after; vm_compute; reflexivity|].
  exists (MkRace "R" 1 10 None false (Some 10) true true (Some (10010, PyInf))).
  split; [vm_compute; reflexivity|]. split; [done|]. split; [by exists 10010|].
  split; [done|]. apply dispatched_events. vm_compute. in_list.
Qed.

(** ** C4: first come, first resolved *)

(** C4: of two requests on the same pool, the one made first has its outcome
    (granted or timed out) resolved at a virtual time no later than the
    other's.  In a state where [b] is resolved, at [tb], the earlier request
    [a] is resolved at some [ta <= tb], or it is about to be: the run has
    not ended and its clock still stands at [tb].  So [a] is never resolved
    later than [b], and at the end of the run it is resolved if [b] is.  The
    pool need not even be saturated. *)
Theorem C4_fifo_resolution g self w a b xa xb tb vb :
  reachable g self w ->
  (a < b)%nat -> races w !! a = Some xa -> races w !! b = Some xb ->
  res_name xa = res_name xb ->
  outcome xb = Some (tb, vb) ->
  (exists ta va, outcome xa = Some (ta, va) /\ ta <= tb)
  \/ (outcome xa = None /\ now (env w) = tb /\ run_status w = Running).
Proof.
  intros Hw Hab Ha Hb Hres Hob.
  pose proof (reachable_horizon _ _ _ Hw) as [_ _ _ _ Hfin Hhz].
  apply reachable_inv in Hw.
  destruct Hw as [Hit Hra _ Hmo Hfi _].
  pose proof (Hmo a b xa xb Hab Ha Hb) as Hen.
  destruct (Hra b xb Hb) as [_ _ _ _ _ _ _ _ _ Houtb].
  destruct (Houtb tb vb Hob) as [Hnb Hb'].
  destruct (Hra a xa Ha) as [Hea Hga Hpra Hrpa Hnsa Hsta Htpa Huna Hapa Houta].
  assert (Hq : forall t ev, pending [] (queue (env w)) t ev -> now (env w) <= t).
  { intros t ev (it & [Hin|Hin] & <- & _); [|by apply elem_of_nil in Hin].
    by destruct (Hit it (or_introl Hin)). }
  assert (Hanyof : forall c, pending [] (queue (env w)) c (AnyOf a) ->
                     c <= enqueue_time xa + 10000 /\
                     forall ga, granted xa = Some ga -> c <= ga).
  { intros c (it & [Hin|Hin] & <- & Hev); [|by apply elem_of_nil in Hin].
    destruct (Hit it (or_introl Hin)) as [_ Hk]. rewrite Hev in Hk.
    destruct Hk as (x & Hx & _ & Hbd). assert (x = xa) as -> by congruence.
    destruct Hbd as [[-> Hle]|(Hg & Hle & _)].
    - split; [lia|done].
    - split; [done|]. intros ga Hga'. rewrite Hg in Hga'. injection Hga' as <-. lia. }
  (* a bound on the time at which [a] is, or will be, resolved *)
  assert (Hbound : exists bound, bound <= tb /\
            bound <= enqueue_time xa + 10000 /\
            (bound = enqueue_time xa + 10000 \/ granted xa = Some bound)).
  { destruct Hb' as [(_ & -> & _)|(_ & Hgb & _)].
    - exists (enqueue_time xa + 10000). split; [lia|]. split; [lia|by left].
    - destruct (Hfi a b xa xb tb Hab Ha Hb Hres Hgb) as (ga & Hga' & Hle).
      destruct (decide (ga <= enqueue_time xa + 10000)).
      + exists ga. split; [done|]. split; [done|by right].
      + exists (enqueue_time xa + 10000). split; [lia|]. split; [lia|by left]. }
  destruct Hbound as (bound & Hbt & Hbe & Hbg).
  destruct (outcome xa) as [[ta va]|] eqn:Hoa.
  - left. exists ta, va. split; [done|].
    destruct (Houta ta va eq_refl) as [_ [(_ & -> & Hle)|(_ & Hg & Hle)]].
    + destruct Hbg as [->|Hg]; [done|]. specialize (Hle _ Hg). lia.
    + destruct Hbg as [->|Hg']; [lia|]. rewrite Hg in Hg'. injection Hg' as <-. done.
  - right. split; [done|].
    assert (Hnow : now (env w) = tb); [|split; [done|]].
    2:{ destruct (run_status w); [done|]. specialize (Hfin eq_refl).
        specialize (Hhz b xb tb vb Hb Hob). lia. }
    assert (now (env w) <= bound); [|lia].
    destruct (start_time xa) eqn:Hs.
    + destruct (cond_triggered xa) eqn:Hc.
      * destruct (Hapa eq_refl eq_refl) as [c Hp]. pose proof (Hq _ _ Hp).
        destruct (Hanyof c Hp) as [Hc1 Hc2].
        destruct Hbg as [->|Hg]; [lia|]. specialize (Hc2 _ Hg). lia.
      * destruct (Huna eq_refl) as [Htf Hrf].
        destruct Hbg as [->|Hg].
        -- eapply Hq. apply Htpa; [by eauto|done].
        -- eapply Hq. apply (Hrpa _ Hg). apply Hrf. by eauto.
    + destruct (Hnsa eq_refl) as (_ & _ & [[Hin _]|Hp]); [by apply elem_of_nil in Hin|].
      pose proof (Hq _ _ Hp). destruct Hbg as [->|Hg]; [lia|].
      specialize (Hga _ Hg). lia.
Qed.

Lemma C4_witness :
  let w := world_after rng_c 41 sim_c in
  let xa := MkRace "R" 1 10 (Some 55) true (Some 10) true true (Some (55, PyNum 45)) in
  let xb := MkRace "R" 2 15 (Some 105) true (Some 15) true true (Some (105, PyNum 90)) in
  reachable rng_c sim_c w /\ (1 < 2)%nat /\
  races w !! 1%nat = Some xa /\ races w !! 2%nat = Some xb /\
  res_name xa = res_name xb /\ outcome xb = Some (105, PyNum 90) /\
  ((exists ta va, outcome xa = Some (ta, va) /\ ta <= 105)
   \/ (outcome xa = None /\ now (env w) = 105 /\ run_status w = Running)).
Proof.
  intros w xa xb.
  assert (Hw : reachable rng_c sim_c w).
  { apply reachable_world_after. vm_compute. reflexivity. }
  assert (Ha : races w !! 1%nat = Some xa) by (vm_compute; reflexivity).
  assert (Hb : races w !! 2%nat = Some xb) by (vm_compute; reflexivity).
  assert (Hlt : (1 < 2)%nat) by lia.
  split; [exact Hw|]. split; [exact Hlt|]. split; [exact Ha|]. split; [exact Hb|].
  split; [reflexivity|]. split; [reflexivity|].
  exact (C4_fifo_resolution rng_c sim_c w 1 2 xa xb 105 (PyNum 90)
           Hw Hlt Ha Hb eq_refl eq_refl).
Defined.

(** ** C5: the patient log *)

(** C5 fails on the code: nothing appends to patient_log_data.  Run W has
    no warm-up (warmup_period = 0): the patients arrive at 5 and at 10, both
    after the warm-up, patient 0 completes its last stage at 25 and patient
    1 at 45, and the run ends at 100000 with the log as empty as __init__
    left it. *)
Theorem C5_patient_log_stays_empty :
  let w := world_after rng_a 28 sim_w in
  let events := (fun it => (q_time it, q_event it)) <$> trace w in
  reachable rng_a sim_w w /\ run_status w = Finished /\
  warmup_period (sim w) = 0 /\
  (5, InitPatient 0) ∈ events /\ (25, PatientDone 0) ∈ events /\
  (10, InitPatient 1) ∈ events /\ (45, PatientDone 1) ∈ events /\
  patient_log_data (sim w) = [] /\ snd (data_collation (sim w)) = [].
Proof.
  split; [apply reachable_world_after; vm_compute; reflexivity|].
  split; [vm_compute; reflexivity|]. split; [vm_compute; reflexivity|].
  split; [vm_compute; in_list|]. split; [vm_compute; in_list|].
  split; [vm_compute; in_list|]. split; [vm_compute; in_list|].
  split; vm_compute; reflexivity.
Qed.

(** ** C10: the busy times *)

(** C10: resource_busy_time maps every resource to 0 once __init__ has run,
    and in every state of a run it is that same dictionary. *)
Theorem C10_busy_time_stays_zero rd pl lpl wp u s g w res :
  SimpySimulation_init rd pl lpl wp u = Ok s ->
  is_Some (rd !! res) ->
  reachable g s w ->
  resource_busy_time s !! res = Some 0 /\
  resource_busy_time (sim w) = resource_busy_time s /\
  resource_busy_time (sim w) !! res = Some 0.
Proof.
  intros [= <-] [c Hc] [fuel Hw]. apply begin_sim in Hw. rewrite Hw. simpl.
  rewrite lookup_fmap, Hc. done.
Qed.

Lemma C10_witness :
  let rd : gmap string Z := {[ "R" := 1 ]} in
  let s := MkSim rd 0 [MkProcess "S" ["R"] (50, 50)] [] [] ((fun _ => 0) <$> rd) 100000 in
  let w := world_after rng_c 41 s in
  SimpySimulation_init rd [MkProcess "S" ["R"] (50, 50)] [] 0 100000 = Ok s /\
  is_Some (rd !! "R") /\ reachable rng_c s w /\
  resource_busy_time s !! "R" = Some 0 /\
  resource_busy_time (sim w) = resource_busy_time s /\
  resource_busy_time (sim w) !! "R" = Some 0.
Proof.
  intros rd s w.
  assert (Hs : SimpySimulation_init rd [MkProcess "S" ["R"] (50, 50)] [] 0 100000 = Ok s)
    by reflexivity.
  assert (Hr : is_Some (rd !! "R")) by (exists 1; vm_compute; reflexivity).
  assert (Hw : reachable rng_c s w).
  { apply reachable_world_after. vm_compute. reflexivity. }
  split; [exact Hs|]. split; [exact Hr|]. split; [exact Hw|].
  exact (C10_busy_time_stays_zero rd _ _ _ _ s rng_c w "R" Hs Hr Hw).
Defined.

(** ** C8: nothing is validated at construction *)

(** C8, as the code has it: constructing a SimpySimulation succeeds for
    every configuration and stores it unchecked, with an empty log; when a
    capacity is zero or negative it is begin() that raises, the ValueError
    of simpy.Resource, before any event is dispatched. *)
Theorem C8_construction_is_unchecked rd pl lpl wp u :
  exists s, SimpySimulation_init rd pl lpl wp u = Ok s /\
    resource_dict s = rd /\ process_list s = pl /\ simulation_time s = u /\
    patient_log_data s = [] /\
    (has_nonpositive_capacity rd ->
     forall g fuel, exists msg, begin g fuel s = Raise (ValueError msg)).
Proof.
  eexists. split; [reflexivity|]. simpl. do 4 (split; [done|]).
  intros (res & c & Hc & Hle) g fuel. unfold begin, begin_setup, setup_resource_environment.
  simpl. case_decide as Hall; simpl; [|by eauto].
  specialize (Hall res c Hc). simpl in Hall. lia.
Qed.

Lemma C8_witness :
  let rd : gmap string Z := {[ "R" := 0 ]} in
  has_nonpositive_capacity rd /\
  exists s, SimpySimulation_init rd [] [] 0 10 = Ok s /\
    resource_dict s = rd /\ process_list s = [] /\ simulation_time s = 10 /\
    patient_log_data s = [] /\
    (has_nonpositive_capacity rd ->
     forall g fuel, exists msg, begin g fuel s = Raise (ValueError msg)).
Proof.
  intros rd.
  assert (H : has_nonpositive_capacity rd).
  { exists "R", 0. split; [vm_compute; reflexivity|lia]. }
  split; [exact H|]. exact (C8_construction_is_unchecked rd [] [] 0 10).
Defined.

(** C8 fails as stated.  A configuration with a stage that names a resource
    the pool does not have, a capacity of zero, and a service range with
    min > max is constructed without any exception. *)
Lemma C8_counterexample :
  let rd : gmap string Z := {[ "R" := 0 ]} in
  let pl := [MkProcess "S" ["X"] (5, 1)] in
  references_absent_resource rd pl /\ has_nonpositive_capacity rd /\
  has_inverted_range pl /\ invalid_configuration rd pl /\
  exists s, SimpySimulation_init rd pl [] default_warmup_period default_until = Ok s /\
            forall e, SimpySimulation_init rd pl [] default_warmup_period default_until
                      <> Raise e.
Proof.
  intros rd pl.
  assert (H1 : references_absent_resource rd pl).
  { exists (MkProcess "S" ["X"] (5, 1)), "X".
    split; [apply elem_of_cons; by left|]. split; [apply elem_of_cons; by left|].
    vm_compute. reflexivity. }
  assert (H2 : has_nonpositive_capacity rd).
  { exists "R", 0. split; [vm_compute; reflexivity|lia]. }
  assert (H3 : has_inverted_range pl).
  { exists (MkProcess "S" ["X"] (5, 1)). split; [apply elem_of_cons; by left|]. simpl. lia. }
  split; [done|]. split; [done|]. split; [done|]. split; [by left|].
  eexists. split; [reflexivity|]. intros e. discriminate.
Qed.

(** ** C9: the optimiser's result *)

Lemma read_values_ok vals : forall keys,
  (forall key, key ∈ keys -> is_Some (vals !! key)) ->
  exists alloc, LinearOptimisationProblem.read_values keys vals = Ok alloc /\ fst <$> alloc = keys /\
    forall key z, (key, z) ∈ alloc -> exists q, vals !! key = Some q /\ z = LinearOptimisationProblem.py_int q.
Proof.
  induction keys as [|key keys IH]; simpl; intros H.
  - exists []. split; [done|]. split; [done|]. intros k z Hin. by apply elem_of_nil in Hin.
  - destruct (H key) as [q Hq]; [by left|]. rewrite Hq.
    destruct IH as (alloc & -> & Hk & Hal); [intros k Hk; apply H; by right|]. simpl.
    eexists. split; [done|]. split; [by rewrite fmap_cons, Hk|].
    intros k z [Heq|Hin]%elem_of_cons; [injection Heq as -> ->; by exists q|by apply Hal].
Qed.

(** int() truncates towards zero, which keeps a value between integer
    bounds. *)
Lemma py_int_bounds (q : Q) (lb ub : Z) :
  (inject_Z lb <= q)%Q -> (q <= inject_Z ub)%Q -> lb <= LinearOptimisationProblem.py_int q <= ub.
Proof.
  unfold Qle, LinearOptimisationProblem.py_int, inject_Z. destruct q as [n d]. simpl. intros Hl Hu.
  pose proof (Z.quot_rem' n (Z.pos d)) as Hqr.
  set (k := n ÷ Z.pos d) in *. set (r := Z.rem n (Z.pos d)) in *.
  assert (Hd : 0 < Z.pos d) by lia.
  assert (Hr : (n < 0 /\ - Z.pos d < r <= 0) \/ (0 <= n /\ 0 <= r < Z.pos d)).
  { destruct (Z_lt_le_dec n 0) as [Hn|Hn]; [left|right]; (split; [done|]).
    - apply Z.rem_bound_pos_neg; lia.
    - apply Z.rem_bound_pos; lia. }
  split.
  - apply Z.lt_succ_r. apply (Z.mul_lt_mono_pos_l (Z.pos d)); [done|]. lia.
  - apply Z.lt_succ_r. apply (Z.mul_lt_mono_pos_l (Z.pos d)); [done|]. lia.
Qed.

Lemma value_of_read vals : forall keys alloc key q,
  LinearOptimisationProblem.read_values keys vals = Ok alloc -> key ∈ keys -> vals !! key = Some q ->
  LinearOptimisationProblem.value_of alloc key = Some (LinearOptimisationProblem.py_int q).
Proof.
  induction keys as [|k keys IH]; simpl; intros alloc key q H Hin Hq;
    [by apply elem_of_nil in Hin|].
  destruct (vals !! k) as [qk|] eqn:Hk; [|done].
  destruct (LinearOptimisationProblem.read_values keys vals) as [al|] eqn:Hal; [|done].
  simpl in H. injection H as <-. simpl. case_decide as Heq.
  - subst. congruence.
  - apply elem_of_cons in Hin as [->|Hin]; [done|]. by eapply IH.
Qed.

Lemma py_int_le (q : Q) : (0 <= q)%Q -> (inject_Z (LinearOptimisationProblem.py_int q) <= q)%Q.
Proof.
  unfold Qle, LinearOptimisationProblem.py_int, inject_Z. destruct q as [n d]. simpl. intros Hn.
  rewrite Z.mul_1_r in *. rewrite Z.mul_comm. apply Z.mul_quot_le; lia.
Qed.

(** int() of an integer is that integer. *)
Lemma py_int_integer (q : Q) (z : Z) :
  (q == inject_Z z)%Q -> (inject_Z (LinearOptimisationProblem.py_int q) == q)%Q.
Proof.
  unfold Qeq, LinearOptimisationProblem.py_int, inject_Z. destruct q as [n d]. simpl.
  intros H. rewrite Z.mul_1_r in *. rewrite H. by rewrite Z.quot_mul by lia.
Qed.

(** The cost of a truncated value is at most the cost of the value, when the
    value is an integer or neither it nor its cost is negative. *)
Lemma read_values_cost cost vals : forall keys alloc,
  LinearOptimisationProblem.read_values keys vals = Ok alloc ->
  (forall key q, key ∈ keys -> vals !! key = Some q ->
     (exists z, (q == inject_Z z)%Q) \/ (0 <= default 0 (cost !! key) /\ (0 <= q)%Q)) ->
  (inject_Z (LinearOptimisationProblem.total_cost cost alloc) <= solver_cost cost vals keys)%Q.
Proof.
  induction keys as [|key keys IH]; simpl; intros alloc H Hq.
  - injection H as <-. simpl. apply Qle_refl.
  - destruct (vals !! key) as [q|] eqn:Hk; [|done].
    destruct (LinearOptimisationProblem.read_values keys vals) as [al|] eqn:Hal; [|done].
    simpl in H. injection H as <-. simpl.
    rewrite inject_Z_plus, inject_Z_mult. apply Qplus_le_compat.
    + destruct (Hq key q) as [[z Hz]|[Hc Hpos]]; [by left|done| |].
      * rewrite (py_int_integer q z Hz). apply Qle_refl.
      * rewrite (Qmult_comm _ (inject_Z (LinearOptimisationProblem.py_int q))), (Qmult_comm _ q).
        apply Qmult_le_compat_r; [by apply py_int_le|].
        change 0%Q with (inject_Z 0). by rewrite <- Zle_Qle.
    + apply IH; [done|]. intros k q' Hin. apply Hq. by right.
Qed.




(** * Further properties of the run *)

(** ** The clock *)

Lemma run_add g a : forall b w,
  run g (a + b) w = run g a w ≫= run g b.
Proof.
  induction a as [|a IH]; simpl; intros b w; [done|].
  destruct (run_status w) eqn:Hs.
  - destruct (step g w) as [w1|e]; simpl; [apply IH|done].
  - simpl. destruct b; simpl; [done|]. by rewrite Hs.
Qed.

Lemma dispatch_now g ev w w' : dispatch g ev w = Ok w' -> now (env w') = now (env w).
Proof.
  intros H. destruct (decide (ev = StopEvent)) as [->|Hev].
  - simpl in H. by injection H as <-.
  - by destruct (grows_dispatch g ev w w' Hev H) as (_ & _ & ? & _).
Qed.

Lemma step_now g w w' :
  Inv_w [] [] w -> step g w = Ok w' -> now (env w) <= now (env w').
Proof.
  intros HI H. unfold step in H.
  destruct (pop_min (queue (env w))) as [[it rest]|] eqn:Hpop; [|discriminate].
  destruct (inv_pop _ _ _ _ it rest HI Hpop) as [_ Hle].
  apply dispatch_now in H. simpl in H. lia.
Qed.

Lemma run_now g fuel : forall w w',
  Inv_w [] [] w -> run g fuel w = Ok w' -> now (env w) <= now (env w').
Proof.
  induction fuel as [|n IH]; simpl; intros w w' HI H.
  - injection H as <-. lia.
  - destruct (run_status w).
    + inv_bind H. pose proof (step_now g w a HI Ha).
      pose proof (inv_w_step g w a HI Ha) as HI'. specialize (IH a w' HI' H). lia.
    + injection H as <-. lia.
Qed.

(** X1: the virtual clock never goes back: of two states of one run, the one
    reached after more events has the later (or the same) time. *)
Theorem clock_is_monotone g self fuel1 fuel2 w1 w2 :
  (fuel1 <= fuel2)%nat ->
  begin g fuel1 self = Ok w1 -> begin g fuel2 self = Ok w2 ->
  now (env w1) <= now (env w2).
Proof.
  intros Hle H1 H2. replace fuel2 with (fuel1 + (fuel2 - fuel1))%nat in H2 by lia.
  unfold begin in *. destruct (begin_setup self) as [w0|] eqn:H0; [|discriminate].
  simpl in *. rewrite run_add, H1 in H2. simpl in H2.
  eapply run_now; [|exact H2].
  apply (reachable_inv g self). exists fuel1. unfold begin. by rewrite H0.
Qed.

(** ** What the pool and queue operations leave alone *)

Lemma same_objects_refl w : same_objects w w.
Proof. by repeat split. Qed.

Lemma same_objects_trans w1 w2 w3 :
  same_objects w1 w2 -> same_objects w2 w3 -> same_objects w1 w3.
Proof.
  intros (? & ? & ? & ? & ? & ? & ? & ?) (? & ? & ? & ? & ? & ? & ? & ?).
  repeat split; congruence.
Qed.

Lemma same_objects_env_timeout ev d w w' :
  env_timeout ev d w = Ok w' -> same_objects w w'.
Proof. unfold env_timeout. destruct (d <? 0); [discriminate|]. by intros [= <-]. Qed.

Lemma same_objects_trigger_put res w : same_objects w (_trigger_put res w).
Proof. unfold _trigger_put. repeat case_match; by repeat split. Qed.

Lemma same_objects_request res h w r w' :
  request res h w = Ok (r, w') -> same_objects w w'.
Proof.
  unfold request. destruct (resources w !! res); [|discriminate]. intros [= <- <-].
  eapply same_objects_trans; [|apply same_objects_trigger_put]. by repeat split.
Qed.

Lemma same_objects_make_requests names h : forall w store w',
  make_requests names h w = Ok (store, w') -> same_objects w w'.
Proof.
  induction names as [|res names IH]; simpl; intros w store w' H.
  - injection H as <- <-. apply same_objects_refl.
  - inv_bind H. destruct a as [r w1]. inv_bind H. destruct a as [rs w2].
    injection H as <- <-.
    eapply same_objects_trans; [by eapply same_objects_request|by eapply IH].
Qed.

Lemma same_objects_spawn_monitors store : forall w, same_objects w (spawn_monitors store w).
Proof.
  unfold spawn_monitors. induction store as [|r store IH]; simpl; intros w.
  - apply same_objects_refl.
  - eapply same_objects_trans; [|apply IH]. by repeat split.
Qed.

Lemma same_objects_release res r w w' : release res r w = Ok w' -> same_objects w w'.
Proof.
  unfold release. destruct (resources w !! res); [|discriminate]. by intros [= <-].
Qed.

Lemma same_objects_release_all l : forall w w',
  release_all l w = Ok w' -> same_objects w w'.
Proof.
  induction l as [|[res r] l IH]; simpl; intros w w' H.
  - injection H as <-. apply same_objects_refl.
  - inv_bind H. eapply same_objects_trans; [by eapply same_objects_release|by eapply IH].
Qed.

Lemma same_objects_any_of_check r w : same_objects w (any_of_check r w).
Proof. unfold any_of_check. repeat case_match; by repeat split. Qed.

(** ** The dispatched events *)

Lemma dispatch_trace g ev w w' : dispatch g ev w = Ok w' -> trace w' = trace w.
Proof.
  intros H. destruct ev; simpl in H.
  - by injection H as <-.
  - unfold patient_arrivals_start, patient_arrivals_wait in H.
    by apply same_objects_env_timeout in H as (_ & _ & _ & _ & _ & _ & _ & ->).
  - unfold patient_arrivals_resume, patient_arrivals_wait in H.
    by apply same_objects_env_timeout in H as (_ & _ & _ & _ & _ & _ & _ & ->).
  - unfold patient_process in H. repeat case_match; try discriminate; by injection H as <-.
  - unfold run_start in H. destruct (stages w !! h); [|discriminate].
    inv_bind H. destruct a as [store w1]. injection H as <-.
    apply same_objects_make_requests in Ha as (_ & _ & _ & _ & _ & _ & _ & Ht).
    pose proof (same_objects_spawn_monitors store
                  (set_stage h (hp_set_request_store store) w1))
      as (_ & _ & _ & _ & _ & _ & _ & Ht').
    transitivity (trace (spawn_monitors store (set_stage h (hp_set_request_store store) w1)));
      [by destruct store|].
    rewrite Ht'. simpl. by rewrite Ht.
  - unfold request_resource_and_monitor_time_start in H.
    destruct (races w !! r); [|discriminate]. inv_bind H. injection H as <-.
    apply same_objects_env_timeout in Ha as (_ & _ & _ & _ & _ & _ & _ & Ht).
    case_match; [|exact Ht].
    destruct (same_objects_any_of_check r a) as (_ & _ & _ & _ & _ & _ & _ & Ht').
    by rewrite Ht', Ht.
  - unfold on_request in H. destruct (races w !! r); [|discriminate]. injection H as <-.
    case_match; [|done].
    by destruct (same_objects_any_of_check r (set_race r race_req_processed w))
      as (_ & _ & _ & _ & _ & _ & _ & ->).
  - unfold on_race_timeout in H. injection H as <-.
    by destruct (same_objects_any_of_check r (set_race r race_timeout_processed w))
      as (_ & _ & _ & _ & _ & _ & _ & ->).
  - unfold request_resource_and_monitor_time_resume in H.
    repeat case_match; try discriminate; by injection H as <-.
  - unfold on_monitor_done in H.
    repeat case_match; try discriminate; by injection H as <-.
  - unfold run_service in H. destruct (stages w !! h); [|discriminate].
    by apply same_objects_env_timeout in H as (_ & _ & _ & _ & _ & _ & _ & ->).
  - unfold run_release in H. destruct (stages w !! h); [|discriminate]. inv_bind H.
    injection H as <-.
    apply same_objects_release_all in Ha as (_ & _ & _ & _ & _ & _ & _ & Ht). exact Ht.
  - injection H as <-.
    by destruct (same_objects_trigger_put res w) as (_ & _ & _ & _ & _ & _ & _ & ->).
  - destruct (stages w !! h); [|discriminate].
    unfold patient_process in H. repeat case_match; try discriminate; by injection H as <-.
  - by injection H as <-.
Qed.

Lemma step_trace g w w' :
  step g w = Ok w' ->
  exists it rest, pop_min (queue (env w)) = Some (it, rest) /\ trace w' = it :: trace w.
Proof.
  unfold step. destruct (pop_min (queue (env w))) as [[it rest]|]; [|discriminate].
  intros H. apply dispatch_trace in H. exists it, rest. done.
Qed.

(** ** Induction over the states of a run *)

Lemma reachable_begin_setup g self w : begin_setup self = Ok w -> reachable g self w.
Proof. intros H. exists 0%nat. unfold begin. by rewrite H. Qed.

Lemma reachable_step g self w w' :
  reachable g self w -> run_status w = Running -> step g w = Ok w' ->
  reachable g self w'.
Proof.
  intros [fuel H] Hrun Hstep. exists (fuel + 1)%nat. unfold begin in *.
  destruct (begin_setup self) as [w0|]; [|discriminate]. simpl in *.
  rewrite run_add, H. simpl. by rewrite Hrun, Hstep.
Qed.

Lemma reachable_ind (P : world -> Prop) g self :
  (forall w, begin_setup self = Ok w -> P w) ->
  (forall w w', reachable g self w -> run_status w = Running -> P w ->
                step g w = Ok w' -> P w') ->
  forall w, reachable g self w -> P w.
Proof.
  intros Hinit Hstep w [fuel H]. unfold begin in H.
  destruct (begin_setup self) as [w0|] eqn:H0; [|discriminate]. simpl in H.
  assert (Hr0 : reachable g self w0) by (by apply reachable_begin_setup).
  pose proof (Hinit w0 eq_refl) as HP0. clear H0 Hinit.
  revert w0 Hr0 HP0 H. induction fuel as [|n IH]; simpl; intros w0 Hr0 HP0 H.
  - by injection H as <-.
  - destruct (run_status w0) eqn:Hrun; [|by injection H as <-].
    inv_bind H. eapply (IH a); [by eapply reachable_step|by eapply Hstep|done].
Qed.

Lemma step_inversion g w w' :
  step g w = Ok w' ->
  exists it rest,
    pop_min (queue (env w)) = Some (it, rest) /\
    dispatch g (q_event it)
      (set_trace (cons it) (set_env (fun e => Env (q_time it) rest (eid e)) w)) = Ok w'.
Proof.
  unfold step. destruct (pop_min (queue (env w))) as [[it rest]|]; [|discriminate].
  intros H. by exists it, rest.
Qed.

(** X2: the events of a run are dispatched in the order of their times: in the
    list of dispatched events every event is due no earlier than those
    dispatched before it, and none is later than the clock. *)
Theorem events_dispatched_in_time_order g self w :
  reachable g self w ->
  StronglySorted (fun later earlier => q_time earlier <= q_time later) (trace w) /\
  forall it, it ∈ trace w -> q_time it <= now (env w).
Proof.
  revert w. apply reachable_ind.
  - intros w H. unfold begin_setup in H. inv_bind H.
    destruct (simulation_time self <=? 0); [discriminate|]. injection H as <-. simpl.
    split; [constructor|]. intros it Hin. by apply elem_of_nil in Hin.
  - intros w w' Hw Hrun [Hs Hle] Hstep.
    pose proof (step_now g w w' (reachable_inv _ _ _ Hw) Hstep) as Hnow.
    destruct (step_trace g w w' Hstep) as (it & rest & Hpop & Ht).
    apply step_inversion in Hstep as (it' & rest' & Hpop' & Hd).
    rewrite Hpop in Hpop'. injection Hpop' as <- <-.
    apply dispatch_now in Hd. simpl in Hd.
    destruct (inv_pop _ _ _ _ it rest (reachable_inv _ _ _ Hw) Hpop) as [_ Hn].
    rewrite Ht. split.
    + constructor; [done|]. apply Forall_forall. intros b Hb. specialize (Hle b Hb). lia.
    + intros b Hb. apply elem_of_cons in Hb as [->|Hb]; [lia|].
      specialize (Hle b Hb). lia.
Qed.

(** ** The end of the run *)

Lemma horizon_pop w it rest :
  horizon_ok w -> run_status w = Running ->
  pop_min (queue (env w)) = Some (it, rest) ->
  (q_event it = StopEvent /\ q_time it = simulation_time (sim w)) \/
  (q_event it <> StopEvent /\ q_time it < simulation_time (sim w)).
Proof.
  intros [He Hs Ho Hr Hf Hout] Hrun Hpop.
  destruct (Hr Hrun) as [Hnow (stop & Hstop & Hev)].
  assert (Hit : it ∈ queue (env w)) by (apply (pop_min_elem _ _ _ _ Hpop); by left).
  destruct (decide (q_event it = StopEvent)) as [Hstopped|Hother].
  - left. split; [done|]. by apply Hs.
  - right. split; [done|].
    assert (Hin : stop ∈ rest).
    { apply (pop_min_elem _ _ _ _ Hpop) in Hstop as [->|?]; done. }
    pose proof (pop_min_qle _ _ _ Hpop stop Hin) as Hle.
    destruct (Hs stop Hstop Hev) as (Ht & Hp & Hid).
    destruct (Ho it Hit Hother) as [?|?]; [done|].
    unfold key_le in Hle. rewrite Ht, Hp, Hid in Hle. simpl in Hle.
    destruct (q_prio it); simpl in Hle; lia.
Qed.

(** X3: the run ends at its horizon and not before: a running state has events
    left and its clock is before [until]; every event dispatched other than
    the stop is due strictly before [until]; and when the run has finished,
    the clock stands at [until] and the stop is the last event dispatched. *)
Theorem run_stops_at_the_horizon g self w :
  reachable g self w ->
  (forall it, it ∈ trace w -> q_event it <> StopEvent ->
     q_time it < simulation_time self) /\
  (run_status w = Running ->
     now (env w) < simulation_time self /\ queue (env w) <> [] /\
     forall it, it ∈ trace w -> q_event it <> StopEvent) /\
  (run_status w = Finished ->
     now (env w) = simulation_time self /\
     exists it tr, trace w = it :: tr /\ q_event it = StopEvent).
Proof.
  intros Hw. pose proof (reachable_horizon _ _ _ Hw) as [_ _ _ Hrun Hfin _].
  assert (Hsim : sim w = self) by (destruct Hw as [fuel Hw]; by eapply begin_sim).
  rewrite Hsim in *.
  cut ((forall it, it ∈ trace w -> q_event it <> StopEvent ->
          q_time it < simulation_time self) /\
       (run_status w = Running -> forall it, it ∈ trace w -> q_event it <> StopEvent) /\
       (run_status w = Finished ->
          exists it tr, trace w = it :: tr /\ q_event it = StopEvent)).
  { intros (H1 & H2 & H3). split; [done|]. split.
    - intros Hr. destruct (Hrun Hr) as [? (it & Hin & _)]. split; [done|].
      split; [|by apply H2]. intros Hq. rewrite Hq in Hin. by apply elem_of_nil in Hin.
    - intros Hf. split; [by apply Hfin|by apply H3]. }
  clear Hrun Hfin Hsim. revert w Hw. apply reachable_ind.
  - intros w H. unfold begin_setup in H. inv_bind H.
    destruct (simulation_time self <=? 0); [discriminate|]. injection H as <-. simpl.
    split; [|split]; [| |done].
    + intros it Hin. by apply elem_of_nil in Hin.
    + intros _ it Hin. by apply elem_of_nil in Hin.
  - intros w w' Hw Hrun (H1 & H2 & _) Hstep.
    assert (Hsim : sim w = self) by (destruct Hw as [fuel Hw]; by eapply begin_sim).
    destruct (step_trace g w w' Hstep) as (it & rest & Hpop & Ht).
    apply step_inversion in Hstep as (it' & rest' & Hpop' & Hd).
    rewrite Hpop in Hpop'. injection Hpop' as <- <-.
    destruct (horizon_pop w it rest (reachable_horizon _ _ _ Hw) Hrun Hpop)
      as [[Hev Htime]|[Hev Htime]]; rewrite Hsim in Htime; rewrite Ht.
    + rewrite Hev in Hd. simpl in Hd. injection Hd as <-. simpl.
      split; [|split]; [|done|by eauto].
      intros b Hb Hne. apply elem_of_cons in Hb as [->|Hb]; [done|by apply H1].
    + assert (Hst : run_status w' = Running).
      { destruct (grows_dispatch g _ _ w' Hev Hd) as (_ & -> & _). done. }
      split; [|split]; [| |congruence].
      * intros b Hb Hne. apply elem_of_cons in Hb as [->|Hb]; [done|by apply H1].
      * intros _ b Hb. apply elem_of_cons in Hb as [->|Hb]; [done|by apply H2].
Qed.

(** ** How an event changes the stages *)

Lemma same_objects_stages w w' : same_objects w w' -> stages w' = stages w.
Proof. by intros (_ & _ & ? & _). Qed.

Lemma set_stage_lookup h f w h' hp' :
  stages (set_stage h f w) !! h' = Some hp' ->
  exists hp, stages w !! h' = Some hp /\ ((h' = h /\ hp' = f hp) \/ hp' = hp).
Proof.
  simpl. destruct (stages w !! h) as [hp0|] eqn:Hh; [|by eauto].
  intros H. destruct (decide (h' = h)) as [->|Hne].
  - rewrite list_lookup_insert_eq in H by (by eapply lookup_lt_Some).
    injection H as <-. eauto.
  - rewrite list_lookup_insert_ne in H by done. eauto.
Qed.

Lemma set_stage_lookup_eq h f w hp :
  stages w !! h = Some hp -> stages (set_stage h f w) !! h = Some (f hp).
Proof.
  intros Hh. simpl. rewrite Hh.
  apply list_lookup_insert_eq. by eapply lookup_lt_Some.
Qed.

Lemma patient_process_stages p w w' h hp' :
  patient_process p w = Ok w' -> stages w' !! h = Some hp' ->
  stages w !! h = Some hp' \/
  (h = length (stages w) /\
   exists pid pr rest, patients w !! p = Some (pid, pr :: rest) /\
     hp' = next_stage pid pr p).
Proof.
  unfold patient_process. intros H Hh.
  destruct (patients w !! p) as [[pid [|pr rest]]|] eqn:Hp; [| |discriminate];
    injection H as <-; simpl in Hh; [by left|].
  apply lookup_app_Some in Hh as [?|[Hge Hh]]; [by left|right].
  apply list_lookup_singleton_Some in Hh as [Hz <-].
  split; [lia|]. by exists pid, pr, rest.
Qed.

Lemma dispatch_stages g ev w w' h hp' :
  dispatch g ev w = Ok w' -> stages w' !! h = Some hp' ->
  (exists hp, stages w !! h = Some hp /\ stage_change g ev w h hp hp')
  \/ (h = length (stages w) /\
      exists p pid pr rest, patients w !! p = Some (pid, pr :: rest) /\
        hp' = next_stage pid pr p /\
        (ev = InitPatient p \/
         exists h0 hp0, ev = StageDone h0 /\ stages w !! h0 = Some hp0 /\
                        hp_patient hp0 = p)).
Proof.
  intros H Hh.
  assert (Hsame : forall w0, stages w0 = stages w -> stages w0 !! h = Some hp' ->
            exists hp, stages w !! h = Some hp /\ stage_change g ev w h hp hp').
  { intros w0 Hs Hh0. rewrite Hs in Hh0. exists hp'. split; [done|by left]. }
  destruct ev; simpl in H.
  - injection H as <-. left. by apply (Hsame w).
  - unfold patient_arrivals_start, patient_arrivals_wait in H.
    apply same_objects_env_timeout, same_objects_stages in H. left.
    by apply (Hsame w').
  - unfold patient_arrivals_resume, patient_arrivals_wait in H.
    apply same_objects_env_timeout, same_objects_stages in H. left.
    by apply (Hsame w').
  - destruct (patient_process_stages _ _ _ _ _ H Hh) as [?|[-> (pid & pr & rest & ? & ->)]].
    + left. exists hp'. split; [done|by left].
    + right. split; [done|]. exists p, pid, pr, rest. eauto.
  - unfold run_start in H. destruct (stages w !! h0) as [hp0|] eqn:Hh0; [|discriminate].
    inv_bind H. destruct a as [store w1]. injection H as <-.
    pose proof (same_objects_stages _ _ (same_objects_make_requests _ _ _ _ _ Ha)) as Hs1.
    pose proof (same_objects_stages _ _ (same_objects_spawn_monitors store
                  (set_stage h0 (hp_set_request_store store) w1))) as Hs2.
    assert (Hh' : stages (set_stage h0 (hp_set_request_store store) w1) !! h = Some hp').
    { rewrite <- Hs2. by destruct store. }
    left. destruct (decide (h = h0)) as [->|Hne].
    + exists hp0. split; [done|]. right. left. split; [done|].
      exists store, w1. split; [done|].
      assert (Hx : stages w1 !! h0 = Some (hp_clear_waits hp0))
        by (rewrite Hs1; by apply set_stage_lookup_eq).
      rewrite (set_stage_lookup_eq _ _ _ _ Hx) in Hh'. congruence.
    + apply set_stage_lookup in Hh' as (hp1 & Hh1 & [[? _]| ->]); [done|].
      rewrite Hs1 in Hh1.
      apply set_stage_lookup in Hh1 as (hp & Hhp & [[? _]| ->]); [done|].
      exists hp. split; [done|by left].
  - unfold request_resource_and_monitor_time_start in H.
    destruct (races w !! r); [|discriminate]. inv_bind H. injection H as <-.
    apply same_objects_env_timeout, same_objects_stages in Ha. left.
    case_match; [apply (Hsame (any_of_check r a))|apply (Hsame a)]; try done.
    by rewrite (same_objects_stages _ _ (same_objects_any_of_check r a)).
  - unfold on_request in H. destruct (races w !! r); [|discriminate]. injection H as <-.
    left. case_match.
    + apply (Hsame (any_of_check r (set_race r race_req_processed w))); [|done].
      by rewrite (same_objects_stages _ _ (same_objects_any_of_check r _)).
    + by apply (Hsame (set_race r race_req_processed w)).
  - unfold on_race_timeout in H. injection H as <-. left.
    apply (Hsame (any_of_check r (set_race r race_timeout_processed w))); [|done].
    by rewrite (same_objects_stages _ _ (same_objects_any_of_check r _)).
  - unfold request_resource_and_monitor_time_resume in H.
    destruct (races w !! r) as [x|] eqn:Hr; [|discriminate].
    destruct (start_time x) as [st|] eqn:Hst; [|discriminate]. injection H as <-.
    left. change (stages (set_stage (owner x)
             (hp_set_wait (res_name x)
                (if req_processed x then PyNum (now (env w) - st) else PyInf)) w) !! h
             = Some hp') in Hh.
    apply set_stage_lookup in Hh as (hp & Hhp & [[-> ->]|Heq]).
    + exists hp. split; [done|]. right. right. left. exists r, x, st. done.
    + exists hp. split; [done|by left].
  - unfold on_monitor_done in H.
    destruct (races w !! r) as [x|] eqn:Hr; [|discriminate].
    destruct (stages w !! owner x) as [hp0|] eqn:Hh0; [|discriminate]. injection H as <-.
    left.
    assert (Hh' : stages (set_stage (owner x) hp_count w) !! h = Some hp')
      by (by case_decide).
    apply set_stage_lookup in Hh' as (hp & Hhp & [[-> ->]|Heq]).
    + exists hp. split; [done|]. do 3 right. left. exists r, x. done.
    + exists hp. split; [done|by left].
  - unfold run_service in H. destruct (stages w !! h0) as [hp0|] eqn:Hh0; [|discriminate].
    apply same_objects_env_timeout, same_objects_stages in H. rewrite H in Hh. left.
    change (stages (set_stage h0
              (hp_set_service_time (uniform g (np_calls w) (time_min hp0) (time_max hp0)))
              (set_np_calls (S (np_calls w)) w)) !! h = Some hp') in Hh.
    apply set_stage_lookup in Hh as (hp & Hhp & [[-> ->]|Heq]).
    + simpl in Hhp. exists hp. split; [done|]. do 4 right.
      assert (hp = hp0) as -> by congruence. done.
    + exists hp. split; [done|by left].
  - unfold run_release in H. destruct (stages w !! h0); [|discriminate].
    inv_bind H. injection H as <-.
    apply same_objects_release_all, same_objects_stages in Ha.
    left. by apply (Hsame a).
  - injection H as <-. left. apply (Hsame (_trigger_put res w)); [|done].
    apply same_objects_stages, same_objects_trigger_put.
  - destruct (stages w !! h0) as [hp0|] eqn:Hh0; [|discriminate].
    destruct (patient_process_stages _ _ _ _ _ H Hh) as [?|[-> (pid & pr & rest & ? & ->)]].
    + left. exists hp'. split; [done|by left].
    + right. split; [done|]. exists (hp_patient hp0), pid, pr, rest.
      split; [done|]. split; [done|]. right. by exists h0, hp0.
  - injection H as <-. left. exists hp'. split; [done|by left].
Qed.

(** ** What a stage records as its waits *)

Lemma begin_setup_stages self w : begin_setup self = Ok w -> stages w = [] /\ races w = [] /\ patients w = [].
Proof.
  unfold begin_setup. intros H. inv_bind H.
  destruct (simulation_time self <=? 0); [discriminate|]. by injection H as <-.
Qed.

Lemma waits_in_range g self w h hp res v :
  reachable g self w -> stages w !! h = Some hp ->
  resource_wait_times hp !! res = Some v ->
  v = PyInf \/ exists z, v = PyNum z /\ 0 <= z <= 10000.
Proof.
  intros Hw. revert h hp res v. revert w Hw.
  apply (reachable_ind (fun w => forall h hp res v,
           stages w !! h = Some hp -> resource_wait_times hp !! res = Some v ->
           v = PyInf \/ exists z, v = PyNum z /\ 0 <= z <= 10000)).
  - intros w H0 h hp res v Hh. apply begin_setup_stages in H0 as (Hs & _).
    by rewrite Hs in Hh.
  - intros w w' Hw Hrun IH Hstep h hp' res v Hh Hv.
    apply step_inversion in Hstep as (it & rest & Hpop & Hd).
    pose proof (reachable_inv _ _ _ Hw) as HI.
    destruct (inv_pop _ _ _ _ _ _ HI Hpop) as [[Hit Hra _ _ _ _] Hn].
    destruct (dispatch_stages _ _ _ _ _ _ Hd Hh)
      as [(hp & Hhp & Hc)|(_ & p & pid & pr & rs & _ & -> & _)]; [|done].
    simpl in Hhp.
    destruct Hc as [->|[(_ & store & w1 & _ & ->)|[(r & x & st & Hev & Hr & -> & Hst & ->)|
                   [(r & x & _ & _ & _ & ->)|(_ & ->)]]]];
      try (simpl in Hv; rewrite lookup_empty in Hv; discriminate);
      try (by apply (IH h hp res v)).
    simpl in Hv, Hr. destruct (decide (res = res_name x)) as [->|Hne].
    + rewrite lookup_insert_eq in Hv. injection Hv as <-.
      destruct (req_processed x); [right|by left].
      eexists; split; [done|].
      pose proof (Hra r x Hr) as Hx.
      rewrite (rk_start _ _ _ _ _ _ Hx st Hst).
      pose proof (rk_enq _ _ _ _ _ _ Hx) as He.
      destruct (Hit it) as [_ Hi]; [right; by apply list_elem_of_singleton|].
      rewrite Hev in Hi. destruct Hi as (x' & Hr' & _ & Hb).
      assert (x' = x) as -> by congruence.
      destruct Hb as [[? _]|(_ & ? & _)]; lia.
    + rewrite lookup_insert_ne in Hv by done. by eapply IH.
Qed.

(** ** The draws an event consumes *)

(** The arrivals process draws once from random.lognormvariate each time it
    runs, run() draws once from np.random.uniform when it resumes after its
    join, and nothing else draws. *)
Lemma dispatch_calls g ev w w' :
  dispatch g ev w = Ok w' ->
  random_calls w'
    = (random_calls w + match ev with InitArrivals | ArrivalTimeout => 1 | _ => 0 end)%nat /\
  np_calls w' = (np_calls w + match ev with AllOf _ => 1 | _ => 0 end)%nat.
Proof.
  intros H.
  assert (Hso : forall w0, same_objects w w0 ->
            random_calls w0 = (random_calls w + 0)%nat /\ np_calls w0 = (np_calls w + 0)%nat).
  { intros w0 (_ & _ & _ & _ & Hr & Hn & _). rewrite Hr, Hn. lia. }
  assert (Hpp : forall p, patient_process p w = Ok w' ->
            random_calls w' = (random_calls w + 0)%nat /\ np_calls w' = (np_calls w + 0)%nat).
  { intros p. unfold patient_process.
    destruct (patients w !! p) as [[pid [|pr rest]]|]; [| |done]; intros [= <-]; simpl; lia. }
  destruct ev; simpl in H.
  - injection H as <-. simpl. lia.
  - unfold patient_arrivals_start, patient_arrivals_wait in H.
    apply same_objects_env_timeout in H as (_ & _ & _ & _ & -> & -> & _). simpl. lia.
  - unfold patient_arrivals_resume, patient_arrivals_wait in H.
    apply same_objects_env_timeout in H as (_ & _ & _ & _ & -> & -> & _). simpl. lia.
  - by apply (Hpp p).
  - unfold run_start in H. destruct (stages w !! h); [|discriminate].
    inv_bind H. destruct a as [store w1]. injection H as <-.
    apply same_objects_make_requests in Ha as (_ & _ & _ & _ & Hr & Hn & _).
    pose proof (same_objects_spawn_monitors store
                  (set_stage h (hp_set_request_store store) w1))
      as (_ & _ & _ & _ & Hr' & Hn' & _).
    simpl in Hr, Hn, Hr', Hn'. destruct store; simpl in *; rewrite ?Hr', ?Hn', ?Hr, ?Hn; lia.
  - unfold request_resource_and_monitor_time_start in H.
    destruct (races w !! r); [|discriminate]. inv_bind H. injection H as <-.
    apply same_objects_env_timeout in Ha. apply Hso.
    case_match; [|done].
    eapply same_objects_trans; [exact Ha|apply same_objects_any_of_check].
  - unfold on_request in H. destruct (races w !! r); [|discriminate]. injection H as <-.
    apply Hso. case_match; [|by repeat split].
    eapply same_objects_trans; [|apply same_objects_any_of_check]. by repeat split.
  - unfold on_race_timeout in H. injection H as <-. apply Hso.
    eapply same_objects_trans; [|apply same_objects_any_of_check]. by repeat split.
  - unfold request_resource_and_monitor_time_resume in H.
    repeat case_match; try discriminate; injection H as <-; simpl; lia.
  - unfold on_monitor_done in H.
    repeat case_match; try discriminate; injection H as <-; simpl; lia.
  - unfold run_service in H. destruct (stages w !! h); [|discriminate].
    apply same_objects_env_timeout in H as (_ & _ & _ & _ & -> & -> & _). simpl. lia.
  - unfold run_release in H. destruct (stages w !! h); [|discriminate]. inv_bind H.
    injection H as <-. apply same_objects_release_all in Ha. apply Hso.
    eapply same_objects_trans; [exact Ha|]. by repeat split.
  - injection H as <-. apply Hso, same_objects_trigger_put.
  - destruct (stages w !! h); [|discriminate]. by apply (Hpp (hp_patient h0)).
  - injection H as <-. lia.
Qed.

Lemma step_calls g w w' :
  step g w = Ok w' ->
  (random_calls w <= random_calls w')%nat /\ (np_calls w <= np_calls w')%nat.
Proof.
  intros H. apply step_inversion in H as (it & rest & _ & Hd).
  apply dispatch_calls in Hd as [-> ->]. simpl. lia.
Qed.

(** ** Well-formed states *)

Lemma extends_refl w : extends w w.
Proof. split; [done|]. split; [done|]. split; [done|]. by eauto. Qed.

Lemma extends_trans w1 w2 w3 : extends w1 w2 -> extends w2 w3 -> extends w1 w3.
Proof.
  intros (? & ? & ? & Hr1) (? & ? & ? & Hr2).
  split; [lia|]. split; [lia|]. split; [lia|].
  intros r x Hx. destruct (Hr1 r x Hx) as (x' & Hx' & Ho & Hn & Hs).
  destruct (Hr2 r x' Hx') as (x'' & Hx'' & Ho' & Hn' & Hs').
  exists x''. split; [done|]. split; [congruence|]. split; [congruence|]. by eauto.
Qed.

Lemma ev_ok_extends w w' ev : extends w w' -> ev_ok w ev -> ev_ok w' ev.
Proof.
  intros (Hp & Hs & Hr & Hst). destruct ev; simpl; try done; try lia.
  - intros (x & Hx & Hsome). destruct (Hst r x Hx) as (x' & ? & _ & _ & ?). by eauto.
  - intros (x & Hx & Hsome). destruct (Hst r x Hx) as (x' & ? & _ & _ & ?). by eauto.
Qed.

Lemma stage_ok_extends w w' h hp : extends w w' -> stage_ok w h hp -> stage_ok w' h hp.
Proof.
  intros (_ & _ & _ & Hr) [Hst Hwt]. split; [|done].
  intros i r Hi. destruct (Hst i r Hi) as (x & Hx & Ho & Hn).
  destruct (Hr r x Hx) as (x' & Hx' & Ho' & Hn' & _).
  exists x'. split; [done|]. split; [congruence|]. by rewrite Hn'.
Qed.

Lemma ev_ok_frame w w' ev :
  patients w' = patients w -> stages w' = stages w -> races w' = races w ->
  ev_ok w ev -> ev_ok w' ev.
Proof. intros Hp Hs Hr. destruct ev; simpl; by rewrite ?Hp, ?Hs, ?Hr. Qed.

Lemma wf_frame self w w' :
  sim w' = sim w -> resources w' = resources w -> queue (env w') = queue (env w) ->
  races w' = races w -> stages w' = stages w -> patients w' = patients w ->
  patient_id w' = patient_id w -> wf self w -> wf self w'.
Proof.
  intros Hs Hr Hq Hra Hst Hp Hpi [Hsim Hcaps Hpo Hev Hrac Hsta Hpat Hpid].
  unfold stages_of_patient, stage_ok in *.
  constructor; unfold stages_of_patient, stage_ok;
    rewrite ?Hs, ?Hr, ?Hq, ?Hra, ?Hst, ?Hp, ?Hpi; try done.
  intros it Hin. eapply ev_ok_frame; [done..|]. by apply Hev.
Qed.

Lemma wf_schedule self ev prio d w :
  wf self w -> ev_ok w ev -> wf self (schedule ev prio d w).
Proof.
  intros [Hsim Hcaps Hpo Hev Hrac Hsta Hpat Hpid] Hok. constructor; simpl; try done.
  intros it [->|Hin]%elem_of_cons; [exact Hok|by apply Hev].
Qed.

Lemma wf_env_timeout self ev d w w' :
  wf self w -> ev_ok w ev -> env_timeout ev d w = Ok w' -> wf self w'.
Proof.
  unfold env_timeout. destruct (d <? 0); [done|]. intros Hw Hok [= <-].
  by apply wf_schedule.
Qed.

Lemma set_race_lookup_eq r f w x :
  races w !! r = Some x -> races (set_race r f w) !! r = Some (f x).
Proof.
  intros Hr. simpl. rewrite Hr. apply list_lookup_insert_eq. by eapply lookup_lt_Some.
Qed.

Lemma set_race_length r f w : length (races (set_race r f w)) = length (races w).
Proof. simpl. destruct (races w !! r); [by rewrite length_insert|done]. Qed.

Lemma extends_set_race r f w :
  (forall x, owner (f x) = owner x /\ res_name (f x) = res_name x /\
             (is_Some (start_time x) -> is_Some (start_time (f x)))) ->
  extends w (set_race r f w).
Proof.
  intros Hf. split; [done|]. split; [done|]. split; [by rewrite set_race_length|].
  intros r' x Hx. simpl. destruct (races w !! r) as [x0|] eqn:Hr; [|by eauto 6].
  destruct (decide (r' = r)) as [->|Hne].
  - rewrite list_lookup_insert_eq by (by eapply lookup_lt_Some).
    assert (x0 = x) as -> by congruence. exists (f x). split; [done|]. apply Hf.
  - rewrite list_lookup_insert_ne by done. by eauto 6.
Qed.

(** An update of one request that keeps its resource and its owner and does
    not unset its start_time. *)
Lemma wf_set_race self r f w :
  (forall x, owner (f x) = owner x /\ res_name (f x) = res_name x /\
             (is_Some (start_time x) -> is_Some (start_time (f x)))) ->
  wf self w -> wf self (set_race r f w).
Proof.
  intros Hf [Hsim Hcaps Hpo Hev Hrac Hsta Hpat Hpid].
  pose proof (extends_set_race r f w Hf) as Hext.
  assert (Hlook : forall r' x', races (set_race r f w) !! r' = Some x' ->
            exists x, races w !! r' = Some x /\ (x' = x \/ x' = f x)).
  { simpl. intros r' x'. destruct (races w !! r) as [x0|] eqn:Hr; [|by eauto].
    destruct (decide (r' = r)) as [->|Hne].
    - rewrite list_lookup_insert_eq by (by eapply lookup_lt_Some). intros [= <-]. eauto.
    - rewrite list_lookup_insert_ne by done. eauto. }
  constructor; try done.
  - intros res p Hp. destruct (Hpo res p Hp) as [Hnd Hin]. split; [done|].
    intros r' Hr'. destruct (Hin r' Hr') as (x & Hx & Hn).
    destruct Hext as (_ & _ & _ & He). destruct (He r' x Hx) as (x' & ? & _ & ? & _).
    exists x'. split; [done|congruence].
  - intros it Hin. eapply ev_ok_extends; [exact Hext|]. by apply Hev.
  - intros r' x' Hx'. destruct (Hlook r' x' Hx') as (x & Hx & [->| ->]).
    + by apply (Hrac r' x).
    + destruct (Hf x) as (-> & -> & _). by apply (Hrac r' x).
  - intros h hp Hh. destruct (Hsta h hp Hh) as [Hlt Hok]. split; [done|].
    by eapply stage_ok_extends.
Qed.

Lemma stage_of_static p pr hp hp' : same_static hp hp' -> stage_of p pr hp -> stage_of p pr hp'.
Proof.
  intros (Ht & Hn & Hmi & Hma & Hp) (? & ? & ? & ? & ?).
  unfold stage_of. by rewrite Ht, Hn, Hmi, Hma, Hp.
Qed.

Lemma filter_same_static p : forall l l' prs,
  Forall2 same_static l l' ->
  Forall2 (stage_of p) prs (filter (fun hp => hp_patient hp = p) l) ->
  Forall2 (stage_of p) prs (filter (fun hp => hp_patient hp = p) l').
Proof.
  intros l l' prs H. revert prs.
  induction H as [|hp hp' l l' Hs H IH]; intros prs Hd; [done|].
  rewrite filter_cons in *. destruct Hs as (Ht & Hn & Hmi & Hma & Hp).
  rewrite Hp. case_decide.
  - inversion Hd as [|pr ? ds ? Hof Hrest]; subst. constructor; [|by apply IH].
    eapply stage_of_static; [|exact Hof]. by repeat split.
  - by apply IH.
Qed.

Lemma set_stage_length h f w : length (stages (set_stage h f w)) = length (stages w).
Proof. simpl. destruct (stages w !! h); [by rewrite length_insert|done]. Qed.

(** An update of one stage that keeps what __init__ set, and its requests
    and waits in order. *)
Lemma wf_set_stage self h f w :
  (forall hp, stages w !! h = Some hp ->
     same_static hp (f hp) /\ (stage_ok w h hp -> stage_ok w h (f hp))) ->
  wf self w -> wf self (set_stage h f w).
Proof.
  intros Hf [Hsim Hcaps Hpo Hev Hrac Hsta Hpat Hpid].
  pose proof (set_stage_length h f w) as Hlen.
  assert (Hall : Forall2 same_static (stages w) (stages (set_stage h f w))).
  { apply Forall2_same_length_lookup_2; [done|]. intros i hp hp' Hi Hi'.
    apply set_stage_lookup in Hi' as (hp0 & Hi0 & [[-> ->]| ->]).
    - assert (hp0 = hp) as -> by congruence. by apply Hf.
    - assert (hp0 = hp) as -> by congruence. by repeat split. }
  constructor; try done.
  - intros it Hin. eapply ev_ok_extends; [|by apply Hev].
    split; [done|]. split; [lia|]. split; [done|]. by eauto 6.
  - intros r x Hx. destruct (Hrac r x Hx) as (hp & Hh & Hin).
    destruct (Forall2_lookup_l _ _ _ _ _ Hall Hh) as (hp' & Hh' & (_ & Hn & _)).
    exists hp'. split; [done|]. by rewrite Hn.
  - intros h' hp' Hh'. apply set_stage_lookup in Hh' as (hp & Hhp & [[-> ->]|Heq]).
    + destruct (Hsta h hp Hhp) as [Hlt Hok]. destruct (Hf hp Hhp) as [(_ & _ & _ & _ & Hp) Hk].
      split; [by rewrite Hp|]. by apply Hk.
    + rewrite Heq. by apply (Hsta h' hp).
  - intros p pid l Hp. destruct (Hpat p pid l Hp) as (Hpi & prs & Hpl & Hd).
    split; [done|]. exists prs. split; [done|].
    unfold stages_of_patient in *. by eapply filter_same_static.
Qed.

(** A pool is replaced by one of the same capacity, whose users and queue
    are distinct requests on it. *)
Lemma wf_set_pool self res p us q w :
  resources w !! res = Some p ->
  NoDup (us ++ q) ->
  (forall r, r ∈ us ++ q -> exists x, races w !! r = Some x /\ res_name x = res) ->
  wf self w -> wf self (set_resources <[res := MkResource (capacity p) us q]> w).
Proof.
  intros Hp Hnd Hnew [Hsim Hcaps Hpo Hev Hrac Hsta Hpat Hpid]. constructor; simpl; try done.
  - intros res'. destruct (decide (res' = res)) as [->|Hne].
    + rewrite lookup_insert_eq. simpl. by rewrite <- Hcaps, Hp.
    + by rewrite lookup_insert_ne.
  - intros res' p'. destruct (decide (res' = res)) as [->|Hne].
    + rewrite lookup_insert_eq. intros [= <-]. simpl. done.
    + rewrite lookup_insert_ne by done. by apply Hpo.
Qed.

Lemma wf_trigger_put self res w : wf self w -> wf self (_trigger_put res w).
Proof.
  intros Hw. unfold _trigger_put.
  destruct (resources w !! res) as [p|] eqn:Hp; [|done].
  destruct (put_queue p) as [|r rest] eqn:Hqu; [done|].
  destruct (Z.of_nat (length (users p)) <? capacity p); [|done].
  destruct (wf_pool _ _ Hw res p Hp) as [Hnd Hin]. rewrite Hqu in Hnd, Hin.
  assert (Hr : (r < length (races w))%nat).
  { destruct (Hin r) as (x & Hx & _); [apply elem_of_app; right; by left|].
    by eapply lookup_lt_Some. }
  apply wf_schedule.
  - apply wf_set_race; [by intros x|]. apply wf_set_pool; [done| |  |done].
    + by rewrite <- app_assoc.
    + intros r'. rewrite <- app_assoc. by apply Hin.
  - simpl. destruct (races w !! r); [by rewrite length_insert|done].
Qed.

Lemma extends_trigger_put res w : extends w (_trigger_put res w).
Proof.
  unfold _trigger_put. destruct (resources w !! res) as [p|]; [|apply extends_refl].
  destruct (put_queue p) as [|r rest]; [apply extends_refl|].
  case_match; [|apply extends_refl].
  apply (extends_trans _ (set_race r (race_succeed (now (env w)))
           (set_resources <[res := MkResource (capacity p) (users p ++ [r]) rest]> w))).
  - apply (extends_trans _ (set_resources
             <[res := MkResource (capacity p) (users p ++ [r]) rest]> w)).
    + split; [done|]. split; [done|]. split; [done|]. by eauto 6.
    + by apply extends_set_race.
  - split; [done|]. split; [done|]. split; [done|]. by eauto 6.
Qed.

Lemma trigger_put_stages res w : stages (_trigger_put res w) = stages w.
Proof. by apply same_objects_stages, same_objects_trigger_put. Qed.

Lemma wf_request self res h w r w' :
  wf self w ->
  (exists hp, stages w !! h = Some hp /\ res ∈ resource_names hp) ->
  request res h w = Ok (r, w') ->
  wf self w' /\ extends w w' /\ stages w' = stages w /\
  exists x, races w' !! r = Some x /\ owner x = h /\ res_name x = res.
Proof.
  intros Hw Hh. unfold request.
  destruct (resources w !! res) as [p|] eqn:Hp; [|done]. intros [= <- <-].
  set (w1 := set_races (fun rs => rs ++ [new_race res h (now (env w))]) w).
  assert (He1 : extends w w1).
  { split; [done|]. split; [done|]. split; [simpl; rewrite length_app; lia|].
    intros r' x Hx. exists x. split; [|done]. simpl. by apply lookup_app_l_Some. }
  assert (Hnew : races w1 !! length (races w) = Some (new_race res h (now (env w)))).
  { simpl. rewrite lookup_app_r by done. by rewrite Nat.sub_diag. }
  assert (Hw1 : wf self w1).
  { destruct Hw as [Hsim Hcaps Hpo Hev Hrac Hsta Hpat Hpid].
    constructor; try done.
    - intros res' p' Hp'. destruct (Hpo res' p' Hp') as [Hnd Hin]. split; [done|].
      intros r' Hr'. destruct (Hin r' Hr') as (x & Hx & Hn).
      exists x. split; [|done]. simpl. by apply lookup_app_l_Some.
    - intros it Hin. eapply ev_ok_extends; [exact He1|]. by apply Hev.
    - intros r' x [Hx|[_ Hx]]%lookup_app_Some; [by apply (Hrac r' x)|].
      apply list_lookup_singleton_Some in Hx as [_ <-]. done.
    - intros h' hp Hh'. destruct (Hsta h' hp Hh') as [Hlt Hok]. split; [done|].
      by eapply stage_ok_extends. }
  set (w2 := set_resources
               <[res := MkResource (capacity p) (users p)
                          (put_queue p ++ [length (races w)])]> w1).
  assert (Hw2 : wf self w2).
  { destruct (wf_pool _ _ Hw res p Hp) as [Hnd Hin].
    apply wf_set_pool; [done| | |done].
    - rewrite app_assoc. apply NoDup_app. split; [done|]. split; [|apply NoDup_singleton].
      intros r' Hr' ->%list_elem_of_singleton.
      destruct (Hin _ Hr') as (x & Hx & _). apply lookup_lt_Some in Hx. lia.
    - intros r'. rewrite app_assoc.
      intros [Hr'| ->%list_elem_of_singleton]%elem_of_app.
      + destruct (Hin r' Hr') as (x & Hx & Hn). exists x. split; [|done].
        simpl. by apply lookup_app_l_Some.
      + by eauto. }
  assert (He2 : extends w (_trigger_put res w2)).
  { eapply extends_trans; [exact He1|].
    apply (extends_trans _ w2); [|apply extends_trigger_put].
    split; [done|]. split; [done|]. split; [done|]. by eauto 6. }
  split; [by apply wf_trigger_put|]. split; [done|]. split; [by rewrite trigger_put_stages|].
  destruct (extends_trigger_put res w2) as (_ & _ & _ & Hr).
  destruct (Hr _ _ Hnew) as (x' & Hx' & Ho & Hn & _). exists x'. done.
Qed.

Lemma wf_make_requests self h : forall names w store w',
  wf self w ->
  (exists hp, stages w !! h = Some hp /\ names ⊆ resource_names hp) ->
  make_requests names h w = Ok (store, w') ->
  wf self w' /\ extends w w' /\ stages w' = stages w /\
  length store = length names /\
  forall i r, store !! i = Some r ->
    exists x, races w' !! r = Some x /\ owner x = h /\ names !! i = Some (res_name x).
Proof.
  induction names as [|res names IH]; simpl; intros w store w' Hw Hh H.
  - injection H as <- <-. split; [done|]. split; [apply extends_refl|]. split; [done|].
    split; [done|]. intros i r Hi. by destruct i.
  - inv_bind H. destruct a as [r w1]. inv_bind H. destruct a as [rs w2].
    injection H as <- <-. destruct Hh as (hp & Hhp & Hsub).
    destruct (wf_request _ _ _ _ _ _ Hw
                ltac:(exists hp; split; [done|]; apply Hsub; by left) Ha)
      as (Hw1 & He1 & Hs1 & x & Hx & Ho & Hn).
    destruct (IH w1 rs w2 Hw1) as (Hw2 & He2 & Hs2 & Hlen & Hrs); [|done|].
    { exists hp. rewrite Hs1. split; [done|]. intros y Hy. apply Hsub. by right. }
    split; [done|]. split; [by eapply extends_trans|]. split; [congruence|].
    split; [simpl; by rewrite Hlen|]. intros [|i] r' Hi; simpl in Hi.
    + injection Hi as <-. destruct He2 as (_ & _ & _ & Hr).
      destruct (Hr r x Hx) as (x' & Hx' & Ho' & Hn' & _).
      exists x'. split; [done|]. split; [congruence|]. simpl. by rewrite Hn', Hn.
    + by apply Hrs.
Qed.

Lemma wf_spawn_monitors self store : forall w,
  wf self w -> (forall r, r ∈ store -> (r < length (races w))%nat) ->
  wf self (spawn_monitors store w).
Proof.
  unfold spawn_monitors. induction store as [|r store IH]; simpl; intros w Hw Hs; [done|].
  apply IH.
  - apply wf_schedule; [done|]. simpl. apply Hs. by left.
  - intros r' Hin. simpl. apply Hs. by right.
Qed.

Lemma list_remove_sublist x l : list_remove x l `sublist_of` l.
Proof.
  induction l as [|y l IH]; simpl; [done|]. case_decide.
  - by apply sublist_cons.
  - by apply sublist_skip.
Qed.

Lemma wf_release self res r w w' : wf self w -> release res r w = Ok w' -> wf self w'.
Proof.
  intros Hw. unfold release. destruct (resources w !! res) as [p|] eqn:Hp; [|done].
  intros [= <-]. apply wf_schedule; [|done].
  destruct (wf_pool _ _ Hw res p Hp) as [Hnd Hin].
  assert (Hsub : list_remove r (users p) ++ put_queue p `sublist_of` users p ++ put_queue p).
  { apply sublist_app; [apply list_remove_sublist|done]. }
  apply wf_set_pool; [done| | |done].
  - by eapply sublist_NoDup.
  - intros r' Hr'. apply Hin. by eapply elem_of_sublist.
Qed.

Lemma wf_release_all self l : forall w w',
  wf self w -> release_all l w = Ok w' -> wf self w'.
Proof.
  induction l as [|[res r] l IH]; simpl; intros w w' Hw H.
  - by injection H as <-.
  - inv_bind H. eapply IH; [|done]. by eapply wf_release.
Qed.

Lemma wf_any_of_check self r w :
  wf self w -> (forall x, races w !! r = Some x -> is_Some (start_time x)) ->
  wf self (any_of_check r w).
Proof.
  intros Hw Hs. unfold any_of_check. destruct (races w !! r) as [x|] eqn:Hr; [|done].
  destruct (cond_triggered x); [done|].
  apply wf_schedule; [by apply wf_set_race|].
  simpl. rewrite Hr. rewrite list_lookup_insert_eq by (by eapply lookup_lt_Some).
  eexists. split; [done|]. simpl. by apply Hs.
Qed.

Lemma filter_none {A : Type} (P : A -> Prop) `{!forall x, Decision (P x)} (l : list A) :
  (forall x, x ∈ l -> ~ P x) -> filter P l = [].
Proof.
  induction l as [|x l IH]; intros Hall; [done|]. rewrite filter_cons.
  case_decide as HP; [exfalso; apply (Hall x); [by left|done]|].
  apply IH. intros y Hy. apply Hall. by right.
Qed.

Lemma wf_patient_process self p w w' :
  wf self w -> (p < length (patients w))%nat -> patient_process p w = Ok w' -> wf self w'.
Proof.
  intros Hw Hp. unfold patient_process.
  destruct (patients w !! p) as [[pid [|pr rest]]|] eqn:Hpp; [| |done]; intros [= <-].
  - by apply wf_schedule.
  - destruct (wf_patients _ _ Hw p pid _ Hpp) as (Hpid & prs & Hpl & Hprs).
    apply wf_schedule; [|simpl; rewrite length_app; simpl; lia].
    destruct Hw as [Hsim Hcaps Hpo Hev Hrac Hsta Hpat Hpi].
    assert (Hext : extends w (set_stages (fun hs => hs ++ [next_stage pid pr p])
                                (set_patients <[p := (pid, rest)]> w))).
    { split; [simpl; by rewrite length_insert|]. split; [simpl; rewrite length_app; lia|].
      split; [done|]. by eauto 6. }
    constructor; try done.
    + intros it Hin. eapply ev_ok_extends; [exact Hext|]. by apply Hev.
    + intros r x Hx. destruct (Hrac r x Hx) as (hp & Hh & Hin). exists hp.
      split; [|done]. simpl. by apply lookup_app_l_Some.
    + simpl. rewrite length_insert.
      intros h hp [Hh|[_ Hh]]%lookup_app_Some; [by apply (Hsta h)|].
      apply list_lookup_singleton_Some in Hh as [_ <-]. simpl. split; [done|].
      split; [by intros [|i] r Hi|]. split; [by left|]. intros res v Hv. simpl in Hv.
      by rewrite lookup_empty in Hv.
    + simpl. unfold stages_of_patient. simpl. intros p' pid' l.
      rewrite filter_app, filter_cons, filter_nil. simpl.
      destruct (decide (p' = p)) as [->|Hne].
      * rewrite list_lookup_insert_eq by done. intros [= <- <-]. split; [done|].
        exists (prs ++ [pr]). split; [by rewrite Hpl, <- app_assoc|].
        rewrite decide_True by done. apply Forall2_app; [done|].
        constructor; [|done]. unfold stage_of. simpl. by rewrite Hpid.
      * rewrite list_lookup_insert_ne by done. intros Hp'.
        destruct (Hpat p' pid' l Hp') as (? & prs' & ? & ?). split; [done|].
        exists prs'. split; [done|]. rewrite decide_False by done. by rewrite app_nil_r.
    + simpl. by rewrite length_insert.
Qed.

Lemma wf_stage_process self w h hp :
  wf self w -> stages w !! h = Some hp ->
  exists pr, pr ∈ process_list self /\ stage_of (hp_patient hp) pr hp.
Proof.
  intros Hw Hh. destruct (wf_stage _ _ Hw h hp Hh) as [Hlt _].
  destruct (lookup_lt_is_Some_2 _ _ Hlt) as [[pid l] Hp].
  destruct (wf_patients _ _ Hw _ pid l Hp) as (_ & prs & Hpl & Hprs).
  assert (Hin : hp ∈ stages_of_patient (hp_patient hp) w).
  { apply list_elem_of_filter. split; [done|]. by eapply list_elem_of_lookup_2. }
  apply list_elem_of_lookup_1 in Hin as [i Hi].
  destruct (Forall2_lookup_r _ _ _ _ _ Hprs Hi) as (pr & Hpr & Hof).
  exists pr. split; [|done]. rewrite Hpl. apply elem_of_app. left.
  by eapply list_elem_of_lookup_2.
Qed.

Lemma wf_arrivals_resume self g w w' :
  wf self w -> patient_arrivals_resume g w = Ok w' -> wf self w'.
Proof.
  intros Hw. unfold patient_arrivals_resume, patient_arrivals_wait. intros H.
  eapply wf_env_timeout; [| |exact H]; [|exact I]. clear H.
  assert (Hnone : stages_of_patient (length (patients w)) w = []).
  { apply filter_none. intros hp [h Hh]%list_elem_of_lookup_1 Heq.
    destruct (wf_stage _ _ Hw h hp Hh) as [Hlt _]. lia. }
  destruct Hw as [Hsim Hcaps Hpo Hev Hrac Hsta Hpat Hpid].
  constructor; simpl; try done.
  - intros it [->|Hin]%elem_of_cons; [simpl; rewrite length_app; simpl; lia|].
    eapply ev_ok_extends; [|by apply Hev].
    split; [simpl; rewrite length_app; lia|]. split; [done|]. split; [done|]. by eauto 6.
  - intros h hp Hh. destruct (Hsta h hp Hh) as [Hlt Hok]. split; [|done].
    rewrite length_app. lia.
  - intros p pid l [Hp|[Hge Hp]]%lookup_app_Some; [by apply Hpat|].
    apply list_lookup_singleton_Some in Hp as [Hz [= <- <-]].
    assert (p = length (patients w)) as -> by lia.
    rewrite Hpid, Hsim. split; [done|]. exists []. split; [done|].
    change (Forall2 (stage_of (length (patients w))) []
              (stages_of_patient (length (patients w)) w)).
    rewrite Hnone. constructor.
  - rewrite length_app. simpl. lia.
Qed.

Lemma wf_run_start self h w w' :
  wf self w -> (h < length (stages w))%nat -> run_start h w = Ok w' -> wf self w'.
Proof.
  intros Hw Hh. unfold run_start. destruct (stages w !! h) as [hp|] eqn:Hhp; [|done].
  intros H. inv_bind H. destruct a as [store w1]. injection H as <-.
  assert (Hw0 : wf self (set_stage h hp_clear_waits w)).
  { apply wf_set_stage; [|done]. intros y Hy. split; [done|].
    intros (Hst & Hlen & _). split; [done|]. split; [done|].
    intros res v Hv. simpl in Hv. by rewrite lookup_empty in Hv. }
  destruct (wf_make_requests _ _ _ _ _ _ Hw0
              ltac:(exists (hp_clear_waits hp); split;
                    [by apply set_stage_lookup_eq|done]) Ha)
    as (Hw1 & He1 & Hs1 & Hlen & Hst).
  assert (Hh1 : stages w1 !! h = Some (hp_clear_waits hp)).
  { rewrite Hs1. by apply set_stage_lookup_eq. }
  assert (Hw2 : wf self (set_stage h (hp_set_request_store store) w1)).
  { apply wf_set_stage; [|done]. intros y Hy. split; [done|].
    assert (y = hp_clear_waits hp) as -> by congruence.
    intros (_ & _ & Hwt). split; [exact Hst|]. split; [by right|done]. }
  assert (Hw3 : wf self (spawn_monitors store
                           (set_stage h (hp_set_request_store store) w1))).
  { apply wf_spawn_monitors; [done|]. intros r [i Hi]%list_elem_of_lookup_1.
    destruct (Hst i r Hi) as (x & Hx & _). simpl. by eapply lookup_lt_Some. }
  destruct store; [|done]. apply wf_schedule; [done|].
  change (h < length (stages (set_stage h (hp_set_request_store []) w1)))%nat.
  rewrite set_stage_length, Hs1, set_stage_length. done.
Qed.

Lemma env_timeout_races ev d w w' :
  env_timeout ev d w = Ok w' -> races w' = races w /\ stages w' = stages w.
Proof. unfold env_timeout. destruct (d <? 0); [done|]. by intros [= <-]. Qed.

Lemma wf_dispatch self g ev w w' :
  wf self w -> ev_ok w ev -> dispatch g ev w = Ok w' -> wf self w'.
Proof.
  intros Hw Hok H. destruct ev; simpl in H, Hok.
  - injection H as <-. by eapply wf_frame; [..|exact Hw].
  - done.
  - by eapply wf_arrivals_resume.
  - by eapply wf_patient_process.
  - by eapply wf_run_start.
  - unfold request_resource_and_monitor_time_start in H.
    destruct (races w !! r) as [x|] eqn:Hr; [|done]. inv_bind H. injection H as <-.
    assert (Hw1 : wf self (set_race r (race_start (now (env w))) w)).
    { apply wf_set_race; [|done]. intros y. split; [done|]. split; [done|]. by eauto. }
    assert (Hx1 : races (set_race r (race_start (now (env w))) w) !! r
                  = Some (race_start (now (env w)) x)) by (by apply set_race_lookup_eq).
    assert (Hwa : wf self a).
    { eapply wf_env_timeout; [exact Hw1| |exact Ha].
      eexists. split; [exact Hx1|]. by eauto. }
    destruct (req_processed x); [|done]. apply wf_any_of_check; [done|].
    apply env_timeout_races in Ha as [Hra _]. rewrite Hra, Hx1.
    intros y [= <-]. by eauto.
  - unfold on_request in H. destruct (races w !! r) as [x|] eqn:Hr; [|done].
    injection H as <-.
    assert (Hw1 : wf self (set_race r race_req_processed w))
      by (by apply wf_set_race).
    destruct (start_time x) as [st|] eqn:Hst; [|done].
    apply wf_any_of_check; [done|].
    rewrite (set_race_lookup_eq _ _ _ _ Hr). intros y [= <-]. simpl. by rewrite Hst.
  - unfold on_race_timeout in H. injection H as <-.
    destruct Hok as (x & Hr & Hsome).
    apply wf_any_of_check; [by apply wf_set_race|].
    rewrite (set_race_lookup_eq _ _ _ _ Hr). by intros y [= <-].
  - unfold request_resource_and_monitor_time_resume in H.
    destruct (races w !! r) as [x|] eqn:Hr; [|done].
    destruct (start_time x) as [st|] eqn:Hst; [|done]. injection H as <-.
    apply wf_schedule.
    + apply wf_set_race; [by intros y|]. apply wf_set_stage; [|done].
      intros hp Hhp. split; [done|]. intros (Hsto & Hlen & Hwt).
      split; [done|]. split; [done|]. intros res v. simpl. destruct (decide (res = res_name x)) as [->|Hne].
      * intros _. destruct (wf_race _ _ Hw r x Hr) as (hp' & Hhp' & Hin). congruence.
      * rewrite lookup_insert_ne by done. by apply Hwt.
    + simpl. destruct (stages w !! owner x); simpl; rewrite Hr;
        rewrite length_insert; by eapply lookup_lt_Some.
  - unfold on_monitor_done in H.
    destruct (races w !! r) as [x|] eqn:Hr; [|done].
    destruct (stages w !! owner x) as [hp|] eqn:Hh; [|done]. injection H as <-.
    assert (Hw1 : wf self (set_stage (owner x) hp_count w))
      by (by apply wf_set_stage).
    case_decide; [|done]. apply wf_schedule; [done|].
    simpl. rewrite Hh, length_insert. by eapply lookup_lt_Some.
  - unfold run_service in H. destruct (stages w !! h) as [hp|] eqn:Hh; [|done].
    eapply wf_env_timeout; [| |exact H].
    + apply wf_set_stage; [by intros y|]. by eapply wf_frame; [..|exact Hw].
    + simpl. rewrite Hh, length_insert. by eapply lookup_lt_Some.
  - unfold run_release in H. destruct (stages w !! h) as [hp|] eqn:Hh; [|done].
    inv_bind H. injection H as <-.
    apply wf_schedule; [by eapply wf_release_all|]. simpl.
    by rewrite (same_objects_stages _ _ (same_objects_release_all _ _ _ Ha)).
  - injection H as <-. by apply wf_trigger_put.
  - destruct (stages w !! h) as [hp|] eqn:Hh; [|done].
    eapply wf_patient_process; [exact Hw| |exact H].
    by destruct (wf_stage _ _ Hw h hp Hh).
  - by injection H as <-.
Qed.

(** ** What a run can raise *)

Lemma bind_Raise {A B : Type} (m : result A) (f : A -> result B) (e : exn) :
  m ≫= f = Raise e -> m = Raise e \/ exists a, m = Ok a /\ f a = Raise e.
Proof. destruct m as [a|e']; simpl; [by eauto|]. intros [= <-]. by left. Qed.

Lemma request_raise self res h w e :
  wf self w -> request res h w = Raise e ->
  e = KeyError res /\ resource_dict self !! res = None.
Proof.
  intros Hw. unfold request. destruct (resources w !! res) as [p|] eqn:Hp; [done|].
  intros [= <-]. split; [done|]. by rewrite <- (wf_caps _ _ Hw), Hp.
Qed.

Lemma make_requests_raise self h : forall names w e,
  wf self w ->
  (exists hp, stages w !! h = Some hp /\ names ⊆ resource_names hp) ->
  make_requests names h w = Raise e ->
  exists res, e = KeyError res /\ res ∈ names /\ resource_dict self !! res = None.
Proof.
  induction names as [|res names IH]; simpl; intros w e Hw (hp & Hhp & Hsub) H; [done|].
  apply bind_Raise in H as [H|([r w1] & Hr & H)].
  - destruct (request_raise _ _ _ _ _ Hw H) as [-> ?]. exists res.
    split; [done|]. split; [by left|done].
  - destruct (wf_request _ _ _ _ _ _ Hw
                ltac:(exists hp; split; [done|]; apply Hsub; by left) Hr)
      as (Hw1 & _ & Hs1 & _).
    apply bind_Raise in H as [H|([rs w2] & _ & H)]; [|done].
    destruct (IH w1 e Hw1) as (res' & -> & Hin & Hnone); [|done|].
    { exists hp. rewrite Hs1. split; [done|]. intros y Hy. apply Hsub. by right. }
    exists res'. split; [done|]. split; [by right|done].
Qed.

Lemma make_requests_absent self h : forall names w,
  wf self w ->
  (exists hp, stages w !! h = Some hp /\ names ⊆ resource_names hp) ->
  (exists res, res ∈ names /\ resource_dict self !! res = None) ->
  exists res, make_requests names h w = Raise (KeyError res) /\ res ∈ names /\
    resource_dict self !! res = None.
Proof.
  induction names as [|res0 names IH]; intros w Hw (hp & Hhp & Hsub) (res & Hin & Hnone).
  - by apply elem_of_nil in Hin.
  - simpl. destruct (request res0 h w) as [[r w1]|e] eqn:Hr.
    + destruct (wf_request _ _ _ _ _ _ Hw
                  ltac:(exists hp; split; [done|]; apply Hsub; by left) Hr)
        as (Hw1 & _ & Hs1 & _).
      apply elem_of_cons in Hin as [->|Hin].
      * unfold request in Hr. destruct (resources w !! res0) as [p|] eqn:Hp; [|done].
        pose proof (wf_caps _ _ Hw res0) as Hc. rewrite Hp, Hnone in Hc. done.
      * destruct (IH w1 Hw1) as (res' & Hm & ? & ?); [|by eauto|].
        { exists hp. rewrite Hs1. split; [done|]. intros y Hy. apply Hsub. by right. }
        simpl. rewrite Hm. simpl. exists res'. split; [done|]. split; [by right|done].
    + destruct (request_raise _ _ _ _ _ Hw Hr) as [-> Hn]. simpl.
      exists res0. split; [done|]. split; [by left|done].
Qed.

Lemma release_all_raise self l : forall w e,
  wf self w -> release_all l w = Raise e ->
  exists res, e = KeyError res /\ res ∈ l.*1 /\ resource_dict self !! res = None.
Proof.
  induction l as [|[res r] l IH]; simpl; intros w e Hw H; [done|].
  apply bind_Raise in H as [H|(w1 & Hr & H)].
  - unfold release in H. destruct (resources w !! res) as [p|] eqn:Hp; [done|].
    injection H as <-. exists res. split; [done|]. split; [by left|].
    by rewrite <- (wf_caps _ _ Hw), Hp.
  - destruct (IH w1 e (wf_release _ _ _ _ _ Hw Hr) H) as (res' & -> & Hin & Hnone).
    exists res'. split; [done|]. split; [by right|done].
Qed.

Lemma env_timeout_raise ev d w e :
  env_timeout ev d w = Raise e -> d < 0 /\ exists msg, e = ValueError msg.
Proof.
  unfold env_timeout. destruct (Z.ltb_spec d 0); [|done]. intros [= <-]. by eauto.
Qed.

Lemma patient_process_raise self p w e :
  wf self w -> (p < length (patients w))%nat -> patient_process p w = Raise e -> False.
Proof.
  intros Hw Hp. unfold patient_process.
  destruct (lookup_lt_is_Some_2 _ _ Hp) as [[pid l] Hl]. rewrite Hl. by destruct l.
Qed.

Lemma dispatch_raise self g ev w e :
  wf self w -> ev_ok w ev -> dispatch g ev w = Raise e -> run_error g self e.
Proof.
  intros Hw Hok H. destruct ev; simpl in H, Hok; try done.
  - unfold patient_arrivals_resume, patient_arrivals_wait in H.
    apply env_timeout_raise in H as (Hneg & msg & ->). left. exists msg.
    split; [done|]. left. by eauto.
  - exfalso. by eapply patient_process_raise.
  - unfold run_start in H. destruct (lookup_lt_is_Some_2 _ _ Hok) as [hp Hh].
    rewrite Hh in H. apply bind_Raise in H as [H|([store w1] & _ & H)]; [|done].
    assert (Hw0 : wf self (set_stage h hp_clear_waits w)).
    { apply wf_set_stage; [|done]. intros y Hy. split; [done|].
      intros (Hst & Hlen & _). split; [done|]. split; [done|].
      intros res v Hv. simpl in Hv. by rewrite lookup_empty in Hv. }
    destruct (make_requests_raise self h _ _ e Hw0
                ltac:(exists (hp_clear_waits hp); split;
                      [by apply set_stage_lookup_eq|done]) H)
      as (res & -> & Hin & Hnone).
    right. exists res. split; [done|].
    destruct (wf_stage_process _ _ _ _ Hw Hh) as (pr & Hpr & _ & Hn & _).
    exists pr. split; [done|]. split; [by rewrite <- Hn|done].
  - unfold request_resource_and_monitor_time_start in H.
    destruct (lookup_lt_is_Some_2 _ _ Hok) as [x Hr]. rewrite Hr in H.
    apply bind_Raise in H as [H|(w1 & _ & H)]; [|done].
    apply env_timeout_raise in H as [? _]. lia.
  - unfold on_request in H. destruct (lookup_lt_is_Some_2 _ _ Hok) as [x Hr].
    by rewrite Hr in H.
  - unfold request_resource_and_monitor_time_resume in H.
    destruct Hok as (x & Hr & [st Hst]). by rewrite Hr, Hst in H.
  - unfold on_monitor_done in H. destruct (lookup_lt_is_Some_2 _ _ Hok) as [x Hr].
    rewrite Hr in H. destruct (wf_race _ _ Hw r x Hr) as (hp & Hh & _).
    by rewrite Hh in H.
  - unfold run_service in H. destruct (lookup_lt_is_Some_2 _ _ Hok) as [hp Hh].
    rewrite Hh in H. apply env_timeout_raise in H as (Hneg & msg & ->).
    left. exists msg. split; [done|]. right.
    destruct (wf_stage_process _ _ _ _ Hw Hh) as (pr & Hpr & _ & _ & Hmi & Hma & _).
    exists (np_calls w), pr. split; [done|]. by rewrite <- Hmi, <- Hma.
  - unfold run_release in H. destruct (lookup_lt_is_Some_2 _ _ Hok) as [hp Hh].
    rewrite Hh in H. apply bind_Raise in H as [H|(w1 & _ & H)]; [|done].
    destruct (release_all_raise _ _ _ _ Hw H) as (res & -> & Hin & Hnone).
    right. exists res. split; [done|].
    destruct (wf_stage_process _ _ _ _ Hw Hh) as (pr & Hpr & _ & Hn & _).
    exists pr. split; [done|]. split; [|done]. rewrite <- Hn.
    apply list_elem_of_fmap in Hin as ([res' r'] & -> & Hin).
    by apply elem_of_zip_l in Hin.
  - destruct (lookup_lt_is_Some_2 _ _ Hok) as [hp Hh]. rewrite Hh in H.
    exfalso. eapply patient_process_raise; [exact Hw| |exact H].
    by destruct (wf_stage _ _ Hw h hp Hh).
Qed.

(** ** The first event, and every state after it *)

Lemma begin_setup_world self w0 :
  begin_setup self = Ok w0 ->
  map_Forall (fun _ c => 0 < c) (resource_dict self) /\ 0 < simulation_time self /\
  w0 = World self
         (Env 0 [QItem (simulation_time self) URGENT 1 StopEvent;
                 QItem 0 URGENT 0 InitArrivals] 2)
         ((fun c => MkResource c [] []) <$> resource_dict self) [] [] [] 0 0 0 Running [].
Proof.
  unfold begin_setup, setup_resource_environment. case_decide as Hall; [|done]. simpl.
  destruct (Z.leb_spec (simulation_time self) 0); [done|]. intros [= <-]. done.
Qed.

Lemma first_step self g w0 :
  begin_setup self = Ok w0 ->
  step g w0 =
    env_timeout ArrivalTimeout (lognormvariate g 0)
      (World self (Env 0 [QItem (simulation_time self) URGENT 1 StopEvent] 2)
         ((fun c => MkResource c [] []) <$> resource_dict self) [] [] [] 0 1 0 Running
         [QItem 0 URGENT 0 InitArrivals]).
Proof.
  intros H. apply begin_setup_world in H as (_ & Hu & ->).
  unfold step. simpl. unfold qle. simpl.
  destruct (Z.ltb_spec (simulation_time self) 0); [lia|].
  destruct (Z.ltb_spec 0 (simulation_time self)); [|lia]. done.
Qed.

Lemma wf_first self :
  wf self (World self (Env 0 [QItem (simulation_time self) URGENT 1 StopEvent] 2)
         ((fun c => MkResource c [] []) <$> resource_dict self) [] [] [] 0 1 0 Running
         [QItem 0 URGENT 0 InitArrivals]).
Proof.
  constructor; simpl; try done.
  - intros res. rewrite lookup_fmap. by destruct (resource_dict self !! res).
  - intros res p. rewrite lookup_fmap.
    destruct (resource_dict self !! res); [|done]. intros [= <-]. simpl.
    split; [constructor|]. intros r Hin. by apply elem_of_nil in Hin.
  - by intros it ->%list_elem_of_singleton.
Qed.

Lemma wf_pop self w it rest :
  wf self w -> pop_min (queue (env w)) = Some (it, rest) ->
  wf self (set_trace (cons it) (set_env (fun e => Env (q_time it) rest (eid e)) w)) /\
  ev_ok (set_trace (cons it) (set_env (fun e => Env (q_time it) rest (eid e)) w))
        (q_event it).
Proof.
  intros [Hsim Hcaps Hpo Hev Hrac Hsta Hpat Hpid] Hpop.
  assert (Hel : forall it', it' = it \/ it' ∈ rest -> it' ∈ queue (env w)).
  { intros it' Hin. apply (pop_min_elem _ _ _ _ Hpop). done. }
  split.
  - constructor; simpl; try done. intros it' Hin.
    eapply ev_ok_frame; [..|apply (Hev it')]; try done. apply Hel. by right.
  - eapply ev_ok_frame; [..|apply (Hev it)]; try done. apply Hel. by left.
Qed.

Lemma reachable_wf g self w :
  reachable g self w -> begin_setup self = Ok w \/ wf self w.
Proof.
  revert w. apply reachable_ind; [by left|].
  intros w w' Hw Hrun IH Hstep. right. destruct IH as [H0|Hwf].
  - rewrite (first_step _ _ _ H0) in Hstep.
    exact (wf_env_timeout self ArrivalTimeout _ _ _ (wf_first self) I Hstep).
  - apply step_inversion in Hstep as (it & rest & Hpop & Hd).
    destruct (wf_pop _ _ _ _ Hwf Hpop) as [Hw1 Hok]. by eapply wf_dispatch.
Qed.

Lemma step_raise g self w e :
  reachable g self w -> run_status w = Running -> step g w = Raise e ->
  run_error g self e.
Proof.
  intros Hw Hrun Hstep. destruct (reachable_wf _ _ _ Hw) as [H0|Hwf].
  - rewrite (first_step _ _ _ H0) in Hstep.
    apply env_timeout_raise in Hstep as (Hneg & msg & ->).
    left. exists msg. split; [done|]. left. by eauto.
  - unfold step in Hstep.
    destruct (pop_min (queue (env w))) as [[it rest]|] eqn:Hpop.
    + destruct (wf_pop _ _ _ _ Hwf Hpop) as [Hw1 Hok]. by eapply dispatch_raise.
    + apply pop_min_None in Hpop.
      destruct (hz_running _ (reachable_horizon _ _ _ Hw) Hrun) as (_ & it & Hin & _).
      rewrite Hpop in Hin. by apply elem_of_nil in Hin.
Qed.

Lemma run_one g w : run g 1 w = match run_status w with Finished => Ok w | Running => step g w end.
Proof. simpl. destruct (run_status w); [|done]. by destruct (step g w). Qed.

Lemma begin_raise g self : forall fuel e,
  begin g fuel self = Raise e ->
  begin_setup self = Raise e \/ run_error g self e.
Proof.
  induction fuel as [|fuel IH]; intros e H.
  - unfold begin in H. destruct (begin_setup self); [done|]. by left.
  - destruct (begin g fuel self) as [w|e'] eqn:Hb.
    + right. assert (Hw : reachable g self w) by (by exists fuel).
      unfold begin in *. destruct (begin_setup self) as [w0|]; [|done].
      change (run g (S fuel) w0 = Raise e) in H. change (run g fuel w0 = Ok w) in Hb.
      replace (S fuel) with (fuel + 1)%nat in H by lia.
      rewrite run_add, Hb in H.
      change (run g 1 w = Raise e) in H. rewrite run_one in H.
      destruct (run_status w) eqn:Hrun; [|done]. by eapply step_raise.
    + destruct (IH e' eq_refl) as [Hs|He].
      * left. unfold begin in H. rewrite Hs in H. simpl in H. congruence.
      * right. unfold begin in *. destruct (begin_setup self) as [w0|];
          [|simpl in *; assert (e = e') as -> by congruence; done].
        change (run g (S fuel) w0 = Raise e) in H.
        change (run g fuel w0 = Raise e') in Hb.
        replace (S fuel) with (fuel + 1)%nat in H by lia.
        rewrite run_add, Hb in H. simpl in H. assert (e = e') as -> by congruence. done.
Qed.

(** X7: begin() raises nothing but: the ValueError of SimPy for a capacity that
    is not positive, for an [until] that is not after time 0, or for a
    negative delay when a draw is negative; and the KeyError of a resource
    that a process names but resource_dict lacks. *)
Theorem begin_raises_only g self fuel e :
  begin g fuel self = Raise e ->
  (exists msg, e = ValueError msg /\
     (has_nonpositive_capacity (resource_dict self) \/ simulation_time self <= 0 \/
      negative_draw g self)) \/
  (exists res, e = KeyError res /\ absent_resource self res).
Proof.
  intros H. apply begin_raise in H as [H|[(msg & -> & Hn)|Hk]]; [| |by right].
  - left. unfold begin_setup, setup_resource_environment in H.
    case_decide as Hall; simpl in H.
    + destruct (Z.leb_spec (simulation_time self) 0); [|done].
      injection H as <-. eexists. split; [done|]. by eauto.
    + injection H as <-. eexists. split; [done|]. left.
      apply map_not_Forall in Hall; [|apply _].
      destruct Hall as (res & c & Hc & Hnot). exists res, c. split; [done|]. lia.
  - left. exists msg. by eauto.
Qed.

(** X8: a configuration with positive capacities, a positive [until], process
    ranges 0 <= min <= max and only resources that exist never raises, when
    the draws are what the distributions give: begin() runs on for any
    number of events. *)
Theorem valid_configuration_never_raises g self fuel :
  map_Forall (fun _ c => 0 < c) (resource_dict self) ->
  0 < simulation_time self ->
  (forall pr res, pr ∈ process_list self -> res ∈ p_resources pr ->
     is_Some (resource_dict self !! res)) ->
  (forall pr, pr ∈ process_list self ->
     0 <= fst (p_time_range pr) <= snd (p_time_range pr)) ->
  (forall n, 0 <= lognormvariate g n) ->
  (forall n lo hi, lo <= hi -> lo <= uniform g n lo hi <= hi) ->
  exists w, begin g fuel self = Ok w.
Proof.
  intros Hcap Hu Hres Hrange Hln Hun.
  destruct (begin g fuel self) as [w|e] eqn:Hb; [by eauto|exfalso].
  apply begin_raise in Hb as [H|[(msg & -> & [[n Hn]|(n & pr & Hpr & Hn)])|
                                 (res & -> & pr & Hpr & Hin & Hnone)]].
  - unfold begin_setup, setup_resource_environment in H.
    case_decide; [|done]. simpl in H.
    destruct (Z.leb_spec (simulation_time self) 0); [lia|done].
  - specialize (Hln n). lia.
  - specialize (Hrange pr Hpr).
    assert (Hle : fst (p_time_range pr) <= snd (p_time_range pr)) by lia.
    pose proof (Hun n _ _ Hle). lia.
  - destruct (Hres pr res Hpr Hin) as [c Hc]. congruence.
Qed.

(** ** The objects of a run *)

Lemma reachable_wf_fields g self w :
  reachable g self w ->
  stages w = [] /\ races w = [] /\ patients w = [] /\ patient_id w = 0%nat /\
  (forall res p, resources w !! res = Some p -> users p = [] /\ put_queue p = [])
  \/ wf self w.
Proof.
  intros Hw. destruct (reachable_wf _ _ _ Hw) as [H0|Hwf]; [left|by right].
  apply begin_setup_world in H0 as (_ & _ & ->). simpl. do 4 (split; [done|]).
  intros res p. rewrite lookup_fmap. destruct (resource_dict self !! res); [|done].
  by intros [= <-].
Qed.

(** X10: in every state of a run the shared resource dictionary has the keys of
    resource_dict, and each pool the capacity configured for it. *)
Theorem pools_are_as_configured g self w res :
  reachable g self w ->
  capacity <$> (resources w !! res) = resource_dict self !! res.
Proof.
  intros Hw. destruct (reachable_wf _ _ _ Hw) as [H0|Hwf]; [|by apply (wf_caps _ _ Hwf)].
  apply begin_setup_world in H0 as (_ & _ & ->). simpl.
  rewrite lookup_fmap. by destruct (resource_dict self !! res).
Qed.

(** X11: in every state of a run the users and the waiting requests of a pool
    are distinct requests, all made on that pool: no request holds two
    slots, or holds one while it waits. *)
Theorem pools_hold_distinct_requests g self w res p :
  reachable g self w -> resources w !! res = Some p ->
  NoDup (users p ++ put_queue p) /\
  forall r, r ∈ users p ++ put_queue p ->
    exists x, races w !! r = Some x /\ res_name x = res.
Proof.
  intros Hw Hp. destruct (reachable_wf_fields _ _ _ Hw) as [(_ & _ & _ & _ & H0)|Hwf].
  - destruct (H0 res p Hp) as [-> ->]. split; [constructor|].
    intros r Hin. by apply elem_of_nil in Hin.
  - by apply (wf_pool _ _ Hwf).
Qed.

(** X12: patient_arrivals numbers the patients from 0: its counter is the number
    of patients created so far, and the p-th patient is called "Patient p". *)
Theorem patients_are_numbered g self w :
  reachable g self w ->
  patient_id w = length (patients w) /\
  forall p pid l, patients w !! p = Some (pid, l) -> pid = "Patient " +:+ pretty p.
Proof.
  intros Hw. destruct (reachable_wf_fields _ _ _ Hw) as [(_ & _ & Hp & Hid & _)|Hwf].
  - rewrite Hp, Hid. done.
  - split; [by apply (wf_patient_id _ _ Hwf)|]. intros p pid l Hp.
    by destruct (wf_patients _ _ Hwf p pid l Hp).
Qed.

(** X14: patient_process takes a patient through process_list in order: the
    stages built for the patient so far, followed by what the patient has
    still to run, are the process list; each stage has the resource names
    and the time range of its process and the task name
    "Patient Patient p - name", the word Patient twice.  Every stage belongs
    to a patient that exists. *)
Theorem patient_runs_the_process_list_in_order g self w :
  reachable g self w ->
  (forall h hp, stages w !! h = Some hp -> (hp_patient hp < length (patients w))%nat) /\
  forall p pid l, patients w !! p = Some (pid, l) ->
    exists prs, process_list self = prs ++ l /\
      Forall2 (fun pr hp =>
                 task_name hp = "Patient Patient " +:+ pretty p +:+ " - " +:+ p_name pr /\
                 resource_names hp = p_resources pr /\
                 (time_min hp, time_max hp) = p_time_range pr)
              prs (stages_of_patient p w).
Proof.
  intros Hw. destruct (reachable_wf_fields _ _ _ Hw) as [(Hs & _ & Hp & _)|Hwf].
  - rewrite Hs, Hp. done.
  - split; [intros h hp Hh; by destruct (wf_stage _ _ Hwf h hp Hh)|].
    intros p pid l Hp. destruct (wf_patients _ _ Hwf p pid l Hp) as (_ & prs & Hpl & Hprs).
    exists prs. split; [done|]. eapply Forall2_impl; [exact Hprs|].
    intros pr hp (Ht & Hn & Hmi & Hma & _). split; [exact Ht|]. split; [done|].
    rewrite Hmi, Hma. by destruct (p_time_range pr).
Qed.

(** X15: the requests of a stage follow its resource names: once run() has made
    them there is one per resource name, the i-th request in request_store
    was made by this stage on its i-th resource name, so that
    zip(resource_names, request_store) pairs every request with its own
    pool; and every request of the run was made by a stage that names its
    resource. *)
Theorem requests_follow_the_resource_names g self w :
  reachable g self w ->
  (forall h hp, stages w !! h = Some hp ->
     (request_store hp = [] \/
      length (request_store hp) = length (resource_names hp)) /\
     forall i r, request_store hp !! i = Some r ->
       exists x, races w !! r = Some x /\ owner x = h /\
         resource_names hp !! i = Some (res_name x)) /\
  (forall r x, races w !! r = Some x ->
     exists hp, stages w !! owner x = Some hp /\ res_name x ∈ resource_names hp).
Proof.
  intros Hw. destruct (reachable_wf_fields _ _ _ Hw) as [(Hs & Hr & _)|Hwf].
  - rewrite Hs, Hr. done.
  - split; [|by apply (wf_race _ _ Hwf)].
    intros h hp Hh. destruct (wf_stage _ _ Hwf h hp Hh) as [_ (Hst & Hlen & _)]. done.
Qed.

(** X4: every wait a stage has recorded in resource_wait_times is recorded under
    one of the stage's resource names, and is float('inf') or a number that
    is not negative. *)
Theorem recorded_waits_are_inf_or_not_negative g self w h hp res v :
  reachable g self w -> stages w !! h = Some hp ->
  resource_wait_times hp !! res = Some v ->
  res ∈ resource_names hp /\
  (v = PyInf \/ exists z, v = PyNum z /\ 0 <= z).
Proof.
  intros Hw Hh Hv. split.
  2: { destruct (waits_in_range _ _ _ _ _ _ _ Hw Hh Hv) as [?|(z & ? & ? & _)]; [by left|].
       right. by exists z. }
  destruct (reachable_wf_fields _ _ _ Hw) as [(Hs & _)|Hwf].
  - by rewrite Hs in Hh.
  - destruct (wf_stage _ _ Hwf h hp Hh) as [_ (_ & _ & Hwt)]. by eapply Hwt.
Qed.

(** X6: begin() fails before any event exactly when a capacity is not positive
    or [until] is not after time 0, with the ValueError of SimPy; otherwise
    it starts the run at time 0, with no event dispatched yet. *)
Theorem begin_fails_at_once_iff self :
  (has_nonpositive_capacity (resource_dict self) \/ simulation_time self <= 0 <->
   exists msg, forall g fuel, begin g fuel self = Raise (ValueError msg)) /\
  (~ (has_nonpositive_capacity (resource_dict self) \/ simulation_time self <= 0) <->
   exists w, (forall g, begin g 0 self = Ok w) /\ now (env w) = 0 /\ trace w = [] /\
     run_status w = Running).
Proof.
  assert (Hdec : has_nonpositive_capacity (resource_dict self) <->
                 ~ map_Forall (fun _ c => 0 < c) (resource_dict self)).
  { split.
    - intros (res & c & Hc & Hle) Hall. specialize (Hall res c Hc). simpl in Hall. lia.
    - intros Hall. apply map_not_Forall in Hall; [|apply _].
      destruct Hall as (res & c & Hc & Hnot). exists res, c. split; [done|]. lia. }
  pose (g0 := {| lognormvariate := fun _ => 0; uniform := fun _ _ _ => 0 |}).
  unfold begin, begin_setup, setup_resource_environment.
  case_decide as Hall; simpl.
  - destruct (Z.leb_spec (simulation_time self) 0) as [Hu|Hu]; simpl.
    + split; [split; [by eauto|by right]|].
      split; [intros Hn; exfalso; apply Hn; by right|].
      intros (w & H & _). by specialize (H g0).
    + split.
      * split; [intros [Hc|?]; [by apply Hdec in Hc|lia]|].
        intros (msg & H). by specialize (H g0 0%nat).
      * split; [|intros _ [Hc|?]; [by apply Hdec in Hc|lia]].
        intros _. eexists. split; [done|]. done.
  - split; [split; [by eauto|intros _; left; by apply Hdec]|].
    split; [intros Hn; exfalso; apply Hn; left; by apply Hdec|].
    intros (w & H & _). by specialize (H g0).
Qed.

(** X17: nothing in a run appends to patient_log_data: for a freshly constructed
    simulation the log is empty in every state of begin(), and
    data_collation() has no row. *)
Theorem log_is_never_written rd pl lpl wp u s g w :
  SimpySimulation_init rd pl lpl wp u = Ok s -> reachable g s w ->
  patient_log_data (sim w) = [] /\ snd (data_collation (sim w)) = [].
Proof.
  intros [= <-] [fuel Hw]. apply begin_sim in Hw. by rewrite Hw.
Qed.

(** ** The service time of a stage *)

(** X5: the service time a stage has stored is a draw of
    np.random.uniform(time_min, time_max) for the stage's own range, one of
    the draws the run has made so far. *)
Theorem service_time_is_a_draw_from_the_range g self w h hp t :
  reachable g self w -> stages w !! h = Some hp -> service_time hp = Some t ->
  exists n, (n < np_calls w)%nat /\ t = uniform g n (time_min hp) (time_max hp).
Proof.
  intros Hw. revert h hp t. revert w Hw.
  apply (reachable_ind (fun w => forall h hp t,
           stages w !! h = Some hp -> service_time hp = Some t ->
           exists n, (n < np_calls w)%nat /\ t = uniform g n (time_min hp) (time_max hp))).
  - intros w H0 h hp t Hh. apply begin_setup_stages in H0 as (Hs & _).
    by rewrite Hs in Hh.
  - intros w w' Hw Hrun IH Hstep h hp' t Hh Ht.
    destruct (step_calls _ _ _ Hstep) as [_ Hnp].
    apply step_inversion in Hstep as (it & rest & Hpop & Hd).
    assert (Hold : forall hp, stages w !! h = Some hp -> service_time hp = Some t ->
              time_min hp' = time_min hp -> time_max hp' = time_max hp ->
              exists n, (n < np_calls w')%nat /\
                        t = uniform g n (time_min hp') (time_max hp')).
    { intros hp Hhp Hst -> ->. destruct (IH h hp t Hhp Hst) as (n & Hn & ->).
      exists n. split; [lia|done]. }
    destruct (dispatch_stages _ _ _ _ _ _ Hd Hh)
      as [(hp & Hhp & Hc)|(_ & p & pid & pr & rs & _ & -> & _)]; [|done].
    simpl in Hhp.
    destruct Hc as [->|[(_ & store & w1 & _ & ->)|[(r & x & st & Hev & Hr & -> & Hst & ->)|
                   [(r & x & _ & _ & _ & ->)|(Hev & ->)]]]];
      try (by apply (Hold hp)).
    simpl in Ht. injection Ht as <-. simpl.
    rewrite Hev in Hd. apply dispatch_calls in Hd as [_ Hn]. simpl in Hn.
    exists (np_calls w). split; [lia|done].
Qed.

(** ** The end of a stage *)

Lemma list_remove_NoDup x l : NoDup l -> x ∉ list_remove x l.
Proof.
  induction 1 as [|y l Hy Hnd IH]; simpl; [by intros ?%elem_of_nil|].
  case_decide as Heq; [by subst|].
  intros [->|Hin]%elem_of_cons; [done|by apply IH].
Qed.

Lemma release_users self res r w w' :
  wf self w -> release res r w = Ok w' ->
  forall res' p', resources w' !! res' = Some p' ->
    exists p, resources w !! res' = Some p /\ users p' `sublist_of` users p /\
      (res' = res -> r ∉ users p').
Proof.
  intros Hw. unfold release. destruct (resources w !! res) as [p|] eqn:Hp; [|done].
  intros [= <-] res' p'. simpl. destruct (decide (res' = res)) as [->|Hne].
  - rewrite lookup_insert_eq. intros [= <-]. exists p. split; [done|]. simpl.
    split; [apply list_remove_sublist|]. intros _. apply list_remove_NoDup.
    destruct (wf_pool _ _ Hw res p Hp) as [Hnd _]. by apply NoDup_app in Hnd as (? & _).
  - rewrite lookup_insert_ne by done. intros Hp'. exists p'. done.
Qed.

Lemma release_all_users self l : forall w w',
  wf self w -> release_all l w = Ok w' ->
  forall res' p', resources w' !! res' = Some p' ->
    exists p, resources w !! res' = Some p /\ users p' `sublist_of` users p /\
      forall r, (res', r) ∈ l -> r ∉ users p'.
Proof.
  induction l as [|[res r] l IH]; simpl; intros w w' Hw H res' p' Hp'.
  - injection H as <-. exists p'. split; [done|]. split; [done|].
    intros r Hin. by apply elem_of_nil in Hin.
  - inv_bind H. destruct (IH a w' (wf_release _ _ _ _ _ Hw Ha) H res' p' Hp')
      as (p1 & Hp1 & Hsub1 & Hl).
    destruct (release_users _ _ _ _ _ Hw Ha res' p1 Hp1) as (p & Hp & Hsub & Hr).
    exists p. split; [done|]. split; [by etrans|].
    intros r' [[= -> ->]|Hin]%elem_of_cons; [|by apply Hl].
    intros Hin. apply (Hr eq_refl). by eapply elem_of_sublist.
Qed.

(** X16: when the service delay of a stage is over and the stage has called
    release for its requests, none of its requests holds a slot of any
    pool. *)
Theorem stage_end_frees_its_slots g self w w' it rest h hp r res p :
  reachable g self w -> pop_min (queue (env w)) = Some (it, rest) ->
  q_event it = ServiceTimeout h -> step g w = Ok w' ->
  stages w !! h = Some hp -> r ∈ request_store hp ->
  resources w' !! res = Some p -> r ∉ users p.
Proof.
  intros Hw Hpop Hev Hstep Hh Hr Hp.
  destruct (reachable_wf _ _ _ Hw) as [H0|Hwf].
  { apply begin_setup_world in H0 as (_ & _ & ->). simpl in Hh. done. }
  apply step_inversion in Hstep as (it' & rest' & Hpop' & Hd).
  rewrite Hpop in Hpop'. injection Hpop' as <- <-.
  destruct (wf_pop _ _ _ _ Hwf Hpop) as [Hw1 _].
  rewrite Hev in Hd. simpl in Hd. unfold run_release in Hd.
  change (match stages w !! h with
          | Some hp0 =>
              release_all (zip (resource_names hp0) (request_store hp0))
                (set_trace (cons it) (set_env (fun e => Env (q_time it) rest (eid e)) w))
              ≫= (fun w1 => Ok (schedule (StageDone h) NORMAL 0 w1))
          | None => Raise (RuntimeError "no such stage")
          end = Ok w') in Hd.
  rewrite Hh in Hd. inv_bind Hd. injection Hd as <-. simpl in Hp.
  destruct (release_all_users _ _ _ _ Hw1 Ha res p Hp) as (p0 & Hp0 & Hsub & Hl).
  apply list_elem_of_lookup_1 in Hr as [i Hi].
  destruct (wf_stage _ _ Hwf h hp Hh) as [_ [Hst _]].
  destruct (Hst i r Hi) as (x & Hx & Ho & Hn).
  destruct (decide (res = res_name x)) as [->|Hne].
  - apply Hl. apply (elem_of_lookup_zip_with_2 pair _ _ _ _ (res_name x, r) i); done.
  - intros Hin. apply (elem_of_sublist _ _ _ Hin) in Hsub.
    destruct (wf_pool _ _ Hwf res p0 Hp0) as [_ Hown].
    destruct (Hown r) as (x' & Hx' & Hn'); [apply elem_of_app; by left|]. congruence.
Qed.

(** ** Which events an event schedules *)

Lemma appends_refl K w : appends K w w.
Proof. by exists []. Qed.

Lemma appends_trans K w1 w2 w3 : appends K w1 w2 -> appends K w2 w3 -> appends K w1 w3.
Proof.
  intros (n1 & H1 & F1) (n2 & H2 & F2). exists (n2 ++ n1).
  split; [by rewrite H2, H1, app_assoc|]. by apply Forall_app.
Qed.

Lemma appends_frame K w w' : queue (env w') = queue (env w) -> appends K w w'.
Proof. intros H. by exists []. Qed.

Lemma appends_schedule (K : event -> Prop) ev prio d w :
  K ev -> appends K w (schedule ev prio d w).
Proof. intros HK. eexists [_]. split; [done|]. by constructor. Qed.

Lemma appends_env_timeout (K : event -> Prop) ev d w w' :
  K ev -> env_timeout ev d w = Ok w' -> appends K w w'.
Proof.
  unfold env_timeout. destruct (d <? 0); [done|]. intros HK [= <-].
  by apply appends_schedule.
Qed.

Lemma appends_trigger_put (K : event -> Prop) res w :
  (forall r, K (RequestEv r)) -> appends K w (_trigger_put res w).
Proof.
  intros HK. unfold _trigger_put. destruct (resources w !! res) as [p|]; [|apply appends_refl].
  destruct (put_queue p) as [|r rest]; [apply appends_refl|].
  case_match; [|apply appends_refl].
  eapply appends_trans; [|by apply appends_schedule]. by apply appends_frame.
Qed.

Lemma appends_request (K : event -> Prop) res h w r w' :
  (forall r, K (RequestEv r)) -> request res h w = Ok (r, w') -> appends K w w'.
Proof.
  intros HK. unfold request. destruct (resources w !! res) as [p|]; [|done].
  intros [= <- <-]. eapply appends_trans; [|by apply appends_trigger_put].
  by apply appends_frame.
Qed.

Lemma appends_make_requests (K : event -> Prop) h : forall names w store w',
  (forall r, K (RequestEv r)) -> make_requests names h w = Ok (store, w') -> appends K w w'.
Proof.
  induction names as [|res names IH]; simpl; intros w store w' HK H.
  - injection H as <- <-. apply appends_refl.
  - inv_bind H. destruct a as [r w1]. inv_bind H. destruct a as [rs w2].
    injection H as <- <-. eapply appends_trans; [by eapply appends_request|by eapply IH].
Qed.

Lemma appends_spawn_monitors (K : event -> Prop) store : forall w,
  (forall r, K (InitMonitor r)) -> appends K w (spawn_monitors store w).
Proof.
  unfold spawn_monitors. induction store as [|r store IH]; simpl; intros w HK.
  - apply appends_refl.
  - eapply appends_trans; [|by apply IH]. by apply appends_schedule.
Qed.

Lemma appends_release_all (K : event -> Prop) l : forall w w',
  (forall res r, K (ReleaseEv res r)) -> release_all l w = Ok w' -> appends K w w'.
Proof.
  induction l as [|[res r] l IH]; simpl; intros w w' HK H.
  - injection H as <-. apply appends_refl.
  - inv_bind H. eapply appends_trans; [|by eapply IH].
    unfold release in Ha. destruct (resources w !! res); [|done]. injection Ha as <-.
    eapply appends_trans; [|by apply appends_schedule]. by apply appends_frame.
Qed.

Lemma appends_any_of_check (K : event -> Prop) r w :
  K (AnyOf r) -> appends K w (any_of_check r w).
Proof.
  intros HK. unfold any_of_check. destruct (races w !! r) as [x|]; [|apply appends_refl].
  destruct (cond_triggered x); [apply appends_refl|].
  eapply appends_trans; [|by apply appends_schedule]. by apply appends_frame.
Qed.

Lemma appends_patient_process (K : event -> Prop) p w w' :
  (forall h, K (InitStage h)) -> (forall q, K (PatientDone q)) ->
  patient_process p w = Ok w' -> appends K w w'.
Proof.
  intros HS HD. unfold patient_process.
  destruct (patients w !! p) as [[pid [|pr rest]]|]; [| |done]; intros [= <-].
  - by apply appends_schedule.
  - eapply appends_trans; [|by apply appends_schedule]. by apply appends_frame.
Qed.

Lemma dispatch_appends g ev w w' :
  dispatch g ev w = Ok w' -> appends (schedules ev) w w'.
Proof.
  intros H. destruct ev; simpl in H.
  - injection H as <-. by apply appends_frame.
  - unfold patient_arrivals_start, patient_arrivals_wait in H.
    eapply appends_trans;
      [|exact (appends_env_timeout (schedules InitArrivals) ArrivalTimeout _ _ _ I H)].
    by apply appends_frame.
  - unfold patient_arrivals_resume, patient_arrivals_wait in H.
    eapply appends_trans;
      [|exact (appends_env_timeout (schedules ArrivalTimeout) ArrivalTimeout _ _ _ I H)].
    eapply appends_trans; [|by apply appends_frame].
    eapply appends_trans;
      [|exact (appends_schedule (schedules ArrivalTimeout)
                 (InitPatient (length (patients w))) URGENT 0 _ I)].
    by apply appends_frame.
  - by eapply appends_patient_process.
  - unfold run_start in H. destruct (stages w !! h) as [hp|]; [|done].
    inv_bind H. destruct a as [store w1]. injection H as <-.
    assert (A1 : appends (schedules (InitStage h)) w (set_stage h hp_clear_waits w))
      by (by apply appends_frame).
    assert (A2 : appends (schedules (InitStage h)) (set_stage h hp_clear_waits w) w1)
      by (by eapply appends_make_requests).
    assert (A3 : appends (schedules (InitStage h)) w1
                   (set_stage h (hp_set_request_store store) w1))
      by (by apply appends_frame).
    assert (A4 : appends (schedules (InitStage h))
                   (set_stage h (hp_set_request_store store) w1)
                   (spawn_monitors store (set_stage h (hp_set_request_store store) w1)))
      by (by apply appends_spawn_monitors).
    pose proof (appends_trans _ _ _ _ (appends_trans _ _ _ _ (appends_trans _ _ _ _ A1 A2) A3) A4)
      as A5.
    destruct store; [|exact A5].
    eapply appends_trans; [exact A5|]. by apply appends_schedule.
  - unfold request_resource_and_monitor_time_start in H.
    destruct (races w !! r) as [x|]; [|done]. inv_bind H. injection H as <-.
    assert (A1 : appends (schedules (InitMonitor r)) w
                   (set_race r (race_start (now (env w))) w))
      by (by apply appends_frame).
    assert (A2 : appends (schedules (InitMonitor r))
                   (set_race r (race_start (now (env w))) w) a)
      by exact (appends_env_timeout _ (RaceTimeout r) _ _ _ I Ha).
    pose proof (appends_trans _ _ _ _ A1 A2) as A3.
    destruct (req_processed x); [|exact A3].
    eapply appends_trans; [exact A3|]. by apply appends_any_of_check.
  - unfold on_request in H. destruct (races w !! r) as [x|]; [|done]. injection H as <-.
    assert (A1 : appends (schedules (RequestEv r)) w (set_race r race_req_processed w))
      by (by apply appends_frame).
    destruct (start_time x); [|exact A1].
    eapply appends_trans; [exact A1|]. by apply appends_any_of_check.
  - unfold on_race_timeout in H. injection H as <-.
    assert (A1 : appends (schedules (RaceTimeout r)) w
                   (set_race r race_timeout_processed w))
      by (by apply appends_frame).
    eapply appends_trans; [exact A1|]. by apply appends_any_of_check.
  - unfold request_resource_and_monitor_time_resume in H.
    destruct (races w !! r) as [x|]; [|done]. destruct (start_time x); [|done].
    injection H as <-. eapply appends_trans; [|by apply appends_schedule].
    by apply appends_frame.
  - unfold on_monitor_done in H. destruct (races w !! r) as [x|]; [|done].
    destruct (stages w !! owner x); [|done]. injection H as <-.
    case_decide; [|by apply appends_frame].
    eapply appends_trans; [|by apply appends_schedule]. by apply appends_frame.
  - unfold run_service in H. destruct (stages w !! h); [|done].
    eapply appends_trans;
      [|exact (appends_env_timeout (schedules (AllOf h)) (ServiceTimeout h) _ _ _ I H)].
    by apply appends_frame.
  - unfold run_release in H. destruct (stages w !! h); [|done].
    inv_bind H. injection H as <-.
    assert (A1 : appends (schedules (ServiceTimeout h)) w a)
      by (by eapply appends_release_all).
    eapply appends_trans; [exact A1|]. by apply appends_schedule.
  - injection H as <-. by apply appends_trigger_put.
  - destruct (stages w !! h); [|done]. by eapply appends_patient_process.
  - injection H as <-. apply appends_refl.
Qed.

(** ** When the patients arrive *)

Lemma dispatch_draws_frame g ev w w' :
  ev <> InitArrivals -> ev <> ArrivalTimeout -> dispatch g ev w = Ok w' ->
  random_calls w' = random_calls w /\ length (patients w') = length (patients w).
Proof.
  intros Hn1 Hn2 H.
  assert (Hso : forall w0, same_objects w w0 ->
            random_calls w0 = random_calls w /\ length (patients w0) = length (patients w)).
  { intros w0 (_ & Hp & _ & _ & Hr & _). by rewrite Hp, Hr. }
  assert (Hpp : forall p, patient_process p w = Ok w' ->
            random_calls w' = random_calls w /\ length (patients w') = length (patients w)).
  { intros p. unfold patient_process.
    destruct (patients w !! p) as [[pid [|pr rest]]|]; [| |done]; intros [= <-]; simpl;
      [done|]. by rewrite length_insert. }
  destruct ev; simpl in H; try done.
  - by injection H as <-.
  - by apply (Hpp p).
  - unfold run_start in H. destruct (stages w !! h) as [hp|]; [|done].
    inv_bind H. destruct a as [store w1]. injection H as <-.
    apply same_objects_make_requests in Ha as (_ & Hp & _ & _ & Hr & _).
    pose proof (same_objects_spawn_monitors store
                  (set_stage h (hp_set_request_store store) w1)) as (_ & Hp' & _ & _ & Hr' & _).
    simpl in Hp, Hr, Hp', Hr'.
    destruct store; simpl in *; by rewrite ?Hp', ?Hr', ?Hp, ?Hr.
  - unfold request_resource_and_monitor_time_start in H.
    destruct (races w !! r) as [x|]; [|done]. inv_bind H. injection H as <-.
    apply same_objects_env_timeout in Ha as (_ & Hp & _ & _ & Hr & _). simpl in Hp, Hr.
    destruct (req_processed x); [|by rewrite Hp, Hr].
    destruct (same_objects_any_of_check r a) as (_ & Hp' & _ & _ & Hr' & _).
    by rewrite Hp', Hr', Hp, Hr.
  - unfold on_request in H. destruct (races w !! r) as [x|]; [|done]. injection H as <-.
    destruct (start_time x); [|done].
    destruct (same_objects_any_of_check r (set_race r race_req_processed w))
      as (_ & Hp & _ & _ & Hr & _). by rewrite Hp, Hr.
  - unfold on_race_timeout in H. injection H as <-.
    destruct (same_objects_any_of_check r (set_race r race_timeout_processed w))
      as (_ & Hp & _ & _ & Hr & _). by rewrite Hp, Hr.
  - unfold request_resource_and_monitor_time_resume in H.
    destruct (races w !! r) as [x|]; [|done]. destruct (start_time x); [|done].
    by injection H as <-.
  - unfold on_monitor_done in H. destruct (races w !! r) as [x|]; [|done].
    destruct (stages w !! owner x); [|done]. injection H as <-. by case_decide.
  - unfold run_service in H. destruct (stages w !! h); [|done].
    apply same_objects_env_timeout in H as (_ & Hp & _ & _ & Hr & _). by rewrite Hp, Hr.
  - unfold run_release in H. destruct (stages w !! h); [|done].
    inv_bind H. injection H as <-. simpl.
    apply same_objects_release_all in Ha. by apply Hso.
  - injection H as <-. apply Hso, same_objects_trigger_put.
  - destruct (stages w !! h) as [hp|]; [|done]. by apply (Hpp (hp_patient hp)).
  - by injection H as <-.
Qed.

Lemma filter_nil_length {A : Type} (P : A -> Prop) `{!forall x, Decision (P x)}
    (l : list A) :
  length (filter P l) = 0%nat -> forall x, x ∈ l -> ~ P x.
Proof.
  induction l as [|y l IH]; intros Hlen x Hin HP; [by apply elem_of_nil in Hin|].
  rewrite filter_cons in Hlen. case_decide as Hy; [done|].
  apply elem_of_cons in Hin as [->|Hin]; [done|]. by apply (IH Hlen x).
Qed.

Lemma reachable_arrivals g self w :
  reachable g self w -> begin_setup self = Ok w \/ arrivals_ok g w.
Proof.
  revert w. apply reachable_ind; [by left|].
  intros w w' Hw Hrun IH Hstep. right. destruct IH as [H0|(Hrc & Hone & Harr & Hpat)].
  - rewrite (first_step _ _ _ H0) in Hstep. unfold env_timeout in Hstep.
    destruct (lognormvariate g 0 <? 0); [done|]. injection Hstep as <-.
    unfold arrivals_ok. simpl.
    split; [done|]. split; [done|]. split.
    + intros it [->|Hin]%elem_of_cons; [simpl; lia|].
      apply list_elem_of_singleton in Hin as ->. done.
    + intros it p [[->|Hin]%elem_of_cons|Hin]; [done| |].
      * apply list_elem_of_singleton in Hin as ->. done.
      * apply list_elem_of_singleton in Hin as ->. done.
  - destruct (reachable_wf _ _ _ Hw) as [H0|Hwf].
    { apply begin_setup_world in H0 as (_ & _ & ->). done. }
    pose proof (step_trace _ _ _ Hstep) as (it0 & rest0 & Hpop0 & Htr).
    apply step_inversion in Hstep as (it & rest & Hpop & Hd).
    rewrite Hpop in Hpop0. injection Hpop0 as <- <-.
    pose proof (pop_min_perm _ _ _ Hpop) as Hperm.
    assert (Hel : forall it', it' = it \/ it' ∈ rest -> it' ∈ queue (env w)).
    { intros it' Hin. by apply (pop_min_elem _ _ _ _ Hpop). }
    assert (Hlen : (length (filter (fun it => q_event it = ArrivalTimeout) (it :: rest))
                    <= 1)%nat) by (by rewrite <- Hperm).
    destruct (decide (q_event it = ArrivalTimeout)) as [Hev|Hev].
    + (* the next patient arrives *)
      rewrite filter_cons, decide_True in Hlen by done. simpl in Hlen.
      assert (Hnone : forall it', it' ∈ rest -> q_event it' <> ArrivalTimeout).
      { apply (filter_nil_length (fun it => q_event it = ArrivalTimeout)). lia. }
      pose proof (Harr it (Hel it (or_introl eq_refl)) Hev) as Ht.
      rewrite Hev in Hd. simpl in Hd.
      unfold patient_arrivals_resume, patient_arrivals_wait, env_timeout in Hd.
      simpl in Hd. case_match; [done|]. injection Hd as <-.
      unfold arrivals_ok. simpl.
      split; [rewrite length_app; simpl; lia|]. split.
      { rewrite filter_cons, decide_False by done.
        rewrite (filter_none (fun it => q_event it = ArrivalTimeout) rest Hnone). done. }
      split.
      * intros it' [->|[->|Hin]%elem_of_cons]%elem_of_cons; [|done|by apply Hnone in Hin].
        intros _. simpl. rewrite Ht. done.
      * intros it' p [[->|[->|Hin]%elem_of_cons]%elem_of_cons|Hin] Hp; [done| | |].
        -- simpl in Hp. injection Hp as <-.
           change (q_time it + 0 = sum_draws g (S (length (patients w)))).
           rewrite Ht, Hrc. lia.
        -- apply Hpat; [|done]. left. apply Hel. by right.
        -- apply elem_of_cons in Hin as [->|Hin]; [congruence|].
           apply Hpat; [|done]. by right.
    + assert (Hinit : q_event it <> InitArrivals).
      { intros Hi. pose proof (wf_events _ _ Hwf it (Hel it (or_introl eq_refl))) as Hok.
        by rewrite Hi in Hok. }
      destruct (dispatch_draws_frame _ _ _ _ Hinit Hev Hd) as [Hr' Hp'].
      destruct (dispatch_appends _ _ _ _ Hd) as (news & Hq & Hnews). simpl in Hq, Hr', Hp'.
      assert (Hkind : forall it', it' ∈ news ->
                q_event it' <> ArrivalTimeout /\ forall p, q_event it' <> InitPatient p).
      { intros it' Hin. rewrite Forall_forall in Hnews. specialize (Hnews it' Hin).
        destruct (q_event it) eqn:E; try done;
          destruct (q_event it'); try done. }
      rewrite filter_cons, decide_False in Hlen by done.
      unfold arrivals_ok.
      split; [by rewrite Hr', Hp'|]. split.
      { rewrite Hq, filter_app.
        rewrite (filter_none (fun it => q_event it = ArrivalTimeout) news
                   (fun x Hx => proj1 (Hkind x Hx))). done. }
      split.
      * rewrite Hq, Hr'. intros it' [Hin|Hin]%elem_of_app Ha.
        -- by destruct (Hkind it' Hin).
        -- apply Harr; [|done]. apply Hel. by right.
      * rewrite Hq, Htr. intros it' p [[Hin|Hin]%elem_of_app|Hin] Hp.
        -- destruct (Hkind it' Hin) as [_ Hk]. by destruct (Hk p).
        -- apply Hpat; [|done]. left. apply Hel. by right.
        -- apply elem_of_cons in Hin as [->|Hin].
           ++ apply Hpat; [|done]. left. apply Hel. by left.
           ++ apply Hpat; [|done]. by right.
Qed.

(** X13: patient p (from 0) arrives, that is patient_process starts for it, at
    the sum of the first p + 1 draws of random.lognormvariate: the draws are
    the gaps between consecutive arrivals. *)
Theorem patients_arrive_at_the_sums_of_the_draws g self w it p :
  reachable g self w -> it ∈ trace w -> q_event it = InitPatient p ->
  q_time it = sum_draws g (S p).
Proof.
  intros Hw Hin Hp. destruct (reachable_arrivals _ _ _ Hw) as [H0|(_ & _ & _ & Hpat)].
  - apply begin_setup_world in H0 as (_ & _ & ->). by apply elem_of_nil in Hin.
  - apply (Hpat it p); [by right|done].
Qed.

(** ** The join of a stage on its monitors *)

Lemma cnt_app ev l k : cnt ev (l ++ k) = (cnt ev l + cnt ev k)%nat.
Proof. unfold cnt. by rewrite filter_app, length_app. Qed.

Lemma cnt_cons ev it l :
  cnt ev (it :: l) = ((if decide (q_event it = ev) then 1 else 0) + cnt ev l)%nat.
Proof. unfold cnt. rewrite filter_cons. by case_decide. Qed.

Lemma cnt_perm ev l k : l ≡ₚ k -> cnt ev l = cnt ev k.
Proof. intros H. unfold cnt. by rewrite H. Qed.

Lemma cnt_pos ev l : (0 < cnt ev l)%nat <-> exists it, it ∈ l /\ q_event it = ev.
Proof.
  unfold cnt. split.
  - intros H. destruct (filter (fun it => q_event it = ev) l) as [|it k] eqn:E;
      [simpl in H; lia|].
    assert (Hin : it ∈ filter (fun it => q_event it = ev) l) by (rewrite E; by left).
    apply list_elem_of_filter in Hin as [? ?]. by exists it.
  - intros (it & Hin & Hev).
    assert (Hf : it ∈ filter (fun it => q_event it = ev) l)
      by (by apply list_elem_of_filter).
    destruct (filter (fun it => q_event it = ev) l); [by apply elem_of_nil in Hf|].
    simpl. lia.
Qed.

Lemma cnt_plain ev l :
  Forall (fun it => plain (q_event it)) l -> ~ plain ev -> cnt ev l = 0%nat.
Proof.
  intros Hall Hev. unfold cnt. rewrite filter_none; [done|].
  intros it Hin Heq. rewrite Forall_forall in Hall. apply Hev. rewrite <- Heq. by apply Hall.
Qed.

Lemma races_kept_refl w : races_kept w w.
Proof. split; [done|]. by eauto. Qed.

Lemma races_kept_trans w1 w2 w3 : races_kept w1 w2 -> races_kept w2 w3 -> races_kept w1 w3.
Proof.
  intros [Hl1 Hr1] [Hl2 Hr2]. split; [congruence|].
  intros r x Hx. destruct (Hr1 r x Hx) as (x' & Hx' & Ho & Hc & Hu).
  destruct (Hr2 r x' Hx') as (x'' & Hx'' & Ho' & Hc' & Hu').
  exists x''. split; [done|]. split; [congruence|]. split; congruence.
Qed.

Lemma races_kept_frame w w' : races w' = races w -> races_kept w w'.
Proof. intros H. split; [by rewrite H|]. intros r x Hx. rewrite H. by eauto. Qed.

Lemma races_kept_set_race r f w :
  (forall x, owner (f x) = owner x /\ cond_triggered (f x) = cond_triggered x /\
             outcome (f x) = outcome x) ->
  races_kept w (set_race r f w).
Proof.
  intros Hf. split; [apply set_race_length|].
  intros r' x Hx. simpl. destruct (races w !! r) as [x0|] eqn:Hr; [|by eauto].
  destruct (decide (r' = r)) as [->|Hne].
  - rewrite list_lookup_insert_eq by (by eapply lookup_lt_Some).
    assert (x0 = x) as -> by congruence. exists (f x). split; [done|]. apply Hf.
  - rewrite list_lookup_insert_ne by done. by eauto.
Qed.

Lemma races_kept_env_timeout ev d w w' : env_timeout ev d w = Ok w' -> races_kept w w'.
Proof. intros H. apply races_kept_frame. by apply env_timeout_races in H as [-> _]. Qed.

Lemma races_kept_trigger_put res w : races_kept w (_trigger_put res w).
Proof.
  unfold _trigger_put. destruct (resources w !! res) as [p|]; [|apply races_kept_refl].
  destruct (put_queue p) as [|r rest]; [apply races_kept_refl|].
  case_match; [|apply races_kept_refl].
  apply (races_kept_trans _ (set_race r (race_succeed (now (env w)))
           (set_resources <[res := MkResource (capacity p) (users p ++ [r]) rest]> w))).
  - apply (races_kept_trans _ (set_resources
             <[res := MkResource (capacity p) (users p ++ [r]) rest]> w)).
    + by apply races_kept_frame.
    + by apply races_kept_set_race.
  - by apply races_kept_frame.
Qed.

Lemma races_kept_release_all l : forall w w', release_all l w = Ok w' -> races_kept w w'.
Proof.
  induction l as [|[res r] l IH]; simpl; intros w w' H.
  - injection H as <-. apply races_kept_refl.
  - inv_bind H. eapply races_kept_trans; [|by eapply IH].
    unfold release in Ha. destruct (resources w !! res); [|done]. injection Ha as <-.
    by apply races_kept_frame.
Qed.

Lemma races_kept_spawn_monitors store : forall w, races_kept w (spawn_monitors store w).
Proof.
  unfold spawn_monitors. induction store as [|r store IH]; simpl; intros w.
  - apply races_kept_refl.
  - eapply races_kept_trans; [|apply IH]. by apply races_kept_frame.
Qed.

Lemma races_kept_patient_process p w w' : patient_process p w = Ok w' -> races_kept w w'.
Proof.
  unfold patient_process.
  destruct (patients w !! p) as [[pid [|pr rest]]|]; [| |done]; intros [= <-];
    by apply races_kept_frame.
Qed.

(** A request made by stage [h]: the requests there are kept, and the new
    one is the last. *)
Lemma request_races res h w r w' :
  request res h w = Ok (r, w') ->
  r = length (races w) /\ length (races w') = S (length (races w)) /\
  (forall r0 x, races w !! r0 = Some x ->
     exists x', races w' !! r0 = Some x' /\ owner x' = owner x /\
       cond_triggered x' = cond_triggered x /\ outcome x' = outcome x) /\
  exists x', races w' !! r = Some x' /\ owner x' = h /\ cond_triggered x' = false /\
             outcome x' = None.
Proof.
  unfold request. destruct (resources w !! res) as [p|]; [|done]. intros [= <- <-].
  set (w2 := set_resources _ (set_races _ w)).
  destruct (races_kept_trigger_put res w2) as [Hlen Hk].
  assert (Hl2 : length (races w2) = S (length (races w))).
  { simpl. rewrite length_app. simpl. lia. }
  split; [done|]. split; [by rewrite Hlen|]. split.
  - intros r0 x Hx. apply (Hk r0 x). simpl. by apply lookup_app_l_Some.
  - destruct (Hk (length (races w)) (new_race res h (now (env w))))
      as (x' & Hx' & Ho & Hc & Hu).
    { simpl. rewrite lookup_app_r by done. by rewrite Nat.sub_diag. }
    exists x'. done.
Qed.

Lemma make_requests_races h : forall names w store w',
  make_requests names h w = Ok (store, w') ->
  store = seq (length (races w)) (length names) /\
  length (races w') = (length (races w) + length names)%nat /\
  (forall r0 x, races w !! r0 = Some x ->
     exists x', races w' !! r0 = Some x' /\ owner x' = owner x /\
       cond_triggered x' = cond_triggered x /\ outcome x' = outcome x) /\
  (forall r x', races w' !! r = Some x' -> (length (races w) <= r)%nat ->
     owner x' = h /\ cond_triggered x' = false /\ outcome x' = None).
Proof.
  induction names as [|res names IH]; simpl; intros w store w' H.
  - injection H as <- <-. split; [done|]. split; [lia|]. split; [by eauto|].
    intros r x' Hx' Hle. apply lookup_lt_Some in Hx'. lia.
  - inv_bind H. destruct a as [r w1]. inv_bind H. destruct a as [rs w2].
    injection H as <- <-.
    destruct (request_races _ _ _ _ _ Ha) as (-> & Hl1 & Hk1 & xn & Hxn & Hon & Hcn & Hun).
    destruct (IH _ _ _ Ha0) as (-> & Hl2 & Hk2 & Hnew2).
    split; [by rewrite Hl1|]. split; [lia|]. split.
    + intros r0 x Hx. destruct (Hk1 r0 x Hx) as (x1 & Hx1 & Ho1 & Hc1 & Hu1).
      destruct (Hk2 r0 x1 Hx1) as (x2 & Hx2 & Ho2 & Hc2 & Hu2).
      exists x2. split; [done|]. split; [congruence|]. split; congruence.
    + intros r x' Hx' Hle. destruct (decide (r = length (races w))) as [->|Hne].
      * destruct (Hk2 _ _ Hxn) as (x2 & Hx2 & Ho2 & Hc2 & Hu2).
        assert (x2 = x') as -> by congruence. split; [congruence|]. split; congruence.
      * apply (Hnew2 r x' Hx'). lia.
Qed.

Lemma races_kept_step ev w w' :
  (forall r, ev <> AnyOf r) -> races_kept w w' -> races_step ev w w'.
Proof.
  intros Hev [Hlen Hk]. split; [lia|]. split.
  - intros r x Hx. destruct (Hk r x Hx) as (x' & Hx' & Ho & Hc & Hu).
    exists x'. split; [done|]. split; [done|]. split; [by left|].
    by rewrite decide_False by apply Hev.
  - intros r x' Hx' Hle. apply lookup_lt_Some in Hx'. lia.
Qed.

Lemma any_of_check_races r w :
  length (races (any_of_check r w)) = length (races w) /\
  forall r0 x, races w !! r0 = Some x ->
    exists x', races (any_of_check r w) !! r0 = Some x' /\ owner x' = owner x /\
      outcome x' = outcome x /\
      (cond_triggered x' = cond_triggered x \/ (r0 = r /\ cond_triggered x' = true)).
Proof.
  assert (Hsame : length (races w) = length (races w) /\
            forall r0 x, races w !! r0 = Some x ->
              exists x', races w !! r0 = Some x' /\ owner x' = owner x /\
                outcome x' = outcome x /\
                (cond_triggered x' = cond_triggered x \/
                 (r0 = r /\ cond_triggered x' = true))).
  { split; [done|]. intros r0 x Hx. exists x. split; [done|]. split; [done|].
    split; [done|]. by left. }
  unfold any_of_check. destruct (races w !! r) as [x0|] eqn:Hr; [|done].
  destruct (cond_triggered x0) eqn:Hc; [done|].
  split; [simpl; rewrite Hr; by rewrite length_insert|].
  intros r0 x Hx. simpl. rewrite Hr. destruct (decide (r0 = r)) as [->|Hne].
  - rewrite list_lookup_insert_eq by (by eapply lookup_lt_Some).
    eexists. split; [done|]. assert (x0 = x) as -> by congruence. simpl.
    split; [done|]. split; [done|]. by right.
  - rewrite list_lookup_insert_ne by done. exists x. split; [done|]. split; [done|].
    split; [done|]. by left.
Qed.

(** The step of an event of the race of [r]: [w1] is the state before the
    condition is checked. *)
Lemma race_event_step ev r w w1 :
  (ev = InitMonitor r \/ ev = RequestEv r \/ ev = RaceTimeout r) ->
  races_kept w w1 -> races_step ev w (any_of_check r w1).
Proof.
  intros Hev [Hlen Hk]. destruct (any_of_check_races r w1) as [Hlen' Hk'].
  split; [lia|]. split.
  - intros r0 x Hx. destruct (Hk r0 x Hx) as (x1 & Hx1 & Ho & Hc & Hu).
    destruct (Hk' r0 x1 Hx1) as (x' & Hx' & Ho' & Hu' & Hc').
    exists x'. split; [done|]. split; [congruence|]. split.
    + destruct Hc' as [Hc'|[-> Hc']]; [left; congruence|right; done].
    + rewrite decide_False; [congruence|]. by destruct Hev as [->|[->| ->]].
  - intros r0 x' Hx' Hle. apply lookup_lt_Some in Hx'. lia.
Qed.

Lemma spawn_monitors_races store : forall w, races (spawn_monitors store w) = races w.
Proof.
  unfold spawn_monitors. induction store as [|r store IH]; simpl; intros w; [done|].
  by rewrite IH.
Qed.

Lemma dispatch_races g ev w w' : dispatch g ev w = Ok w' -> races_step ev w w'.
Proof.
  intros H. destruct ev; simpl in H.
  - injection H as <-. apply races_kept_step; [done|]. by apply races_kept_frame.
  - unfold patient_arrivals_start, patient_arrivals_wait in H.
    apply races_kept_step; [done|]. apply races_kept_frame.
    by apply env_timeout_races in H as [-> _].
  - unfold patient_arrivals_resume, patient_arrivals_wait in H.
    apply races_kept_step; [done|]. apply races_kept_frame.
    by apply env_timeout_races in H as [-> _].
  - apply races_kept_step; [done|]. by eapply races_kept_patient_process.
  - unfold run_start in H. destruct (stages w !! h) as [hp|]; [|done].
    inv_bind H. destruct a as [store w1]. injection H as <-.
    destruct (make_requests_races _ _ _ _ _ Ha) as (_ & Hlen & Hk & Hnew).
    simpl in Hlen, Hk, Hnew.
    assert (Hfin : races (match store with
                          | [] => schedule (AllOf h) NORMAL 0
                                    (spawn_monitors store
                                       (set_stage h (hp_set_request_store store) w1))
                          | _ :: _ => spawn_monitors store
                                        (set_stage h (hp_set_request_store store) w1)
                          end) = races w1).
    { transitivity (races (spawn_monitors store
                             (set_stage h (hp_set_request_store store) w1)));
        [by destruct store|].
      by rewrite spawn_monitors_races. }
    unfold races_step. rewrite Hfin. split; [lia|]. split.
    + intros r x Hx. destruct (Hk r x Hx) as (x' & Hx' & Ho & Hc & Hu).
      exists x'. split; [done|]. split; [done|]. split; [by left|].
      by rewrite decide_False.
    + intros r x' Hx' Hle. exists h. split; [done|]. by apply (Hnew r).
  - unfold request_resource_and_monitor_time_start in H.
    destruct (races w !! r) as [x|]; [|done]. inv_bind H. injection H as <-.
    assert (Hk : races_kept w a).
    { eapply races_kept_trans; [|by eapply races_kept_env_timeout].
      by apply races_kept_set_race. }
    destruct (req_processed x); [by apply race_event_step; [left|]|].
    by apply races_kept_step.
  - unfold on_request in H. destruct (races w !! r) as [x|]; [|done]. injection H as <-.
    assert (Hk : races_kept w (set_race r race_req_processed w))
      by (by apply races_kept_set_race).
    destruct (start_time x); [by apply race_event_step; [right; left|]|].
    by apply races_kept_step.
  - unfold on_race_timeout in H. injection H as <-.
    apply race_event_step; [by right; right|]. by apply races_kept_set_race.
  - unfold request_resource_and_monitor_time_resume in H.
    destruct (races w !! r) as [x|] eqn:Hr; [|done].
    destruct (start_time x) as [st|]; [|done]. injection H as <-.
    split; [simpl; destruct (stages w !! owner x); simpl; rewrite Hr;
            by rewrite length_insert|].
    assert (Hra : forall v, races (schedule (MonitorDone r) NORMAL 0
                    (set_race r (race_outcome (now (env w)) v)
                       (set_stage (owner x) (hp_set_wait (res_name x) v) w)))
                  = <[r := race_outcome (now (env w)) v x]> (races w)).
    { intros v. simpl. destruct (stages w !! owner x); simpl; by rewrite Hr. }
    rewrite Hra. split.
    + intros r0 x0 Hx0. destruct (decide (r0 = r)) as [->|Hne].
      * rewrite list_lookup_insert_eq by (by eapply lookup_lt_Some).
        assert (x0 = x) as -> by congruence. eexists. split; [done|].
        split; [done|]. split; [by left|]. rewrite decide_True by done. simpl. by eauto.
      * rewrite list_lookup_insert_ne by done. exists x0. split; [done|].
        split; [done|]. split; [by left|]. rewrite decide_False; [done|congruence].
    + intros r0 x' Hx' Hle. apply lookup_lt_Some in Hx'. rewrite length_insert in Hx'. lia.
  - unfold on_monitor_done in H. destruct (races w !! r) as [x|]; [|done].
    destruct (stages w !! owner x); [|done]. injection H as <-.
    apply races_kept_step; [done|]. apply races_kept_frame. by case_decide.
  - unfold run_service in H. destruct (stages w !! h); [|done].
    apply races_kept_step; [done|]. apply races_kept_frame.
    by apply env_timeout_races in H as [-> _].
  - unfold run_release in H. destruct (stages w !! h); [|done].
    inv_bind H. injection H as <-. apply races_kept_step; [done|].
    eapply races_kept_trans; [by eapply races_kept_release_all|].
    by apply races_kept_frame.
  - injection H as <-. apply races_kept_step; [done|]. apply races_kept_trigger_put.
  - destruct (stages w !! h); [|done]. apply races_kept_step; [done|].
    by eapply races_kept_patient_process.
  - injection H as <-. apply races_kept_step; [done|]. apply races_kept_refl.
Qed.

Lemma news_plain ev w w' : appends plain w w' -> join_news ev w w'.
Proof. intros (irr & Hq & Hall). exists [], irr. split; [done|]. split; [done|by left]. Qed.

Lemma any_of_check_news r w :
  queue (env (any_of_check r w)) = queue (env w) \/
  exists it x x', queue (env (any_of_check r w)) = it :: queue (env w) /\
    q_event it = AnyOf r /\ races w !! r = Some x /\ cond_triggered x = false /\
    races (any_of_check r w) !! r = Some x' /\ cond_triggered x' = true.
Proof.
  unfold any_of_check. destruct (races w !! r) as [x|] eqn:Hr; [|by left].
  destruct (cond_triggered x) eqn:Hc; [by left|]. right.
  eexists _, x, (race_cond_triggered x). split; [done|]. split; [done|]. split; [done|].
  split; [done|]. split; [|reflexivity]. simpl. rewrite Hr.
  apply list_lookup_insert_eq. by eapply lookup_lt_Some.
Qed.

(** The events of the race of [r]: [w1] is the state before the condition
    is checked. *)
Lemma race_event_news ev r w w1 :
  (ev = InitMonitor r \/ ev = RequestEv r \/ ev = RaceTimeout r) ->
  appends plain w w1 ->
  (forall x1, races w1 !! r = Some x1 ->
     exists x, races w !! r = Some x /\ cond_triggered x = cond_triggered x1) ->
  join_news ev w (any_of_check r w1).
Proof.
  intros Hev (irr & Hq & Hall) Hc.
  destruct (any_of_check_news r w1) as [Hs|(it & x1 & x' & Hq' & Hit & Hx1 & Hc1 & Hx' & Hc')].
  - exists [], irr. split; [by rewrite Hs, Hq|]. split; [done|by left].
  - exists [it], irr. split; [by rewrite Hq', Hq|]. split; [done|]. right.
    exists it. split; [done|]. rewrite Hit. simpl. split; [done|].
    destruct (Hc x1 Hx1) as (x & Hx & Hcx). split; [exists x; split; [done|congruence]|].
    by exists x'.
Qed.

Lemma dispatch_news g ev w w' : dispatch g ev w = Ok w' -> join_news ev w w'.
Proof.
  intros H.
  assert (Hplain : forall K : event -> Prop, (forall e, K e -> plain e) ->
            appends K w w' -> join_news ev w w').
  { intros K HK (irr & Hq & Hall). apply news_plain. exists irr. split; [done|].
    eapply Forall_impl; [exact Hall|]. intros it. apply HK. }
  destruct ev;
    try (eapply (Hplain (schedules _)); [|exact (dispatch_appends _ _ _ _ H)];
         intros e He; destruct e; simpl in He; done).
  - (* patient_process starts *)
    simpl in H. unfold patient_process in H.
    destruct (patients w !! p) as [[pid [|pr rest]]|]; [| |done]; injection H as <-.
    + apply news_plain. by apply appends_schedule.
    + eexists [_], []. split; [done|]. split; [done|]. right. eexists. split; [done|].
      simpl. split; [done|]. rewrite length_app. simpl. lia.
  - (* run starts *)
    simpl in H. unfold run_start in H. destruct (stages w !! h) as [hp|] eqn:Hh; [|done].
    inv_bind H. destruct a as [store w1]. injection H as <-.
    destruct (make_requests_races _ _ _ _ _ Ha) as (Hst & _).
    assert (A : appends plain w (spawn_monitors store
                                  (set_stage h (hp_set_request_store store) w1))).
    { apply (appends_trans _ _ (set_stage h (hp_set_request_store store) w1));
        [|by apply appends_spawn_monitors].
      apply (appends_trans _ _ w1); [|by apply appends_frame].
      apply (appends_trans _ _ (set_stage h hp_clear_waits w)); [by apply appends_frame|].
      by eapply appends_make_requests. }
    destruct store as [|r0 store]; [|by apply news_plain].
    destruct A as (irr & Hq & Hall). eexists [_], irr. split; [simpl in Hq |- *; by rewrite Hq|].
    split; [done|]. right. eexists. split; [done|]. simpl. left. split; [done|].
    exists hp. split; [done|]. symmetry in Hst. apply (f_equal length) in Hst.
    rewrite length_seq in Hst. simpl in Hst. by destruct (resource_names hp).
  - (* the monitor starts *)
    simpl in H. unfold request_resource_and_monitor_time_start in H.
    destruct (races w !! r) as [x|] eqn:Hr; [|done]. inv_bind H. injection H as <-.
    assert (A : appends plain w a).
    { apply (appends_trans _ _ (set_race r (race_start (now (env w))) w));
        [by apply appends_frame|].
      exact (appends_env_timeout plain (RaceTimeout r) _ _ _ I Ha). }
    destruct (req_processed x); [|by apply news_plain].
    apply race_event_news; [by left|done|].
    apply env_timeout_races in Ha as [Hra _]. rewrite Hra.
    rewrite (set_race_lookup_eq _ _ _ _ Hr). intros x1 [= <-]. by exists x.
  - (* the request is dispatched *)
    simpl in H. unfold on_request in H.
    destruct (races w !! r) as [x|] eqn:Hr; [|done]. injection H as <-.
    destruct (start_time x); [|apply news_plain; by apply appends_frame].
    apply race_event_news; [by right; left|by apply appends_frame|].
    rewrite (set_race_lookup_eq _ _ _ _ Hr). intros x1 [= <-]. by exists x.
  - (* the timeout is dispatched *)
    simpl in H. unfold on_race_timeout in H. injection H as <-.
    apply race_event_news; [by right; right|by apply appends_frame|].
    intros x1 Hx1. simpl in Hx1. destruct (races w !! r) as [x|] eqn:Hr; [|by rewrite Hr in Hx1].
    rewrite list_lookup_insert_eq in Hx1 by (by eapply lookup_lt_Some).
    injection Hx1 as <-. by exists x.
  - (* the monitor resumes *)
    simpl in H. unfold request_resource_and_monitor_time_resume in H.
    destruct (races w !! r) as [x|]; [|done]. destruct (start_time x); [|done].
    injection H as <-. eexists [_], []. split; [done|]. split; [done|]. right.
    eexists. split; [done|]. done.
  - (* the monitor is done *)
    simpl in H. unfold on_monitor_done in H.
    destruct (races w !! r) as [x|] eqn:Hr; [|done].
    destruct (stages w !! owner x) as [hp|] eqn:Hh; [|done]. injection H as <-.
    case_decide as Hc; [|apply news_plain; by apply appends_frame].
    eexists [_], []. split; [done|]. split; [done|]. right.
    eexists. split; [done|]. simpl. right. by exists r, x, hp.
  - (* the stage is done *)
    simpl in H. destruct (stages w !! h) as [hp|]; [|done]. unfold patient_process in H.
    destruct (patients w !! hp_patient hp) as [[pid [|pr rest]]|]; [| |done];
      injection H as <-.
    + apply news_plain. by apply appends_schedule.
    + eexists [_], []. split; [done|]. split; [done|]. right. eexists. split; [done|].
      simpl. split; [done|]. rewrite length_app. simpl. lia.
Qed.

Lemma set_stage_lookup_total h f w h' :
  stages (set_stage h f w) !! h' =
  if decide (h' = h) then f <$> (stages w !! h') else stages w !! h'.
Proof.
  simpl. case_decide as Hd.
  - subst h'. destruct (stages w !! h) as [hp|] eqn:Hh; [|by rewrite Hh].
    rewrite list_lookup_insert_eq by (by eapply lookup_lt_Some). done.
  - destruct (stages w !! h) as [hp|] eqn:Hh; [|done].
    by rewrite list_lookup_insert_ne by done.
Qed.

Lemma stage_step_refl e w h hp :
  match e with InitStage _ | MonitorDone _ | AnyOf _ => False | _ => True end ->
  stage_step e w h hp hp.
Proof.
  intros He. split; [done|]. split; [by destruct e; try done; case_decide|].
  split; [destruct e; simpl; try done; lia|]. split; [done|].
  intros r x ->. done.
Qed.

Lemma patient_process_keeps p w w' h hp :
  patient_process p w = Ok w' -> stages w !! h = Some hp -> stages w' !! h = Some hp.
Proof.
  unfold patient_process. intros H Hh.
  destruct (patients w !! p) as [[pid [|pr rest]]|]; [| |done]; injection H as <-;
    simpl; [done|].
  by apply lookup_app_l_Some.
Qed.

Lemma dispatch_stage_step g e w w' h hp :
  dispatch g e w = Ok w' -> stages w !! h = Some hp ->
  exists hp', stages w' !! h = Some hp' /\ stage_step e w h hp hp'.
Proof.
  intros H Hh.
  assert (Hsame : match e with InitStage _ | MonitorDone _ | AnyOf _ => False | _ => True end ->
            stages w' = stages w -> exists hp', stages w' !! h = Some hp' /\ stage_step e w h hp hp').
  { intros He Hs. exists hp. split; [by rewrite Hs|by apply stage_step_refl]. }
  destruct e; simpl in H.
  - injection H as <-. by apply Hsame.
  - unfold patient_arrivals_start, patient_arrivals_wait in H.
    apply same_objects_env_timeout, same_objects_stages in H. by apply Hsame.
  - unfold patient_arrivals_resume, patient_arrivals_wait in H.
    apply same_objects_env_timeout, same_objects_stages in H. by apply Hsame.
  - exists hp. split; [by eapply patient_process_keeps|by apply stage_step_refl].
  - unfold run_start in H. destruct (stages w !! h0) as [hp0|] eqn:Hh0; [|discriminate].
    inv_bind H. destruct a as [store w1]. injection H as <-.
    pose proof (same_objects_stages _ _ (same_objects_make_requests _ _ _ _ _ Ha)) as Hs1.
    pose proof (same_objects_stages _ _ (same_objects_spawn_monitors store
                  (set_stage h0 (hp_set_request_store store) w1))) as Hs2.
    destruct (make_requests_races _ _ _ _ _ Ha) as (Hst & _).
    assert (Hfin : stages (match store with
                           | [] => schedule (AllOf h0) NORMAL 0
                                     (spawn_monitors store
                                        (set_stage h0 (hp_set_request_store store) w1))
                           | _ => spawn_monitors store
                                    (set_stage h0 (hp_set_request_store store) w1)
                           end) !! h
                   = if decide (h = h0)
                     then Some (hp_set_request_store store (hp_clear_waits hp))
                     else Some hp).
    { transitivity (stages (set_stage h0 (hp_set_request_store store) w1) !! h).
      { rewrite <- Hs2. by destruct store. }
      rewrite set_stage_lookup_total, Hs1, set_stage_lookup_total.
      case_decide; by rewrite Hh. }
    destruct (decide (h = h0)) as [->|Hne].
    + eexists. split; [exact Hfin|]. split; [done|].
      assert (hp0 = hp) as -> by congruence.
      split; [rewrite decide_True by done; exact Hst|]. split; [simpl; lia|].
      split; [done|]. intros r x [=].
    + exists hp. split; [exact Hfin|]. split; [done|].
      split; [rewrite decide_False by congruence; done|]. split; [simpl; lia|].
      split; [done|]. intros r x [=].
  - unfold request_resource_and_monitor_time_start in H.
    destruct (races w !! r); [|discriminate]. inv_bind H. injection H as <-.
    apply same_objects_env_timeout, same_objects_stages in Ha.
    apply Hsame; [done|]. case_match; [|done].
    by rewrite (same_objects_stages _ _ (same_objects_any_of_check r a)).
  - unfold on_request in H. destruct (races w !! r); [|discriminate]. injection H as <-.
    apply Hsame; [done|]. case_match; [|done].
    by rewrite (same_objects_stages _ _ (same_objects_any_of_check r _)).
  - unfold on_race_timeout in H. injection H as <-. apply Hsame; [done|].
    by rewrite (same_objects_stages _ _ (same_objects_any_of_check r _)).
  - unfold request_resource_and_monitor_time_resume in H.
    destruct (races w !! r) as [x|] eqn:Hr; [|discriminate].
    destruct (start_time x) as [st|] eqn:Hst; [|discriminate]. injection H as <-.
    change (exists hp', stages (set_stage (owner x)
             (hp_set_wait (res_name x)
                (if req_processed x then PyNum (now (env w) - st) else PyInf)) w) !! h
             = Some hp' /\ stage_step (AnyOf r) w h hp hp').
    rewrite set_stage_lookup_total, Hh. case_decide as Hd.
    + eexists. split; [done|]. split; [done|]. split; [done|]. split; [simpl; lia|]. split.
      * intros _ res Hres. simpl. apply lookup_insert_is_Some.
        destruct (decide (res_name x = res)); [by left|by right].
      * intros r0 x0 [= <-] Hx0 _. assert (x0 = x) as -> by congruence.
        simpl. rewrite lookup_insert_eq. by eexists.
    + exists hp. split; [done|]. split; [done|]. split; [done|]. split; [simpl; lia|].
      split; [done|]. intros r0 x0 [= <-] Hx0 Ho. congruence.
  - unfold on_monitor_done in H.
    destruct (races w !! r) as [x|] eqn:Hr; [|discriminate].
    destruct (stages w !! owner x) as [hp0|] eqn:Hh0; [|discriminate]. injection H as <-.
    assert (Hfin : stages (if decide (S (all_of_count hp0) = length (request_store hp0))
                           then schedule (AllOf (owner x)) NORMAL 0
                                  (set_stage (owner x) hp_count w)
                           else set_stage (owner x) hp_count w) !! h
                   = if decide (h = owner x) then Some (hp_count hp) else Some hp).
    { transitivity (stages (set_stage (owner x) hp_count w) !! h); [by case_decide|].
      rewrite set_stage_lookup_total, Hh. by case_decide. }
    rewrite Hfin. unfold stage_step, counts. rewrite Hr.
    destruct (decide (h = owner x)) as [->|Hne].
    + eexists. split; [done|]. split; [done|]. split; [done|].
      rewrite decide_True by done. split; [simpl; lia|]. split; [done|]. intros r0 x0 [=].
    + eexists. split; [done|]. split; [done|]. split; [done|].
      rewrite decide_False by done. split; [simpl; lia|]. split; [done|]. intros r0 x0 [=].
  - unfold run_service in H. destruct (stages w !! h0) as [hp0|] eqn:Hh0; [|discriminate].
    apply same_objects_env_timeout, same_objects_stages in H. rewrite H.
    rewrite set_stage_lookup_total. simpl stages. rewrite Hh. case_decide as Hd.
    + eexists. split; [done|]. split; [done|]. split; [done|]. split; [simpl; lia|].
      split; [done|]. intros r0 x0 [=].
    + exists hp. split; [done|]. by apply stage_step_refl.
  - unfold run_release in H. destruct (stages w !! h0); [|discriminate].
    inv_bind H. injection H as <-.
    apply same_objects_release_all, same_objects_stages in Ha. by apply Hsame.
  - injection H as <-. apply Hsame; [done|].
    apply same_objects_stages, same_objects_trigger_put.
  - destruct (stages w !! h0) as [hp0|] eqn:Hh0; [|discriminate].
    exists hp. split; [by eapply patient_process_keeps|by apply stage_step_refl].
  - injection H as <-. by apply Hsame.
Qed.

Lemma dispatch_requests g h w w' hp :
  dispatch g (InitStage h) w = Ok w' -> stages w !! h = Some hp ->
  length (races w') = (length (races w) + length (resource_names hp))%nat.
Proof.
  simpl. unfold run_start. intros H Hh. rewrite Hh in H.
  inv_bind H. destruct a as [store w1]. injection H as <-.
  destruct (make_requests_races _ _ _ _ _ Ha) as (_ & Hlen & _).
  destruct (races_kept_spawn_monitors store
              (set_stage h (hp_set_request_store store) w1)) as [Hl _].
  transitivity (length (races (spawn_monitors store
                  (set_stage h (hp_set_request_store store) w1)))); [by destruct store|].
  rewrite Hl. exact Hlen.
Qed.

Lemma news_ok_pop e w w' it rest ev :
  news_ok e (set_trace (cons it) (set_env (fun e => Env (q_time it) rest (eid e)) w)) w' ev ->
  news_ok e w w' ev.
Proof. by destruct ev. Qed.

Lemma step_join_pop g w w' it rest :
  step g w = Ok w' -> pop_min (queue (env w)) = Some (it, rest) ->
  join_step (q_event it) w w'.
Proof.
  intros Hstep Hpop. destruct (step_trace g w w' Hstep) as (it0 & rest0 & Hpop0 & Ht).
  rewrite Hpop in Hpop0. injection Hpop0 as <- <-.
  apply step_inversion in Hstep as (it' & rest' & Hpop' & Hd).
  rewrite Hpop in Hpop'. injection Hpop' as <- <-.
  set (wm := set_trace (cons it) (set_env (fun e => Env (q_time it) rest (eid e)) w)) in *.
  pose proof (pop_min_perm _ _ _ Hpop) as Hperm.
  split.
  - rewrite (cnt_perm _ _ _ Hperm), cnt_cons. rewrite decide_True by done. lia.
  - intros ev Hev. destruct (dispatch_news _ _ _ _ Hd) as (rn & irr & Hq & Hirr & Hrn).
    unfold cnt_all. rewrite Hq, Ht, (cnt_perm _ _ _ Hperm), !cnt_app, !cnt_cons.
    rewrite (cnt_plain _ _ Hirr Hev). simpl queue.
    destruct Hrn as [->|(it' & -> & Hok)].
    + exists 0%nat. split; [|by left]. unfold cnt. simpl. lia.
    + destruct (decide (q_event it' = ev)) as [Heq|Hne].
      * exists 1%nat. split.
        { rewrite cnt_cons, decide_True by done. unfold cnt. simpl. lia. }
        right. split; [done|]. rewrite <- Heq. by eapply news_ok_pop.
      * exists 0%nat. split; [|by left].
        rewrite cnt_cons, decide_False by done. unfold cnt. simpl. lia.
  - intros ev. rewrite Ht, cnt_cons. destruct (decide (q_event it = ev)); lia.
  - exact (dispatch_races _ _ _ _ Hd).
  - intros h hp He Hh. rewrite He in Hd. exact (dispatch_requests _ _ _ _ _ Hd Hh).
  - intros h hp Hh. exact (dispatch_stage_step _ _ _ _ _ _ Hd Hh).
  - intros h hp' Hh' Hge.
    destruct (dispatch_stages _ _ _ _ _ _ Hd Hh')
      as [(hp & Hh & _)|(_ & p & pid & pr & rest' & _ & -> & He)].
    + apply lookup_lt_Some in Hh. simpl in Hh. lia.
    + split; [done|]. split; [done|].
      destruct He as [->|(h0 & hp0 & -> & _)]; done.
Qed.

Lemma step_join g w w' : step g w = Ok w' -> exists e, join_step e w w'.
Proof.
  intros Hstep. destruct (step_trace g w w' Hstep) as (it & rest & Hpop & _).
  exists (q_event it). by eapply step_join_pop.
Qed.

Lemma filter_agree {A} (P Q : A -> Prop) `{!forall x, Decision (P x)}
    `{!forall x, Decision (Q x)} (l : list A) :
  (forall x, x ∈ l -> (P x <-> Q x)) -> filter P l = filter Q l.
Proof.
  induction l as [|a l IH]; intros Hag; [done|].
  rewrite !filter_cons. rewrite IH by (intros x Hx; apply Hag; by right).
  destruct (decide (P a)) as [Hp|Hp], (decide (Q a)) as [Hq|Hq]; try done.
  - exfalso. apply Hq, (Hag a); [by left|done].
  - exfalso. apply Hp, (Hag a); [by left|done].
Qed.

Lemma filter_one_more {A} (P Q : A -> Prop) `{!forall x, Decision (P x)}
    `{!forall x, Decision (Q x)} (l : list A) (r : A) :
  NoDup l -> r ∈ l -> ~ P r -> (forall x, Q x <-> P x \/ x = r) ->
  length (filter Q l) = S (length (filter P l)).
Proof.
  intros Hnd Hin Hr Hq. induction l as [|a l IH]; [by apply elem_of_nil in Hin|].
  apply NoDup_cons in Hnd as [Ha Hnd]. rewrite !filter_cons.
  apply elem_of_cons in Hin as [<- | Hin].
  - rewrite decide_True by (apply Hq; by right). rewrite decide_False by done. simpl.
    f_equal. f_equal. apply filter_agree. intros x Hx. rewrite Hq. split; [|by left].
    intros [?| ->]; done.
  - specialize (IH Hnd Hin). assert (a <> r) by (intros ->; done).
    destruct (decide (P a)) as [Hp|Hp].
    + rewrite decide_True by (apply Hq; by left). simpl. by rewrite IH.
    + rewrite decide_False; [done|]. rewrite Hq. intros [?|?]; done.
Qed.

Lemma filter_all {A} (P : A -> Prop) `{!forall x, Decision (P x)} (l : list A) :
  length (filter P l) = length l -> forall x, x ∈ l -> P x.
Proof.
  induction l as [|a l IH]; intros Hlen x Hx; [by apply elem_of_nil in Hx|].
  rewrite filter_cons in Hlen. pose proof (length_filter P l) as Hle.
  destruct (decide (P a)) as [Hp|Hp]; simpl in Hlen; [|lia].
  apply elem_of_cons in Hx as [->|Hx]; [done|]. apply IH; [lia|done].
Qed.

Lemma join_step_stages_le e w w' :
  join_step e w w' -> (length (stages w) <= length (stages w'))%nat.
Proof.
  intros Hs. destruct (length (stages w)) as [|n] eqn:Hn; [lia|].
  destruct (lookup_lt_is_Some_2 (stages w) n) as [hp Hh]; [lia|].
  destruct (js_stage _ _ _ Hs n hp Hh) as (hp' & Hh' & _).
  apply lookup_lt_Some in Hh'. lia.
Qed.

(** The stage that is started has not been started before. *)
Lemma popped_init h w w' :
  join_inv w -> join_step (InitStage h) w w' ->
  cnt (InitStage h) (trace w) = 0%nat /\ exists hp, stages w !! h = Some hp.
Proof.
  intros HI Hs. pose proof (js_popped _ _ _ Hs) as Hpop.
  destruct (ji_init _ HI h) as [Hle Hz]. unfold cnt_all in *. split; [lia|].
  apply lookup_lt_is_Some_2. lia.
Qed.

(** The request whose AnyOf event is dispatched: it is dispatched for the
    first time. *)
Lemma popped_anyof r w w' :
  join_inv w -> join_step (AnyOf r) w w' ->
  cnt (AnyOf r) (trace w) = 0%nat /\ exists x, races w !! r = Some x.
Proof.
  intros HI Hs. pose proof (js_popped _ _ _ Hs) as Hpop.
  pose proof (ji_anyof _ HI r) as Hle. unfold cnt_all in *.
  destruct (races w !! r) as [x|]; [|lia]. split; [|by eauto].
  destruct (cond_triggered x); lia.
Qed.

(** The monitor that ends: it has not ended before, and its request is
    there. *)
Lemma popped_done r w w' :
  join_inv w -> join_step (MonitorDone r) w w' ->
  cnt (MonitorDone r) (trace w) = 0%nat /\ exists x, races w !! r = Some x.
Proof.
  intros HI Hs. pose proof (js_popped _ _ _ Hs) as Hpop.
  pose proof (ji_done _ HI r) as Hd. pose proof (ji_anyof _ HI r) as Hle.
  unfold cnt_all in *.
  destruct (races w !! r) as [x|]; [|lia]. split; [|by eauto].
  destruct (cond_triggered x); lia.
Qed.

(** *** The invariant of the joins is kept by a step *)

Lemma join_init_step e w w' h :
  join_inv w -> join_step e w w' ->
  (cnt_all (InitStage h) w' <= 1)%nat /\
  ((length (stages w') <= h)%nat -> cnt_all (InitStage h) w' = 0%nat).
Proof.
  intros HI Hs. destruct (ji_init _ HI h) as [Hle Hz].
  pose proof (join_step_stages_le _ _ _ Hs) as Hlen.
  destruct (js_events _ _ _ Hs (InitStage h)) as (k & Hk & [->|[-> Hok]]); [by intros []| |].
  - split; [lia|]. intros Hge. rewrite Hk, Hz by lia. done.
  - simpl in Hok. destruct Hok as [-> Hlt]. rewrite Hk, Hz by lia. split; [lia|]. lia.
Qed.

Lemma join_fresh_step e w w' h hp' :
  join_inv w -> join_step e w w' ->
  stages w' !! h = Some hp' -> cnt (InitStage h) (trace w') = 0%nat ->
  request_store hp' = [] /\ all_of_count hp' = 0%nat /\
  forall r x, races w' !! r = Some x -> owner x <> h.
Proof.
  intros HI Hs Hh' Htr'. pose proof (js_trace _ _ _ Hs (InitStage h)) as Ht.
  assert (Hne : e <> InitStage h).
  { intros ->. rewrite decide_True in Ht by done. lia. }
  rewrite decide_False in Ht by done.
  destruct (js_races _ _ _ Hs) as (_ & Hold & Hnew).
  destruct (decide (h < length (stages w))%nat) as [Hlt|Hge].
  - destruct (lookup_lt_is_Some_2 _ _ Hlt) as [hp Hh].
    destruct (js_stage _ _ _ Hs h hp Hh) as (hp'' & Hh'' & _ & Hst & Hc & _).
    assert (hp'' = hp') as -> by congruence.
    destruct (ji_fresh _ HI h hp Hh) as (Hs0 & Hc0 & Hr0); [lia|].
    rewrite decide_False in Hst by done. split; [congruence|]. split.
    + rewrite Hc, Hc0. destruct e; simpl; try done.
      destruct (races w !! r) as [x|] eqn:Hr; [|done].
      case_decide as Ho; [|done]. by destruct (Hr0 r x Hr).
    + intros r x' Hx'. destruct (decide (r < length (races w))%nat) as [Hr|Hr].
      * destruct (lookup_lt_is_Some_2 _ _ Hr) as [x Hx].
        destruct (Hold r x Hx) as (x'' & Hx'' & Ho & _).
        assert (x'' = x') as -> by congruence. rewrite Ho. by eapply Hr0.
      * destruct (Hnew r x' Hx') as (h0 & -> & Ho & _); [lia|]. congruence.
  - destruct (js_new _ _ _ Hs h hp' Hh') as (Hs0 & Hc0 & Hpl); [lia|].
    split; [done|]. split; [done|].
    intros r x' Hx'. destruct (decide (r < length (races w))%nat) as [Hr|Hr].
    + destruct (lookup_lt_is_Some_2 _ _ Hr) as [x Hx].
      destruct (Hold r x Hx) as (x'' & Hx'' & Ho & _).
      assert (x'' = x') as -> by congruence. rewrite Ho.
      destruct (ji_owner _ HI r x Hx) as (hp & Hhp & _).
      apply lookup_lt_Some in Hhp. lia.
    + destruct (Hnew r x' Hx') as (h0 & -> & _); [lia|]. done.
Qed.

Lemma join_started_step e w w' h hp' :
  join_inv w -> join_step e w w' ->
  stages w' !! h = Some hp' -> (0 < cnt (InitStage h) (trace w'))%nat ->
  length (request_store hp') = length (resource_names hp').
Proof.
  intros HI Hs Hh' Htr'. pose proof (js_trace _ _ _ Hs (InitStage h)) as Ht.
  destruct (decide (h < length (stages w))%nat) as [Hlt|Hge].
  - destruct (lookup_lt_is_Some_2 _ _ Hlt) as [hp Hh].
    destruct (js_stage _ _ _ Hs h hp Hh) as (hp'' & Hh'' & Hn & Hst & _).
    assert (hp'' = hp') as -> by congruence. rewrite Hst, Hn.
    destruct (decide (e = InitStage h)) as [He|He]; [by rewrite length_seq|].
    apply (ji_started _ HI h hp Hh). lia.
  - destruct (js_new _ _ _ Hs h hp' Hh') as (_ & _ & Hpl); [lia|].
    destruct (ji_init _ HI h) as [_ Hz]. specialize (Hz ltac:(lia)). unfold cnt_all in Hz.
    destruct (decide (e = InitStage h)) as [->|He]; [done|lia].
Qed.

Lemma join_owner_step e w w' r x' :
  join_inv w -> join_step e w w' -> races w' !! r = Some x' ->
  exists hp', stages w' !! owner x' = Some hp' /\ r ∈ request_store hp'.
Proof.
  intros HI Hs Hx'. destruct (js_races _ _ _ Hs) as (_ & Hold & Hnew).
  destruct (decide (r < length (races w))%nat) as [Hr|Hr].
  - destruct (lookup_lt_is_Some_2 _ _ Hr) as [x Hx].
    destruct (Hold r x Hx) as (x'' & Hx'' & Ho & _).
    assert (x'' = x') as -> by congruence. rewrite Ho.
    destruct (ji_owner _ HI r x Hx) as (hp & Hh & Hin).
    destruct (js_stage _ _ _ Hs _ hp Hh) as (hp' & Hh' & _ & Hst & _).
    exists hp'. split; [done|]. rewrite Hst.
    destruct (decide (e = InitStage (owner x))) as [->|He]; [|done].
    destruct (popped_init _ _ _ HI Hs) as [Hz _].
    destruct (ji_fresh _ HI _ hp Hh Hz) as (_ & _ & Hno). by destruct (Hno r x Hx).
  - destruct (Hnew r x' Hx') as (h & -> & Ho & _); [lia|]. rewrite Ho.
    destruct (popped_init _ _ _ HI Hs) as [_ [hp Hh]].
    destruct (js_stage _ _ _ Hs _ hp Hh) as (hp' & Hh' & _ & Hst & _).
    exists hp'. split; [done|]. rewrite Hst, decide_True by done.
    pose proof (js_requests _ _ _ Hs h hp eq_refl Hh) as Hlen.
    apply lookup_lt_Some in Hx'. apply elem_of_seq. lia.
Qed.

Lemma join_nodup_step e w w' h hp' :
  join_inv w -> join_step e w w' -> stages w' !! h = Some hp' ->
  NoDup (request_store hp').
Proof.
  intros HI Hs Hh'. destruct (decide (h < length (stages w))%nat) as [Hlt|Hge].
  - destruct (lookup_lt_is_Some_2 _ _ Hlt) as [hp Hh].
    destruct (js_stage _ _ _ Hs h hp Hh) as (hp'' & Hh'' & _ & Hst & _).
    assert (hp'' = hp') as -> by congruence. rewrite Hst.
    case_decide; [apply NoDup_seq|by eapply ji_nodup].
  - destruct (js_new _ _ _ Hs h hp' Hh') as (-> & _); [lia|]. apply NoDup_nil_2.
Qed.

Lemma join_anyof_step e w w' r :
  join_inv w -> join_step e w w' ->
  (cnt_all (AnyOf r) w' <=
   match races w' !! r with
   | Some x => if cond_triggered x then 1 else 0
   | None => 0
   end)%nat.
Proof.
  intros HI Hs. pose proof (ji_anyof _ HI r) as Hle.
  destruct (js_races _ _ _ Hs) as (_ & Hold & _).
  destruct (js_events _ _ _ Hs (AnyOf r)) as (k & Hk & [->|[-> Hok]]); [by intros []| |].
  - rewrite Hk. destruct (races w !! r) as [x|] eqn:Hx; [|lia].
    destruct (Hold r x Hx) as (x' & -> & _ & [Hc|[Hc _]] & _); rewrite Hc; [lia|].
    destruct (cond_triggered x); lia.
  - simpl in Hok. destruct Hok as (_ & (x & Hx & Hc) & (x' & Hx' & Hc')).
    rewrite Hx, Hc in Hle. rewrite Hk, Hx', Hc'. lia.
Qed.

Lemma join_done_step e w w' r :
  join_inv w -> join_step e w w' ->
  (cnt_all (MonitorDone r) w' <= cnt (AnyOf r) (trace w'))%nat.
Proof.
  intros HI Hs. pose proof (ji_done _ HI r) as Hle.
  pose proof (js_trace _ _ _ Hs (AnyOf r)) as Ht.
  destruct (js_events _ _ _ Hs (MonitorDone r)) as (k & Hk & [->|[-> Hok]]);
    [by intros []| |].
  - lia.
  - simpl in Hok. subst e. rewrite decide_True in Ht by done. lia.
Qed.

Lemma join_outcome_step e w w' r :
  join_inv w -> join_step e w w' -> (0 < cnt (AnyOf r) (trace w'))%nat ->
  exists x, races w' !! r = Some x /\ is_Some (outcome x).
Proof.
  intros HI Hs Htr'. pose proof (js_trace _ _ _ Hs (AnyOf r)) as Ht.
  destruct (js_races _ _ _ Hs) as (_ & Hold & _).
  destruct (decide (e = AnyOf r)) as [->|He].
  - destruct (popped_anyof _ _ _ HI Hs) as [_ [x Hx]].
    destruct (Hold r x Hx) as (x' & Hx' & _ & _ & Hout).
    rewrite decide_True in Hout by done. by exists x'.
  - destruct (ji_outcome _ HI r) as (x & Hx & Hsome); [lia|].
    destruct (Hold r x Hx) as (x' & Hx' & _ & _ & Hout).
    rewrite decide_False in Hout by done. exists x'. split; [done|]. by rewrite Hout.
Qed.

Lemma join_wait_step e w w' h hp' i r :
  join_inv w -> (forall h hp, stages w !! h = Some hp -> stage_ok w h hp) ->
  join_step e w w' ->
  stages w' !! h = Some hp' -> request_store hp' !! i = Some r ->
  (0 < cnt (AnyOf r) (trace w'))%nat ->
  exists res, resource_names hp' !! i = Some res /\
              is_Some (resource_wait_times hp' !! res).
Proof.
  intros HI Hok Hs Hh' Hi Htr'. pose proof (js_trace _ _ _ Hs (AnyOf r)) as Ht.
  destruct (decide (h < length (stages w))%nat) as [Hlt|Hge].
  - destruct (lookup_lt_is_Some_2 _ _ Hlt) as [hp Hh].
    destruct (js_stage _ _ _ Hs h hp Hh) as (hp'' & Hh'' & Hn & Hst & _ & Hkeep & Hset).
    assert (hp'' = hp') as -> by congruence. rewrite Hn. rewrite Hst in Hi.
    destruct (decide (e = InitStage h)) as [->|He].
    + exfalso. apply lookup_seq in Hi as [-> _].
      pose proof (ji_anyof _ HI (length (races w) + i)%nat) as Hle.
      rewrite lookup_ge_None_2 in Hle by lia. unfold cnt_all in Hle.
      rewrite decide_False in Ht by done. lia.
    + destruct (decide (e = AnyOf r)) as [->|Hne].
      * destruct (Hok h hp Hh) as (Hal & _). destruct (Hal i r Hi) as (x & Hx & Ho & Hres).
        exists (res_name x). split; [done|]. by apply (Hset r x).
      * destruct (ji_wait _ HI h hp i r Hh Hi) as (res & Hres & Hw); [lia|].
        exists res. split; [done|]. by apply Hkeep.
  - destruct (js_new _ _ _ Hs h hp' Hh') as (Hs0 & _); [lia|]. by rewrite Hs0 in Hi.
Qed.

Lemma join_count_step e w w' h hp' :
  join_inv w -> (forall h hp, stages w !! h = Some hp -> stage_ok w h hp) ->
  join_step e w w' -> stages w' !! h = Some hp' ->
  all_of_count hp' =
  length (filter (fun r => (0 < cnt (MonitorDone r) (trace w'))%nat) (request_store hp')).
Proof.
  intros HI Hok Hs Hh'. destruct (decide (h < length (stages w))%nat) as [Hlt|Hge].
  - destruct (lookup_lt_is_Some_2 _ _ Hlt) as [hp Hh].
    destruct (js_stage _ _ _ Hs h hp Hh) as (hp'' & Hh'' & _ & Hst & Hc & _).
    assert (hp'' = hp') as -> by congruence. rewrite Hst, Hc.
    destruct (decide (e = InitStage h)) as [->|He].
    + destruct (popped_init _ _ _ HI Hs) as [Hz _].
      destruct (ji_fresh _ HI h hp Hh Hz) as (_ & -> & _). simpl.
      rewrite filter_none; [done|]. intros r Hr. apply elem_of_seq in Hr.
      pose proof (js_trace _ _ _ Hs (MonitorDone r)) as Ht.
      rewrite decide_False in Ht by done.
      pose proof (ji_anyof _ HI r) as Hle. rewrite lookup_ge_None_2 in Hle by lia.
      pose proof (ji_done _ HI r) as Hd. unfold cnt_all in *. lia.
    + rewrite (ji_count _ HI h hp Hh).
      assert (Hcase : (exists r, e = MonitorDone r) \/ ~ (exists r, e = MonitorDone r)).
      { destruct e; try (right; by intros [? [=]]). left. by eauto. }
      destruct Hcase as [[r ->]|Hno].
      * destruct (popped_done _ _ _ HI Hs) as [Hz [x Hx]]. simpl. rewrite Hx.
        destruct (ji_owner _ HI r x Hx) as (hp0 & Hh0 & Hin).
        case_decide as Ho.
        { subst h. assert (hp0 = hp) as -> by congruence.
          rewrite (filter_one_more
                     (fun r0 => (0 < cnt (MonitorDone r0) (trace w))%nat)
                     (fun r0 => (0 < cnt (MonitorDone r0) (trace w'))%nat)
                     (request_store hp) r); [lia|by eapply ji_nodup|done|lia|].
          intros r0. rewrite (js_trace _ _ _ Hs (MonitorDone r0)).
          destruct (decide (MonitorDone r = MonitorDone r0)) as [[= ->]|Hne].
          - split; [by right|lia].
          - split; [intros ?; left; lia|]. intros [?| ->]; [lia|done]. }
        { rewrite Nat.add_0_r. f_equal. apply filter_agree. intros r0 Hr0.
          rewrite (js_trace _ _ _ Hs (MonitorDone r0)).
          destruct (decide (MonitorDone r = MonitorDone r0)) as [[= ->]|Hne]; [|lia].
          exfalso. apply list_elem_of_lookup in Hr0 as [i Hi].
          destruct (Hok h hp Hh) as (Hal & _). destruct (Hal i r0 Hi) as (x0 & Hx0 & Ho0 & _).
          congruence. }
      * assert (Hcz : counts e w h = 0%nat).
        { destruct e; try done. destruct Hno. by eauto. }
        rewrite Hcz, Nat.add_0_r. f_equal. apply filter_agree. intros r0 Hr0.
        rewrite (js_trace _ _ _ Hs (MonitorDone r0)).
        rewrite decide_False; [lia|]. intros ->. apply Hno. by eauto.
  - destruct (js_new _ _ _ Hs h hp' Hh') as (-> & -> & _); [lia|]. done.
Qed.

Lemma join_all_step e w w' h :
  join_inv w -> join_step e w w' -> (0 < cnt_all (AllOf h) w')%nat ->
  exists hp', stages w' !! h = Some hp' /\ (0 < cnt (InitStage h) (trace w'))%nat /\
    forall r, r ∈ request_store hp' -> (0 < cnt (MonitorDone r) (trace w'))%nat.
Proof.
  intros HI Hs Hpos. pose proof (js_trace _ _ _ Hs (InitStage h)) as Hti.
  destruct (decide (0 < cnt_all (AllOf h) w)%nat) as [Hold|Hnew].
  - destruct (ji_all _ HI h Hold) as (hp & Hh & Hst & Hall).
    destruct (js_stage _ _ _ Hs h hp Hh) as (hp' & Hh' & _ & Hstore & _).
    assert (He : e <> InitStage h).
    { intros ->. destruct (popped_init _ _ _ HI Hs) as [Hz _]. lia. }
    rewrite decide_False in Hstore by done.
    exists hp'. split; [done|]. split; [lia|]. intros r Hr. rewrite Hstore in Hr.
    specialize (Hall r Hr). rewrite (js_trace _ _ _ Hs (MonitorDone r)). lia.
  - destruct (js_events _ _ _ Hs (AllOf h)) as (k & Hk & [->|[-> Hok]]);
      [by intros []|lia|].
    simpl in Hok.
    destruct Hok as [[-> (hp & Hh & Hn)]|(r & x & hp & -> & Hx & Ho & Hh & Hcount)].
    + destruct (js_stage _ _ _ Hs h hp Hh) as (hp' & Hh' & _ & Hstore & _).
      rewrite decide_True in Hstore by done. rewrite Hn in Hstore. simpl in Hstore.
      exists hp'. split; [done|]. rewrite decide_True in Hti by done. split; [lia|].
      intros r Hr. rewrite Hstore in Hr. by apply elem_of_nil in Hr.
    + destruct (js_stage _ _ _ Hs h hp Hh) as (hp' & Hh' & _ & Hstore & _).
      rewrite decide_False in Hstore by done.
      exists hp'. split; [done|]. split.
      * destruct (decide (cnt (InitStage h) (trace w) = 0)%nat) as [Hz|Hz]; [|lia].
        destruct (ji_fresh _ HI h hp Hh Hz) as (_ & _ & Hno). by destruct (Hno r x Hx).
      * rewrite Hstore. destruct (popped_done _ _ _ HI Hs) as [Hz _].
        destruct (ji_owner _ HI r x Hx) as (hp0 & Hh0 & Hin).
        rewrite Ho in Hh0. assert (hp0 = hp) as -> by congruence.
        apply (filter_all (fun r0 => (0 < cnt (MonitorDone r0) (trace w'))%nat)).
        rewrite (filter_one_more
                   (fun r0 => (0 < cnt (MonitorDone r0) (trace w))%nat)
                   (fun r0 => (0 < cnt (MonitorDone r0) (trace w'))%nat)
                   (request_store hp) r); [|by eapply ji_nodup|done|lia|].
        { rewrite <- (ji_count _ HI h hp Hh). done. }
        intros r0. rewrite (js_trace _ _ _ Hs (MonitorDone r0)).
        destruct (decide (MonitorDone r = MonitorDone r0)) as [[= ->]|Hne].
        { split; [by right|lia]. }
        split; [intros ?; left; lia|]. intros [?| ->]; [lia|done].
Qed.

Lemma join_inv_step e w w' :
  join_inv w -> (forall h hp, stages w !! h = Some hp -> stage_ok w h hp) ->
  join_step e w w' -> join_inv w'.
Proof.
  intros HI Hok Hs. split.
  - intros h. by eapply join_init_step.
  - intros h hp. by eapply join_fresh_step.
  - intros h hp. by eapply join_started_step.
  - intros r x. by eapply join_owner_step.
  - intros h hp. by eapply join_nodup_step.
  - intros r. by eapply join_anyof_step.
  - intros r. by eapply join_done_step.
  - intros r. by eapply join_outcome_step.
  - intros h hp i r. by eapply join_wait_step.
  - intros h hp. by eapply join_count_step.
  - intros h. by eapply join_all_step.
Qed.

Lemma reachable_stage_ok g self w h hp :
  reachable g self w -> stages w !! h = Some hp -> stage_ok w h hp.
Proof.
  intros Hw Hh. destruct (reachable_wf_fields _ _ _ Hw) as [(Hs & _)|Hwf].
  - by rewrite Hs in Hh.
  - by apply (wf_stage _ _ Hwf).
Qed.

Lemma cnt_all_begin self res ev :
  ~ plain ev ->
  cnt_all ev (World self
                (Env 0 [QItem (simulation_time self) URGENT 1 StopEvent;
                        QItem 0 URGENT 0 InitArrivals] 2)
                res [] [] [] 0 0 0 Running []) = 0%nat.
Proof.
  intros Hev. unfold cnt_all. simpl. rewrite !cnt_cons. simpl.
  rewrite !decide_False; [done| |]; intros <-; by apply Hev.
Qed.

Lemma reachable_join g self w : reachable g self w -> join_inv w.
Proof.
  revert w. apply reachable_ind.
  - intros w H. apply begin_setup_world in H as (_ & _ & ->).
    split; try (intros ? ? ?; done); try (intros ? ? ? ? ?; done).
    + intros h. rewrite cnt_all_begin by (by intros []). split; [lia|done].
    + intros r. rewrite cnt_all_begin by (by intros []). simpl. lia.
    + intros r. rewrite cnt_all_begin by (by intros []). lia.
    + intros r. unfold cnt. simpl. lia.
    + intros h. rewrite cnt_all_begin by (by intros []). lia.
  - intros w w' Hw Hrun IH Hstep. destruct (step_join _ _ _ Hstep) as [e Hs].
    apply (join_inv_step e w w' IH); [|done].
    intros h hp. by apply (reachable_stage_ok g self).
Qed.

(** A service time is set by the resumption of run() after its join only. *)
Lemma service_time_set g self w h hp :
  reachable g self w -> stages w !! h = Some hp -> is_Some (service_time hp) ->
  dispatched w (AllOf h).
Proof.
  intros Hw. revert h hp. revert w Hw.
  apply (reachable_ind (fun w => forall h hp, stages w !! h = Some hp ->
           is_Some (service_time hp) -> dispatched w (AllOf h))).
  - intros w H h hp Hh. apply begin_setup_stages in H as (Hs & _). by rewrite Hs in Hh.
  - intros w w' Hw Hrun IH Hstep h hp' Hh' Hsome.
    destruct (step_trace g w w' Hstep) as (it & rest & Hpop & Ht).
    apply step_inversion in Hstep as (it' & rest' & Hpop' & Hd).
    rewrite Hpop in Hpop'. injection Hpop' as <- <-.
    assert (Hkeep : forall hp, stages w !! h = Some hp -> service_time hp = service_time hp' ->
              dispatched w' (AllOf h)).
    { intros hp Hh Heq. rewrite <- Heq in Hsome. destruct (IH h hp Hh Hsome) as (it0 & Hin & Hev).
      exists it0. rewrite Ht. split; [by right|done]. }
    destruct (dispatch_stages _ _ _ _ _ _ Hd Hh')
      as [(hp & Hh & Hch)|(_ & p & pid & pr & rest' & _ & -> & _)].
    + simpl in Hh.
      destruct Hch as [->|[(_ & store & w1 & _ & ->)|[(r & x & st & _ & _ & _ & _ & ->)|
                       [(r & x & _ & _ & _ & ->)|(Hev & _)]]]];
        try (by apply (Hkeep hp)).
      exists it. rewrite Ht. split; [by left|done].
    + simpl in Hsome. by destruct Hsome.
Qed.

(** X25: the service of a stage starts only after its join: when the service
    time of a stage is set, run() has made one request for each of its
    resource names, the monitor of every one of these requests has ended
    with an outcome for the request (the wait for the grant, or
    float('inf') after the timeout), and resource_wait_times has an entry
    for every resource name of the stage. *)
Theorem service_starts_after_every_request_is_resolved g self w h hp :
  reachable g self w -> stages w !! h = Some hp -> is_Some (service_time hp) ->
  length (request_store hp) = length (resource_names hp) /\
  (forall r, r ∈ request_store hp ->
     dispatched w (MonitorDone r) /\
     exists x, races w !! r = Some x /\ owner x = h /\ is_Some (outcome x)) /\
  (forall res, res ∈ resource_names hp -> is_Some (resource_wait_times hp !! res)).
Proof.
  intros Hw Hh Hsome. pose proof (reachable_join _ _ _ Hw) as HI.
  pose proof (service_time_set _ _ _ _ _ Hw Hh Hsome) as Hall.
  apply cnt_pos in Hall.
  destruct (ji_all _ HI h) as (hp0 & Hh0 & Hinit & Hdone); [unfold cnt_all; lia|].
  assert (hp0 = hp) as -> by congruence.
  pose proof (ji_started _ HI h hp Hh Hinit) as Hlen.
  assert (Hany : forall r, r ∈ request_store hp -> (0 < cnt (AnyOf r) (trace w))%nat).
  { intros r Hr. specialize (Hdone r Hr). pose proof (ji_done _ HI r) as Hle.
    unfold cnt_all in Hle. lia. }
  split; [done|]. split.
  - intros r Hr. split; [apply cnt_pos; by apply Hdone|].
    destruct (ji_outcome _ HI r (Hany r Hr)) as (x & Hx & Hout).
    exists x. split; [done|]. split; [|done].
    destruct (reachable_stage_ok _ _ _ _ _ Hw Hh) as (Hal & _).
    apply list_elem_of_lookup in Hr as [i Hi].
    destruct (Hal i r Hi) as (x0 & Hx0 & Ho & _). congruence.
  - intros res Hres. apply list_elem_of_lookup in Hres as [i Hi].
    destruct (lookup_lt_is_Some_2 (request_store hp) i) as [r Hr].
    { rewrite Hlen. by eapply lookup_lt_Some. }
    destruct (ji_wait _ HI h hp i r Hh Hr) as (res' & Hres' & Hw').
    { apply Hany. by eapply list_elem_of_lookup_2. }
    congruence.
Qed.

(** ** A resource that does not exist *)

Ltac wsimpl :=
  cbv beta iota zeta delta
    [set_patient_id set_random_calls set_trace set_env set_patients set_stages set_races
     set_resources set_np_calls set_status schedule env_schedule
     sim env resources patients stages races patient_id random_calls np_calls
     run_status trace now queue eid];
  simpl.

Ltac cmp :=
  repeat match goal with
         | |- context [?a <? ?b] => destruct (Z.ltb_spec a b); try lia; simpl
         end.

Lemma step_ok_run g w w1 k :
  run_status w = Running -> step g w = Ok w1 -> run g (S k) w = run g k w1.
Proof. intros Hrun Hs. simpl. by rewrite Hrun, Hs. Qed.

(** X9: when the first process of process_list names a resource that
    resource_dict lacks, begin() raises KeyError for such a resource when
    the first patient's first stage starts, provided the first patient
    arrives before [until]: four events are enough. *)
Theorem absent_resource_raises_KeyError g self pr rest res fuel :
  map_Forall (fun _ c => 0 < c) (resource_dict self) ->
  process_list self = pr :: rest ->
  res ∈ p_resources pr -> resource_dict self !! res = None ->
  0 <= lognormvariate g 0 < simulation_time self -> 0 < lognormvariate g 1 ->
  (4 <= fuel)%nat ->
  exists res', begin g fuel self = Raise (KeyError res') /\
    res' ∈ p_resources pr /\ resource_dict self !! res' = None.
Proof.
  intros Hcap Hpl Hin Hnone [Ha0 Hau] Ha1 Hfuel.
  destruct (begin_setup self) as [w0|e] eqn:H0; cycle 1.
  { unfold begin_setup, setup_resource_environment in H0. case_decide; [|done].
    simpl in H0. destruct (Z.leb_spec (simulation_time self) 0); [lia|done]. }
  pose proof (first_step _ g _ H0) as Hs1.
  destruct (begin_setup_world _ _ H0) as (_ & Hu & Hw0).
  set (a0 := lognormvariate g 0) in *. set (a1 := lognormvariate g 1) in *.
  set (u := simulation_time self) in *.
  set (P := (fun c => MkResource c [] []) <$> resource_dict self) in *.
  (* the first event: patient_arrivals starts *)
  unfold env_timeout in Hs1. destruct (Z.ltb_spec a0 0); [lia|].
  match type of Hs1 with _ = Ok ?w => set (W1 := w) in * end.
  (* the second: the first patient arrives *)
  eassert (Hs2 : step g W1 = Ok _).
  { unfold step, W1. simpl. unfold qle. simpl. cmp.
    unfold patient_arrivals_resume, patient_arrivals_wait, env_timeout. wsimpl.
    fold a1. cmp. reflexivity. }
  match type of Hs2 with _ = Ok ?w => set (W2 := w) in * end.
  (* the third: patient_process starts, and builds the first stage *)
  eassert (Hs3 : step g W2 = Ok _).
  { unfold step, W2. simpl. unfold qle. simpl. cmp.
    all: unfold patient_process; wsimpl; rewrite Hpl; wsimpl; reflexivity. }
  match type of Hs3 with _ = Ok ?w => set (W3 := w) in * end.
  assert (Hr3 : reachable g self W3).
  { exists 3%nat. unfold begin. rewrite H0. simpl.
    change (run g 3 w0 = Ok W3).
    rewrite (step_ok_run g w0 W1 2 ltac:(by rewrite Hw0) Hs1).
    rewrite (step_ok_run g W1 W2 1 eq_refl Hs2).
    by rewrite (step_ok_run g W2 W3 0 eq_refl Hs3). }
  (* the fourth: the stage starts, and asks for its resources *)
  set (it := QItem (0 + a0 + 0 + 0) URGENT 5 (InitStage 0)).
  set (W3' := set_trace (cons it)
                (set_env (fun e => Env (q_time it)
                                     [QItem (0 + a0 + a1) NORMAL 4 ArrivalTimeout;
                                      QItem u URGENT 1 StopEvent] (eid e)) W3)).
  assert (Hpop : pop_min (queue (env W3))
                 = Some (it, [QItem (0 + a0 + a1) NORMAL 4 ArrivalTimeout;
                              QItem u URGENT 1 StopEvent])).
  { unfold W3. simpl. unfold qle. simpl. cmp; reflexivity. }
  assert (Hwf : wf self W3').
  { destruct (reachable_wf _ _ _ Hr3) as [Hb|Hwf].
    - rewrite H0 in Hb. injection Hb as Hb. rewrite Hw0 in Hb.
      apply (f_equal trace) in Hb. done.
    - by destruct (wf_pop _ _ _ _ Hwf Hpop). }
  assert (Hwf0 : wf self (set_stage 0 hp_clear_waits W3')).
  { apply wf_set_stage; [|done]. intros y Hy. split; [done|].
    intros (Hst & Hlen & _). split; [done|]. split; [done|].
    intros res0 v Hv. simpl in Hv. by rewrite lookup_empty in Hv. }
  destruct (make_requests_absent self 0 (p_resources pr)
              (set_stage 0 hp_clear_waits W3') Hwf0) as (res' & Hm & Hin' & Hnone').
  { eexists. split; [reflexivity|]. done. }
  { by exists res. }
  exists res'. split; [|done].
  assert (Hs4 : step g W3 = Raise (KeyError res')).
  { unfold step. rewrite Hpop. change (run_start 0 W3' = Raise (KeyError res')).
    unfold run_start.
    change (stages W3' !! 0%nat) with
      (Some (MkHospitalProcess
               ("Patient " +:+ ("Patient " +:+ pretty 0%nat) +:+ " - " +:+ p_name pr)
               (p_resources pr) (fst (p_time_range pr)) (snd (p_time_range pr))
               ∅ None [] 0 0)).
    cbv beta iota. change (resource_names _) with (p_resources pr).
    by rewrite Hm. }
  unfold begin. rewrite H0. change (run g fuel w0 = Raise (KeyError res')).
  replace fuel with (S (S (S (S (fuel - 4))))) by lia.
  rewrite (step_ok_run g w0 W1 _ ltac:(by rewrite Hw0) Hs1).
  rewrite (step_ok_run g W1 W2 _ eq_refl Hs2).
  rewrite (step_ok_run g W2 W3 _ eq_refl Hs3).
  change (run g (S (fuel - 4)) W3) with (step g W3 ≫= run g (fuel - 4)).
  by rewrite Hs4.
Qed.

(** * The claims that rest on the invariants of the run *)

(** ** C7: what a run depends on *)









(** ** C1: a request that timed out is not cancelled *)

(** What the monitor does when it resumes: it writes the wait under the
    name of the resource, records the outcome, and touches nothing else. *)
Lemma resume_effect r w w' x :
  request_resource_and_monitor_time_resume r w = Ok w' -> races w !! r = Some x ->
  exists st, start_time x = Some st /\
    let v := if req_processed x then PyNum (now (env w) - st) else PyInf in
    races w' !! r = Some (race_outcome (now (env w)) v x) /\
    (forall h hp, stages w !! h = Some hp ->
       stages w' !! h
         = Some (if decide (h = owner x) then hp_set_wait (res_name x) v hp else hp)) /\
    resources w' = resources w.
Proof.
  unfold request_resource_and_monitor_time_resume. intros H Hr. rewrite Hr in H.
  destruct (start_time x) as [st|] eqn:Hst; [|done]. injection H as <-.
  exists st. split; [done|]. split; [|split; [|done]].
  - simpl. rewrite Hr. apply list_lookup_insert_eq. by eapply lookup_lt_Some.
  - intros h hp Hh.
    change (stages (set_stage (owner x)
              (hp_set_wait (res_name x)
                 (if req_processed x then PyNum (now (env w) - st) else PyInf)) w) !! h
            = Some (if decide (h = owner x)
                    then hp_set_wait (res_name x)
                           (if req_processed x then PyNum (now (env w) - st) else PyInf) hp
                    else hp)).
    rewrite set_stage_lookup_total, Hh. by case_decide.
Qed.





(** ** C6: what is recorded as the wait *)

(** Events other than the resumption of a monitor and the start of the
    stage leave the waits of a stage alone. *)
Lemma dispatch_waits g ev w w' h hp' :
  dispatch g ev w = Ok w' -> stages w' !! h = Some hp' ->
  (forall r, ev <> AnyOf r) -> ev <> InitStage h -> (h < length (stages w))%nat ->
  exists hp, stages w !! h = Some hp /\ resource_wait_times hp' = resource_wait_times hp.
Proof.
  intros Hd Hh' Hany Hinit Hlt.
  destruct (dispatch_stages _ _ _ _ _ _ Hd Hh')
    as [(hp & Hh & Hc)|(-> & _)]; [|lia].
  exists hp. split; [done|].
  destruct Hc as [->|[(Hev & _)|[(r & x & st & Hev & _)|[(r & x & _ & _ & _ & ->)|(_ & ->)]]]];
    try done.
  by destruct (Hany r).
Qed.

Lemma waits_ok_step g self w w' :
  reachable g self w -> waits_ok w -> step g w = Ok w' -> waits_ok w'.
Proof.
  intros Hw IH Hstep h hp' i r res x' t v Hh' Hnd Hi Hres Hx' Hout.
  pose proof (reachable_join _ _ _ Hw) as HI. pose proof Hstep as Hstep0.
  apply step_inversion in Hstep as (it & rest & Hpop & Hd).
  set (wm := set_trace (cons it) (set_env (fun e => Env (q_time it) rest (eid e)) w)) in *.
  destruct (dispatch_races _ _ _ _ Hd) as (_ & Hold & Hnew).
  (* the request was there before the step *)
  destruct (decide (r < length (races w))%nat) as [Hr|Hr]; cycle 1.
  { destruct (Hnew r x' Hx') as (h0 & _ & _ & _ & Hnone); [simpl; lia|]. congruence. }
  destruct (lookup_lt_is_Some_2 _ _ Hr) as [x Hx].
  destruct (Hold r x Hx) as (x'' & Hx'' & _ & _ & Hsame).
  assert (x'' = x') as -> by congruence.
  (* and so was the stage *)
  destruct (decide (h < length (stages w))%nat) as [Hlt|Hge]; cycle 1.
  { destruct (dispatch_stages _ _ _ _ _ _ Hd Hh')
      as [(hp & Hh & _)|(_ & p & pid & pr & rs & _ & -> & _)].
    - apply lookup_lt_Some in Hh. simpl in Hh. lia.
    - done. }
  destruct (lookup_lt_is_Some_2 _ _ Hlt) as [hp Hh].
  destruct (dispatch_stage_step _ _ _ _ h hp Hd Hh) as (hp'' & Hh'' & Hn & Hst & _).
  assert (hp'' = hp') as -> by congruence.
  rewrite Hn in Hnd, Hres. rewrite Hst in Hi.
  destruct (decide (q_event it = InitStage h)) as [Hev|Hev].
  { apply lookup_seq in Hi as [-> _]. simpl in Hr. lia. }
  destruct (reachable_stage_ok _ _ _ _ _ Hw Hh) as (Hal & _).
  destruct (Hal i r Hi) as (x0 & Hx0 & Ho & Hname).
  assert (x0 = x) as -> by congruence.
  assert (res = res_name x) as -> by congruence.
  assert (Hany : (exists r0, q_event it = AnyOf r0) \/ forall r0, q_event it <> AnyOf r0).
  { destruct (q_event it); try (by right). left. by eauto. }
  destruct Hany as [[r0 Hr0]|Hany].
  - rewrite Hr0 in Hd, Hsame. simpl in Hd.
    destruct (decide (r0 = r)) as [->|Hne].
    + destruct (resume_effect _ _ _ x Hd Hx) as (st & Hst0 & Hxn & Hsn & _).
      rewrite Hxn in Hx'. injection Hx' as <-. simpl in Hout. injection Hout as <- <-.
      rewrite (Hsn h hp Hh) in Hh'. rewrite decide_True in Hh' by done.
      injection Hh' as <-. simpl. apply lookup_insert_eq.
    + rewrite decide_False in Hsame by congruence. rewrite Hsame in Hout.
      pose proof (IH h hp i r (res_name x) x t v Hh Hnd Hi Hname Hx Hout) as Hv.
      destruct (popped_anyof r0 w w' HI) as [_ [y Hy]].
      { rewrite <- Hr0. by eapply step_join_pop. }
      destruct (resume_effect _ _ _ y Hd Hy) as (st & Hst0 & _ & Hsn & _).
      rewrite (Hsn h hp Hh) in Hh'. injection Hh' as <-.
      case_decide as Hown; [|done]. simpl.
      rewrite lookup_insert_ne; [done|]. intros Heq.
      destruct (ji_owner _ HI r0 y Hy) as (hp0 & Hh0 & Hin).
      rewrite <- Hown in Hh0. assert (hp0 = hp) as -> by congruence.
      apply list_elem_of_lookup in Hin as [j Hj].
      destruct (Hal j r0 Hj) as (y0 & Hy0 & _ & Hname0).
      assert (y0 = y) as -> by congruence.
      rewrite Heq in Hname0.
      pose proof (NoDup_lookup _ _ _ _ Hnd Hname Hname0) as ->. congruence.
  - destruct (decide (q_event it = AnyOf r)) as [He|_]; [by destruct (Hany r)|].
    rewrite Hsame in Hout.
    destruct (dispatch_waits _ _ _ _ _ _ Hd Hh' Hany Hev Hlt) as (hp0 & Hh0 & ->).
    assert (hp0 = hp) as -> by (simpl in Hh0; congruence).
    by apply (IH h hp i r (res_name x) x t v).
Qed.

Lemma reachable_waits g self w : reachable g self w -> waits_ok w.
Proof.
  revert w. apply reachable_ind.
  - intros w H h hp i r res x t v Hh. apply begin_setup_stages in H as (Hs & _).
    by rewrite Hs in Hh.
  - intros w w' Hw _ IH Hstep. by eapply waits_ok_step.
Qed.

(** C6, as the code has it: the wait recorded for a request is a float.
    When the timeout fires before the grant it is float('inf'), stored
    10000 after the request was made (and it stays inf if the pool grants
    the request later); when the request is granted before the timeout it is
    the number grantTime - enqueueTime.  The wait is the entry of
    resource_wait_times under the name of the resource, for a stage whose
    resource names are distinct. *)
Theorem C6_recorded_wait g self w h hp r x t v :
  reachable g self w -> stages w !! h = Some hp -> NoDup (resource_names hp) ->
  r ∈ request_store hp -> races w !! r = Some x -> outcome x = Some (t, v) ->
  resource_wait_times hp !! res_name x = Some v /\
  ((v = PyInf /\ is_inf v = true /\ t = enqueue_time x + 10000 /\
    forall grant_time, granted x = Some grant_time -> t <= grant_time)
   \/ (exists grant_time, granted x = Some grant_time /\ t = grant_time /\
         grant_time <= enqueue_time x + 10000 /\
         v = PyNum (grant_time - enqueue_time x) /\ is_inf v = false)) /\
  (forall grant_time, granted x = Some grant_time ->
     grant_time < enqueue_time x + 10000 -> v = PyNum (grant_time - enqueue_time x)) /\
  ((forall grant_time, granted x = Some grant_time ->
      enqueue_time x + 10000 < grant_time) -> v = PyInf).
Proof.
  intros Hw Hh Hnd Hin Hr Ho.
  apply list_elem_of_lookup in Hin as [i Hi].
  destruct (reachable_stage_ok _ _ _ _ _ Hw Hh) as (Hal & _).
  destruct (Hal i r Hi) as (x0 & Hx0 & _ & Hname).
  assert (x0 = x) as -> by congruence.
  split; [by apply (reachable_waits _ _ _ Hw h hp i r (res_name x) x t v)|].
  pose proof (reachable_inv _ _ _ Hw) as [_ Hra _ _ _ _].
  destruct (Hra r x Hr) as [_ _ _ _ _ _ _ _ _ Hout].
  destruct (Hout t v Ho) as [_ [(-> & -> & Hlate)|(-> & Hg & Hle)]].
  - split; [by left|]. split; [|done].
    intros gt Hgt Hlt. specialize (Hlate gt Hgt). lia.
  - split; [right; exists t; done|]. split.
    + intros gt Hgt _. congruence.
    + intros Hlate. specialize (Hlate t Hg). lia.
Qed.

Lemma C6_witness :
  let w := world_after rng_c 41 sim_c in
  let x := MkRace "R" 1 10 (Some 55) true (Some 10) true true (Some (55, PyNum 45)) in
  exists hp,
    reachable rng_c sim_c w /\ stages w !! 1%nat = Some hp /\
    NoDup (resource_names hp) /\ 1%nat ∈ request_store hp /\
    races w !! 1%nat = Some x /\ outcome x = Some (55, PyNum 45) /\
    resource_wait_times hp !! res_name x = Some (PyNum 45) /\
    ((PyNum 45 = PyInf /\ is_inf (PyNum 45) = true /\ 55 = enqueue_time x + 10000 /\
      forall grant_time, granted x = Some grant_time -> 55 <= grant_time)
     \/ (exists grant_time, granted x = Some grant_time /\ 55 = grant_time /\
           grant_time <= enqueue_time x + 10000 /\
           PyNum 45 = PyNum (grant_time - enqueue_time x) /\ is_inf (PyNum 45) = false)) /\
    (forall grant_time, granted x = Some grant_time ->
       grant_time < enqueue_time x + 10000 ->
       PyNum 45 = PyNum (grant_time - enqueue_time x)) /\
    ((forall grant_time, granted x = Some grant_time ->
        enqueue_time x + 10000 < grant_time) -> PyNum 45 = PyInf).
Proof.
  intros w x.
  assert (Hw : reachable rng_c sim_c w).
  { apply reachable_world_after. vm_compute. reflexivity. }
  eassert (Hh : stages w !! 1%nat = Some _) by (vm_compute; reflexivity).
  assert (Hr : races w !! 1%nat = Some x) by (vm_compute; reflexivity).
  eexists. split; [exact Hw|]. split; [exact Hh|].
  assert (Hnd : NoDup ["R"]) by (apply NoDup_singleton).
  assert (Hin : 1%nat ∈ [1%nat]) by (apply elem_of_cons; by left).
  split; [exact Hnd|]. split; [exact Hin|]. split; [exact Hr|]. split; [reflexivity|].
  exact (C6_recorded_wait rng_c sim_c w 1 _ 1 x 55 (PyNum 45) Hw Hh Hnd Hin Hr eq_refl).
Defined.

(** C6 fails as stated.  Run A: the request of patient 1 times out, and what
    its stage holds in resource_wait_times for "R" is the float infinity,
    not a tag of its own.  Run B: the request of patient 1 is granted, at
    40005, after its timeout, and what is recorded for it is the infinity,
    not grantTime - enqueueTime. *)
Lemma C6_counterexample :
  let w := world_after rng_a 17 sim_a in
  let wb := world_after rng_b 40 sim_b in
  reachable rng_a sim_a w /\ reachable rng_b sim_b wb /\
  (exists x hp v,
     races w !! 1%nat = Some x /\ granted x = None /\ outcome x = Some (10010, v) /\
     stages w !! owner x = Some hp /\
     resource_wait_times hp !! res_name x = Some v /\ is_inf v = true) /\
  (exists x hp,
     races wb !! 1%nat = Some x /\ granted x = Some 40005 /\ enqueue_time x = 10 /\
     stages wb !! owner x = Some hp /\
     resource_wait_times hp !! res_name x = Some PyInf).
Proof.
  split; [apply reachable_world_after; vm_compute; reflexivity|].
  split; [apply reachable_world_after; vm_compute; reflexivity|].
  split.
  - exists (MkRace "R" 1 10 None false (Some 10) true true (Some (10010, PyInf))),
           (MkHospitalProcess "Patient Patient 1 - S" ["R"] 20000 20000
              {[ "R" := PyInf ]} None [1%nat] 1 1),
           PyInf.
    split; [vm_compute; reflexivity|]. split; [done|]. split; [done|].
    split; [vm_compute; reflexivity|]. split; [vm_compute; reflexivity|done].
  - eexists (MkRace "R" 1 10 (Some 40005) true (Some 10) true true (Some (10010, PyInf))), _.
    split; [vm_compute; reflexivity|]. split; [done|]. split; [done|].
    split; [vm_compute; reflexivity|]. vm_compute. reflexivity.
Qed.

(** * The optimiser *)

(** ** The optimiser: construction *)

Lemma make_variables_ok lower upper : forall keys i,
  (i + length keys <= length lower)%nat -> (i + length keys <= length upper)%nat ->
  exists vs, LinearOptimisationProblem.make_variables keys i lower upper = Ok vs /\
    fst <$> vs = keys /\
    forall j key, keys !! j = Some key ->
      exists lb ub, lower !! (i + j)%nat = Some lb /\ upper !! (i + j)%nat = Some ub /\
        vs !! j = Some (key, LinearOptimisationProblem.MkLpVariable (LinearOptimisationProblem.set_name key) lb ub).
Proof.
  induction keys as [|key keys IH]; simpl; intros i Hl Hu.
  - exists []. split; [done|]. split; [done|]. intros j k Hj. by destruct j.
  - destruct (lookup_lt_is_Some_2 lower i) as [lb Hlb]; [lia|].
    destruct (lookup_lt_is_Some_2 upper i) as [ub Hub]; [lia|].
    rewrite Hlb, Hub.
    destruct (IH (S i)) as (vs & -> & Hk & Hj); [lia|lia|]. simpl.
    eexists. split; [done|]. split; [by rewrite fmap_cons, Hk|].
    intros [|j] k Hjk; simpl in *.
    + injection Hjk as <-. exists lb, ub. by rewrite Nat.add_0_r.
    + destruct (Hj j k Hjk) as (lb' & ub' & ? & ? & ?). exists lb', ub'.
      by rewrite <- Nat.add_succ_comm.
Qed.

Lemma make_variables_raise lower upper : forall keys i,
  (i <= length lower)%nat -> (i <= length upper)%nat ->
  ((length lower < i + length keys)%nat \/ (length upper < i + length keys)%nat) ->
  LinearOptimisationProblem.make_variables keys i lower upper = Raise (IndexError "list index out of range").
Proof.
  induction keys as [|key keys IH]; simpl; intros i Hl Hu H; [lia|].
  destruct (lower !! i) as [lb|] eqn:Hlb; [|done].
  destruct (upper !! i) as [ub|] eqn:Hub; [|done].
  apply lookup_lt_Some in Hlb, Hub.
  rewrite IH; [done|lia|lia|lia].
Qed.

(** X18: __init__ indexes both bound lists once per resource key: it raises
    IndexError exactly when one of them is shorter than the resource
    dictionary, and otherwise builds the object. *)
Theorem init_raises_iff_a_bound_list_is_short rd ic co lo up cd mc :
  ((length lo < length rd)%nat \/ (length up < length rd)%nat <->
   LinearOptimisationProblem.init rd ic co lo up cd mc = Raise (IndexError "list index out of range")) /\
  ((length rd <= length lo)%nat /\ (length rd <= length up)%nat <->
   exists self, LinearOptimisationProblem.init rd ic co lo up cd mc = Ok self).
Proof.
  unfold LinearOptimisationProblem.init.
  destruct (decide ((length lo < length rd)%nat \/ (length up < length rd)%nat)) as [H|H].
  - rewrite make_variables_raise by (rewrite ?length_fmap; simpl; lia). simpl.
    split; [done|]. split; [lia|]. by intros [? ?].
  - destruct (make_variables_ok lo up (fst <$> rd) 0) as (vs & -> & _);
      [rewrite length_fmap; simpl; lia..|]. simpl.
    split; [split; [done|discriminate]|]. split; [by eauto|lia].
Qed.

Lemma init_variables rd ic co lo up cd mc self :
  LinearOptimisationProblem.init rd ic co lo up cd mc = Ok self ->
  self = LinearOptimisationProblem.Mk rd (fst <$> rd) ic co cd mc (LinearOptimisationProblem.resource_variables self) None [] None /\
  fst <$> LinearOptimisationProblem.resource_variables self = fst <$> rd /\
  forall i key, (fst <$> rd) !! i = Some key ->
    exists lb ub, lo !! i = Some lb /\ up !! i = Some ub /\
      LinearOptimisationProblem.resource_variables self !! i
        = Some (key, LinearOptimisationProblem.MkLpVariable (LinearOptimisationProblem.set_name key) lb ub).
Proof.
  unfold LinearOptimisationProblem.init. intros H.
  destruct (decide ((length lo < length rd)%nat \/ (length up < length rd)%nat)) as [Hs|Hs].
  - rewrite make_variables_raise in H by (rewrite ?length_fmap; simpl; lia). done.
  - destruct (make_variables_ok lo up (fst <$> rd) 0) as (vs & Hvs & Hk & Hj);
      [rewrite length_fmap; simpl; lia..|].
    rewrite Hvs in H. simpl in H. injection H as <-. simpl. done.
Qed.

(** A name without illegal characters is kept as it is. *)
Lemma translate_legal name :
  Forall (fun a => LinearOptimisationProblem.illegal_char a = false) (String.list_ascii_of_string name) ->
  LinearOptimisationProblem.translate name = name.
Proof.
  induction name as [|a name IH]; simpl; intros H; [done|].
  apply Forall_cons in H as [Ha H]. by rewrite Ha, IH.
Qed.

(** The name pulp keeps has no illegal character. *)
Lemma translate_clean name :
  Forall (fun a => LinearOptimisationProblem.illegal_char a = false)
         (String.list_ascii_of_string (LinearOptimisationProblem.translate name)).
Proof.
  induction name as [|a name IH]; simpl; [constructor|].
  constructor; [|done]. by destruct (LinearOptimisationProblem.illegal_char a) eqn:Ha.
Qed.

(** X19: when __init__ succeeds there is one integer variable per resource key,
    in the order of the keys, bounded by the entries of the bound lists at
    the key's position.  The name pulp gives the variable is the key with
    every character of "-+[] ->/" replaced by "_": it has no such character,
    and it is the key itself when the key has none (and is not empty).
    Nothing is set up or solved yet. *)
Theorem init_builds_one_variable_per_key rd ic co lo up cd mc self :
  LinearOptimisationProblem.init rd ic co lo up cd mc = Ok self ->
  LinearOptimisationProblem.resource_keys self = fst <$> rd /\
  fst <$> LinearOptimisationProblem.resource_variables self = LinearOptimisationProblem.resource_keys self /\
  (forall i key, LinearOptimisationProblem.resource_keys self !! i = Some key ->
     exists lb ub, lo !! i = Some lb /\ up !! i = Some ub /\
       LinearOptimisationProblem.resource_variables self !! i
         = Some (key, LinearOptimisationProblem.MkLpVariable (LinearOptimisationProblem.set_name key) lb ub)) /\
  (forall key var name, (key, var) ∈ LinearOptimisationProblem.resource_variables self ->
     LinearOptimisationProblem.lp_name var = Some name ->
     String.length name = String.length key /\
     Forall (fun a => LinearOptimisationProblem.illegal_char a = false) (String.list_ascii_of_string name) /\
     (Forall (fun a => LinearOptimisationProblem.illegal_char a = false) (String.list_ascii_of_string key) ->
      name = key)) /\
  LinearOptimisationProblem.objective self = None /\ LinearOptimisationProblem.constraints self = [] /\
  LinearOptimisationProblem.optimal_resources self = None.
Proof.
  intros H. destruct (init_variables _ _ _ _ _ _ _ _ H) as (Hs & Hk & Hj).
  assert (Hkeys : LinearOptimisationProblem.resource_keys self = fst <$> rd) by (by rewrite Hs).
  split; [done|]. split; [congruence|]. split; [by rewrite Hkeys|].
  split; [|by rewrite Hs].
  intros key var name Hin Hname.
  apply list_elem_of_lookup in Hin as [i Hi].
  assert (Hkey : (fst <$> rd) !! i = Some key).
  { rewrite <- Hk, list_lookup_fmap, Hi. done. }
  destruct (Hj i key Hkey) as (lb & ub & _ & _ & Hv).
  rewrite Hi in Hv. injection Hv as ->. cbn [LinearOptimisationProblem.lp_name] in Hname.
  assert (name = LinearOptimisationProblem.translate key) as ->.
  { destruct key; [done|]. by injection Hname as <-. }
  split; [|split].
  - clear. induction key as [|b s IH]; simpl; [done|]. by rewrite IH.
  - apply translate_clean.
  - apply translate_legal.
Qed.

(** ** The optimiser: the objective and the budget constraint *)

Lemma linear_terms_ok {A : Type} (z : A -> bool) (d : gmap string A) : forall keys,
  (forall key, key ∈ keys -> is_Some (d !! key)) ->
  exists ts, LinearOptimisationProblem.linear_terms z d keys = Ok ts /\
    snd <$> ts `sublist_of` keys /\
    (forall c key, (c, key) ∈ ts <-> key ∈ keys /\ d !! key = Some c /\ z c = false).
Proof.
  induction keys as [|key keys IH]; simpl; intros H.
  - exists []. split; [done|]. split; [done|]. intros c k. split.
    + intros Hin. by apply elem_of_nil in Hin.
    + intros [Hin _]. by apply elem_of_nil in Hin.
  - destruct (H key) as [c Hc]; [by left|]. rewrite Hc.
    destruct IH as (ts & -> & Hsub & Hts); [intros k Hk; apply H; by right|]. simpl.
    eexists. split; [done|]. destruct (z c) eqn:Hz.
    + split; [by apply sublist_cons|]. intros c' k'. rewrite Hts. split.
      * intros (Hin & Hd & Hz'). split; [by right|done].
      * intros ([->|Hin]%elem_of_cons & Hd & Hz'); [congruence|done].
    + split; [rewrite fmap_cons; by apply sublist_skip|]. intros c' k'.
      rewrite elem_of_cons, Hts. split.
      * intros [[= -> ->]|(Hin & Hd & Hz')]; [split; [by left|done]|split; [by right|done]].
      * intros ([->|Hin]%elem_of_cons & Hd & Hz'); [left; congruence|by right].
Qed.

Lemma linear_terms_ok_inv {A : Type} (z : A -> bool) (d : gmap string A) :
  forall keys ts key,
  LinearOptimisationProblem.linear_terms z d keys = Ok ts -> key ∈ keys -> is_Some (d !! key).
Proof.
  induction keys as [|k keys IH]; simpl; intros ts key H Hin;
    [by apply elem_of_nil in Hin|].
  destruct (d !! k) as [c|] eqn:Hc; [|done].
  destruct (LinearOptimisationProblem.linear_terms z d keys) as [ts'|] eqn:Hts; [|done].
  apply elem_of_cons in Hin as [->|Hin]; [by rewrite Hc|by eapply IH].
Qed.

Lemma linear_terms_raise {A : Type} (z : A -> bool) (d : gmap string A) : forall keys e,
  LinearOptimisationProblem.linear_terms z d keys = Raise e ->
  exists key, e = KeyError key /\ key ∈ keys /\ d !! key = None.
Proof.
  induction keys as [|key keys IH]; simpl; intros e H; [done|].
  destruct (d !! key) as [c|] eqn:Hc.
  - destruct (LinearOptimisationProblem.linear_terms z d keys) as [ts|e'] eqn:Hts; [done|].
    simpl in H. injection H as <-.
    destruct (IH e' eq_refl) as (k & -> & Hin & Hk). exists k. split; [done|].
    split; [by right|done].
  - injection H as <-. exists key. split; [done|]. split; [by left|done].
Qed.

Lemma initialise_problem_Ok self self' :
  LinearOptimisationProblem.initialise_problem self = Ok self' ->
  exists obj bud cs,
    LinearOptimisationProblem.linear_terms (fun c => Qeq_bool c 0) (LinearOptimisationProblem.coefficients self) (LinearOptimisationProblem.resource_keys self)
      = Ok obj /\
    LinearOptimisationProblem.linear_terms (fun c => c =? 0) (LinearOptimisationProblem.cost_dict self) (LinearOptimisationProblem.resource_keys self) = Ok bud /\
    LinearOptimisationProblem.add_budget (LinearOptimisationProblem.resource_keys self) bud (LinearOptimisationProblem.max_cost self) (LinearOptimisationProblem.constraints self)
      = Ok cs /\
    self' = LinearOptimisationProblem.Mk (LinearOptimisationProblem.resource_dict self) (LinearOptimisationProblem.resource_keys self) (LinearOptimisationProblem.intercept self)
              (LinearOptimisationProblem.coefficients self) (LinearOptimisationProblem.cost_dict self) (LinearOptimisationProblem.max_cost self)
              (LinearOptimisationProblem.resource_variables self) (Some (LinearOptimisationProblem.intercept self, obj)) cs
              (LinearOptimisationProblem.optimal_resources self).
Proof.
  unfold LinearOptimisationProblem.initialise_problem. intros H.
  destruct (LinearOptimisationProblem.linear_terms _ (LinearOptimisationProblem.coefficients self) _) as [obj|] eqn:Ho; [|done].
  destruct (LinearOptimisationProblem.linear_terms _ (LinearOptimisationProblem.cost_dict self) _) as [bud|] eqn:Hb; [|done].
  simpl in H.
  destruct (LinearOptimisationProblem.add_budget _ bud _ _) as [cs|] eqn:Hc; [|done].
  simpl in H. injection H as <-. by exists obj, bud, cs.
Qed.

(** X20: initialise_problem succeeds exactly when every resource key has a
    coefficient and a cost and the problem holds no constraint named
    Budget_Constraint yet.  What it raises is a KeyError for a resource key
    without coefficient or without cost, or pulp's PulpError for the
    constraint name that is there already; so a second call on the object
    raises.  (Stated for an object with a resource key, or with a max_cost
    that is not negative.) *)
Theorem initialise_problem_succeeds_iff self :
  LinearOptimisationProblem.resource_keys self <> [] \/ 0 <= LinearOptimisationProblem.max_cost self ->
  ((exists self', LinearOptimisationProblem.initialise_problem self = Ok self') <->
   (forall key, key ∈ LinearOptimisationProblem.resource_keys self ->
      is_Some (LinearOptimisationProblem.coefficients self !! key) /\ is_Some (LinearOptimisationProblem.cost_dict self !! key)) /\
   (LinearOptimisationProblem.resource_keys self <> [] ->
      LinearOptimisationProblem.budget_name ∉ (fst <$> LinearOptimisationProblem.constraints self))) /\
  (forall e, LinearOptimisationProblem.initialise_problem self = Raise e ->
     (exists key, e = KeyError key /\ key ∈ LinearOptimisationProblem.resource_keys self /\
        (LinearOptimisationProblem.coefficients self !! key = None \/ LinearOptimisationProblem.cost_dict self !! key = None)) \/
     (exists msg, e = PulpError msg /\
        LinearOptimisationProblem.budget_name ∈ (fst <$> LinearOptimisationProblem.constraints self))) /\
  (forall self', LinearOptimisationProblem.initialise_problem self = Ok self' -> LinearOptimisationProblem.resource_keys self <> [] ->
     exists msg, LinearOptimisationProblem.initialise_problem self' = Raise (PulpError msg)).
Proof.
  intros Hpre. split; [split|split].
  - intros [self' H]. apply initialise_problem_Ok in H as (obj & bud & cs & Ho & Hb & Hc & _).
    split.
    + intros key Hin. split; by eapply linear_terms_ok_inv.
    + intros Hne Hin. unfold LinearOptimisationProblem.add_budget in Hc.
      destruct (LinearOptimisationProblem.resource_keys self); [done|]. by rewrite decide_True in Hc.
  - intros [Hall Hfresh]. unfold LinearOptimisationProblem.initialise_problem.
    destruct (linear_terms_ok (fun c => Qeq_bool c 0) (LinearOptimisationProblem.coefficients self)
                (LinearOptimisationProblem.resource_keys self)) as (obj & -> & _); [intros k Hk; by apply Hall|].
    destruct (linear_terms_ok (fun c => c =? 0) (LinearOptimisationProblem.cost_dict self)
                (LinearOptimisationProblem.resource_keys self)) as (bud & -> & _); [intros k Hk; by apply Hall|].
    simpl. unfold LinearOptimisationProblem.add_budget. destruct (LinearOptimisationProblem.resource_keys self) as [|k ks] eqn:Hk.
    + destruct Hpre as [?|Hmc]; [done|]. apply Z.leb_le in Hmc. rewrite Hmc. simpl.
      by eauto.
    + rewrite decide_False by (by apply Hfresh). simpl. by eauto.
  - intros e H. unfold LinearOptimisationProblem.initialise_problem in H.
    destruct (LinearOptimisationProblem.linear_terms _ (LinearOptimisationProblem.coefficients self) _) as [obj|e1] eqn:Ho.
    + destruct (LinearOptimisationProblem.linear_terms _ (LinearOptimisationProblem.cost_dict self) _) as [bud|e2] eqn:Hb.
      * simpl in H. unfold LinearOptimisationProblem.add_budget in H.
        destruct (LinearOptimisationProblem.resource_keys self) as [|k ks] eqn:Hk.
        { destruct Hpre as [?|Hmc]; [done|]. apply Z.leb_le in Hmc.
          rewrite Hmc in H. done. }
        case_decide as Hin; [|done]. simpl in H. injection H as <-.
        right. by eauto.
      * simpl in H. injection H as <-.
        destruct (linear_terms_raise _ _ _ _ Hb) as (k & -> & ? & ?). left. exists k. eauto.
    + simpl in H. injection H as <-.
      destruct (linear_terms_raise _ _ _ _ Ho) as (k & -> & ? & ?). left. exists k. eauto.
  - intros self' H Hne.
    apply initialise_problem_Ok in H as (obj & bud & cs & Ho & Hb & Hc & ->).
    unfold LinearOptimisationProblem.initialise_problem. simpl. rewrite Ho, Hb. simpl.
    unfold LinearOptimisationProblem.add_budget in *. destruct (LinearOptimisationProblem.resource_keys self); [done|].
    case_decide as Hin; [done|]. injection Hc as <-.
    rewrite decide_True; [by eauto|].
    rewrite fmap_app. apply elem_of_app. right. simpl. by left.
Qed.

(** X21: after __init__ and initialise_problem the problem holds the objective:
    the intercept plus one term coefficient * variable for every resource
    key whose coefficient is not 0, in the order of the keys (pulp drops a
    term whose number is 0).  When there is a resource key it holds one
    constraint, named Budget_Constraint: the terms cost * variable of the
    keys whose cost is not 0, in their order, bounded by max_cost; with no
    resource key it holds none. *)
Theorem initialise_problem_builds_objective_and_budget rd ic co lo up cd mc self self' :
  LinearOptimisationProblem.init rd ic co lo up cd mc = Ok self ->
  LinearOptimisationProblem.initialise_problem self = Ok self' ->
  exists obj bud,
    LinearOptimisationProblem.objective self' = Some (ic, obj) /\
    LinearOptimisationProblem.constraints self'
      = match rd with [] => [] | _ => [("Budget_Constraint", (bud, mc))] end /\
    snd <$> obj `sublist_of` fst <$> rd /\ snd <$> bud `sublist_of` fst <$> rd /\
    (forall c key, (c, key) ∈ obj <->
       key ∈ fst <$> rd /\ co !! key = Some c /\ Qeq_bool c 0 = false) /\
    (forall c key, (c, key) ∈ bud <->
       key ∈ fst <$> rd /\ cd !! key = Some c /\ c <> 0) /\
    LinearOptimisationProblem.resource_variables self' = LinearOptimisationProblem.resource_variables self /\
    LinearOptimisationProblem.optimal_resources self' = None.
Proof.
  intros Hinit H. destruct (init_variables _ _ _ _ _ _ _ _ Hinit) as (Hs & _).
  apply initialise_problem_Ok in H as (obj & bud & cs & Ho & Hb & Hc & ->).
  rewrite Hs in Ho, Hb, Hc. simpl in Ho, Hb, Hc. rewrite Hs. simpl.
  exists obj, bud.
  destruct (linear_terms_ok (fun c => Qeq_bool c 0) co (fst <$> rd))
    as (obj' & Ho' & Hso & Hio); [intros k Hk; by eapply linear_terms_ok_inv|].
  destruct (linear_terms_ok (fun c => c =? 0) cd (fst <$> rd))
    as (bud' & Hb' & Hsb & Hib); [intros k Hk; by eapply linear_terms_ok_inv|].
  assert (obj' = obj) as -> by congruence. assert (bud' = bud) as -> by congruence.
  split; [done|]. split.
  - unfold LinearOptimisationProblem.add_budget in Hc. destruct rd as [|kv rd]; simpl in Hc.
    + destruct (0 <=? mc); [|done]. by injection Hc as <-.
    + by injection Hc as <-.
  - split; [done|]. split; [done|]. split; [done|]. split; [|done].
    intros c key. rewrite Hib. by rewrite Z.eqb_neq.
Qed.

(** ** The optimiser: reading the solution *)

Lemma read_values_raise vals : forall keys e,
  LinearOptimisationProblem.read_values keys vals = Raise e ->
  (exists msg, e = TypeError msg) /\ exists key, key ∈ keys /\ vals !! key = None.
Proof.
  induction keys as [|key keys IH]; simpl; intros e H; [done|].
  destruct (vals !! key) as [q|] eqn:Hq.
  - destruct (LinearOptimisationProblem.read_values keys vals) as [al|e'] eqn:Hal; [done|].
    simpl in H. injection H as <-. destruct (IH e' eq_refl) as (Hmsg & k & ? & ?).
    split; [done|]. exists k. split; [by right|done].
  - injection H as <-. split; [by eexists|]. exists key. split; [by left|done].
Qed.

(** X22: solve() stores a value for every resource key, in the order of the keys,
    each the solver's value truncated by int(); when the solver left a
    variable without a value, int(None) raises TypeError and nothing is
    stored. *)
Theorem solve_stores_a_value_per_key self out :
  ((forall key, key ∈ LinearOptimisationProblem.resource_keys self -> is_Some (LinearOptimisationProblem.var_values out !! key)) ->
   exists alloc,
     LinearOptimisationProblem.solve self out
       = Ok (LinearOptimisationProblem.Mk (LinearOptimisationProblem.resource_dict self) (LinearOptimisationProblem.resource_keys self) (LinearOptimisationProblem.intercept self)
               (LinearOptimisationProblem.coefficients self) (LinearOptimisationProblem.cost_dict self) (LinearOptimisationProblem.max_cost self)
               (LinearOptimisationProblem.resource_variables self) (LinearOptimisationProblem.objective self) (LinearOptimisationProblem.constraints self)
               (Some alloc)) /\
     fst <$> alloc = LinearOptimisationProblem.resource_keys self /\
     forall key z, (key, z) ∈ alloc ->
       exists q, LinearOptimisationProblem.var_values out !! key = Some q /\ z = LinearOptimisationProblem.py_int q) /\
  ((exists key, key ∈ LinearOptimisationProblem.resource_keys self /\ LinearOptimisationProblem.var_values out !! key = None) ->
   exists msg, LinearOptimisationProblem.solve self out = Raise (TypeError msg)).
Proof.
  unfold LinearOptimisationProblem.solve. split.
  - intros H. destruct (read_values_ok _ _ H) as (alloc & -> & Hk & Hal). simpl.
    by exists alloc.
  - intros (key & Hin & Hnone).
    destruct (LinearOptimisationProblem.read_values (LinearOptimisationProblem.resource_keys self) (LinearOptimisationProblem.var_values out)) as [al|e] eqn:Hr.
    + exfalso. revert al Hr. induction (LinearOptimisationProblem.resource_keys self) as [|k ks IH]; intros al Hr;
        [by apply elem_of_nil in Hin|].
      simpl in Hr. apply elem_of_cons in Hin as [->|Hin]; [by rewrite Hnone in Hr|].
      destruct (LinearOptimisationProblem.var_values out !! k); [|done].
      destruct (LinearOptimisationProblem.read_values ks (LinearOptimisationProblem.var_values out)) eqn:Hks; [|done]. by eapply IH.
    + simpl. destruct (read_values_raise _ _ _ Hr) as ([msg ->] & _). by exists msg.
Qed.

(** X23: when the solver's value of every variable lies within the variable's
    bounds, whether it is an integer or not, the allocation that solve()
    stores lies within the bounds too. *)
Theorem solve_keeps_the_bounds rd ic co lo up cd mc self out :
  LinearOptimisationProblem.init rd ic co lo up cd mc = Ok self ->
  (forall key var, (key, var) ∈ LinearOptimisationProblem.resource_variables self ->
     exists q, LinearOptimisationProblem.var_values out !! key = Some q /\
       (inject_Z (LinearOptimisationProblem.lowBound var) <= q)%Q /\ (q <= inject_Z (LinearOptimisationProblem.upBound var))%Q) ->
  exists self' alloc,
    LinearOptimisationProblem.solve self out = Ok self' /\ LinearOptimisationProblem.optimal_resources self' = Some alloc /\
    LinearOptimisationProblem.within_bounds self' alloc.
Proof.
  intros Hinit Hv.
  destruct (init_variables _ _ _ _ _ _ _ _ Hinit) as (Hs & Hk & _).
  assert (Hkeys : LinearOptimisationProblem.resource_keys self = fst <$> rd) by (by rewrite Hs).
  rewrite <- Hkeys in Hk.
  assert (Hall : forall key, key ∈ LinearOptimisationProblem.resource_keys self ->
                   is_Some (LinearOptimisationProblem.var_values out !! key)).
  { intros key Hin. rewrite <- Hk in Hin.
    apply list_elem_of_fmap in Hin as ([k var] & -> & Hin).
    destruct (Hv k var Hin) as (q & Hq & _). simpl. by rewrite Hq. }
  unfold LinearOptimisationProblem.solve. destruct (read_values_ok _ _ Hall) as (alloc & Hr & _).
  rewrite Hr. simpl. eexists _, alloc. split; [done|]. split; [done|].
  unfold LinearOptimisationProblem.within_bounds. simpl. apply Forall_forall. intros [key var] Hin. simpl.
  destruct (Hv key var Hin) as (q & Hq & Hl & Hu).
  exists (LinearOptimisationProblem.py_int q). split; [|by apply py_int_bounds].
  eapply value_of_read; [exact Hr| |exact Hq].
  rewrite <- Hk. apply list_elem_of_fmap. by exists (key, var).
Qed.

(** X24: when the costs and the solver's values are not negative and the
    solver's point is within the budget, the truncated allocation that
    solve() stores is within the budget too. *)
Theorem solve_keeps_the_budget self out :
  (forall key, key ∈ LinearOptimisationProblem.resource_keys self ->
     0 <= default 0 (LinearOptimisationProblem.cost_dict self !! key) /\
     exists q, LinearOptimisationProblem.var_values out !! key = Some q /\ (0 <= q)%Q) ->
  (solver_cost (LinearOptimisationProblem.cost_dict self) (LinearOptimisationProblem.var_values out) (LinearOptimisationProblem.resource_keys self)
   <= inject_Z (LinearOptimisationProblem.max_cost self))%Q ->
  exists self' alloc,
    LinearOptimisationProblem.solve self out = Ok self' /\ LinearOptimisationProblem.optimal_resources self' = Some alloc /\
    LinearOptimisationProblem.within_budget self' alloc.
Proof.
  intros Hall Hbudget.
  assert (Hsome : forall key, key ∈ LinearOptimisationProblem.resource_keys self ->
                    is_Some (LinearOptimisationProblem.var_values out !! key)).
  { intros key Hin. destruct (Hall key Hin) as (_ & q & -> & _). done. }
  unfold LinearOptimisationProblem.solve. destruct (read_values_ok _ _ Hsome) as (alloc & Hr & _).
  rewrite Hr. simpl. eexists _, alloc. split; [done|]. split; [done|].
  unfold LinearOptimisationProblem.within_budget. simpl. rewrite Zle_Qle.
  eapply Qle_trans; [|exact Hbudget].
  apply (read_values_cost _ _ _ _ Hr).
  intros key q Hin Hq. right. destruct (Hall key Hin) as (Hc & q' & Hq' & Hpos).
  split; [done|]. congruence.
Qed.

(** * The properties on small inputs *)

(** The first conjunct of the goal holds by computation; it is kept as [H]. *)
Ltac computed H :=
  match goal with
  | |- ?A /\ _ => assert (H : A) by (vm_compute; reflexivity); split; [exact H|]
  end.

Lemma clock_is_monotone_witness :
  let w1 := world_after rng_c 10 sim_c in
  let w2 := world_after rng_c 20 sim_c in
  (10 <= 20)%nat /\ begin rng_c 10 sim_c = Ok w1 /\ begin rng_c 20 sim_c = Ok w2 /\
  now (env w1) <= now (env w2).
Proof.
  intros w1 w2.
  assert (Hle : (10 <= 20)%nat) by lia.
  assert (H1 : begin rng_c 10 sim_c = Ok w1) by (vm_compute; reflexivity).
  assert (H2 : begin rng_c 20 sim_c = Ok w2) by (vm_compute; reflexivity).
  split; [exact Hle|]. split; [exact H1|]. split; [exact H2|].
  exact (clock_is_monotone rng_c sim_c 10 20 w1 w2 Hle H1 H2).
Defined.

Lemma events_dispatched_in_time_order_witness :
  let w := world_after rng_c 14 sim_c in
  reachable rng_c sim_c w /\
  StronglySorted (fun later earlier => q_time earlier <= q_time later) (trace w) /\
  forall it, it ∈ trace w -> q_time it <= now (env w).
Proof.
  intros w.
  assert (Hw : reachable rng_c sim_c w).
  { apply reachable_world_after. vm_compute. reflexivity. }
  split; [exact Hw|]. exact (events_dispatched_in_time_order rng_c sim_c w Hw).
Defined.

Lemma run_stops_at_the_horizon_witness :
  let w := world_after rng_a 28 sim_a in
  reachable rng_a sim_a w /\ run_status w = Finished /\
  now (env w) = simulation_time sim_a.
Proof.
  intros w.
  assert (Hw : reachable rng_a sim_a w).
  { apply reachable_world_after. vm_compute. reflexivity. }
  assert (Hf : run_status w = Finished) by (vm_compute; reflexivity).
  split; [exact Hw|]. split; [exact Hf|].
  exact (proj1 (proj2 (proj2 (run_stops_at_the_horizon rng_a sim_a w Hw)) Hf)).
Defined.

Lemma recorded_waits_are_inf_or_not_negative_witness :
  let w := world_after rng_c 41 sim_c in
  exists hp, reachable rng_c sim_c w /\ stages w !! 1%nat = Some hp /\
    resource_wait_times hp !! "R" = Some (PyNum 45) /\
    "R" ∈ resource_names hp /\
    (PyNum 45 = PyInf \/ exists z, PyNum 45 = PyNum z /\ 0 <= z).
Proof.
  intros w.
  assert (Hw : reachable rng_c sim_c w).
  { apply reachable_world_after. vm_compute. reflexivity. }
  eexists. split; [exact Hw|]. computed Hh. computed Hv.
  exact (recorded_waits_are_inf_or_not_negative rng_c sim_c w 1 _ "R" (PyNum 45) Hw Hh Hv).
Defined.

Lemma service_time_is_a_draw_from_the_range_witness :
  let w := world_after rng_b 40 sim_b in
  exists hp, reachable rng_b sim_b w /\ stages w !! 0%nat = Some hp /\
    service_time hp = Some 40000 /\
    exists n, (n < np_calls w)%nat /\ 40000 = uniform rng_b n (time_min hp) (time_max hp).
Proof.
  intros w.
  assert (Hw : reachable rng_b sim_b w).
  { apply reachable_world_after. vm_compute. reflexivity. }
  eexists. split; [exact Hw|]. computed Hh. computed Hv.
  exact (service_time_is_a_draw_from_the_range rng_b sim_b w 0 _ 40000 Hw Hh Hv).
Defined.

Lemma begin_fails_at_once_iff_witness :
  let self := MkSim {[ "R" := 1 ]} 0 [MkProcess "S" ["R"] (5, 5)] [] [] ∅ 0 in
  simulation_time self <= 0 /\
  exists msg, forall g fuel, begin g fuel self = Raise (ValueError msg).
Proof.
  intros self.
  assert (Hu : simulation_time self <= 0) by (simpl; lia).
  split; [exact Hu|].
  exact (proj1 (proj1 (begin_fails_at_once_iff self)) (or_intror Hu)).
Defined.

Lemma begin_raises_only_witness :
  begin rng_c 4 sim_x = Raise (KeyError "X") /\
  ((exists msg, KeyError "X" = ValueError msg /\
      (has_nonpositive_capacity (resource_dict sim_x) \/ simulation_time sim_x <= 0 \/
       negative_draw rng_c sim_x)) \/
   (exists res, KeyError "X" = KeyError res /\ absent_resource sim_x res)).
Proof.
  assert (H : begin rng_c 4 sim_x = Raise (KeyError "X")) by (vm_compute; reflexivity).
  split; [exact H|]. exact (begin_raises_only rng_c sim_x 4 (KeyError "X") H).
Defined.

Lemma valid_configuration_never_raises_witness :
  exists w, begin rng_c 41 main_sim = Ok w.
Proof.
  apply (valid_configuration_never_raises rng_c main_sim 41).
  - apply (bool_decide_unpack _). vm_compute. reflexivity.
  - vm_compute. reflexivity.
  - assert (H : Forall (fun pr => Forall (fun res =>
                  is_Some (resource_dict main_sim !! res)) (p_resources pr))
                  (process_list main_sim)).
    { apply (bool_decide_unpack _). vm_compute. reflexivity. }
    intros pr res Hpr Hres. rewrite Forall_forall in H. specialize (H pr Hpr).
    rewrite Forall_forall in H. by apply H.
  - assert (H : Forall (fun pr => 0 <= fst (p_time_range pr) <= snd (p_time_range pr))
                  (process_list main_sim)).
    { apply (bool_decide_unpack _). vm_compute. reflexivity. }
    intros pr Hpr. rewrite Forall_forall in H. by apply H.
  - intros [|[|[|n]]]; simpl; lia.
  - intros n lo hi Hle. simpl. lia.
Defined.

Lemma absent_resource_raises_KeyError_witness :
  exists res', begin rng_c 4 sim_x = Raise (KeyError res') /\
    res' ∈ ["X"] /\ resource_dict sim_x !! res' = None.
Proof.
  apply (absent_resource_raises_KeyError rng_c sim_x (MkProcess "S" ["X"] (5, 5)) [] "X" 4).
  - apply map_Forall_singleton. lia.
  - reflexivity.
  - simpl. by left.
  - vm_compute. reflexivity.
  - simpl. lia.
  - simpl. lia.
  - lia.
Defined.

Lemma pools_are_as_configured_witness :
  let w := world_after rng_a 14 sim_a in
  reachable rng_a sim_a w /\
  capacity <$> (resources w !! "R") = resource_dict sim_a !! "R".
Proof.
  intros w.
  assert (Hw : reachable rng_a sim_a w).
  { apply reachable_world_after. vm_compute. reflexivity. }
  split; [exact Hw|]. exact (pools_are_as_configured rng_a sim_a w "R" Hw).
Defined.

Lemma pools_hold_distinct_requests_witness :
  let w := world_after rng_a 14 sim_a in
  let p := MkResource 1 [0%nat] [1%nat] in
  reachable rng_a sim_a w /\ resources w !! "R" = Some p /\
  NoDup (users p ++ put_queue p) /\
  forall r, r ∈ users p ++ put_queue p ->
    exists x, races w !! r = Some x /\ res_name x = "R".
Proof.
  intros w p.
  assert (Hw : reachable rng_a sim_a w).
  { apply reachable_world_after. vm_compute. reflexivity. }
  assert (Hp : resources w !! "R" = Some p) by (vm_compute; reflexivity).
  split; [exact Hw|]. split; [exact Hp|].
  exact (pools_hold_distinct_requests rng_a sim_a w "R" p Hw Hp).
Defined.

Lemma patients_are_numbered_witness :
  let w := world_after rng_a 28 sim_a in
  reachable rng_a sim_a w /\
  patient_id w = length (patients w) /\
  forall p pid l, patients w !! p = Some (pid, l) -> pid = "Patient " +:+ pretty p.
Proof.
  intros w.
  assert (Hw : reachable rng_a sim_a w).
  { apply reachable_world_after. vm_compute. reflexivity. }
  split; [exact Hw|]. exact (patients_are_numbered rng_a sim_a w Hw).
Defined.

Lemma patient_runs_the_process_list_in_order_witness :
  let w := world_after rng_a 28 sim_a in
  reachable rng_a sim_a w /\ patients w !! 1%nat = Some ("Patient 1", []) /\
  exists prs, process_list sim_a = prs ++ [] /\
    Forall2 (fun pr hp =>
               task_name hp = "Patient Patient " +:+ pretty 1%nat +:+ " - " +:+ p_name pr /\
               resource_names hp = p_resources pr /\
               (time_min hp, time_max hp) = p_time_range pr)
            prs (stages_of_patient 1 w).
Proof.
  intros w.
  assert (Hw : reachable rng_a sim_a w).
  { apply reachable_world_after. vm_compute. reflexivity. }
  assert (Hp : patients w !! 1%nat = Some ("Patient 1", [])) by (vm_compute; reflexivity).
  split; [exact Hw|]. split; [exact Hp|].
  exact (proj2 (patient_runs_the_process_list_in_order rng_a sim_a w Hw)
           1%nat "Patient 1" [] Hp).
Defined.

Lemma requests_follow_the_resource_names_witness :
  let w := world_after rng_a 28 sim_a in
  exists hp, reachable rng_a sim_a w /\ stages w !! 1%nat = Some hp /\
    (request_store hp = [] \/
     length (request_store hp) = length (resource_names hp)) /\
    forall i r, request_store hp !! i = Some r ->
      exists x, races w !! r = Some x /\ owner x = 1%nat /\
        resource_names hp !! i = Some (res_name x).
Proof.
  intros w.
  assert (Hw : reachable rng_a sim_a w).
  { apply reachable_world_after. vm_compute. reflexivity. }
  eexists. split; [exact Hw|]. computed Hh.
  exact (proj1 (requests_follow_the_resource_names rng_a sim_a w Hw) 1%nat _ Hh).
Defined.

Lemma stage_end_frees_its_slots_witness :
  let w := world_after rng_a 18 sim_a in
  let w' := world_after rng_a 19 sim_a in
  let p := MkResource 1 [] [1%nat] in
  reachable rng_a sim_a w /\ step rng_a w = Ok w' /\
  resources w' !! "R" = Some p /\ 0%nat ∉ users p.
Proof.
  intros w w' p.
  assert (Hw : reachable rng_a sim_a w).
  { apply reachable_world_after. vm_compute. reflexivity. }
  assert (Hs : step rng_a w = Ok w') by (vm_compute; reflexivity).
  assert (Hp : resources w' !! "R" = Some p) by (vm_compute; reflexivity).
  eassert (Hpop : pop_min (queue (env w)) = Some (_, _)) by (vm_compute; reflexivity).
  eassert (Hh : stages w !! 0%nat = Some _) by (vm_compute; reflexivity).
  split; [exact Hw|]. split; [exact Hs|]. split; [exact Hp|].
  refine (stage_end_frees_its_slots rng_a sim_a w w' _ _ 0 _ 0 "R" p
            Hw Hpop eq_refl Hs Hh _ Hp).
  simpl. by left.
Defined.

Lemma log_is_never_written_witness :
  let rd : gmap string Z := {[ "R" := 1 ]} in
  let s := MkSim rd 0 [MkProcess "S" ["R"] (50, 50)] [] [] ((fun _ => 0) <$> rd) 100000 in
  let w := world_after rng_c 41 s in
  SimpySimulation_init rd [MkProcess "S" ["R"] (50, 50)] [] 0 100000 = Ok s /\
  reachable rng_c s w /\
  patient_log_data (sim w) = [] /\ snd (data_collation (sim w)) = [].
Proof.
  intros rd s w.
  assert (Hs : SimpySimulation_init rd [MkProcess "S" ["R"] (50, 50)] [] 0 100000 = Ok s)
    by reflexivity.
  assert (Hw : reachable rng_c s w).
  { apply reachable_world_after. vm_compute. reflexivity. }
  split; [exact Hs|]. split; [exact Hw|].
  exact (log_is_never_written rd _ _ _ _ s rng_c w Hs Hw).
Defined.

Lemma init_raises_iff_a_bound_list_is_short_witness :
  (length [1; 1; 1] < length main_resources)%nat /\
  LinearOptimisationProblem.init main_resources 0 ∅ [1; 1; 1] [3; 3; 3]
    {[ "Stretcher" := 500; "Doctor" := 1000; "Para Staff" := 400 ]} 11000
    = Raise (IndexError "list index out of range").
Proof.
  assert (H : (length [1; 1; 1] < length main_resources)%nat) by (simpl; lia).
  split; [exact H|].
  exact (proj1 (proj1 (init_raises_iff_a_bound_list_is_short main_resources 0 ∅
                         [1; 1; 1] [3; 3; 3]
                         {[ "Stretcher" := 500; "Doctor" := 1000; "Para Staff" := 400 ]}
                         11000))
           (or_introl H)).
Defined.

Lemma init_builds_one_variable_per_key_witness :
  exists self,
    LinearOptimisationProblem.init lp_staff 0 lp_staff_coefficients [1; 1] [3; 3]
      lp_staff_costs 11000 = Ok self /\
    LinearOptimisationProblem.resource_variables self
      = [("Stretcher", LinearOptimisationProblem.MkLpVariable (Some "Stretcher") 1 3);
         ("Para Staff", LinearOptimisationProblem.MkLpVariable (Some "Para_Staff") 1 3)] /\
    LinearOptimisationProblem.resource_keys self = fst <$> lp_staff /\
    fst <$> LinearOptimisationProblem.resource_variables self
      = LinearOptimisationProblem.resource_keys self /\
    (forall i key, LinearOptimisationProblem.resource_keys self !! i = Some key ->
       exists lb ub, [1; 1] !! i = Some lb /\ [3; 3] !! i = Some ub /\
         LinearOptimisationProblem.resource_variables self !! i
           = Some (key, LinearOptimisationProblem.MkLpVariable
                          (LinearOptimisationProblem.set_name key) lb ub)) /\
    (forall key var name,
       (key, var) ∈ LinearOptimisationProblem.resource_variables self ->
       LinearOptimisationProblem.lp_name var = Some name ->
       String.length name = String.length key /\
       Forall (fun a => LinearOptimisationProblem.illegal_char a = false)
              (String.list_ascii_of_string name) /\
       (Forall (fun a => LinearOptimisationProblem.illegal_char a = false)
               (String.list_ascii_of_string key) -> name = key)) /\
    LinearOptimisationProblem.objective self = None /\
    LinearOptimisationProblem.constraints self = [] /\
    LinearOptimisationProblem.optimal_resources self = None.
Proof.
  eexists.
  eassert (H : LinearOptimisationProblem.init lp_staff 0 lp_staff_coefficients [1; 1] [3; 3]
                 lp_staff_costs 11000 = Ok _) by reflexivity.
  split; [exact H|]. split; [reflexivity|].
  exact (init_builds_one_variable_per_key _ _ _ _ _ _ _ _ H).
Defined.

Lemma initialise_problem_succeeds_iff_witness :
  exists self self',
    LinearOptimisationProblem.init lp_staff 0 lp_staff_coefficients [1; 1] [3; 3]
      lp_staff_costs 11000 = Ok self /\
    (LinearOptimisationProblem.resource_keys self <> [] \/
     0 <= LinearOptimisationProblem.max_cost self) /\
    LinearOptimisationProblem.initialise_problem self = Ok self' /\
    exists msg, LinearOptimisationProblem.initialise_problem self' = Raise (PulpError msg).
Proof.
  eexists. eexists.
  eassert (H : LinearOptimisationProblem.init lp_staff 0 lp_staff_coefficients [1; 1] [3; 3]
                 lp_staff_costs 11000 = Ok _) by reflexivity.
  match type of H with
  | _ = Ok ?self =>
      assert (Hpre : LinearOptimisationProblem.resource_keys self <> [] \/
                     0 <= LinearOptimisationProblem.max_cost self)
        by (left; discriminate);
      eassert (H' : LinearOptimisationProblem.initialise_problem self = Ok _)
        by (vm_compute; reflexivity);
      assert (Hne : LinearOptimisationProblem.resource_keys self <> []) by discriminate
  end.
  split; [exact H|]. split; [exact Hpre|]. split; [exact H'|].
  exact (proj2 (proj2 (initialise_problem_succeeds_iff _ Hpre)) _ H' Hne).
Defined.

Lemma initialise_problem_builds_objective_and_budget_witness :
  exists self self',
    LinearOptimisationProblem.init lp_staff 0 lp_staff_coefficients [1; 1] [3; 3]
      lp_staff_costs 11000 = Ok self /\
    LinearOptimisationProblem.initialise_problem self = Ok self' /\
    LinearOptimisationProblem.objective self' = Some (0%Q, [(inject_Z (-4), "Para Staff")]) /\
    LinearOptimisationProblem.constraints self'
      = [("Budget_Constraint", ([(500, "Stretcher"); (400, "Para Staff")], 11000))] /\
    exists obj bud,
      LinearOptimisationProblem.objective self' = Some (0%Q, obj) /\
      LinearOptimisationProblem.constraints self'
        = match lp_staff with [] => [] | _ => [("Budget_Constraint", (bud, 11000))] end /\
      snd <$> obj `sublist_of` fst <$> lp_staff /\
      snd <$> bud `sublist_of` fst <$> lp_staff.
Proof.
  eexists. eexists.
  eassert (H : LinearOptimisationProblem.init lp_staff 0 lp_staff_coefficients [1; 1] [3; 3]
                 lp_staff_costs 11000 = Ok _) by reflexivity.
  match type of H with
  | _ = Ok ?self =>
      eassert (H' : LinearOptimisationProblem.initialise_problem self = Ok _)
        by (vm_compute; reflexivity)
  end.
  destruct (initialise_problem_builds_objective_and_budget _ _ _ _ _ _ _ _ _ H H')
    as (obj & bud & Ho & Hc & Hso & Hsb & _).
  split; [exact H|]. split; [exact H'|]. split; [reflexivity|]. split; [reflexivity|].
  exists obj, bud. split; [exact Ho|]. split; [exact Hc|]. split; [exact Hso|exact Hsb].
Defined.

Lemma solve_stores_a_value_per_key_witness :
  let self := LinearOptimisationProblem.Mk lp_resources ["Stretcher"; "Doctor"] 0
                lp_coefficients lp_costs 11000
                [("Stretcher", LinearOptimisationProblem.MkLpVariable (Some "Stretcher") 1 3);
                 ("Doctor", LinearOptimisationProblem.MkLpVariable (Some "Doctor") 1 3)]
                None [] None in
  let out := LinearOptimisationProblem.MkSolved LinearOptimisationProblem.LpStatusOptimal
               {[ "Stretcher" := inject_Z 1 ]} in
  (exists key, key ∈ LinearOptimisationProblem.resource_keys self /\
     LinearOptimisationProblem.var_values out !! key = None) /\
  exists msg, LinearOptimisationProblem.solve self out = Raise (TypeError msg).
Proof.
  intros self out.
  assert (H : exists key, key ∈ LinearOptimisationProblem.resource_keys self /\
                LinearOptimisationProblem.var_values out !! key = None).
  { exists "Doctor". split; [simpl; right; by left|]. vm_compute. reflexivity. }
  split; [exact H|].
  exact (proj2 (solve_stores_a_value_per_key self out) H).
Defined.

Lemma solve_keeps_the_bounds_witness :
  let out := LinearOptimisationProblem.MkSolved LinearOptimisationProblem.LpStatusOptimal
               {[ "Stretcher" := (5 # 2)%Q; "Doctor" := (3 # 2)%Q ]} in
  exists self self' alloc,
    LinearOptimisationProblem.init lp_resources 0 lp_coefficients [1; 1] [3; 3]
      lp_costs 11000 = Ok self /\
    LinearOptimisationProblem.solve self out = Ok self' /\
    LinearOptimisationProblem.optimal_resources self' = Some alloc /\
    LinearOptimisationProblem.within_bounds self' alloc.
Proof.
  intros out. eexists.
  eassert (H : LinearOptimisationProblem.init lp_resources 0 lp_coefficients [1; 1] [3; 3]
                 lp_costs 11000 = Ok _) by reflexivity.
  destruct (solve_keeps_the_bounds _ _ _ _ _ _ _ _ out H) as (self' & alloc & Hs & Ho & Hb).
  { intros key var Hin. simpl in Hin.
    apply elem_of_cons in Hin as [[= -> ->]|Hin].
    - exists (5 # 2)%Q. split; [vm_compute; reflexivity|].
      split; unfold Qle; simpl; lia.
    - apply list_elem_of_singleton in Hin. injection Hin as -> ->.
      exists (3 # 2)%Q. split; [vm_compute; reflexivity|].
      split; unfold Qle; simpl; lia. }
  exists self', alloc. split; [exact H|]. split; [exact Hs|]. split; [exact Ho|exact Hb].
Defined.

Lemma patients_arrive_at_the_sums_of_the_draws_witness :
  let w := world_after rng_a 28 sim_a in
  exists it, reachable rng_a sim_a w /\ trace w !! 17%nat = Some it /\
    q_event it = InitPatient 1 /\ q_time it = sum_draws rng_a 2.
Proof.
  intros w.
  assert (Hw : reachable rng_a sim_a w).
  { apply reachable_world_after. vm_compute. reflexivity. }
  eexists. split; [exact Hw|]. computed Hl. computed Hev.
  exact (patients_arrive_at_the_sums_of_the_draws rng_a sim_a w _ 1 Hw
           (list_elem_of_lookup_2 _ _ _ Hl) Hev).
Defined.

Lemma solve_keeps_the_budget_witness :
  let self := LinearOptimisationProblem.Mk lp_resources ["Stretcher"; "Doctor"] 0
                lp_coefficients lp_costs 11000
                [("Stretcher", LinearOptimisationProblem.MkLpVariable (Some "Stretcher") 1 3);
                 ("Doctor", LinearOptimisationProblem.MkLpVariable (Some "Doctor") 1 3)]
                None [] None in
  let out := LinearOptimisationProblem.MkSolved LinearOptimisationProblem.LpStatusOptimal
               {[ "Stretcher" := (5 # 2)%Q; "Doctor" := (3 # 2)%Q ]} in
  (solver_cost lp_costs (LinearOptimisationProblem.var_values out) ["Stretcher"; "Doctor"]
   <= inject_Z 11000)%Q /\
  exists self' alloc,
    LinearOptimisationProblem.solve self out = Ok self' /\
    LinearOptimisationProblem.optimal_resources self' = Some alloc /\
    LinearOptimisationProblem.within_budget self' alloc.
Proof.
  intros self out.
  assert (Hb : (solver_cost lp_costs (LinearOptimisationProblem.var_values out)
                  ["Stretcher"; "Doctor"] <= inject_Z 11000)%Q).
  { unfold Qle. vm_compute. discriminate. }
  split; [exact Hb|].
  apply (solve_keeps_the_budget self out); [|exact Hb].
  intros key Hin. simpl in Hin.
  apply elem_of_cons in Hin as [->|Hin].
  - split; [vm_compute; discriminate|]. exists (5 # 2)%Q.
    split; [vm_compute; reflexivity|]. unfold Qle. simpl. lia.
  - apply list_elem_of_singleton in Hin as ->.
    split; [vm_compute; discriminate|]. exists (3 # 2)%Q.
    split; [vm_compute; reflexivity|]. unfold Qle. simpl. lia.
Defined.

Lemma service_starts_after_every_request_is_resolved_witness :
  let w := world_after rng_c 60 main_sim in
  exists hp, reachable rng_c main_sim w /\ stages w !! 3%nat = Some hp /\
    is_Some (service_time hp) /\
    length (request_store hp) = length (resource_names hp) /\
    (forall r, r ∈ request_store hp ->
       dispatched w (MonitorDone r) /\
       exists x, races w !! r = Some x /\ owner x = 3%nat /\ is_Some (outcome x)) /\
    (forall res, res ∈ resource_names hp -> is_Some (resource_wait_times hp !! res)).
Proof.
  intros w.
  assert (Hw : reachable rng_c main_sim w).
  { apply reachable_world_after. vm_compute. reflexivity. }
  eexists. split; [exact Hw|]. computed Hh.
  match goal with
  | |- ?A /\ _ => assert (Hv : A) by (vm_compute; by eexists); split; [exact Hv|]
  end.
  exact (service_starts_after_every_request_is_resolved rng_c main_sim w 3 _ Hw Hh Hv).
Defined.
